(* ===== verification/_CoqProject ===== *)
-Q . S2P
Prelude.v
Json.v
Contracts.v
Collector.v
Version.v
Registry.v
References.v
Acyclic.v
TypeCheck.v
Effects.v
Worklist.v
Fallbacks.v
Summary.v
Analyze.v
Fixtures.v
Guarantees.v
Reorder.v
Stages.v
Provider.v
Conformance.v
Numbers.v
Limits.v
Parse.v
Schema.v
Normalize.v
Hash.v
Validator.v
Details.v
Events.v
Journal.v
JournalChain.v
JournalState.v
JournalFixtures.v
Projection.v
Redaction.v
Export.v
Bundle.v
ExportFixtures.v
TrustedTime.v
TimeState.v
Deadline.v
DeadlineState.v
TimeFixtures.v
ContractCheck.v
ContractHash.v
ContractIdentity.v
Loader.v
RegistryIdentity.v
RegistryFixtures.v
