(* ===== verification/Prelude.v ===== *)
(** * AIOS semantic compute fabric: a Rocq model

    This library models the part of the AI-native OS that decides what may run: the
    validator of AIOS IR programs (crate [aios-ir]), the contracts it exchanges (crate
    [aios-contracts]) and the registry logic it relies on (crate [aios-registry]); the
    part that records what has run: the provenance ledger (crate [aios-provenance]); and
    the clock that expiry is decided on: trusted time and the deadlines of grants (crate
    [aios-task-manager]).

    ** The program

    A task program arrives as untrusted JSON bytes.  The validator
    ([crates/aios-ir/src/validator.rs]) checks the size and nesting of the document,
    parses it strictly ([parse.rs]), applies structural ceilings ([limits.rs]), a few
    domain prechecks and the embedded JSON schema ([schema.rs]), decodes it and runs the
    semantic analysis ([semantics.rs]): references, acyclicity, types and capabilities
    against a registry snapshot, effects and authority, egress and fallbacks.  An
    accepted program is projected to its semantic view ([normalize.rs]) and hashed
    ([hash.rs]); the report carries the hash and an effect summary that the rest of the
    system trusts.  Diagnostics go through a bounded collector ([diagnostics.rs]).
    Providers are checked against the same registry, statically
    ([crates/aios-registry/src/conformance.rs]).  The registry is built from a snapshot and
    the contracts it names ([loader.rs], [hash.rs]).

    Every step of a Task is appended to its provenance stream
    ([crates/aios-provenance/src/lib.rs]): an event is checked against a typed contract,
    linked by its hash to the record before it, and stored in a journal table.  A stream
    can be paged, verified in place or detached from the database, and exported as a
    privacy-redacted projection that a third party verifies offline.

    Expiry is decided on protected time
    ([crates/aios-task-manager/src/trusted_time.rs]): every clock sample is recorded, the
    effective time never falls, and a rollback or an unavailable clock makes time
    uncertain for good.  An effect outside the database is fenced by a marker between two
    samples.  An issued grant has a deadline on the monotonic and on the wall clock
    ([authority_deadline.rs]), tied to the clock session of the manager's lease; a
    witnessed expiry is latched.

    ** Files

    - [Prelude]: ordered keys and key-ordered iteration of maps and sets, stable
      sorting, UTF-8 strings as byte strings, decimal numerals, results, tactics.
    - [Json]: [serde_json] values and the accessors the sources use.
    - [Contracts]: the data types and reason-code catalogs of [aios-contracts]
      ([ir.rs], [registry.rs], [output.rs], [diagnostics.rs]); [Provider]: [provider.rs].
    - [Collector]: the diagnostic collector, and the monad of the analysis passes (the
      collector is threaded, a panic is [None]) with the logic [checks] and [reports]
      for what a pass accepts and which diagnostics it pushes.
    - [Version], [Registry]: semantic references and versions, the loaded registry; the
      class [ContractRegistry] is what validation asks of a registry, and the analysis
      is proved against it.
    - [References], [Acyclic], [TypeCheck], [Effects], [Worklist], [Fallbacks],
      [Summary]: the passes of [semantics.rs], each with its specification and the
      theorem that it checks exactly that; [Analyze]: their composition [analyze].
    - [Fixtures]: the registry and example programs of the repository as data.
    - [Guarantees], [Reorder], [Stages]: what acceptance means, order independence, and
      exactness of single passes.
    - [Conformance]: provider conformance.
    - [Numbers]: the lexical treatment of numbers
      ([crates/aios-registry/src/numbers.rs]).
    - [Limits], [Parse], [Schema], [Normalize], [Hash]: the other stages of the
      validator; [Validator]: the whole pipeline.
    - [Details]: the typed vocabulary of event details, with the type language it decides;
      [Events]: shape bounds, the event contract, revisions and record hashes.
    - [Journal]: the journal table, appending, paging and the verifiers;
      [JournalChain]: what the verifiers accept; [JournalState]: reachable journals and
      their invariant; [JournalFixtures]: a concrete journal.
    - [Projection]: projection, export and offline verification; [Redaction]: what a
      projection reveals; [Export]: paging through a stream; [Bundle]: exported bundles
      verify; [ExportFixtures]: a concrete export.
    - [TrustedTime]: the tables of time and of effects in flight, assessments, protected
      transactions and markers; [TimeState]: the abstract history, the step relation of
      the transactions and what is reachable.
    - [Deadline]: clock sessions, derivation, issuance, check and latch of deadlines;
      [DeadlineState]: the statements on their tables as steps, and the life of a grant;
      [TimeFixtures]: a concrete clock, database and grant.
    - [ContractCheck]: the admission checks of contracts and snapshots; [ContractHash]:
      serialized records, semantic views and identities ([hash.rs]); [Loader]: the
      building of a registry; [ContractIdentity], [RegistryIdentity]: what hashes and
      built registries guarantee; [RegistryFixtures]: the repository's example registry,
      built with an executable SHA-256 to the hashes that are recorded.

    ** Correspondence

    A Rust function is a definition of the same name; loops are folds or recursive
    functions over their list, [&mut] state is passed explicitly, [BTreeMap] and
    [BTreeSet] are [gmap] and [gset] iterated in key order, [Option] and [Result] are
    [option] and [result], and an operation that can panic ([expect], slicing, a
    subtraction) returns [None].  Integers keep their width where it matters: [i64] and
    [u64] arithmetic of the number lexer saturates or is checked as in the source, and
    counters that are only compared are unbounded.  A string is the byte string of its
    UTF-8 encoding.

    Code outside the repository is a parameter: the [serde_json] tokenizer (the calls it
    makes on the visitor, errors included), the [jsonschema] validator (the failure tree
    of a document), derived (de)serialization of programs, the JCS serializer, SHA-256
    and time formatting; [Validator.Externals] gathers them.  One assumption is made
    about them ([Validator.schema_failures_wf]): a rejected union of the schema lists a
    failure for each of its alternatives.  For the ledger the class
    [Details.ProvenanceLib] gathers them, and [JournalState.ProvenanceLaws] states what
    is used of them: a SHA-256 digest has 32 bytes, and [serde_json] reads back the
    float-free values it writes; [JournalChain.jcs_injective] (different values have
    different canonical forms) and [Bundle.states_known] (the event schema enumerates the
    Task states) are hypotheses of the theorems that need them.  SHA-256 is not assumed
    injective: the theorems exhibit the collision instead.  The journal table is the list
    of its rows with the constraints of [specs/persistence-v0.1.sql]; a transaction is a
    function from the table to the table, and an error leaves the table as it was.

    For time the class [TrustedTime.TimeLib] holds the parsing and formatting of RFC 3339
    texts by the [time] crate; that formatted texts parse back is a hypothesis of
    [DeadlineState.issued_grant_valid] only.  A clock is the list of the samples it will
    give, in any order of values.  The database of [TrustedTime.Db] holds the tables of
    time and markers, the lease and the Tasks, and a type of other tables; each SQL
    statement is a function with the [CHECK]s, keys and triggers of
    [specs/persistence-v0.1-0018], [-0019] and [-0021], a [NULL] is [None], and a trigger
    that aborts is an error.  The step relations interleave whole transactions, of any
    process, with arbitrary changes of the tables that the triggers do not protect.

    For the registry the class [ContractCheck.RegistryLib] holds the compiled schemas, the
    JCS serializer, SHA-256 and the RFC 3339 parser.  RFC 8785 writes [-0] as [0] and an
    integral float as an integer, so [ContractIdentity.registry_jcs_injective] is stated
    for values whose numbers are floats other than [-0].

    Fuel.  The work-list loops of fallbacks and unused nodes run on a fuel that bounds
    the number of insertions; Kahn's loop runs on the number of nodes; the metadata
    scanner on two units per byte; schema failures on their nesting depth; the stack
    loops over JSON values on the number of their nodes; the export loop on the number of
    rows of the stream.  Running out of fuel is a value of its own in the model ([None]),
    so the theorems that the operations return show that the fuel suffices.

    ** Theorems

    - Pipeline ([Validator]): a report is produced for every input, and it is valid
      exactly for accepted documents; a valid report identifies its program; an invalid
      one carries no identity and explains itself; unverified registries are refused;
      the output is bounded.
    - Analysis ([Analyze], [Guarantees], [Reorder], [Stages], [Fallbacks]): [analyze]
      decides the specification [program_ok]; accepted programs have an execution order
      in which every input is available at its type, keep their effects within contract
      and authority, move no data out under deny egress (by the contract of the node
      and of every fallback), and have fallbacks that never broaden and never cycle; the
      order of nodes is irrelevant; the summary and the warnings are exact.  The
      warnings differ from docs/68 and docs/70: [Stages.idle_verifier_not_warned] is an
      unused [verify] node that the docs warn about and the code does not.
    - Documents ([Parse], [Limits], [Schema], [Numbers]): strict parsing accepts exactly
      complete documents without repeated names, and the first repeated name is
      reported, at any depth (cut where it reads as a position,
      [Parse.duplicate_key_cut]); depth, of any text, and ceilings are exact and
      inclusive; only rejected number tokens are rewritten; schema failures are never
      lost and do not depend on the order of alternatives.
    - Identity ([Normalize], [Hash]): the semantic view forgets authoring details
      (identifiers, prose, metadata, the order of the semantic sets) and nothing changes
      under a second normalization; unsafe integers are refused.
    - Registry ([Version], [Registry], [Conformance]): canonical references and
      versions, exact resolution, exact provider conformance with effects and authority
      that determine each other.
    - Registries ([RegistryIdentity], [Loader]): a built registry is closed under its
      references and holds valid contracts under their own identities; its snapshot
      identity binds its contracts up to prose and order; the order of the supplied
      contracts is irrelevant.
    - Ledger ([Details], [Events], [JournalChain], [JournalState]): the details of an
      accepted event are well typed; the shape bounds are exact; every reachable journal
      holds chains, which verify in whole and in every prefix; a verified head determines
      its chain; stale writers are excluded.
    - Projection ([Redaction], [Export], [Bundle]): a projection keeps only public words,
      timestamps and keyed digests; the export visits every record once and its bundle
      verifies; a Task created under a privacy constraint cannot be exported
      ([Redaction.constrained_creation_unexportable]).
    - Time ([TimeState]): a reachable database is the recorded history of its samples, in
      which trust is exactly steadiness; time never goes back; at most one effect is in
      flight; protected transactions are atomic and record their sample.
    - Deadlines ([DeadlineState]): a grant that passes its check is within its lifetime
      on both clocks; one seen expired never passes again; its expiry is latched and
      stays authenticated; a fresh grant passes.

    ** Not modelled

    Opening and reading the files of a registry bundle ([load_registry_bundle] and the raw
    record decoder of [schema.rs]), the strict reader of [strict_json.rs], the SQLite
    stores of the registry, and the command-line tool.  Of the task manager the life of
    Tasks, the policies and approvals of authority, and the Artifact store, whose logic is
    in statements over many tables: only their clock sessions and the statement that
    issues a grant with its deadline are modelled, where the constraints that refer to
    other tables are the argument [admitted] of [Deadline.issue_grant].  Of
    [trusted_time.rs] the comparison of the stored schema texts with those of the
    migrations is left out. *)

From Stdlib Require Export Ascii.
From stdpp Require Export prelude gmap strings sorting pretty relations list fin_maps.

#[export] Set Default Proof Using "Type".

(** ** Scopes, notations and hint databases *)

Declare Scope aios_scope.
Delimit Scope aios_scope with aios.

(** String concatenation in the model of Rust's [format!]. *)
Notation "a +++ b" := (String.append a b)
  (at level 60, right associativity) : aios_scope.

#[global] Open Scope aios_scope.

Create HintDb aios.
#[export] Hint Constants Opaque : aios.
Create Rewrite HintDb aios.

(** ** Tactics of the development *)

(** Destruct every existential and conjunction of the context. *)
Ltac deex :=
  repeat match goal with
  | H : ∃ _, _ |- _ => let x := fresh "x" in destruct H as [x H]
  | H : _ ∧ _ |- _ => let H' := fresh H in destruct H as [H H']
  end.

(** Reflect the boolean connectives of the context into propositions. *)
Ltac breflect :=
  repeat match goal with
  | H : _ && _ = true |- _ => apply andb_true_iff in H as [? ?]
  | H : _ || _ = false |- _ => apply orb_false_iff in H as [? ?]
  | H : negb _ = true |- _ => apply negb_true_iff in H
  | H : negb _ = false |- _ => apply negb_false_iff in H
  | H : bool_decide _ = true |- _ => apply bool_decide_eq_true_1 in H
  | H : bool_decide _ = false |- _ => apply bool_decide_eq_false_1 in H
  end.

(** ** Ordered keys

    Rust's [BTreeMap] and [BTreeSet] iterate in the order of their keys.  The
    model keeps such a container as stdpp's [gmap] or [gset], whose equality is
    extensional, and recovers the iteration order by sorting its entries. *)

Class OrdKey (K : Type) := {
  key_leb : K → K → bool;
  key_leb_total : ∀ a b, key_leb a b = true ∨ key_leb b a = true;
  key_leb_trans : ∀ a b c, key_leb a b = true → key_leb b c = true → key_leb a c = true;
  key_leb_antisym : ∀ a b, key_leb a b = true → key_leb b a = true → a = b;
}.

(** Byte-wise lexicographic order: the order of Rust's [str]. *)
#[export, program] Instance string_ord_key : OrdKey string := {|
  key_leb := String.leb;
|}.
Next Obligation.
  intros a b. destruct (total String.le a b) as [H|H]; unfold String.le in H;
    [left|right]; by apply Is_true_true.
Qed.
Next Obligation.
  intros a b c Hab Hbc. apply Is_true_true. change (String.le a c).
  transitivity b; by apply Is_true_true.
Qed.
Next Obligation.
  intros a b Hab Hba. apply (anti_symm String.le); by apply Is_true_true.
Qed.

(** Keys ordered by an injective rank, as [derive(Ord)] orders a field-less
    enum by its variants. *)
Definition rank_ord_key {K} (rank : K → nat) (inj : ∀ a b, rank a = rank b → a = b) : OrdKey K.
Proof.
  refine {| key_leb a b := Nat.leb (rank a) (rank b) |}.
  - intros a b. destruct (Nat.leb_spec (rank a) (rank b)); [by left|right].
    apply Nat.leb_le. lia.
  - intros a b c. rewrite !Nat.leb_le. lia.
  - intros a b. rewrite !Nat.leb_le. intros. apply inj. lia.
Defined.

(** ** Stable sorting: Rust's [slice::sort_by] *)

Section sort.
Context {A : Type} (leb : A → A → bool).

Fixpoint insert_sorted (x : A) (l : list A) : list A :=
  match l with
  | [] => [x]
  | y :: l' => if leb x y then x :: y :: l' else y :: insert_sorted x l'
  end.

Fixpoint sort_by (l : list A) : list A :=
  match l with
  | [] => []
  | x :: l' => insert_sorted x (sort_by l')
  end.

Lemma insert_sorted_perm x l : insert_sorted x l ≡ₚ x :: l.
Proof.
  induction l as [|y l IH]; simpl; [done|].
  destruct (leb x y); [done|]. rewrite IH. constructor.
Qed.

Lemma sort_by_perm l : sort_by l ≡ₚ l.
Proof. induction l as [|x l IH]; simpl; [done|]. by rewrite insert_sorted_perm, IH. Qed.

Lemma elem_of_sort_by x l : x ∈ sort_by l ↔ x ∈ l.
Proof. by rewrite sort_by_perm. Qed.

Lemma length_sort_by l : length (sort_by l) = length l.
Proof. by rewrite sort_by_perm. Qed.

Context (total : ∀ a b, leb a b = true ∨ leb b a = true).

Lemma insert_sorted_Sorted x l :
  Sorted (λ a b, leb a b = true) l → Sorted (λ a b, leb a b = true) (insert_sorted x l).
Proof using total.
  induction 1 as [|y l Hl IH Hy]; simpl; [by repeat constructor|].
  destruct (leb x y) eqn:Hxy.
  - constructor; [by constructor|by constructor].
  - constructor; [done|].
    assert (leb y x = true) by (destruct (total x y); congruence).
    destruct l as [|z l]; simpl in *; [by constructor|].
    destruct (leb x z); constructor; [done|]. by inversion Hy.
Qed.

Lemma sort_by_Sorted l : Sorted (λ a b, leb a b = true) (sort_by l).
Proof using total. induction l; simpl; auto using insert_sorted_Sorted. Qed.

End sort.

(** A sorted list is a fixed point of sorting. *)
Lemma sort_by_id {A} (leb : A → A → bool) l :
  Sorted (λ a b, leb a b = true) l → sort_by leb l = l.
Proof.
  induction 1 as [|x l Hl IH Hx]; simpl; [done|]. rewrite IH.
  destruct Hx as [|y l Hxy]; simpl; [done|]. by rewrite Hxy.
Qed.

Lemma sort_by_idemp {A} (leb : A → A → bool) l :
  (∀ a b, leb a b = true ∨ leb b a = true) →
  sort_by leb (sort_by leb l) = sort_by leb l.
Proof. intros Ht. by apply sort_by_id, sort_by_Sorted. Qed.

(** Sorting forgets the order of its input as soon as the elements that
    compare equal are equal. *)
Lemma insert_sorted_max {A} (leb : A → A → bool) x y l :
  leb x y = true → insert_sorted leb x (l ++ [y]) = insert_sorted leb x l ++ [y].
Proof.
  intros Hxy. induction l as [|z l IH]; simpl; [by rewrite Hxy|]. destruct (leb x z); [done|]. by rewrite IH.
Qed.

Lemma sort_by_snoc_max {A} (leb : A → A → bool) l y :
  (∀ x, x ∈ l → leb x y = true) → sort_by leb (l ++ [y]) = sort_by leb l ++ [y].
Proof.
  induction l as [|x l IH]; intros Hl; simpl; [done|]. rewrite IH by (intros; apply Hl; by right).
  rewrite insert_sorted_max; [done|]. apply Hl. by left.
Qed.

Lemma sort_by_perm_eq {A} (leb : A → A → bool) l1 l2 :
  (∀ a b, leb a b = true ∨ leb b a = true) →
  (∀ a b c, leb a b = true → leb b c = true → leb a c = true) →
  (∀ a b, a ∈ l1 → b ∈ l1 → leb a b = true → leb b a = true → a = b) →
  l1 ≡ₚ l2 → sort_by leb l1 = sort_by leb l2.
Proof.
  intros Htot Htr Hanti Hp.
  assert (Transitive (λ a b, leb a b = true)) by (intros a b c; apply Htr).
  apply (Sorted_unique_strong (λ a b, leb a b = true)); eauto using sort_by_Sorted.
  - intros a b Ha Hb. rewrite elem_of_sort_by in Ha. apply elem_of_sort_by in Hb.
    apply Hanti; [done|by rewrite Hp].
  - by rewrite !sort_by_perm.
Qed.

(** ** Key-ordered iteration over maps and sets *)

Section btree.
Context {K : Type} `{Countable K} `{!OrdKey K}.

(** [BTreeSet::iter] *)
Definition btree_set_iter (s : gset K) : list K := sort_by key_leb (elements s).

(** [BTreeMap::iter] *)
Definition btree_iter {V} (m : gmap K V) : list (K * V) :=
  sort_by (λ a b, key_leb a.1 b.1) (map_to_list m).

(** [BTreeMap::values] *)
Definition btree_values {V} (m : gmap K V) : list V := (btree_iter m).*2.

(** [BTreeSet::pop_first]: the least element and the rest of the set. *)
Definition btree_pop_first (s : gset K) : option (K * gset K) :=
  match btree_set_iter s with
  | [] => None
  | x :: _ => Some (x, s ∖ {[ x ]})
  end.

Lemma elem_of_btree_set_iter x s : x ∈ btree_set_iter s ↔ x ∈ s.
Proof. unfold btree_set_iter. rewrite elem_of_sort_by. apply elem_of_elements. Qed.

Lemma NoDup_btree_set_iter s : NoDup (btree_set_iter s).
Proof. unfold btree_set_iter. rewrite sort_by_perm. apply NoDup_elements. Qed.

Lemma length_btree_set_iter s : length (btree_set_iter s) = size s.
Proof. unfold btree_set_iter. by rewrite length_sort_by. Qed.

Lemma Sorted_btree_set_iter s : Sorted (λ a b, key_leb a b = true) (btree_set_iter s).
Proof. apply sort_by_Sorted, key_leb_total. Qed.

Lemma elem_of_btree_iter {V} (m : gmap K V) k v : (k, v) ∈ btree_iter m ↔ m !! k = Some v.
Proof. unfold btree_iter. rewrite elem_of_sort_by. apply elem_of_map_to_list. Qed.

Lemma elem_of_btree_values {V} (m : gmap K V) v : v ∈ btree_values m ↔ ∃ k, m !! k = Some v.
Proof.
  unfold btree_values. rewrite list_elem_of_fmap. split.
  - intros [[k v'] [-> Hin]]. exists k. by apply elem_of_btree_iter.
  - intros [k Hk]. exists (k, v). split; [done|]. by apply elem_of_btree_iter.
Qed.

Lemma btree_pop_first_None s : btree_pop_first s = None → s = ∅.
Proof.
  unfold btree_pop_first. destruct (btree_set_iter s) as [|x l] eqn:E; [|done]. intros _.
  apply set_eq. intros x. rewrite <-elem_of_btree_set_iter, E. set_solver.
Qed.

Lemma btree_pop_first_Some s x s' :
  btree_pop_first s = Some (x, s') → x ∈ s ∧ s' = s ∖ {[ x ]}.
Proof.
  unfold btree_pop_first. destruct (btree_set_iter s) as [|y l] eqn:E; [done|].
  intros [= <- <-]. split; [|done]. rewrite <-elem_of_btree_set_iter, E. set_solver.
Qed.

End btree.

#[export] Hint Rewrite @elem_of_btree_set_iter @elem_of_btree_iter @elem_of_btree_values : aios.

(** [Iterator::enumerate] *)
Definition enumerate {A} (l : list A) : list (nat * A) := imap pair l.

Lemma elem_of_enumerate {A} (l : list A) i x : (i, x) ∈ enumerate l ↔ l !! i = Some x.
Proof.
  unfold enumerate. rewrite list_elem_of_lookup. split.
  - intros [j Hj]. rewrite list_lookup_imap in Hj.
    destruct (l !! j) eqn:E; simplify_eq/=. done.
  - intros Hi. exists i. by rewrite list_lookup_imap, Hi.
Qed.

Lemma enumerate_snd {A} (l : list A) : (enumerate l).*2 = l.
Proof.
  unfold enumerate. rewrite fmap_imap. apply list_eq. intros i.
  rewrite list_lookup_imap. by destruct (l !! i).
Qed.

(** A property of every indexed element is one of every element. *)
Lemma Forall_enumerate {A} (P : A → Prop) (l : list A) :
  (∀ ix, ix ∈ enumerate l → P ix.2) ↔ (∀ x, x ∈ l → P x).
Proof.
  split.
  - intros HP x [i Hi]%list_elem_of_lookup. apply (HP (i, x)). by apply elem_of_enumerate.
  - intros HP [i x] Hix%elem_of_enumerate. apply HP. by eapply list_elem_of_lookup_2.
Qed.

Lemma forall_elem_of_nil {A} (P : A → Prop) : (∀ y, y ∈ [] → P y) ↔ True.
Proof. split; [done|]. by intros _ y Hy%elem_of_nil. Qed.

Lemma forall_elem_of_cons {A} (P : A → Prop) x l :
  (∀ y, y ∈ x :: l → P y) ↔ P x ∧ (∀ y, y ∈ l → P y).
Proof.
  split.
  - intros H. split; [apply H; by left|]. intros y Hy. apply H. by right.
  - intros [Hx Hl] y [->|Hy]%elem_of_cons; auto.
Qed.

Lemma existsb_false {A} (f : A → bool) l : existsb f l = false ↔ ∀ x, x ∈ l → f x = false.
Proof.
  induction l as [|x l IH]; simpl; [by rewrite forall_elem_of_nil|].
  by rewrite orb_false_iff, IH, forall_elem_of_cons.
Qed.

Lemma existsb_true {A} (f : A → bool) l : existsb f l = true ↔ ∃ x, x ∈ l ∧ f x = true.
Proof. rewrite existsb_exists. split; intros (x & Hx & Hf); exists x; by rewrite ?list_elem_of_In in *. Qed.

Lemma find_elem {A} (f : A → bool) l x : find f l = Some x → x ∈ l ∧ f x = true.
Proof. intros [Hx Hf]%find_some. by rewrite list_elem_of_In. Qed.

(** A map filled by a loop that inserts under the key of each element. *)
Definition insert_keyed {A V} (key : A → string) (val : A → option V) (m : gmap string V) (x : A) :
    gmap string V :=
  match val x with Some v => <[key x := v]> m | None => m end.

Lemma foldl_insert_keyed_other {A V} (key : A → string) (val : A → option V) l m k :
  (∀ x, x ∈ l → is_Some (val x) → key x ≠ k) → foldl (insert_keyed key val) m l !! k = m !! k.
Proof.
  revert m. induction l as [|x l IH]; intros m Hne; simpl; [done|].
  rewrite IH; [|intros y Hy; apply Hne; by right]. unfold insert_keyed.
  destruct (val x) eqn:Hv; [|done]. apply lookup_insert_ne, Hne; [by left|by rewrite Hv].
Qed.

Lemma foldl_insert_keyed_lookup {A V} (key : A → string) (val : A → option V) l x :
  NoDup (key <$> l) → x ∈ l → foldl (insert_keyed key val) ∅ l !! key x = val x.
Proof.
  intros Hnd (l1 & l2 & ->)%list_elem_of_split. rewrite foldl_app. simpl.
  rewrite fmap_app, fmap_cons in Hnd. apply NoDup_app in Hnd as (_ & Hd1 & [Hx _]%NoDup_cons).
  rewrite foldl_insert_keyed_other.
  - unfold insert_keyed at 1. destruct (val x); [by rewrite lookup_insert_eq|].
    rewrite foldl_insert_keyed_other; [done|]. intros y Hy _ Heq. destruct (Hd1 (key y)).
    + by apply list_elem_of_fmap_2.
    + rewrite Heq. by left.
  - intros y Hy _ Heq. apply Hx. rewrite <-Heq. by apply list_elem_of_fmap_2.
Qed.

(** Elements with distinct images under [f] are determined by their image. *)
Lemma NoDup_fmap_elem_inj {A B} (f : A → B) l x y :
  NoDup (f <$> l) → x ∈ l → y ∈ l → f x = f y → x = y.
Proof.
  intros Hnd [i Hi]%list_elem_of_lookup [j Hj]%list_elem_of_lookup Hf.
  assert (i = j) as ->; [|congruence].
  eapply (NoDup_lookup _ _ _ (f x) Hnd); rewrite list_lookup_fmap.
  - by rewrite Hi.
  - by rewrite Hj, Hf.
Qed.

(** ** Relations *)

Lemma tc_flip {A} (R : relation A) x y : tc (flip R) x y → tc R y x.
Proof. induction 1; [by apply tc_once|]. by eapply tc_r. Qed.

Lemma tc_mono {A} (R1 R2 : relation A) x y :
  (∀ a b, R1 a b → R2 a b) → tc R1 x y → tc R2 x y.
Proof. intros Hsub. induction 1; [by apply tc_once, Hsub|]. eapply tc_l; [by apply Hsub|done]. Qed.

Lemma tc_last {A} (R : relation A) x y : tc R x y → ∃ z, rtc R x z ∧ R z y.
Proof.
  induction 1 as [x y Hxy|x y z Hxy _ [u [Hyu Huz]]]; [by exists x|].
  exists u. split; [by eapply rtc_l|done].
Qed.

(** An accessible point lies on no cycle. *)
Lemma Acc_no_cycle {A} (R : relation A) x : Acc R x → ¬ tc R x x.
Proof.
  induction 1 as [x _ IH]. intros (z & Hxz & Hzx)%tc_last.
  apply (IH z Hzx). eapply tc_rtc_r; [by apply tc_once|done].
Qed.

(** ** Strings

    A Rust [String] is the byte string of its UTF-8 encoding, so comparison,
    prefixes and concatenation are byte-wise; [chars] counts the bytes that are
    not continuation bytes (0x80..0xBF). *)

Definition char_start (c : ascii) : bool :=
  let n := Ascii.N_of_ascii c in negb ((128 <=? n)%N && (n <? 192)%N).

(** [str.chars().count()] *)
Fixpoint chars_count (s : string) : nat :=
  match s with
  | EmptyString => 0
  | String c s' => (if char_start c then 1 else 0) + chars_count s'
  end.

(** [char_indices().nth(maximum)] followed by [truncate]: keep the first
    [maximum] characters. *)
Fixpoint take_chars (maximum : nat) (s : string) : string :=
  match s with
  | EmptyString => EmptyString
  | String c s' =>
      if char_start c then
        match maximum with
        | 0 => EmptyString
        | S maximum' => String c (take_chars maximum' s')
        end
      else String c (take_chars maximum s')
  end.

(** [str::replace] of a one-byte character. *)
Fixpoint replace_char (c : ascii) (by' : string) (s : string) : string :=
  match s with
  | EmptyString => EmptyString
  | String d s' => (if bool_decide (c = d) then by' else String d EmptyString) +++ replace_char c by' s'
  end.

(** [str::strip_prefix] *)
Fixpoint strip_prefix (prefix s : string) : option string :=
  match prefix, s with
  | EmptyString, _ => Some s
  | String a p, String b s' => if bool_decide (a = b) then strip_prefix p s' else None
  | String _ _, EmptyString => None
  end.

(** [str::starts_with] *)
Definition starts_with (prefix s : string) : bool :=
  match strip_prefix prefix s with Some _ => true | None => false end.

(** [str::len], in bytes. *)
Definition byte_len (s : string) : nat := String.length s.

Lemma chars_count_take_chars n s : chars_count (take_chars n s) = n `min` chars_count s.
Proof.
  revert n. induction s as [|c s IH]; intros n; simpl; [lia|].
  destruct (char_start c) eqn:E; [destruct n as [|n]|]; simpl; rewrite ?E, ?IH; lia.
Qed.

Lemma take_chars_ge n s : chars_count s ≤ n → take_chars n s = s.
Proof.
  revert n. induction s as [|c s IH]; intros n; simpl; [done|].
  destruct (char_start c); simpl; [destruct n as [|n]; [lia|]|]; intros; f_equal; apply IH; lia.
Qed.

Lemma strip_prefix_Some p s r : strip_prefix p s = Some r ↔ s = p +++ r.
Proof.
  revert s. induction p as [|a p IH]; intros s; simpl.
  - split; [by intros [= ->]|by intros ->].
  - destruct s as [|b s]; [split; [done|discriminate]|].
    case_bool_decide as Hab; subst.
    + rewrite IH. split; [by intros ->|by intros [= ->]].
    + split; [done|]. intros [= ??]. congruence.
Qed.

Lemma append_cons c s t : String c s +++ t = String c (s +++ t).
Proof. done. Qed.

Lemma append_nil_r s : s +++ "" = s.
Proof. induction s as [|c s IH]; [done|]. by rewrite append_cons, IH. Qed.

Lemma append_assoc s t u : (s +++ t) +++ u = s +++ (t +++ u).
Proof. induction s as [|c s IH]; [done|]. by rewrite !append_cons, IH. Qed.

Lemma append_inj_l s t u : s +++ t = s +++ u → t = u.
Proof. induction s as [|c s IH]; [done|]. rewrite !append_cons. intros [= ?]. auto. Qed.

(** ** Results: Rust's [Result<T, E>] *)

Inductive result (E A : Type) :=
  | Ok (a : A)
  | Err (e : E).
Arguments Ok {_ _} _.
Arguments Err {_ _} _.

#[export] Instance result_ret {E} : MRet (result E) := λ A a, Ok a.
#[export] Instance result_bind {E} : MBind (result E) := λ A B k m,
  match m with Ok a => k a | Err e => Err e end.

Lemma result_bind_ok {E A B} (m : result E A) (f : A → result E B) b :
  m ≫= f = Ok b ↔ ∃ a, m = Ok a ∧ f a = Ok b.
Proof. destruct m; simpl; naive_solver. Qed.

Lemma result_seq_ok {E B} (m : result E unit) (k : result E B) b :
  (m ≫= λ _, k) = Ok b ↔ m = Ok () ∧ k = Ok b.
Proof. destruct m as [[]|]; simpl; naive_solver. Qed.

(** A loop that stops at the first error. *)
Fixpoint try_each {E A} (l : list A) (body : A → result E unit) : result E unit :=
  match l with
  | [] => Ok ()
  | x :: l' => body x ≫= λ _, try_each l' body
  end.

Lemma try_each_ok {E A} (l : list A) (body : A → result E unit) :
  try_each l body = Ok () ↔ ∀ x, x ∈ l → body x = Ok ().
Proof.
  induction l as [|x l IH]; simpl; [by rewrite forall_elem_of_nil|].
  by rewrite result_seq_ok, IH, forall_elem_of_cons.
Qed.

Lemma if_err_ok {E A} (c : bool) (e : E) (r : result E A) a :
  (if c then Err e else r) = Ok a ↔ c = false ∧ r = Ok a.
Proof. destruct c; naive_solver. Qed.

Lemma existsb_perm {A} (f : A → bool) l1 l2 : l1 ≡ₚ l2 → existsb f l1 = existsb f l2.
Proof.
  induction 1 as [|x l1 l2 _ IH|x y l|? ? ? _ IH1 _ IH2]; simpl; [done|by rewrite IH| |congruence].
  rewrite !orb_assoc. f_equal. apply orb_comm.
Qed.

(** [Result::ok] *)
Definition result_ok {E A} (r : result E A) : option A :=
  match r with Ok a => Some a | Err _ => None end.

(** ** Decimal numerals

    [u64::MAX], the value of a digit string, and [str::parse::<u64>] on a string
    of digits; [pretty] is the decimal rendering of [format!]. *)

Definition u64_max : N := 18446744073709551615.

Definition is_digit (c : ascii) : bool :=
  let n := Ascii.N_of_ascii c in (48 <=? n)%N && (n <=? 57)%N.

Definition digit_value (c : ascii) : N := (Ascii.N_of_ascii c - 48)%N.

Fixpoint string_forallb (p : ascii → bool) (s : string) : bool :=
  match s with
  | EmptyString => true
  | String c s' => p c && string_forallb p s'
  end.

Fixpoint decimal_value (acc : N) (s : string) : N :=
  match s with
  | EmptyString => acc
  | String c s' => decimal_value (10 * acc + digit_value c) s'
  end.

Definition parse_u64 (s : string) : option N :=
  let n := decimal_value 0 s in if (n <=? u64_max)%N then Some n else None.

(** A canonical numeral: nonempty, only digits, no leading zero. *)
Definition canonical_numeral (s : string) : bool :=
  match s with
  | EmptyString => false
  | String c s' =>
      string_forallb is_digit s && negb (bool_decide (c = "0"%char) && negb (bool_decide (s' = "")))
  end.

Lemma pretty_N_char_digit d : (d < 10)%N →
  is_digit (pretty_N_char d) = true ∧ digit_value (pretty_N_char d) = d.
Proof.
  intros Hd. assert (d ∈ [0;1;2;3;4;5;6;7;8;9]%N) as Hin.
  { destruct d as [|[[[[]|[]|]|[[]|[]|]|]|[[[]|[]|]|[[]|[]|]|]|]]; try lia; set_solver. }
  repeat (apply elem_of_cons in Hin as [->|Hin]; [done|]). by apply elem_of_nil in Hin.
Qed.

Lemma is_digit_pretty c : is_digit c = true →
  (digit_value c < 10)%N ∧ pretty_N_char (digit_value c) = c.
Proof. destruct c as [[] [] [] [] [] [] [] []]; vm_compute; intros; by split. Qed.

(** Rendering the value of a digit string that continues a nonzero prefix. *)
Lemma pretty_N_go_decimal acc s t : (0 < acc)%N → string_forallb is_digit s = true →
  pretty_N_go (decimal_value acc s) t = pretty_N_go acc (s +++ t).
Proof.
  revert acc. induction s as [|c s IH]; intros acc Hacc Hs; [done|].
  simpl in *. apply andb_true_iff in Hs as [Hc Hs].
  apply is_digit_pretty in Hc as [Hlt Hc].
  rewrite IH by (lia || done). rewrite pretty_N_go_step by lia.
  rewrite append_cons. f_equal.
  - rewrite N.mul_comm, N.div_add_l, N.div_small by lia. lia.
  - f_equal. rewrite N.add_comm, N.mul_comm, N.Div0.mod_add, N.mod_small by lia. done.
Qed.

Lemma pretty_decimal_value s : canonical_numeral s = true → pretty (decimal_value 0 s) = s.
Proof.
  destruct s as [|c s]; [done|]. simpl. intros H.
  apply andb_true_iff in H as [H Hz]. apply andb_true_iff in H as [Hc Hs].
  pose proof (is_digit_pretty c Hc) as [Hlt Hpc].
  destruct (decide (digit_value c = 0)%N) as [H0|H0].
  - rewrite H0 in *. vm_compute in Hpc. subst c. simpl in Hz.
    destruct (decide (s = "")) as [->|Hne]; [done|].
    rewrite (bool_decide_eq_false_2 (s = "")) in Hz; done.
  - assert (∀ x, (0 < x)%N → pretty x = pretty_N_go x "") as Hp.
    { intros x Hx. unfold pretty, pretty_N. rewrite decide_False by lia. done. }
    assert (0 < decimal_value (digit_value c) s)%N as Hpos.
    { assert (0 < digit_value c)%N as Hd by lia. clear -Hd. revert Hd.
      generalize (digit_value c) as d. induction s as [|e s IH]; simpl; intros d Hd; [done|].
      apply IH. lia. }
    replace (10 * 0 + digit_value c)%N with (digit_value c) by lia.
    rewrite Hp by done.
    rewrite pretty_N_go_decimal by (lia || done). rewrite pretty_N_go_step by lia.
    rewrite N.div_small, N.mod_small, Hpc, append_nil_r by lia. apply pretty_N_go_0.
Qed.

Lemma decimal_value_pretty_go x acc s :
  (acc = 0)%N → decimal_value acc (pretty_N_go x s) = decimal_value x s.
Proof.
  intros ->. revert s. induction (N.lt_wf_0 x) as [x _ IH]; intros s.
  destruct (decide (x = 0)%N) as [->|Hx]; [by rewrite pretty_N_go_0|].
  rewrite pretty_N_go_step by lia.
  rewrite IH by (apply N.div_lt; lia). simpl.
  destruct (pretty_N_char_digit (x `mod` 10)) as [_ ->]; [apply N.mod_lt; lia|].
  rewrite <-N.div_mod; [done|lia].
Qed.

Lemma decimal_value_pretty n : decimal_value 0 (pretty n) = n.
Proof.
  unfold pretty, pretty_N. case_decide; [by subst|]. by rewrite decimal_value_pretty_go.
Qed.

Lemma pretty_N_go_canonical x s : (0 < x)%N → string_forallb is_digit s = true →
  ∃ c t, pretty_N_go x s = String c t ∧ is_digit c = true ∧ c ≠ "0"%char ∧
         string_forallb is_digit t = true.
Proof.
  revert s. induction (N.lt_wf_0 x) as [x _ IH]; intros s Hx Hs.
  rewrite pretty_N_go_step by lia.
  destruct (pretty_N_char_digit (x `mod` 10)) as [Hd Hv]; [apply N.mod_lt; lia|].
  destruct (decide (x / 10 = 0)%N) as [H0|H0].
  - rewrite H0, pretty_N_go_0. eexists _, _. split_and!; [done|done| |done].
    intros Hc. rewrite Hc in Hv. change (digit_value "0") with 0%N in Hv.
    apply N.div_small_iff in H0; [|done]. rewrite N.mod_small in Hv; lia.
  - apply IH; [apply N.div_lt; lia|by apply N.neq_0_lt_0|]. simpl. by rewrite Hd, Hs.
Qed.

Lemma canonical_numeral_pretty (n : N) : canonical_numeral (pretty n) = true.
Proof.
  unfold pretty, pretty_N. case_decide; [done|].
  destruct (pretty_N_go_canonical n "") as (c & t & -> & Hc & Hne & Ht); [lia|done|].
  simpl. by rewrite Hc, Ht, (bool_decide_eq_false_2 (c = "0"%char)).
Qed.

Lemma canonical_numeral_digits_pretty (n : N) : string_forallb is_digit (pretty n) = true.
Proof.
  pose proof (canonical_numeral_pretty n) as Hc. destruct (pretty n); [done|].
  simpl in Hc. by apply andb_true_iff in Hc as [? _].
Qed.
