(* ===== verification/Json.v ===== *)
(** * JSON values

    The [serde_json::Value] data type as the sources use it: the three internal
    number representations of [serde_json::Number], arrays, and objects kept in
    key order (the crate's default [Map] is a [BTreeMap]).  Accessors follow the
    methods of the crate that the sources call: [get], [pointer], [as_str],
    [as_array], [as_object], [as_u64], [as_i64]. *)

From Stdlib Require Import SpecFloat.
From S2P Require Import Prelude.

#[local] Set Warnings "-register-all".

(** [serde_json::Number]: nonnegative integers, negative integers, floats. *)
Inductive Number :=
  | PosInt (n : N)
  | NegInt (z : Z)
  | Float (f : spec_float).

Inductive Value :=
  | Null
  | Bool (b : bool)
  | Num (n : Number)
  | Str (s : string)
  | Array (values : list Value)
  | Object (members : list (string * Value)).

(** Induction through arrays and objects. *)
Section value_ind.
Context (P : Value → Prop)
  (HNull : P Null) (HBool : ∀ b, P (Bool b)) (HNum : ∀ n, P (Num n)) (HStr : ∀ s, P (Str s))
  (HArray : ∀ vs, Forall P vs → P (Array vs))
  (HObject : ∀ ms, Forall (λ kv, P kv.2) ms → P (Object ms)).

Fixpoint Value_ind' (v : Value) : P v :=
  match v with
  | Null => HNull
  | Bool b => HBool b
  | Num n => HNum n
  | Str s => HStr s
  | Array vs => HArray vs
      ((fix go vs := match vs return Forall P vs with
        | [] => List.Forall_nil _
        | v :: vs' => List.Forall_cons _ _ _ (Value_ind' v) (go vs')
        end) vs)
  | Object ms => HObject ms
      ((fix go ms := match ms return Forall (λ kv, P kv.2) ms with
        | [] => List.Forall_nil _
        | (k, v) :: ms' => List.Forall_cons _ (k, v) _ (Value_ind' v) (go ms')
        end) ms)
  end.

End value_ind.

(** Objects are association lists in strictly increasing key order. *)
Fixpoint assoc_get {V} (k : string) (l : list (string * V)) : option V :=
  match l with
  | [] => None
  | (k', v) :: l' => if bool_decide (k = k') then Some v else assoc_get k l'
  end.

(** [Map::insert] keeps the key order. *)
Fixpoint assoc_insert {V} (k : string) (v : V) (l : list (string * V)) : list (string * V) :=
  match l with
  | [] => [(k, v)]
  | (k', v') :: l' =>
      if bool_decide (k = k') then (k, v) :: l'
      else if String.leb k k' then (k, v) :: (k', v') :: l'
      else (k', v') :: assoc_insert k v l'
  end.

(** [Map::remove]: no member of that name is left. *)
Definition assoc_remove {V} (k : string) (l : list (string * V)) : list (string * V) :=
  filter (λ kv, kv.1 ≠ k) l.

(** [Map::get_mut] with an update of the value in place. *)
Fixpoint assoc_alter {V} (f : V → V) (k : string) (l : list (string * V)) : list (string * V) :=
  match l with
  | [] => []
  | (k', v) :: l' => if bool_decide (k = k') then (k', f v) :: l' else (k', v) :: assoc_alter f k l'
  end.

(** [Value::get] with a member name. *)
Definition value_get (k : string) (v : Value) : option Value :=
  match v with Object ms => assoc_get k ms | _ => None end.

Definition as_str (v : Value) : option string :=
  match v with Str s => Some s | _ => None end.
Definition as_array (v : Value) : option (list Value) :=
  match v with Array vs => Some vs | _ => None end.
Definition as_object (v : Value) : option (list (string * Value)) :=
  match v with Object ms => Some ms | _ => None end.

(** [Value::as_u64], [Value::as_i64]: an integer is converted when it fits. *)
Definition number_as_u64 (n : Number) : option N :=
  match n with PosInt n => Some n | _ => None end.
Definition number_as_i64 (n : Number) : option Z :=
  match n with
  | PosInt n => if (n <=? 9223372036854775807)%N then Some (Z.of_N n) else None
  | NegInt z => Some z
  | Float _ => None
  end.

(** ** Lemmas on members *)

Section assoc.
Context {V : Type}.
Implicit Types (l : list (string * V)).

Lemma assoc_get_elem_of k v l : assoc_get k l = Some v → (k, v) ∈ l.
Proof.
  induction l as [|[k' v'] l IH]; simpl; [done|]. case_bool_decide; simplify_eq.
  - intros [= ->]. by left.
  - intros. right. auto.
Qed.

Lemma assoc_get_NoDup k v l : NoDup l.*1 → (k, v) ∈ l → assoc_get k l = Some v.
Proof.
  induction l as [|[k' v'] l IH]; simpl; [set_solver|].
  rewrite NoDup_cons, elem_of_cons. intros [Hk Hnd] [?|Hin]; simplify_eq.
  - by rewrite bool_decide_eq_true_2.
  - rewrite bool_decide_eq_false_2; [auto|]. intros ->. apply Hk.
    apply list_elem_of_fmap. by exists (k', v).
Qed.

Lemma assoc_remove_cons k k' v l :
  assoc_remove k ((k', v) :: l) = if bool_decide (k' = k) then assoc_remove k l else (k', v) :: assoc_remove k l.
Proof.
  unfold assoc_remove. rewrite filter_cons. simpl. destruct (decide (k' ≠ k)); case_bool_decide; done || congruence.
Qed.

Lemma assoc_remove_get k k' l :
  assoc_get k (assoc_remove k' l) = if bool_decide (k = k') then None else assoc_get k l.
Proof.
  induction l as [|[k1 v] l IH]; [by case_bool_decide|]. rewrite assoc_remove_cons. simpl.
  repeat (case_bool_decide; simplify_eq/=); rewrite ?IH; repeat (case_bool_decide; simplify_eq/=); done.
Qed.

Lemma assoc_remove_idemp k l : assoc_remove k (assoc_remove k l) = assoc_remove k l.
Proof. unfold assoc_remove. rewrite list_filter_filter. apply list_filter_iff. naive_solver. Qed.

Lemma assoc_remove_comm k k' l : assoc_remove k (assoc_remove k' l) = assoc_remove k' (assoc_remove k l).
Proof. unfold assoc_remove. rewrite !list_filter_filter. apply list_filter_iff. naive_solver. Qed.

Lemma assoc_alter_fst f k l : (assoc_alter f k l).*1 = l.*1.
Proof.
  induction l as [|[k1 v] l IH]; [done|]. simpl. case_bool_decide; csimpl; by rewrite ?IH.
Qed.

Lemma assoc_alter_get f k k' l :
  assoc_get k (assoc_alter f k' l) = (if bool_decide (k = k') then f <$> assoc_get k l else assoc_get k l).
Proof.
  induction l as [|[k1 v] l IH]; simpl; [by case_bool_decide|].
  repeat (case_bool_decide; simplify_eq/=); done.
Qed.

Lemma assoc_alter_id f k l : (∀ v, assoc_get k l = Some v → f v = v) → assoc_alter f k l = l.
Proof.
  induction l as [|[k1 v] l IH]; simpl; [done|]. case_bool_decide; intros Hf; f_equal; auto.
  f_equal. auto.
Qed.

Lemma assoc_remove_alter f k k' l : k ≠ k' →
  assoc_remove k (assoc_alter f k' l) = assoc_alter f k' (assoc_remove k l).
Proof.
  intros Hne. induction l as [|[k1 v] l IH]; [done|]. rewrite assoc_remove_cons. simpl.
  repeat (case_bool_decide; simplify_eq/=); rewrite ?assoc_remove_cons;
    repeat (case_bool_decide; simplify_eq/=); rewrite ?IH; done.
Qed.

Lemma assoc_alter_comm f g k k' l : k ≠ k' →
  assoc_alter f k (assoc_alter g k' l) = assoc_alter g k' (assoc_alter f k l).
Proof.
  intros Hne. induction l as [|[k1 v] l IH]; [done|]. simpl.
  repeat (case_bool_decide; simplify_eq/=); rewrite ?IH; done.
Qed.

Lemma assoc_alter_compose f g k l : assoc_alter f k (assoc_alter g k l) = assoc_alter (f ∘ g) k l.
Proof. induction l as [|[k1 v] l IH]; [done|]. simpl. repeat (case_bool_decide; simplify_eq/=); by rewrite ?IH. Qed.

Lemma assoc_alter_ext f g k l : (∀ v, f v = g v) → assoc_alter f k l = assoc_alter g k l.
Proof. intros Hfg. induction l as [|[k1 v] l IH]; [done|]. simpl. case_bool_decide; by rewrite ?Hfg, ?IH. Qed.

End assoc.
