(* ===== verification/Contracts.v ===== *)
(** * Data contracts

    The types of [crates/aios-contracts]: the closed reason-code catalogs and
    diagnostics ([diagnostics.rs]), the AIOS IR program ([ir.rs]), the semantic
    contracts of the registry ([registry.rs]), provider manifests
    ([provider.rs]) and the validator output ([output.rs]). *)

From Stdlib Require Import SpecFloat.
From S2P Require Import Prelude Json.

(** ** diagnostics.rs: the closed catalogs *)

Inductive Severity := Error | Warning.

Inductive ValidationStage :=
  | Parse | Schema | Limits | Graph | References | Types | Capabilities
  | EffectsAuthority | FailureFallback | Canonicalization | Registry.

Inductive ValidatorReasonCode :=
  | IrParseInvalid
  | IrParseDuplicateKey
  | IrSchemaRequired
  | IrSchemaAdditionalProperty
  | IrSchemaEnum
  | IrSchemaPattern
  | IrSchemaType
  | IrSchemaRange
  | IrVersionUnsupported
  | IrLimitDocumentSize
  | IrLimitDepth
  | IrLimitNodeCount
  | IrLimitPortCount
  | IrLimitAuthorityRequestCount
  | IrLimitFallbackCount
  | IrLimitStringLength
  | IrLimitDiagnostics
  | IrGraphDuplicateNodeId
  | IrGraphCycle
  | IrGraphUnusedPureNode
  | IrReferenceInputNotFound
  | IrReferenceNodeNotFound
  | IrReferencePortNotFound
  | IrOutputNotFound
  | IrTypeNotFound
  | IrTypeMismatch
  | IrOptionalInputToRequiredPort
  | IrCapabilityNotFound
  | IrCapabilityPortMismatch
  | IrCapabilityRoleMismatch
  | IrExecutionClassIncompatible
  | IrAuthorityClassNotAllowed
  | IrRequiredAuthorityMissing
  | IrAuthorityDuplicateRequest
  | IrEffectClassNotAllowed
  | IrEgressNotAllowed
  | IrEgressContradiction
  | IrEgressAuthorityMismatch
  | IrCacheExecutionClassMismatch
  | IrFailurePolicyUnbounded
  | IrFailurePolicyRecursiveFallback
  | IrFallbackPortMismatch
  | IrFallbackEffectBroadening
  | IrFallbackAuthorityBroadening
  | IrFallbackEgressBroadening
  | IrCanonicalizationFailed
  | RegistrySchemaInvalid
  | RegistryUnsupportedVersion
  | RegistryDuplicateTypeMajor
  | RegistryDuplicateCapabilityMajor
  | RegistryEntryNotFound
  | RegistryContractVersionMismatch
  | RegistryContractHashMismatch
  | RegistrySnapshotHashMismatch
  | RegistryRequiredEffectNotAllowed
  | RegistryRequiredAuthorityNotAllowed
  | RegistryPureEffectContradiction.

Module ValidatorReasonCode.

Definition ALL : list ValidatorReasonCode :=
  [ IrParseInvalid;
    IrParseDuplicateKey;
    IrSchemaRequired;
    IrSchemaAdditionalProperty;
    IrSchemaEnum;
    IrSchemaPattern;
    IrSchemaType;
    IrSchemaRange;
    IrVersionUnsupported;
    IrLimitDocumentSize;
    IrLimitDepth;
    IrLimitNodeCount;
    IrLimitPortCount;
    IrLimitAuthorityRequestCount;
    IrLimitFallbackCount;
    IrLimitStringLength;
    IrLimitDiagnostics;
    IrGraphDuplicateNodeId;
    IrGraphCycle;
    IrGraphUnusedPureNode;
    IrReferenceInputNotFound;
    IrReferenceNodeNotFound;
    IrReferencePortNotFound;
    IrOutputNotFound;
    IrTypeNotFound;
    IrTypeMismatch;
    IrOptionalInputToRequiredPort;
    IrCapabilityNotFound;
    IrCapabilityPortMismatch;
    IrCapabilityRoleMismatch;
    IrExecutionClassIncompatible;
    IrAuthorityClassNotAllowed;
    IrRequiredAuthorityMissing;
    IrAuthorityDuplicateRequest;
    IrEffectClassNotAllowed;
    IrEgressNotAllowed;
    IrEgressContradiction;
    IrEgressAuthorityMismatch;
    IrCacheExecutionClassMismatch;
    IrFailurePolicyUnbounded;
    IrFailurePolicyRecursiveFallback;
    IrFallbackPortMismatch;
    IrFallbackEffectBroadening;
    IrFallbackAuthorityBroadening;
    IrFallbackEgressBroadening;
    IrCanonicalizationFailed;
    RegistrySchemaInvalid;
    RegistryUnsupportedVersion;
    RegistryDuplicateTypeMajor;
    RegistryDuplicateCapabilityMajor;
    RegistryEntryNotFound;
    RegistryContractVersionMismatch;
    RegistryContractHashMismatch;
    RegistrySnapshotHashMismatch;
    RegistryRequiredEffectNotAllowed;
    RegistryRequiredAuthorityNotAllowed;
    RegistryPureEffectContradiction ].

Definition as_str (code : ValidatorReasonCode) : string :=
  match code with
  | IrParseInvalid => "IR_PARSE_INVALID"
  | IrParseDuplicateKey => "IR_PARSE_DUPLICATE_KEY"
  | IrSchemaRequired => "IR_SCHEMA_REQUIRED"
  | IrSchemaAdditionalProperty => "IR_SCHEMA_ADDITIONAL_PROPERTY"
  | IrSchemaEnum => "IR_SCHEMA_ENUM"
  | IrSchemaPattern => "IR_SCHEMA_PATTERN"
  | IrSchemaType => "IR_SCHEMA_TYPE"
  | IrSchemaRange => "IR_SCHEMA_RANGE"
  | IrVersionUnsupported => "IR_VERSION_UNSUPPORTED"
  | IrLimitDocumentSize => "IR_LIMIT_DOCUMENT_SIZE"
  | IrLimitDepth => "IR_LIMIT_DEPTH"
  | IrLimitNodeCount => "IR_LIMIT_NODE_COUNT"
  | IrLimitPortCount => "IR_LIMIT_PORT_COUNT"
  | IrLimitAuthorityRequestCount => "IR_LIMIT_AUTHORITY_REQUEST_COUNT"
  | IrLimitFallbackCount => "IR_LIMIT_FALLBACK_COUNT"
  | IrLimitStringLength => "IR_LIMIT_STRING_LENGTH"
  | IrLimitDiagnostics => "IR_LIMIT_DIAGNOSTICS"
  | IrGraphDuplicateNodeId => "IR_GRAPH_DUPLICATE_NODE_ID"
  | IrGraphCycle => "IR_GRAPH_CYCLE"
  | IrGraphUnusedPureNode => "IR_GRAPH_UNUSED_PURE_NODE"
  | IrReferenceInputNotFound => "IR_REFERENCE_INPUT_NOT_FOUND"
  | IrReferenceNodeNotFound => "IR_REFERENCE_NODE_NOT_FOUND"
  | IrReferencePortNotFound => "IR_REFERENCE_PORT_NOT_FOUND"
  | IrOutputNotFound => "IR_OUTPUT_NOT_FOUND"
  | IrTypeNotFound => "IR_TYPE_NOT_FOUND"
  | IrTypeMismatch => "IR_TYPE_MISMATCH"
  | IrOptionalInputToRequiredPort => "IR_OPTIONAL_INPUT_TO_REQUIRED_PORT"
  | IrCapabilityNotFound => "IR_CAPABILITY_NOT_FOUND"
  | IrCapabilityPortMismatch => "IR_CAPABILITY_PORT_MISMATCH"
  | IrCapabilityRoleMismatch => "IR_CAPABILITY_ROLE_MISMATCH"
  | IrExecutionClassIncompatible => "IR_EXECUTION_CLASS_INCOMPATIBLE"
  | IrAuthorityClassNotAllowed => "IR_AUTHORITY_CLASS_NOT_ALLOWED"
  | IrRequiredAuthorityMissing => "IR_REQUIRED_AUTHORITY_MISSING"
  | IrAuthorityDuplicateRequest => "IR_AUTHORITY_DUPLICATE_REQUEST"
  | IrEffectClassNotAllowed => "IR_EFFECT_CLASS_NOT_ALLOWED"
  | IrEgressNotAllowed => "IR_EGRESS_NOT_ALLOWED"
  | IrEgressContradiction => "IR_EGRESS_CONTRADICTION"
  | IrEgressAuthorityMismatch => "IR_EGRESS_AUTHORITY_MISMATCH"
  | IrCacheExecutionClassMismatch => "IR_CACHE_EXECUTION_CLASS_MISMATCH"
  | IrFailurePolicyUnbounded => "IR_FAILURE_POLICY_UNBOUNDED"
  | IrFailurePolicyRecursiveFallback => "IR_FAILURE_POLICY_RECURSIVE_FALLBACK"
  | IrFallbackPortMismatch => "IR_FALLBACK_PORT_MISMATCH"
  | IrFallbackEffectBroadening => "IR_FALLBACK_EFFECT_BROADENING"
  | IrFallbackAuthorityBroadening => "IR_FALLBACK_AUTHORITY_BROADENING"
  | IrFallbackEgressBroadening => "IR_FALLBACK_EGRESS_BROADENING"
  | IrCanonicalizationFailed => "IR_CANONICALIZATION_FAILED"
  | RegistrySchemaInvalid => "REGISTRY_SCHEMA_INVALID"
  | RegistryUnsupportedVersion => "REGISTRY_UNSUPPORTED_VERSION"
  | RegistryDuplicateTypeMajor => "REGISTRY_DUPLICATE_TYPE_MAJOR"
  | RegistryDuplicateCapabilityMajor => "REGISTRY_DUPLICATE_CAPABILITY_MAJOR"
  | RegistryEntryNotFound => "REGISTRY_ENTRY_NOT_FOUND"
  | RegistryContractVersionMismatch => "REGISTRY_CONTRACT_VERSION_MISMATCH"
  | RegistryContractHashMismatch => "REGISTRY_CONTRACT_HASH_MISMATCH"
  | RegistrySnapshotHashMismatch => "REGISTRY_SNAPSHOT_HASH_MISMATCH"
  | RegistryRequiredEffectNotAllowed => "REGISTRY_REQUIRED_EFFECT_NOT_ALLOWED"
  | RegistryRequiredAuthorityNotAllowed => "REGISTRY_REQUIRED_AUTHORITY_NOT_ALLOWED"
  | RegistryPureEffectContradiction => "REGISTRY_PURE_EFFECT_CONTRADICTION"
  end.

Definition severity (code : ValidatorReasonCode) : Severity :=
  match code with
  | IrParseInvalid => Error
  | IrParseDuplicateKey => Error
  | IrSchemaRequired => Error
  | IrSchemaAdditionalProperty => Error
  | IrSchemaEnum => Error
  | IrSchemaPattern => Error
  | IrSchemaType => Error
  | IrSchemaRange => Error
  | IrVersionUnsupported => Error
  | IrLimitDocumentSize => Error
  | IrLimitDepth => Error
  | IrLimitNodeCount => Error
  | IrLimitPortCount => Error
  | IrLimitAuthorityRequestCount => Error
  | IrLimitFallbackCount => Error
  | IrLimitStringLength => Error
  | IrLimitDiagnostics => Warning
  | IrGraphDuplicateNodeId => Error
  | IrGraphCycle => Error
  | IrGraphUnusedPureNode => Warning
  | IrReferenceInputNotFound => Error
  | IrReferenceNodeNotFound => Error
  | IrReferencePortNotFound => Error
  | IrOutputNotFound => Error
  | IrTypeNotFound => Error
  | IrTypeMismatch => Error
  | IrOptionalInputToRequiredPort => Error
  | IrCapabilityNotFound => Error
  | IrCapabilityPortMismatch => Error
  | IrCapabilityRoleMismatch => Error
  | IrExecutionClassIncompatible => Error
  | IrAuthorityClassNotAllowed => Error
  | IrRequiredAuthorityMissing => Error
  | IrAuthorityDuplicateRequest => Error
  | IrEffectClassNotAllowed => Error
  | IrEgressNotAllowed => Error
  | IrEgressContradiction => Error
  | IrEgressAuthorityMismatch => Error
  | IrCacheExecutionClassMismatch => Error
  | IrFailurePolicyUnbounded => Error
  | IrFailurePolicyRecursiveFallback => Error
  | IrFallbackPortMismatch => Error
  | IrFallbackEffectBroadening => Error
  | IrFallbackAuthorityBroadening => Error
  | IrFallbackEgressBroadening => Error
  | IrCanonicalizationFailed => Error
  | RegistrySchemaInvalid => Error
  | RegistryUnsupportedVersion => Error
  | RegistryDuplicateTypeMajor => Error
  | RegistryDuplicateCapabilityMajor => Error
  | RegistryEntryNotFound => Error
  | RegistryContractVersionMismatch => Error
  | RegistryContractHashMismatch => Error
  | RegistrySnapshotHashMismatch => Error
  | RegistryRequiredEffectNotAllowed => Error
  | RegistryRequiredAuthorityNotAllowed => Error
  | RegistryPureEffectContradiction => Error
  end.

Definition stage (code : ValidatorReasonCode) : ValidationStage :=
  match code with
  | IrParseInvalid => Parse
  | IrParseDuplicateKey => Parse
  | IrSchemaRequired => Schema
  | IrSchemaAdditionalProperty => Schema
  | IrSchemaEnum => Schema
  | IrSchemaPattern => Schema
  | IrSchemaType => Schema
  | IrSchemaRange => Schema
  | IrVersionUnsupported => Schema
  | IrLimitDocumentSize => Limits
  | IrLimitDepth => Limits
  | IrLimitNodeCount => Limits
  | IrLimitPortCount => Limits
  | IrLimitAuthorityRequestCount => Limits
  | IrLimitFallbackCount => Limits
  | IrLimitStringLength => Limits
  | IrLimitDiagnostics => Limits
  | IrGraphDuplicateNodeId => Graph
  | IrGraphCycle => Graph
  | IrGraphUnusedPureNode => Graph
  | IrReferenceInputNotFound => References
  | IrReferenceNodeNotFound => References
  | IrReferencePortNotFound => References
  | IrOutputNotFound => References
  | IrTypeNotFound => Types
  | IrTypeMismatch => Types
  | IrOptionalInputToRequiredPort => Types
  | IrCapabilityNotFound => Capabilities
  | IrCapabilityPortMismatch => Capabilities
  | IrCapabilityRoleMismatch => Capabilities
  | IrExecutionClassIncompatible => Capabilities
  | IrAuthorityClassNotAllowed => EffectsAuthority
  | IrRequiredAuthorityMissing => EffectsAuthority
  | IrAuthorityDuplicateRequest => EffectsAuthority
  | IrEffectClassNotAllowed => EffectsAuthority
  | IrEgressNotAllowed => EffectsAuthority
  | IrEgressContradiction => EffectsAuthority
  | IrEgressAuthorityMismatch => EffectsAuthority
  | IrCacheExecutionClassMismatch => EffectsAuthority
  | IrFailurePolicyUnbounded => FailureFallback
  | IrFailurePolicyRecursiveFallback => FailureFallback
  | IrFallbackPortMismatch => FailureFallback
  | IrFallbackEffectBroadening => FailureFallback
  | IrFallbackAuthorityBroadening => FailureFallback
  | IrFallbackEgressBroadening => FailureFallback
  | IrCanonicalizationFailed => Canonicalization
  | RegistrySchemaInvalid => Registry
  | RegistryUnsupportedVersion => Registry
  | RegistryDuplicateTypeMajor => Registry
  | RegistryDuplicateCapabilityMajor => Registry
  | RegistryEntryNotFound => Registry
  | RegistryContractVersionMismatch => Registry
  | RegistryContractHashMismatch => Registry
  | RegistrySnapshotHashMismatch => Registry
  | RegistryRequiredEffectNotAllowed => Registry
  | RegistryRequiredAuthorityNotAllowed => Registry
  | RegistryPureEffectContradiction => Registry
  end.

(** The [FromStr] match, in the order of the catalog. *)
Definition from_str (value : string) : option ValidatorReasonCode :=
  if bool_decide (value = "IR_PARSE_INVALID") then Some IrParseInvalid else
  if bool_decide (value = "IR_PARSE_DUPLICATE_KEY") then Some IrParseDuplicateKey else
  if bool_decide (value = "IR_SCHEMA_REQUIRED") then Some IrSchemaRequired else
  if bool_decide (value = "IR_SCHEMA_ADDITIONAL_PROPERTY") then Some IrSchemaAdditionalProperty else
  if bool_decide (value = "IR_SCHEMA_ENUM") then Some IrSchemaEnum else
  if bool_decide (value = "IR_SCHEMA_PATTERN") then Some IrSchemaPattern else
  if bool_decide (value = "IR_SCHEMA_TYPE") then Some IrSchemaType else
  if bool_decide (value = "IR_SCHEMA_RANGE") then Some IrSchemaRange else
  if bool_decide (value = "IR_VERSION_UNSUPPORTED") then Some IrVersionUnsupported else
  if bool_decide (value = "IR_LIMIT_DOCUMENT_SIZE") then Some IrLimitDocumentSize else
  if bool_decide (value = "IR_LIMIT_DEPTH") then Some IrLimitDepth else
  if bool_decide (value = "IR_LIMIT_NODE_COUNT") then Some IrLimitNodeCount else
  if bool_decide (value = "IR_LIMIT_PORT_COUNT") then Some IrLimitPortCount else
  if bool_decide (value = "IR_LIMIT_AUTHORITY_REQUEST_COUNT") then Some IrLimitAuthorityRequestCount else
  if bool_decide (value = "IR_LIMIT_FALLBACK_COUNT") then Some IrLimitFallbackCount else
  if bool_decide (value = "IR_LIMIT_STRING_LENGTH") then Some IrLimitStringLength else
  if bool_decide (value = "IR_LIMIT_DIAGNOSTICS") then Some IrLimitDiagnostics else
  if bool_decide (value = "IR_GRAPH_DUPLICATE_NODE_ID") then Some IrGraphDuplicateNodeId else
  if bool_decide (value = "IR_GRAPH_CYCLE") then Some IrGraphCycle else
  if bool_decide (value = "IR_GRAPH_UNUSED_PURE_NODE") then Some IrGraphUnusedPureNode else
  if bool_decide (value = "IR_REFERENCE_INPUT_NOT_FOUND") then Some IrReferenceInputNotFound else
  if bool_decide (value = "IR_REFERENCE_NODE_NOT_FOUND") then Some IrReferenceNodeNotFound else
  if bool_decide (value = "IR_REFERENCE_PORT_NOT_FOUND") then Some IrReferencePortNotFound else
  if bool_decide (value = "IR_OUTPUT_NOT_FOUND") then Some IrOutputNotFound else
  if bool_decide (value = "IR_TYPE_NOT_FOUND") then Some IrTypeNotFound else
  if bool_decide (value = "IR_TYPE_MISMATCH") then Some IrTypeMismatch else
  if bool_decide (value = "IR_OPTIONAL_INPUT_TO_REQUIRED_PORT") then Some IrOptionalInputToRequiredPort else
  if bool_decide (value = "IR_CAPABILITY_NOT_FOUND") then Some IrCapabilityNotFound else
  if bool_decide (value = "IR_CAPABILITY_PORT_MISMATCH") then Some IrCapabilityPortMismatch else
  if bool_decide (value = "IR_CAPABILITY_ROLE_MISMATCH") then Some IrCapabilityRoleMismatch else
  if bool_decide (value = "IR_EXECUTION_CLASS_INCOMPATIBLE") then Some IrExecutionClassIncompatible else
  if bool_decide (value = "IR_AUTHORITY_CLASS_NOT_ALLOWED") then Some IrAuthorityClassNotAllowed else
  if bool_decide (value = "IR_REQUIRED_AUTHORITY_MISSING") then Some IrRequiredAuthorityMissing else
  if bool_decide (value = "IR_AUTHORITY_DUPLICATE_REQUEST") then Some IrAuthorityDuplicateRequest else
  if bool_decide (value = "IR_EFFECT_CLASS_NOT_ALLOWED") then Some IrEffectClassNotAllowed else
  if bool_decide (value = "IR_EGRESS_NOT_ALLOWED") then Some IrEgressNotAllowed else
  if bool_decide (value = "IR_EGRESS_CONTRADICTION") then Some IrEgressContradiction else
  if bool_decide (value = "IR_EGRESS_AUTHORITY_MISMATCH") then Some IrEgressAuthorityMismatch else
  if bool_decide (value = "IR_CACHE_EXECUTION_CLASS_MISMATCH") then Some IrCacheExecutionClassMismatch else
  if bool_decide (value = "IR_FAILURE_POLICY_UNBOUNDED") then Some IrFailurePolicyUnbounded else
  if bool_decide (value = "IR_FAILURE_POLICY_RECURSIVE_FALLBACK") then Some IrFailurePolicyRecursiveFallback else
  if bool_decide (value = "IR_FALLBACK_PORT_MISMATCH") then Some IrFallbackPortMismatch else
  if bool_decide (value = "IR_FALLBACK_EFFECT_BROADENING") then Some IrFallbackEffectBroadening else
  if bool_decide (value = "IR_FALLBACK_AUTHORITY_BROADENING") then Some IrFallbackAuthorityBroadening else
  if bool_decide (value = "IR_FALLBACK_EGRESS_BROADENING") then Some IrFallbackEgressBroadening else
  if bool_decide (value = "IR_CANONICALIZATION_FAILED") then Some IrCanonicalizationFailed else
  if bool_decide (value = "REGISTRY_SCHEMA_INVALID") then Some RegistrySchemaInvalid else
  if bool_decide (value = "REGISTRY_UNSUPPORTED_VERSION") then Some RegistryUnsupportedVersion else
  if bool_decide (value = "REGISTRY_DUPLICATE_TYPE_MAJOR") then Some RegistryDuplicateTypeMajor else
  if bool_decide (value = "REGISTRY_DUPLICATE_CAPABILITY_MAJOR") then Some RegistryDuplicateCapabilityMajor else
  if bool_decide (value = "REGISTRY_ENTRY_NOT_FOUND") then Some RegistryEntryNotFound else
  if bool_decide (value = "REGISTRY_CONTRACT_VERSION_MISMATCH") then Some RegistryContractVersionMismatch else
  if bool_decide (value = "REGISTRY_CONTRACT_HASH_MISMATCH") then Some RegistryContractHashMismatch else
  if bool_decide (value = "REGISTRY_SNAPSHOT_HASH_MISMATCH") then Some RegistrySnapshotHashMismatch else
  if bool_decide (value = "REGISTRY_REQUIRED_EFFECT_NOT_ALLOWED") then Some RegistryRequiredEffectNotAllowed else
  if bool_decide (value = "REGISTRY_REQUIRED_AUTHORITY_NOT_ALLOWED") then Some RegistryRequiredAuthorityNotAllowed else
  if bool_decide (value = "REGISTRY_PURE_EFFECT_CONTRADICTION") then Some RegistryPureEffectContradiction else
  None.

End ValidatorReasonCode.

Inductive ProviderReasonCode :=
  | ProviderContractNotFound
  | ProviderContractHashMismatch
  | ProviderExecutionClassIncompatible
  | ProviderEffectNotAllowed
  | ProviderRequiredEffectMissing
  | ProviderAuthorityNotAllowed
  | ProviderRequiredAuthorityMissing
  | ProviderEgressNotAllowed
  | ProviderPortOrTypeMismatch
  | ProviderIsolationIncompatible
  | ProviderSuiteMismatch
  | ProviderBuildIdentityMissing
  | ProviderConformanceFailed
  | ProviderConformanceExpired
  | ProviderDeclarationInvalid.

Module ProviderReasonCode.

Definition ALL : list ProviderReasonCode :=
  [ ProviderContractNotFound;
    ProviderContractHashMismatch;
    ProviderExecutionClassIncompatible;
    ProviderEffectNotAllowed;
    ProviderRequiredEffectMissing;
    ProviderAuthorityNotAllowed;
    ProviderRequiredAuthorityMissing;
    ProviderEgressNotAllowed;
    ProviderPortOrTypeMismatch;
    ProviderIsolationIncompatible;
    ProviderSuiteMismatch;
    ProviderBuildIdentityMissing;
    ProviderConformanceFailed;
    ProviderConformanceExpired;
    ProviderDeclarationInvalid ].

Definition as_str (code : ProviderReasonCode) : string :=
  match code with
  | ProviderContractNotFound => "PROVIDER_CONTRACT_NOT_FOUND"
  | ProviderContractHashMismatch => "PROVIDER_CONTRACT_HASH_MISMATCH"
  | ProviderExecutionClassIncompatible => "PROVIDER_EXECUTION_CLASS_INCOMPATIBLE"
  | ProviderEffectNotAllowed => "PROVIDER_EFFECT_NOT_ALLOWED"
  | ProviderRequiredEffectMissing => "PROVIDER_REQUIRED_EFFECT_MISSING"
  | ProviderAuthorityNotAllowed => "PROVIDER_AUTHORITY_NOT_ALLOWED"
  | ProviderRequiredAuthorityMissing => "PROVIDER_REQUIRED_AUTHORITY_MISSING"
  | ProviderEgressNotAllowed => "PROVIDER_EGRESS_NOT_ALLOWED"
  | ProviderPortOrTypeMismatch => "PROVIDER_PORT_OR_TYPE_MISMATCH"
  | ProviderIsolationIncompatible => "PROVIDER_ISOLATION_INCOMPATIBLE"
  | ProviderSuiteMismatch => "PROVIDER_SUITE_MISMATCH"
  | ProviderBuildIdentityMissing => "PROVIDER_BUILD_IDENTITY_MISSING"
  | ProviderConformanceFailed => "PROVIDER_CONFORMANCE_FAILED"
  | ProviderConformanceExpired => "PROVIDER_CONFORMANCE_EXPIRED"
  | ProviderDeclarationInvalid => "PROVIDER_DECLARATION_INVALID"
  end.

Definition from_str (value : string) : option ProviderReasonCode :=
  if bool_decide (value = "PROVIDER_CONTRACT_NOT_FOUND") then Some ProviderContractNotFound else
  if bool_decide (value = "PROVIDER_CONTRACT_HASH_MISMATCH") then Some ProviderContractHashMismatch else
  if bool_decide (value = "PROVIDER_EXECUTION_CLASS_INCOMPATIBLE") then Some ProviderExecutionClassIncompatible else
  if bool_decide (value = "PROVIDER_EFFECT_NOT_ALLOWED") then Some ProviderEffectNotAllowed else
  if bool_decide (value = "PROVIDER_REQUIRED_EFFECT_MISSING") then Some ProviderRequiredEffectMissing else
  if bool_decide (value = "PROVIDER_AUTHORITY_NOT_ALLOWED") then Some ProviderAuthorityNotAllowed else
  if bool_decide (value = "PROVIDER_REQUIRED_AUTHORITY_MISSING") then Some ProviderRequiredAuthorityMissing else
  if bool_decide (value = "PROVIDER_EGRESS_NOT_ALLOWED") then Some ProviderEgressNotAllowed else
  if bool_decide (value = "PROVIDER_PORT_OR_TYPE_MISMATCH") then Some ProviderPortOrTypeMismatch else
  if bool_decide (value = "PROVIDER_ISOLATION_INCOMPATIBLE") then Some ProviderIsolationIncompatible else
  if bool_decide (value = "PROVIDER_SUITE_MISMATCH") then Some ProviderSuiteMismatch else
  if bool_decide (value = "PROVIDER_BUILD_IDENTITY_MISSING") then Some ProviderBuildIdentityMissing else
  if bool_decide (value = "PROVIDER_CONFORMANCE_FAILED") then Some ProviderConformanceFailed else
  if bool_decide (value = "PROVIDER_CONFORMANCE_EXPIRED") then Some ProviderConformanceExpired else
  if bool_decide (value = "PROVIDER_DECLARATION_INVALID") then Some ProviderDeclarationInvalid else
  None.

End ProviderReasonCode.

#[export] Instance Severity_eq_dec : EqDecision Severity.
Proof. solve_decision. Defined.
#[export] Instance ValidationStage_eq_dec : EqDecision ValidationStage.
Proof. solve_decision. Defined.
#[export] Instance ValidatorReasonCode_eq_dec : EqDecision ValidatorReasonCode.
Proof. solve_decision. Defined.
#[export] Instance ProviderReasonCode_eq_dec : EqDecision ProviderReasonCode.
Proof. solve_decision. Defined.

Record Diagnostic := {
  diag_severity : Severity;
  diag_code : ValidatorReasonCode;
  diag_message : string;
  diag_node_id : option string;
  diag_port : option string;
  diag_capability : option string;
  diag_json_pointer : option string;
  diag_related : list string;
}.

(** [Diagnostic::new]: the severity is owned by the catalog. *)
Definition Diagnostic_new (code : ValidatorReasonCode) (message : string) : Diagnostic := {|
  diag_severity := ValidatorReasonCode.severity code;
  diag_code := code;
  diag_message := message;
  diag_node_id := None;
  diag_port := None;
  diag_capability := None;
  diag_json_pointer := None;
  diag_related := [];
|}.

(** ** ir.rs: the AIOS IR program *)

(** Metadata is inert JSON. *)
Abbreviation Metadata := (gmap string Value).

Inductive ProgramKind := TaskGraph | SkillGraph.
Inductive OperationKind := Invoke | Verify.
Inductive ExecutionClass :=
  | Deterministic | BoundedNondeterministic | Probabilistic | OpaqueExternal.
Inductive EgressMode := Deny | Policy.
Inductive Locality := Local | Peer | Remote | Hybrid.
Inductive AcceleratorKind := Gpu | Npu | Dsp | Fpga | OtherAccelerator.
Inductive CachePolicy := Never | DeterministicOnly | ContentAddressed.

Record ProgramInput := {
  input_type_ref : string;
  input_required : bool;
  input_media_types : list string;
  input_description : option string;
}.

Record Operation := {
  op_kind : OperationKind;
  op_capability : string;
}.

Inductive ValueRef :=
  | ValueRef_Input (name : string)
  | ValueRef_Node (node port : string).

Record AuthorityRequest := {
  req_action : string;
  req_resource : string;
  req_reason : option string;
}.

Record Egress := {
  egress_mode : EgressMode;
  egress_destination_classes : list string;
}.

Record AcceleratorConstraint := {
  acc_kind : AcceleratorKind;
  acc_min_memory_bytes : option N;
  acc_optional : bool;
}.

Record Constraints := {
  con_locality : list Locality;
  con_max_latency_ms : option N;
  con_max_cost_microusd : option N;
  con_min_memory_bytes : option N;
  con_accelerator : option AcceleratorConstraint;
}.

Inductive FailurePolicy :=
  | Stop
  | Retry (max_attempts : N)
  | Fallback (fallback_capabilities : list string)
  | Replan (max_replans : N).

Record Node := {
  node_id : string;
  node_operation : Operation;
  node_execution_class : ExecutionClass;
  node_inputs : gmap string ValueRef;
  node_outputs : gmap string string;
  node_authority_requests : list AuthorityRequest;
  node_egress : Egress;
  node_constraints : option Constraints;
  node_failure : FailurePolicy;
  node_cache : CachePolicy;
  node_description : option string;
  node_metadata : option Metadata;
}.

Record AiosIr := {
  ir_version : string;
  program_id : string;
  program_kind : ProgramKind;
  program_inputs : gmap string ProgramInput;
  program_nodes : list Node;
  program_outputs : gmap string ValueRef;
  program_metadata : option Metadata;
}.

#[export] Instance OperationKind_eq_dec : EqDecision OperationKind.
Proof. solve_decision. Defined.
#[export] Instance ExecutionClass_eq_dec : EqDecision ExecutionClass.
Proof. solve_decision. Defined.
#[export] Instance EgressMode_eq_dec : EqDecision EgressMode.
Proof. solve_decision. Defined.
#[export] Instance Locality_eq_dec : EqDecision Locality.
Proof. solve_decision. Defined.
#[export] Instance CachePolicy_eq_dec : EqDecision CachePolicy.
Proof. solve_decision. Defined.
#[export] Instance ValueRef_eq_dec : EqDecision ValueRef.
Proof. solve_decision. Defined.
#[export] Instance AuthorityRequest_eq_dec : EqDecision AuthorityRequest.
Proof. solve_decision. Defined.

(** The [{:?}] rendering of the field-less enums that messages print. *)
Definition OperationKind_debug (k : OperationKind) : string :=
  match k with Invoke => "Invoke" | Verify => "Verify" end.
Definition ExecutionClass_debug (c : ExecutionClass) : string :=
  match c with
  | Deterministic => "Deterministic"
  | BoundedNondeterministic => "BoundedNondeterministic"
  | Probabilistic => "Probabilistic"
  | OpaqueExternal => "OpaqueExternal"
  end.
Definition EgressMode_debug (m : EgressMode) : string :=
  match m with Deny => "Deny" | Policy => "Policy" end.

(** ** registry.rs: semantic contracts *)

Inductive EffectClass :=
  | Pure | ArtifactRead | ArtifactWrite | Network | DataEgress | ExternalMessage
  | SecretAccess | PersistentState | DeviceAccess | SystemChange | LegacyOpaque.

Inductive CapabilityRole := Ordinary | Verifier.

Inductive DeterminismEquivalence :=
  | DE_ByteIdentical | DE_CanonicalValue | DE_NumericTolerance | DE_Semantic | DE_NotApplicable.

Inductive TypeKind := Scalar | Structured | Artifact | Stream | Handle.

Inductive EqualityMode :=
  | EM_ByteIdentical | EM_CanonicalValue | EM_NumericTolerance | EM_Semantic | EM_NotDefined.

Record PortContract := {
  port_type_ref : string;
  port_required : bool;
  port_description : option string;
}.

Record Determinism := {
  det_equivalence : option DeterminismEquivalence;
  det_numeric_absolute_tolerance : option spec_float;
  det_numeric_relative_tolerance : option spec_float;
}.

Record Conformance := {
  conf_suite_id : string;
  conf_suite_version : option string;
  conf_suite_hash : option string;
}.

Record CapabilityContract := {
  cc_capability : string;
  cc_version : string;
  cc_description : option string;
  cc_role : CapabilityRole;
  cc_inputs : gmap string PortContract;
  cc_outputs : gmap string PortContract;
  cc_allowed_execution_classes : list ExecutionClass;
  cc_required_effect_classes : list EffectClass;
  cc_allowed_effect_classes : list EffectClass;
  cc_required_authority_classes : list string;
  cc_allowed_authority_classes : list string;
  cc_allowed_egress_modes : list EgressMode;
  cc_determinism : option Determinism;
  cc_error_classes : list string;
  cc_conformance : Conformance;
  cc_notes : list string;
}.

Record Representation := {
  rep_id : string;
  rep_media_type : option string;
  rep_schema_ref : option string;
  rep_zero_copy_candidate : bool;
}.

Record TypeEquality := {
  te_mode : EqualityMode;
  te_canonicalizer : option string;
  te_numeric_absolute_tolerance : option spec_float;
  te_numeric_relative_tolerance : option spec_float;
}.

Record UnitSemantics := {
  unit_required : option bool;
  unit_canonical_unit : option string;
  unit_notes : option string;
}.

Record TypeContract := {
  tc_type_id : string;
  tc_version : string;
  tc_kind : TypeKind;
  tc_description : string;
  tc_logical_schema_ref : option string;
  tc_nullable : bool;
  tc_representations : list Representation;
  tc_equality : TypeEquality;
  tc_unit_semantics : option UnitSemantics;
  tc_conversion_capabilities : list string;
  tc_conformance : Conformance;
  tc_notes : list string;
}.

Record ContractRef := {
  cr_id : string;
  cr_version : string;
  cr_content_hash : string;
  cr_source : option string;
}.

Record RegistryPublisher := {
  pub_id : option string;
  pub_signature : option string;
}.

Record RegistrySnapshot := {
  rs_schema_version : string;
  rs_snapshot_id : string;
  rs_generation : option string;
  rs_type_contracts : list ContractRef;
  rs_capability_contracts : list ContractRef;
  rs_created_at : string;
  rs_publisher : option RegistryPublisher;
  rs_notes : list string;
}.

#[export] Instance EffectClass_eq_dec : EqDecision EffectClass.
Proof. solve_decision. Defined.
#[export] Instance CapabilityRole_eq_dec : EqDecision CapabilityRole.
Proof. solve_decision. Defined.

Definition EffectClass_rank (e : EffectClass) : nat :=
  match e with
  | Pure => 0 | ArtifactRead => 1 | ArtifactWrite => 2 | Network => 3 | DataEgress => 4
  | ExternalMessage => 5 | SecretAccess => 6 | PersistentState => 7 | DeviceAccess => 8
  | SystemChange => 9 | LegacyOpaque => 10
  end.

Definition EffectClass_of_rank (n : nat) : option EffectClass :=
  [Pure; ArtifactRead; ArtifactWrite; Network; DataEgress; ExternalMessage; SecretAccess;
   PersistentState; DeviceAccess; SystemChange; LegacyOpaque] !! n.

Lemma EffectClass_of_rank_rank e : EffectClass_of_rank (EffectClass_rank e) = Some e.
Proof. by destruct e. Qed.

Lemma EffectClass_rank_inj a b : EffectClass_rank a = EffectClass_rank b → a = b.
Proof.
  intros Heq. apply (inj Some). by rewrite <-!EffectClass_of_rank_rank, Heq.
Qed.

#[export] Instance EffectClass_countable : Countable EffectClass :=
  inj_countable EffectClass_rank EffectClass_of_rank EffectClass_of_rank_rank.
#[export] Instance EffectClass_ord_key : OrdKey EffectClass :=
  rank_ord_key EffectClass_rank EffectClass_rank_inj.

Definition EgressMode_rank (m : EgressMode) : nat := match m with Deny => 0 | Policy => 1 end.
Definition EgressMode_of_rank (n : nat) : option EgressMode := [Deny; Policy] !! n.
Lemma EgressMode_of_rank_rank e : EgressMode_of_rank (EgressMode_rank e) = Some e.
Proof. by destruct e. Qed.
Lemma EgressMode_rank_inj a b : EgressMode_rank a = EgressMode_rank b → a = b.
Proof. by destruct a, b. Qed.

#[export] Instance EgressMode_countable : Countable EgressMode :=
  inj_countable EgressMode_rank EgressMode_of_rank EgressMode_of_rank_rank.
#[export] Instance EgressMode_ord_key : OrdKey EgressMode :=
  rank_ord_key EgressMode_rank EgressMode_rank_inj.

Definition EffectClass_debug (e : EffectClass) : string :=
  match e with
  | Pure => "Pure" | ArtifactRead => "ArtifactRead" | ArtifactWrite => "ArtifactWrite"
  | Network => "Network" | DataEgress => "DataEgress" | ExternalMessage => "ExternalMessage"
  | SecretAccess => "SecretAccess" | PersistentState => "PersistentState"
  | DeviceAccess => "DeviceAccess" | SystemChange => "SystemChange"
  | LegacyOpaque => "LegacyOpaque"
  end.
Definition CapabilityRole_debug (r : CapabilityRole) : string :=
  match r with Ordinary => "Ordinary" | Verifier => "Verifier" end.

(** ** output.rs: the validator output *)

Record ValidatorIdentity := {
  vi_id : string;
  vi_version : string;
  vi_build_hash : option string;
}.

Record ValidationResult := {
  vr_schema_version : string;
  vr_valid : bool;
  vr_ir_version : option string;
  vr_program_id : option string;
  vr_semantic_hash : option string;
  vr_semantic_hash_profile : option string;
  vr_validator : ValidatorIdentity;
  vr_registry_snapshot_id : option string;
  vr_diagnostics : list Diagnostic;
  vr_diagnostics_truncated : bool;
  vr_validated_at : string;
}.

Record NodeEffectSummary := {
  ns_node_id : string;
  ns_capability : string;
  ns_execution_class : ExecutionClass;
  ns_effects : list EffectClass;
  ns_authority_classes : list string;
  ns_egress_mode : EgressMode;
  ns_verification_gate : bool;
}.

Record GeneratedBy := {
  gen_id : option string;
  gen_version : option string;
}.

Record EffectSummary := {
  es_schema_version : string;
  es_semantic_program_hash : string;
  es_registry_snapshot_id : string;
  es_effects : list EffectClass;
  es_authority_classes : list string;
  es_egress_modes : list EgressMode;
  es_contains_probabilistic : bool;
  es_contains_opaque_external : bool;
  es_nodes : list NodeEffectSummary;
  es_verification_barriers : list string;
  es_generated_by : option GeneratedBy;
  es_generated_at : option string;
}.

Record ValidatorOutput := {
  vo_schema_version : string;
  vo_validation : ValidationResult;
  vo_effect_summary : option EffectSummary;
}.
