(* ===== verification/Collector.v ===== *)
(** * Deterministic, bounded diagnostic collection

    [crates/aios-ir/src/diagnostics.rs], and the monad in which the analysis
    functions of [semantics.rs] are written: a computation threads the
    [&mut DiagnosticCollector] and may panic ([None]), as an [expect] on an
    absent value does. *)

From S2P Require Import Prelude Json Contracts.

Record DiagnosticCollector := {
  col_diagnostics : list Diagnostic;
  col_max : nat;
  col_truncated : bool;
  col_saw_error : bool;
}.

Module DiagnosticCollector.

Definition new (max : nat) : DiagnosticCollector := {|
  col_diagnostics := [];
  col_max := max;
  col_truncated := false;
  col_saw_error := false;
|}.

Definition truncate_chars (maximum : nat) (value : string) : string := take_chars maximum value.

Definition truncate_optional (maximum : nat) (value : option string) : option string :=
  truncate_chars maximum <$> value.

(** The field-length normalization at the head of [push]. *)
Definition bound_fields (d : Diagnostic) : Diagnostic := {|
  diag_severity := diag_severity d;
  diag_code := diag_code d;
  diag_message := truncate_chars 4096 (diag_message d);
  diag_node_id := truncate_optional 128 (diag_node_id d);
  diag_port := truncate_optional 128 (diag_port d);
  diag_capability := truncate_optional 160 (diag_capability d);
  diag_json_pointer := truncate_optional 1024 (diag_json_pointer d);
  diag_related := truncate_chars 1024 <$> take 16 (diag_related d);
|}.

Definition push (diagnostic : Diagnostic) (self : DiagnosticCollector) : DiagnosticCollector :=
  let diagnostic := bound_fields diagnostic in
  let saw_error := col_saw_error self || bool_decide (diag_severity diagnostic = Error) in
  if length (col_diagnostics self) <? col_max self then
    {| col_diagnostics := col_diagnostics self ++ [diagnostic]; col_max := col_max self;
       col_truncated := col_truncated self; col_saw_error := saw_error |}
  else
    {| col_diagnostics := col_diagnostics self; col_max := col_max self;
       col_truncated := true; col_saw_error := saw_error |}.

Definition error (code : ValidatorReasonCode) (message : string) (self : DiagnosticCollector) :
    DiagnosticCollector :=
  push (Diagnostic_new code message) self.

Definition has_errors (self : DiagnosticCollector) : bool := col_saw_error self.

Definition is_truncated (self : DiagnosticCollector) : bool := col_truncated self.

Definition notice : Diagnostic :=
  Diagnostic_new IrLimitDiagnostics
    "additional diagnostics were suppressed by the configured limit".

(** [Vec::pop] drops the last element. *)
Definition vec_pop {A} (l : list A) : list A := take (length l - 1) l.

Definition finish (self : DiagnosticCollector) : list Diagnostic * bool :=
  if col_truncated self && (1 <? col_max self) then
    let kept :=
      if length (col_diagnostics self) =? col_max self
      then vec_pop (col_diagnostics self) else col_diagnostics self in
    (kept ++ [notice], col_truncated self)
  else (col_diagnostics self, col_truncated self).

End DiagnosticCollector.
Import DiagnosticCollector.

Definition contextual (code : ValidatorReasonCode) (message : string)
    (node_id port capability json_pointer : option string) : Diagnostic := {|
  diag_severity := ValidatorReasonCode.severity code;
  diag_code := code;
  diag_message := message;
  diag_node_id := node_id;
  diag_port := port;
  diag_capability := capability;
  diag_json_pointer := json_pointer;
  diag_related := [];
|}.

(** Pushing a sequence of diagnostics, in order. *)
Definition push_all (ds : list Diagnostic) (c : DiagnosticCollector) : DiagnosticCollector :=
  foldl (λ c d, push d c) c ds.

Definition is_error (d : Diagnostic) : bool := bool_decide (diag_severity d = Error).

(** ** The analysis monad *)

Definition Diag (A : Type) : Type := DiagnosticCollector → option (A * DiagnosticCollector).

#[export] Instance Diag_ret : MRet Diag := λ A a c, Some (a, c).
#[export] Instance Diag_bind : MBind Diag := λ A B k m c,
  match m c with None => None | Some (a, c') => k a c' end.

(** [diagnostics.push(d)] *)
Definition emit (d : Diagnostic) : Diag unit := λ c, Some ((), push d c).

(** [diagnostics.has_errors()] *)
Definition ask_errors : Diag bool := λ c, Some (has_errors c, c).

(** A panic, and [Option::expect]. *)
Definition panic {A} : Diag A := λ _, None.
Definition expect {A} (o : option A) : Diag A :=
  match o with Some a => mret a | None => panic end.

(** [if b { body }] *)
Definition when (b : bool) (body : Diag unit) : Diag unit := if b then body else mret ().

(** [for x in l { body }] *)
Fixpoint for_each {A} (l : list A) (body : A → Diag unit) : Diag unit :=
  match l with
  | [] => mret ()
  | x :: l' => body x ≫= λ _, for_each l' body
  end.

(** [for x in l { s = body(s, x) }] with loop-carried variables [s]. *)
Fixpoint for_fold {S A} (s : S) (l : list A) (body : S → A → Diag S) : Diag S :=
  match l with
  | [] => mret s
  | x :: l' => body s x ≫= λ s', for_fold s' l' body
  end.

(** ** Reasoning about checks

    Every analysis pass only appends to the collector.  [emits m a ds] says that
    [m] cannot panic, returns [a] and pushes exactly [ds]; [checks m P a] adds
    that the pushed diagnostics are free of errors exactly when [P] holds, so a
    pass is sound and complete for the condition [P]. *)

Definition emits {A} (m : Diag A) (a : A) (ds : list Diagnostic) : Prop :=
  ∀ c, m c = Some (a, push_all ds c).

Definition error_free (ds : list Diagnostic) : Prop := Forall (λ d, is_error d = false) ds.

Definition checks {A} (m : Diag A) (P : Prop) (a : A) : Prop :=
  ∃ ds, emits m a ds ∧ (error_free ds ↔ P).

(** *** The collector under [push_all] *)

Lemma push_all_app ds1 ds2 c : push_all (ds1 ++ ds2) c = push_all ds2 (push_all ds1 c).
Proof. apply foldl_app. Qed.

Lemma is_error_bound_fields d : is_error (bound_fields d) = is_error d.
Proof. done. Qed.

Lemma has_errors_push d c : has_errors (push d c) = has_errors c || is_error d.
Proof. unfold push, has_errors. by case_match. Qed.

Lemma col_max_push d c : col_max (push d c) = col_max c.
Proof. unfold push. by case_match. Qed.

Lemma has_errors_push_all ds c : has_errors (push_all ds c) = has_errors c || existsb is_error ds.
Proof.
  unfold push_all. revert c. induction ds as [|d ds IH]; intros c; simpl; [by rewrite orb_false_r|].
  by rewrite IH, has_errors_push, orb_assoc.
Qed.

Lemma error_free_existsb ds : error_free ds ↔ existsb is_error ds = false.
Proof.
  unfold error_free. induction ds as [|d ds IH]; simpl; [by split|].
  rewrite Forall_cons, IH, orb_false_iff. done.
Qed.

Lemma error_free_app ds1 ds2 : error_free (ds1 ++ ds2) ↔ error_free ds1 ∧ error_free ds2.
Proof. apply Forall_app. Qed.

(** A collector that saw no error before a check has seen none after it exactly
    when the checked condition holds. *)
Lemma checks_pushes {A} (m : Diag A) P a c :
  checks m P a → ∃ ds, m c = Some (a, push_all ds c) ∧
    (has_errors (push_all ds c) = false ↔ has_errors c = false ∧ P).
Proof.
  intros [ds [Hm HP]]. exists ds. split; [apply Hm|].
  rewrite has_errors_push_all, orb_false_iff, <-error_free_existsb, HP. done.
Qed.

Lemma checks_run {A} (m : Diag A) P a c :
  checks m P a → ∃ c', m c = Some (a, c') ∧ (has_errors c' = false ↔ has_errors c = false ∧ P).
Proof. intros (ds & ? & ?)%(checks_pushes _ _ _ c). eauto. Qed.

(** *** Structural rules *)

Lemma checks_iff {A} (m : Diag A) P Q a : checks m P a → (P ↔ Q) → checks m Q a.
Proof. intros [ds [Hm HP]] HPQ. exists ds. split; [done|]. by rewrite HP. Qed.

(** Conditions can be rewritten under [checks]. *)
#[export] Instance checks_proper {A} : Proper ((=) ==> iff ==> (=) ==> iff) (@checks A).
Proof. intros m ? <- P Q HPQ a ? <-. split; intros H; eapply checks_iff; eauto; by symmetry. Qed.

Lemma checks_ret {A} (a : A) : checks (mret a) True a.
Proof. exists []. split; [done|]. split; [done|]. by constructor. Qed.

Lemma checks_bind {A B} (m : Diag A) (k : A → Diag B) P Q a b :
  checks m P a → checks (k a) Q b → checks (m ≫= k) (P ∧ Q) b.
Proof.
  intros [ds1 [Hm HP]] [ds2 [Hk HQ]]. exists (ds1 ++ ds2). split.
  - intros c. unfold mbind, Diag_bind. by rewrite Hm, Hk, push_all_app.
  - by rewrite error_free_app, HP, HQ.
Qed.

Lemma checks_emit_error d : is_error d = true → checks (emit d) False ().
Proof.
  intros Hd. exists [d]. split; [done|]. split; [|done].
  intros Hf. apply Forall_cons in Hf as [? _]. congruence.
Qed.

Lemma checks_emit_warning d : is_error d = false → checks (emit d) True ().
Proof. intros Hd. exists [d]. split; [done|]. split; [done|]. by repeat constructor. Qed.

Lemma checks_expect {A} (o : option A) a : o = Some a → checks (expect o) True a.
Proof. intros ->. apply checks_ret. Qed.

Lemma checks_when b m P : checks m P () → checks (when b m) (b = true → P) ().
Proof.
  destruct b; simpl; intros Hm.
  - eapply checks_iff; [done|]. naive_solver.
  - eapply checks_iff; [apply checks_ret|]. naive_solver.
Qed.

(** An error guarded by a boolean test checks that the test fails. *)
Lemma checks_when_error b d : is_error d = true → checks (when b (emit d)) (b = false) ().
Proof.
  intros Hd. eapply checks_iff; [by apply checks_when, checks_emit_error|].
  destruct b; naive_solver.
Qed.

Lemma checks_for_each {A} (l : list A) (body : A → Diag unit) (P : A → Prop) :
  (∀ x, x ∈ l → checks (body x) (P x) ()) →
  checks (for_each l body) (∀ x, x ∈ l → P x) ().
Proof.
  induction l as [|x l IH]; simpl; intros Hbody.
  - eapply checks_iff; [apply checks_ret|]. by rewrite forall_elem_of_nil.
  - eapply checks_iff.
    + eapply checks_bind; [apply Hbody; by left|].
      apply IH. intros y Hy. apply Hbody. by right.
    + by rewrite forall_elem_of_cons.
Qed.

(** The condition accumulated along a loop that carries a state. *)
Fixpoint fold_ok {S A} (P : S → A → Prop) (step : S → A → S) (s : S) (l : list A) : Prop :=
  match l with
  | [] => True
  | x :: l' => P s x ∧ fold_ok P step (step s x) l'
  end.

Lemma checks_for_fold {S A} (l : list A) (body : S → A → Diag S) P step (s : S) :
  (∀ s x, x ∈ l → checks (body s x) (P s x) (step s x)) →
  checks (for_fold s l body) (fold_ok P step s l) (foldl step s l).
Proof.
  revert s. induction l as [|x l IH]; intros s Hbody; simpl; [apply checks_ret|].
  eapply checks_bind; [apply Hbody; by left|].
  apply IH. intros s' y Hy. apply Hbody. by right.
Qed.

(** A condition that does not read the loop state holds along the loop exactly
    when it holds of every element. *)
Lemma fold_ok_stateless {S A} (P : A → Prop) (step : S → A → S) s l :
  fold_ok (λ _, P) step s l ↔ (∀ x, x ∈ l → P x).
Proof.
  revert s. induction l as [|x l IH]; intros s; simpl;
    [by rewrite forall_elem_of_nil|].
  by rewrite IH, forall_elem_of_cons.
Qed.

(** Loops over the entries of a map and over enumerated lists. *)
Lemma checks_for_map {K V} `{Countable K, !OrdKey K} (m : gmap K V) (body : K * V → Diag unit)
    (P : K → V → Prop) :
  (∀ k v, m !! k = Some v → checks (body (k, v)) (P k v) ()) →
  checks (for_each (btree_iter m) body) (∀ k v, m !! k = Some v → P k v) ().
Proof.
  intros Hbody. eapply checks_iff.
  - apply (checks_for_each _ _ (λ kv, P kv.1 kv.2)). intros [k v] Hkv%elem_of_btree_iter. auto.
  - setoid_rewrite <-elem_of_btree_iter. split; [intros HP k v; apply (HP (k, v))|].
    intros HP [k v]. apply HP.
Qed.

Lemma checks_for_enumerate {A} (l : list A) (body : nat * A → Diag unit) (P : A → Prop) :
  (∀ i x, x ∈ l → checks (body (i, x)) (P x) ()) →
  checks (for_each (enumerate l) body) (∀ x, x ∈ l → P x) ().
Proof.
  intros Hbody. rewrite <-(Forall_enumerate P). apply checks_for_each.
  intros [i x] Hix%elem_of_enumerate. apply Hbody. by eapply list_elem_of_lookup_2.
Qed.

Lemma foldl_imap_snd {S A} (step : S → A → S) (f : nat → A → nat * A) s l :
  (∀ i x, (f i x).2 = x) → foldl (λ s ix, step s ix.2) s (imap f l) = foldl step s l.
Proof.
  revert f s. induction l as [|x l IH]; intros f s Hf; simpl; [done|].
  rewrite Hf. apply (IH (f ∘ Datatypes.S)). intros. apply Hf.
Qed.

Lemma checks_for_fold_enumerate {S A} (l : list A) (body : S → nat * A → Diag S)
    (P : A → Prop) (step : S → A → S) s :
  (∀ s i x, x ∈ l → checks (body s (i, x)) (P x) (step s x)) →
  checks (for_fold s (enumerate l) body) (∀ x, x ∈ l → P x) (foldl step s l).
Proof.
  intros Hbody. rewrite <-(Forall_enumerate P).
  rewrite <-(foldl_imap_snd step pair s l) by done. eapply checks_iff.
  - apply (checks_for_fold _ _ (λ _ ix, P ix.2)). intros s' [i x] Hix%elem_of_enumerate.
    apply Hbody. by eapply list_elem_of_lookup_2.
  - apply (fold_ok_stateless (λ ix : nat * A, P ix.2)).
Qed.

Lemma is_error_contextual code msg n p c j :
  ValidatorReasonCode.severity code = Error → is_error (contextual code msg n p c j) = true.
Proof. unfold is_error. simpl. intros ->. done. Qed.

(** ** Which diagnostics a pass reports *)

(** [m] returns [a] and reports exactly the diagnostics in [Q]. *)
Definition reports {A} (m : Diag A) (Q : Diagnostic → Prop) (a : A) : Prop :=
  ∃ ds, emits m a ds ∧ ∀ d, d ∈ ds ↔ Q d.

Lemma reports_iff {A} (m : Diag A) P Q a : reports m P a → (∀ d, P d ↔ Q d) → reports m Q a.
Proof. intros (ds & Hm & Hds) HPQ. exists ds. split; [done|]. intros d. by rewrite Hds. Qed.

Lemma reports_ret {A} (a : A) : reports (mret a) (λ _, False) a.
Proof. exists []. split; [done|]. intros d. by rewrite elem_of_nil. Qed.

Lemma reports_emit d : reports (emit d) (λ d', d' = d) ().
Proof. exists [d]. split; [done|]. intros d'. by rewrite list_elem_of_singleton. Qed.

Lemma reports_bind {A B} (m : Diag A) (k : A → Diag B) P Q a b :
  reports m P a → reports (k a) Q b → reports (m ≫= k) (λ d, P d ∨ Q d) b.
Proof.
  intros (ds1 & Hm & HP) (ds2 & Hk & HQ). exists (ds1 ++ ds2). split.
  - intros c. unfold mbind, Diag_bind. by rewrite Hm, Hk, push_all_app.
  - intros d. by rewrite elem_of_app, HP, HQ.
Qed.

Lemma reports_expect {A B} (o : option A) (k : A → Diag B) Q a b :
  o = Some a → reports (k a) Q b → reports (expect o ≫= k) Q b.
Proof. intros ->. done. Qed.

Lemma reports_for_each {A} (l : list A) (body : A → Diag unit) (Q : A → Diagnostic → Prop) :
  (∀ x, x ∈ l → reports (body x) (Q x) ()) →
  reports (for_each l body) (λ d, ∃ x, x ∈ l ∧ Q x d) ().
Proof.
  induction l as [|x l IH]; simpl; intros Hbody.
  - eapply reports_iff; [apply reports_ret|]. set_solver.
  - eapply reports_iff.
    + eapply reports_bind; [apply Hbody; by left|]. apply IH. intros y Hy. apply Hbody. by right.
    + intros d. setoid_rewrite elem_of_cons. naive_solver.
Qed.

(** A pass that reports no error checks nothing. *)
Lemma reports_checks {A} (m : Diag A) Q a :
  reports m Q a → (∀ d, Q d → is_error d = false) → checks m True a.
Proof.
  intros (ds & Hm & Hds) HQ. exists ds. split; [done|]. split; [done|]. intros _.
  apply Forall_forall. intros d Hd%Hds. auto.
Qed.

#[export] Hint Resolve checks_ret checks_emit_error checks_when_error is_error_contextual : aios.

(** Close a guarded error report, and take one step of a sequence of checks. *)
Ltac check_error :=
  solve [apply checks_when_error, is_error_contextual; reflexivity
        |apply checks_emit_error, is_error_contextual; reflexivity].
Ltac check_step := eapply checks_bind; [solve [check_error|eauto with aios]|].

(** ** Output of the collector *)

(** The output for a sequence of reported diagnostics: all of them when they fit;
    otherwise the first ones, the last place taken by the suppression notice. *)
Definition collected (max : nat) (ds : list Diagnostic) : list Diagnostic :=
  if bool_decide (length ds ≤ max) then bound_fields <$> ds
  else if 1 <? max then take (max - 1) (bound_fields <$> ds) ++ [notice]
  else take max (bound_fields <$> ds).

Lemma push_all_new max ds :
  push_all ds (new max) = {|
    col_diagnostics := take max (bound_fields <$> ds);
    col_max := max;
    col_truncated := bool_decide (max < length ds);
    col_saw_error := existsb is_error ds;
  |}.
Proof.
  induction ds as [|d ds IH] using rev_ind; [by destruct max|].
  rewrite push_all_app, IH. simpl. unfold push. simpl.
  rewrite fmap_app, length_take, length_fmap, length_app, existsb_app. simpl. rewrite orb_false_r.
  change (bool_decide (diag_severity d = Error)) with (is_error d).
  destruct (Nat.ltb_spec (max `min` length ds) max) as [Hlt|Hge].
  - f_equal.
    + rewrite !take_ge by (rewrite ?length_app, length_fmap; simpl; lia). done.
    + rewrite !bool_decide_eq_false_2 by lia. done.
  - f_equal.
    + rewrite take_app_le by (rewrite length_fmap; lia). done.
    + rewrite bool_decide_eq_true_2 by lia. done.
Qed.

(** C32: The collector is bounded and never forgets an error.  For every sequence
    of reported diagnostics, [finish] yields all of them (with their fields
    bounded) when they fit the limit, otherwise the first ones with the
    suppression notice in the last place (without a notice under a limit of one);
    the list never exceeds the limit, the truncation flag says whether anything
    was suppressed, and [has_errors] is true exactly when an error was reported,
    suppressed or not. *)
Theorem collector_output max ds :
  finish (push_all ds (new max)) = (collected max ds, bool_decide (max < length ds)) ∧
  length (collected max ds) ≤ max ∧
  (has_errors (push_all ds (new max)) = true ↔ ∃ d, d ∈ ds ∧ diag_severity d = Error).
Proof.
  rewrite push_all_new. unfold finish, collected, vec_pop, has_errors. simpl. split_and!.
  - rewrite length_take, length_fmap. case_bool_decide as Hlt.
    + rewrite bool_decide_eq_false_2 by lia. simpl. destruct (Nat.ltb_spec 1 max); [|done].
      rewrite (proj2 (Nat.eqb_eq _ _)) by lia. rewrite take_take. do 3 f_equal. lia.
    + rewrite bool_decide_eq_true_2 by lia. simpl. by rewrite take_ge by (rewrite length_fmap; lia).
  - case_bool_decide; [by rewrite length_fmap|]. destruct (Nat.ltb_spec 1 max).
    + rewrite length_app, length_take, length_fmap. simpl. lia.
    + rewrite length_take, length_fmap. lia.
  - rewrite existsb_exists. setoid_rewrite <-list_elem_of_In. unfold is_error.
    by setoid_rewrite bool_decide_eq_true.
Qed.

(** C33: Every diagnostic of the output respects the field bounds of the report
    format: at most 4096 characters of message, 128 of node and port, 160 of
    capability, 1024 of pointer, and at most 16 related entries of 1024. *)
Theorem collector_fields_bounded max ds d :
  d ∈ (finish (push_all ds (new max))).1 →
  chars_count (diag_message d) ≤ 4096 ∧
  (∀ s, diag_node_id d = Some s → chars_count s ≤ 128) ∧
  (∀ s, diag_port d = Some s → chars_count s ≤ 128) ∧
  (∀ s, diag_capability d = Some s → chars_count s ≤ 160) ∧
  (∀ s, diag_json_pointer d = Some s → chars_count s ≤ 1024) ∧
  length (diag_related d) ≤ 16 ∧ (∀ s, s ∈ diag_related d → chars_count s ≤ 1024).
Proof.
  assert (∀ d, d ∈ bound_fields <$> ds ∨ d = notice →
    ∃ d', d = bound_fields d') as Hsrc.
  { intros d' [(x & -> & _)%list_elem_of_fmap| ->]; [by exists x|by exists notice]. }
  rewrite push_all_new. unfold finish, vec_pop. simpl. intros Hd.
  destruct (Hsrc d) as [x ->].
  { destruct (bool_decide (max < length ds) && (1 <? max)).
    - simpl in Hd. apply elem_of_app in Hd as [Hd|Hd%list_elem_of_singleton]; [|by right].
      left. case_match; [apply elem_of_take in Hd as (i & Hd%list_elem_of_lookup_2 & _)|];
        by apply elem_of_take in Hd as (j & Hd%list_elem_of_lookup_2 & _).
    - left. simpl in Hd. by apply elem_of_take in Hd as (j & Hd%list_elem_of_lookup_2 & _). }
  assert (∀ n s, chars_count (take_chars n s) ≤ n) as Hn
    by (intros; rewrite chars_count_take_chars; lia).
  unfold bound_fields, truncate_optional, truncate_chars. simpl. split_and!; [apply Hn|..].
  - intros s (t & _ & ->)%fmap_Some. apply Hn.
  - intros s (t & _ & ->)%fmap_Some. apply Hn.
  - intros s (t & _ & ->)%fmap_Some. apply Hn.
  - intros s (t & _ & ->)%fmap_Some. apply Hn.
  - rewrite length_fmap, length_take. lia.
  - intros s (t & -> & _)%list_elem_of_fmap. apply Hn.
Qed.

Lemma collector_fields_bounded_witness : chars_count (diag_message notice) ≤ 4096.
Proof.
  refine (proj1 (collector_fields_bounded 2 [notice; notice; notice] notice _)). vm_compute. right. left.
Defined.
