(* ===== verification/Version.v ===== *)
(** * Contract versions and semantic references

    [crates/aios-registry/src/version.rs] with the code part of
    [error.rs]: registry failures carry the reason code that the catalog
    assigns; the prose of their messages and their paths are not modelled. *)

From S2P Require Import Prelude Json Contracts.

(** [RegistryError]: [None] is an operational (I/O) failure. *)
Record RegistryError := { re_code : option ValidatorReasonCode }.

Abbreviation RegistryResult := (result RegistryError).

Module RegistryError.
Definition validation (code : ValidatorReasonCode) : RegistryError := {| re_code := Some code |}.
Definition operational : RegistryError := {| re_code := None |}.
Definition schema : RegistryError := validation RegistrySchemaInvalid.
Definition is_operational (e : RegistryError) : bool := bool_decide (re_code e = None).
Definition reason_code (e : RegistryError) : option ValidatorReasonCode := re_code e.
End RegistryError.

(** [str::split(c)]: one component more than there are separators. *)
Fixpoint split_char (c : ascii) (s : string) : list string :=
  match s with
  | EmptyString => [""]
  | String d s' =>
      if bool_decide (d = c) then "" :: split_char c s'
      else match split_char c s' with
           | [] => [String d ""]
           | w :: ws => String d w :: ws
           end
  end.

(** [str::rsplit_once(c)]: split at the last occurrence. *)
Fixpoint rsplit_once (c : ascii) (s : string) : option (string * string) :=
  match s with
  | EmptyString => None
  | String d s' =>
      match rsplit_once c s' with
      | Some (l, r) => Some (String d l, r)
      | None => if bool_decide (d = c) then Some ("", s') else None
      end
  end.

Record FullVersion := {
  fv_major : N;
  fv_minor : N;
  fv_patch : option N;
  fv_source : string;
}.

(** The component grammar shared by versions and major selectors. *)
Definition component_ok (component : string) : bool :=
  negb (bool_decide (component = "")) && string_forallb is_digit component &&
  negb ((1 <? byte_len component) && starts_with "0" component).

Definition parse_component (component : string) : RegistryResult N :=
  if negb (component_ok component) then Err RegistryError.schema
  else match parse_u64 component with
       | Some n => Ok n
       | None => Err RegistryError.schema
       end.

Module FullVersion.

Definition parse (source : string) : RegistryResult FullVersion :=
  let build major minor patch :=
    {| fv_major := major; fv_minor := minor; fv_patch := patch; fv_source := source |} in
  match split_char "." source with
  | [c0; c1] =>
      major ← parse_component c0; minor ← parse_component c1;
      mret (build major minor None)
  | [c0; c1; c2] =>
      major ← parse_component c0; minor ← parse_component c1; patch ← parse_component c2;
      mret (build major minor (Some patch))
  | _ => Err RegistryError.schema
  end.

(** [Ord::cmp]: major, minor, patch (absent as zero), then the source text. *)
Definition cmp (a b : FullVersion) : comparison :=
  match N.compare (fv_major a) (fv_major b) with
  | Eq => match N.compare (fv_minor a) (fv_minor b) with
          | Eq => match N.compare (default 0%N (fv_patch a)) (default 0%N (fv_patch b)) with
                  | Eq => String.compare (fv_source a) (fv_source b)
                  | o => o
                  end
          | o => o
          end
  | o => o
  end.

End FullVersion.

Record SemanticRef := {
  sr_id : string;
  sr_major : N;
}.

Definition is_lower (c : ascii) : bool :=
  let n := Ascii.N_of_ascii c in (97 <=? n)%N && (n <=? 122)%N.

Definition semantic_id_char (c : ascii) : bool :=
  is_lower c || is_digit c || bool_decide (c = "_"%char) || bool_decide (c = "."%char) ||
  bool_decide (c = "-"%char).

Definition semantic_id_ok (id : string) : bool :=
  match id with
  | EmptyString => false
  | String c rest => is_lower c && string_forallb semantic_id_char rest
  end.

Definition validate_semantic_id (id : string) : RegistryResult unit :=
  if (byte_len id <? 3) || (160 <? byte_len id) then Err RegistryError.schema
  else if negb (semantic_id_ok id) then Err RegistryError.schema
  else Ok ().

Module SemanticRef.

Definition parse (source : string) : RegistryResult SemanticRef :=
  match rsplit_once "@" source with
  | None => Err RegistryError.schema
  | Some (id, major) =>
      _ ← validate_semantic_id id;
      if negb (component_ok major) then Err RegistryError.schema
      else match parse_u64 major with
           | None => Err RegistryError.schema
           | Some major => mret {| sr_id := id; sr_major := major |}
           end
  end.

(** The canonical spelling of a reference. *)
Definition render (r : SemanticRef) : string := sr_id r +++ "@" +++ pretty (sr_major r).

End SemanticRef.

(** ** Lemmas *)

Lemma component_ok_canonical s : component_ok s = canonical_numeral s.
Proof.
  unfold component_ok. destruct s as [|c s]; [done|].
  rewrite (bool_decide_eq_false_2 (String c s = "")) by done. simpl negb.
  unfold canonical_numeral. simpl andb. f_equal. f_equal. unfold starts_with. simpl.
  destruct s as [|d s]; simpl.
  - by rewrite andb_false_r.
  - rewrite andb_true_r. repeat case_bool_decide; congruence.
Qed.

Lemma parse_component_ok s n :
  parse_component s = Ok n ↔ s = pretty n ∧ (n ≤ u64_max)%N.
Proof.
  unfold parse_component, parse_u64. rewrite component_ok_canonical. split.
  - destruct (canonical_numeral s) eqn:Hs; [simpl|done].
    destruct (N.leb_spec (decimal_value 0 s) u64_max); [|done].
    intros [= <-]. by rewrite pretty_decimal_value.
  - intros [-> Hn]. rewrite canonical_numeral_pretty, decimal_value_pretty. simpl.
    apply N.leb_le in Hn. by rewrite Hn.
Qed.

(** A character that does not occur in a string. *)
Definition absent (c : ascii) (s : string) : bool :=
  string_forallb (λ d, negb (bool_decide (d = c))) s.

Lemma rsplit_once_Some c s l r :
  rsplit_once c s = Some (l, r) ↔ s = l +++ String c r ∧ absent c r = true.
Proof.
  unfold absent. revert l. induction s as [|d s IH]; intros l; simpl.
  - split; [done|]. intros [Heq _]. by destruct l.
  - destruct (rsplit_once c s) as [[l' r']|] eqn:E.
    + split.
      * intros [= <- <-]. destruct (proj1 (IH l')) as [-> Hr]; [done|]. by rewrite append_cons.
      * intros [Heq Hr]. destruct l as [|e l].
        -- injection Heq as -> ->. exfalso.
           assert (∀ l, ¬ rsplit_once c r = Some (l, r')) as Hno; [|by apply (Hno l')].
           clear -Hr. revert r' Hr. induction r as [|d r IHr]; intros r' Hr l; simpl; [done|].
           simpl in Hr. apply andb_true_iff in Hr as [Hd Hr].
           destruct (rsplit_once c r) as [[l1 r1]|] eqn:E1.
           ++ intros [= <- <-]. by eapply (IHr _ Hr).
           ++ apply negb_true_iff, bool_decide_eq_false_1 in Hd.
              by rewrite bool_decide_eq_false_2.
        -- rewrite append_cons in Heq. injection Heq as -> ->.
           pose proof (proj2 (IH l) (conj eq_refl Hr)). by simplify_eq.
    + case_bool_decide as Hd; subst.
      * split.
        -- intros [= <- <-]. split; [done|].
           clear IH. induction s as [|e s IHs]; simpl in *; [done|].
           destruct (rsplit_once c s) as [[]|]; [done|]. case_bool_decide; [done|].
           simpl. by apply IHs.
        -- intros [Heq Hr]. destruct l as [|e l]; [by injection Heq as ->|].
           rewrite append_cons in Heq. injection Heq as <- Heq.
           by pose proof (proj2 (IH l) (conj Heq Hr)).
      * split; [done|]. intros [Heq Hr]. destruct l as [|e l]; [by injection Heq as ->|].
        rewrite append_cons in Heq. injection Heq as <- Heq.
        by pose proof (proj2 (IH l) (conj Heq Hr)).
Qed.

Lemma absent_digits s : string_forallb is_digit s = true → absent "@" s = true.
Proof.
  unfold absent. induction s as [|c s IH]; simpl; [done|].
  intros [Hc Hs]%andb_true_iff. rewrite IH by done. case_bool_decide; [|done]. by subst.
Qed.

Lemma canonical_numeral_digits s : canonical_numeral s = true → string_forallb is_digit s = true.
Proof. destruct s; [done|]. simpl. by intros [? _]%andb_true_iff. Qed.

(** Parsing a reference inverts its canonical rendering: the accepted texts are
    exactly the renderings of references with a valid identifier and a [u64]
    major. *)
Lemma SemanticRef_parse_spec s r :
  SemanticRef.parse s = Ok r ↔
  s = SemanticRef.render r ∧ validate_semantic_id (sr_id r) = Ok () ∧ (sr_major r ≤ u64_max)%N.
Proof.
  unfold SemanticRef.parse, SemanticRef.render. split.
  - destruct (rsplit_once "@" s) as [[id major]|] eqn:E; [|done].
    apply rsplit_once_Some in E as [-> _].
    destruct (validate_semantic_id id) as [[]|] eqn:Hid; [|done]. simpl.
    pose proof (parse_component_ok major) as Hpc. unfold parse_component in Hpc.
    destruct (component_ok major); [simpl in *|done].
    destruct (parse_u64 major) as [n|]; [|done]. intros [= <-]. simpl.
    destruct (proj1 (Hpc n)) as [-> Hn]; [done|]. done.
  - intros (-> & Hid & Hn). destruct r as [id n]; simpl in *.
    rewrite (proj2 (rsplit_once_Some "@" _ id (pretty n))).
    + rewrite Hid. simpl.
      pose proof (proj2 (parse_component_ok (pretty n) n) (conj eq_refl Hn)) as Hpc.
      unfold parse_component in Hpc. destruct (component_ok (pretty n)); [simpl in *|done].
      destruct (parse_u64 (pretty n)); by simplify_eq.
    + split; [done|]. by apply absent_digits, canonical_numeral_digits, canonical_numeral_pretty.
Qed.

(** ** Versions *)

Fixpoint join_char (c : ascii) (ws : list string) : string :=
  match ws with
  | [] => ""
  | [w] => w
  | w :: ws' => w +++ String c (join_char c ws')
  end.

Lemma split_char_nonempty c s : split_char c s ≠ [].
Proof. destruct s; simpl; [done|]. case_bool_decide; [done|]. by destruct (split_char c s). Qed.

Lemma join_split_char c s : join_char c (split_char c s) = s.
Proof.
  induction s as [|d s IH]; simpl; [done|].
  pose proof (split_char_nonempty c s). case_bool_decide as Hd; subst.
  - destruct (split_char c s) eqn:E; [done|]. rewrite <-IH. done.
  - destruct (split_char c s) as [|w [|w' ws]]; [done|..]; simpl in *; [by rewrite IH|].
    by rewrite <-IH.
Qed.

Lemma split_char_absent c s : absent c s = true → split_char c s = [s].
Proof.
  unfold absent. induction s as [|d s IH]; simpl; [done|].
  intros [Hd Hs]%andb_true_iff. apply negb_true_iff in Hd. by rewrite Hd, IH.
Qed.

Lemma split_char_app c s t : absent c s = true → split_char c (s +++ String c t) = s :: split_char c t.
Proof.
  unfold absent. induction s as [|d s IH]; simpl; [intros _|].
  - change ("" +++ String c t) with (String c t). simpl. by rewrite bool_decide_eq_true_2.
  - intros [Hd Hs]%andb_true_iff. apply negb_true_iff in Hd.
    by rewrite Hd, IH.
Qed.

Lemma absent_dot_pretty (n : N) : absent "." (pretty n) = true.
Proof.
  assert (∀ s, string_forallb is_digit s = true → absent "." s = true) as Hd.
  { unfold absent. induction s as [|c s IH]; simpl; [done|].
    intros [Hc Hs]%andb_true_iff. rewrite IH by done. case_bool_decide; [|done]. by subst. }
  apply Hd, canonical_numeral_digits, canonical_numeral_pretty.
Qed.

(** The canonical spelling of a version. *)
Definition FullVersion_render (v : FullVersion) : string :=
  join_char "." (pretty (fv_major v) :: pretty (fv_minor v) ::
    match fv_patch v with Some patch => [pretty patch] | None => [] end).

Definition FullVersion_in_range (v : FullVersion) : Prop :=
  (fv_major v ≤ u64_max)%N ∧ (fv_minor v ≤ u64_max)%N ∧
  (∀ patch, fv_patch v = Some patch → (patch ≤ u64_max)%N).

Lemma parse_component_cases s :
  (∃ n, parse_component s = Ok n ∧ s = pretty n ∧ (n ≤ u64_max)%N) ∨ ∃ e, parse_component s = Err e.
Proof.
  destruct (parse_component s) as [n|e] eqn:E; [left|right; eauto].
  apply parse_component_ok in E as [-> Hn]. eauto.
Qed.

Lemma FullVersion_parse_spec s v :
  FullVersion.parse s = Ok v ↔
  s = FullVersion_render v ∧ fv_source v = s ∧ FullVersion_in_range v.
Proof.
  unfold FullVersion.parse, FullVersion_render, FullVersion_in_range. split.
  - intros Hp. rewrite <-(join_split_char "." s) at 1.
    destruct (split_char "." s) as [|c0 [|c1 [|c2 [|c3 ws]]]]; [done|done| | |done].
    + destruct (parse_component_cases c0) as [(n0 & E0 & -> & H0)|[e E0]]; rewrite E0 in Hp; [simpl in Hp|done].
      destruct (parse_component_cases c1) as [(n1 & E1 & -> & H1)|[e E1]]; rewrite E1 in Hp; [simpl in Hp|done].
      injection Hp as <-. simpl. naive_solver.
    + destruct (parse_component_cases c0) as [(n0 & E0 & -> & H0)|[e E0]]; rewrite E0 in Hp; [simpl in Hp|done].
      destruct (parse_component_cases c1) as [(n1 & E1 & -> & H1)|[e E1]]; rewrite E1 in Hp; [simpl in Hp|done].
      destruct (parse_component_cases c2) as [(n2 & E2 & -> & H2)|[e E2]]; rewrite E2 in Hp; [simpl in Hp|done].
      injection Hp as <-. simpl. naive_solver.
  - intros (-> & Hsrc & H0 & H1 & H2). destruct v as [n0 n1 [n2|] src]; simpl in *; subst src.
    + rewrite !split_char_app, split_char_absent by apply absent_dot_pretty.
      rewrite !(proj2 (parse_component_ok _ _)) by (split; [done|]; auto). done.
    + rewrite !split_char_app, split_char_absent by apply absent_dot_pretty.
      rewrite !(proj2 (parse_component_ok _ _)) by (split; [done|]; auto). done.
Qed.

(** ** The theorems *)

(** C36: Parsing a semantic reference is the exact inverse of its canonical
    rendering: a text is accepted as a given reference exactly when it is that
    reference's canonical spelling, its identifier obeys the grammar and its major
    fits [u64].  In particular no two texts denote the same reference. *)
Theorem semantic_ref_canonical s r :
  SemanticRef.parse s = Ok r ↔
  s = SemanticRef.render r ∧ validate_semantic_id (sr_id r) = Ok () ∧ (sr_major r ≤ u64_max)%N.
Proof. apply SemanticRef_parse_spec. Qed.

(** C37: Parsing a contract version is the exact inverse of its canonical rendering
    ([MAJOR.MINOR] or [MAJOR.MINOR.PATCH], no leading zeros, every component within
    [u64]), and the derived order is consistent with equality on parsed versions. *)
Theorem full_version_canonical s t v w :
  (FullVersion.parse s = Ok v ↔
   s = FullVersion_render v ∧ fv_source v = s ∧ FullVersion_in_range v) ∧
  (FullVersion.parse s = Ok v → FullVersion.parse t = Ok w →
   FullVersion.cmp v w = Eq ↔ v = w).
Proof.
  split; [apply FullVersion_parse_spec|].
  intros Hv Hw. split.
  - unfold FullVersion.cmp. do 3 (destruct (N.compare _ _); [|done..]). intros Hc%String.compare_eq_iff.
    apply FullVersion_parse_spec in Hv as Hv', Hw as Hw'. destruct Hv' as (_ & Hv' & _), Hw' as (_ & Hw' & _).
    congruence.
  - intros ->. unfold FullVersion.cmp. rewrite !N.compare_refl.
    pose proof (String.compare_antisym (fv_source w) (fv_source w)) as Hsym. by destruct (String.compare _ _).
Qed.

Lemma full_version_canonical_witness :
  ∃ v w, FullVersion.parse "1.0" = Ok v ∧ FullVersion.parse "1.0.0" = Ok w ∧
    (FullVersion.cmp v w = Eq ↔ v = w) ∧ FullVersion.cmp v w = Lt.
Proof.
  eexists _, _. split; [reflexivity|]. split; [reflexivity|]. split; [|reflexivity].
  apply (proj2 (full_version_canonical "1.0" "1.0.0" _ _)); reflexivity.
Defined.
