(* ===== verification/Registry.v ===== *)
(** * The semantic registry

    The immutable registry of [crates/aios-registry/src/loader.rs] as validation
    uses it ([SemanticRegistry] and its lookups), and the closed authority-class
    mapping of [authority.rs].  The analysis is written against the class
    [ContractRegistry], the part of the registry that it calls. *)

From S2P Require Import Prelude Json Contracts Version.

(** ** authority.rs *)

Definition effect_for_authority_class (authority : string) : option EffectClass :=
  if bool_decide (authority = "artifact.read") then Some ArtifactRead
  else if bool_decide (authority = "artifact.write") then Some ArtifactWrite
  else if bool_decide (authority = "network.connect") then Some Network
  else if bool_decide (authority = "data.egress") then Some DataEgress
  else if bool_decide (authority = "external.send") then Some ExternalMessage
  else if bool_decide (authority = "secret.use") then Some SecretAccess
  else if bool_decide (authority = "state.write") then Some PersistentState
  else if bool_decide (authority = "device.use") then Some DeviceAccess
  else if bool_decide (authority = "system.change") then Some SystemChange
  else None.

(** ** loader.rs: the loaded registry *)

Inductive HashVerificationMode := Strict | BootstrapGenerate.

#[export] Instance HashVerificationMode_eq_dec : EqDecision HashVerificationMode.
Proof. solve_decision. Defined.

Record SemanticRegistry := {
  reg_snapshot : RegistrySnapshot;
  reg_snapshot_id : string;
  reg_hash_verification : HashVerificationMode;
  reg_types : gmap (string * N) TypeContract;
  reg_capabilities : gmap (string * N) CapabilityContract;
  reg_type_hashes : gmap (string * N) string;
  reg_capability_hashes : gmap (string * N) string;
}.

Module SemanticRegistry.

Definition type_contract (self : SemanticRegistry) (id : string) (major : N) : option TypeContract :=
  reg_types self !! (id, major).

Definition capability_contract (self : SemanticRegistry) (id : string) (major : N) :
    option CapabilityContract :=
  reg_capabilities self !! (id, major).

Definition capability_contract_hash (self : SemanticRegistry) (id : string) (major : N) :
    option string :=
  reg_capability_hashes self !! (id, major).

Definition type_contract_hash (self : SemanticRegistry) (id : string) (major : N) :
    option string :=
  reg_type_hashes self !! (id, major).

Definition resolve_type (self : SemanticRegistry) (semantic_ref : string) :
    RegistryResult (option TypeContract) :=
  r ← SemanticRef.parse semantic_ref;
  mret (type_contract self (sr_id r) (sr_major r)).

Definition resolve_capability (self : SemanticRegistry) (semantic_ref : string) :
    RegistryResult (option CapabilityContract) :=
  r ← SemanticRef.parse semantic_ref;
  mret (capability_contract self (sr_id r) (sr_major r)).

Definition snapshot_id (self : SemanticRegistry) : string := reg_snapshot_id self.

Definition is_strictly_verified (self : SemanticRegistry) : bool :=
  bool_decide (reg_hash_verification self = Strict).

End SemanticRegistry.

(** ** What validation asks of a registry *)

Class ContractRegistry (R : Type) := {
  resolve_type : R → string → RegistryResult (option TypeContract);
  resolve_capability : R → string → RegistryResult (option CapabilityContract);
  snapshot_id : R → string;
  is_strictly_verified : R → bool;
}.

(** Only texts that parse as a semantic reference resolve. *)
Class ContractRegistryOk (R : Type) `{ContractRegistry R} : Prop := {
  resolve_type_parses : ∀ (r : R) s t,
    resolve_type r s = Ok (Some t) → ∃ sr, SemanticRef.parse s = Ok sr;
  resolve_capability_parses : ∀ (r : R) s c,
    resolve_capability r s = Ok (Some c) → ∃ sr, SemanticRef.parse s = Ok sr;
}.

#[export] Instance SemanticRegistry_ContractRegistry : ContractRegistry SemanticRegistry := {|
  resolve_type := SemanticRegistry.resolve_type;
  resolve_capability := SemanticRegistry.resolve_capability;
  snapshot_id := SemanticRegistry.snapshot_id;
  is_strictly_verified := SemanticRegistry.is_strictly_verified;
|}.

#[export] Instance SemanticRegistry_ContractRegistryOk : ContractRegistryOk SemanticRegistry.
Proof.
  split; intros r s x; simpl;
    unfold SemanticRegistry.resolve_type, SemanticRegistry.resolve_capability;
    destruct (SemanticRef.parse s); eauto; done.
Qed.

(** [.ok().flatten()] on a lookup. *)
Definition flatten {E A} (r : result E (option A)) : option A :=
  match r with Ok (Some a) => Some a | _ => None end.

(** ** Lemmas *)

Lemma effect_for_authority_class_inj a b e :
  effect_for_authority_class a = Some e → effect_for_authority_class b = Some e → a = b.
Proof.
  unfold effect_for_authority_class. intros Ha Hb.
  repeat (case_bool_decide; [simplify_eq; repeat (case_bool_decide; [by simplify_eq|]); done|]).
  done.
Qed.

(** C38: Resolution is by identity and major version alone: a reference resolves
    exactly when it is the canonical spelling of an identifier and a [u64] major
    that the snapshot holds, and it yields that entry. *)
Theorem resolve_capability_exact registry s contract :
  SemanticRegistry.resolve_capability registry s = Ok (Some contract) ↔
  ∃ r, s = SemanticRef.render r ∧ validate_semantic_id (sr_id r) = Ok () ∧ (sr_major r ≤ u64_max)%N ∧
    reg_capabilities registry !! (sr_id r, sr_major r) = Some contract.
Proof.
  unfold SemanticRegistry.resolve_capability, SemanticRegistry.capability_contract. split.
  - destruct (SemanticRef.parse s) as [r|e] eqn:Hp; [|done]. simpl. intros [= Hc].
    apply SemanticRef_parse_spec in Hp as (? & ? & ?). by exists r.
  - intros (r & Hs & Hid & Hm & Hc). rewrite (proj2 (SemanticRef_parse_spec s r)) by done. simpl.
    by rewrite Hc.
Qed.
