(* ===== verification/References.v ===== *)
(** * Node indexing and reference resolution

    [index_nodes], [validate_references], [validate_value_ref] and
    [escape_pointer] of [crates/aios-ir/src/semantics.rs]. *)

From S2P Require Import Prelude Json Contracts Collector.

(** [escape_pointer]: RFC 6901 escaping of one reference token. *)
Definition escape_pointer (value : string) : string :=
  replace_char "/" "~1" (replace_char "~" "~0" value).

Definition index_nodes (program : AiosIr) : Diag (option (gmap string Node)) :=
  nodes ← for_fold (∅ : gmap string Node) (enumerate (program_nodes program))
    (λ nodes '(index, node),
      _ ← when (bool_decide (is_Some (nodes !! node_id node)))
        (emit (contextual IrGraphDuplicateNodeId
          ("node ID '" +++ node_id node +++ "' occurs more than once")
          (Some (node_id node)) None (Some (op_capability (node_operation node)))
          (Some ("/nodes/" +++ pretty index +++ "/id"))));
      mret (<[node_id node := node]> nodes));
  errors ← ask_errors;
  mret (if errors : bool then None else Some nodes).

Definition validate_value_ref (value_ref : ValueRef) (program : AiosIr) (nodes : gmap string Node)
    (consumer : option Node) (consumer_port : option string) (pointer : string) : Diag unit :=
  let consumer_capability := op_capability ∘ node_operation <$> consumer in
  match value_ref with
  | ValueRef_Input name =>
      when (bool_decide (program_inputs program !! name = None))
        (emit (contextual IrReferenceInputNotFound
          ("program input '" +++ name +++ "' does not exist")
          (node_id <$> consumer) consumer_port consumer_capability (Some pointer)))
  | ValueRef_Node node port =>
      match nodes !! node with
      | None =>
          emit (contextual IrReferenceNodeNotFound
            ("referenced node '" +++ node +++ "' does not exist")
            (node_id <$> consumer) consumer_port consumer_capability (Some pointer))
      | Some producer =>
          when (bool_decide (node_outputs producer !! port = None))
            (emit (contextual IrReferencePortNotFound
              ("node '" +++ node +++ "' has no declared output port '" +++ port +++ "'")
              (node_id <$> consumer) consumer_port consumer_capability (Some pointer)))
      end
  end.

(** The program inputs that a node consumes directly. *)
Definition consumed_program_inputs (node : Node) : gset string :=
  list_to_set (omap (λ value_ref,
    match value_ref with
    | ValueRef_Input name => Some name
    | ValueRef_Node _ _ => None
    end) (btree_values (node_inputs node))).

Definition validate_references (program : AiosIr) (nodes : gmap string Node) : Diag unit :=
  _ ← for_each (enumerate (program_nodes program)) (λ '(node_index, node),
    _ ← for_each (btree_iter (node_inputs node)) (λ '(port, value_ref),
      validate_value_ref value_ref program nodes (Some node) (Some port)
        ("/nodes/" +++ pretty node_index +++ "/inputs/" +++ escape_pointer port));
    let consumed := consumed_program_inputs node in
    for_each (enumerate (node_authority_requests node)) (λ '(request_index, request),
      match strip_prefix "input:" (req_resource request) with
      | Some input =>
          when (bool_decide (program_inputs program !! input = None) || bool_decide (input ∉ consumed))
            (emit (contextual IrReferenceInputNotFound
              ("authority selector '" +++ req_resource request +++
               "' does not name a program input consumed by this node")
              (Some (node_id node)) None (Some (op_capability (node_operation node)))
              (Some ("/nodes/" +++ pretty node_index +++ "/authority_requests/" +++
                     pretty request_index +++ "/resource"))))
      | None => mret ()
      end));
  for_each (btree_iter (program_outputs program)) (λ '(name, value_ref),
    match value_ref with
    | ValueRef_Input _ =>
        emit (contextual IrOutputNotFound
          ("program output '" +++ name +++ "' must resolve to a node output")
          None (Some name) None (Some ("/outputs/" +++ escape_pointer name)))
    | ValueRef_Node _ _ =>
        validate_value_ref value_ref program nodes None (Some name)
          ("/outputs/" +++ escape_pointer name)
    end).

(** ** Specification *)

(** The index built from the node list: the last node of an identifier wins. *)
Definition node_index (nodes : list Node) : gmap string Node :=
  foldl (λ m node, <[node_id node := node]> m) ∅ nodes.

(** A value reference that denotes an existing value. *)
Definition value_ref_ok (program : AiosIr) (nodes : gmap string Node) (v : ValueRef) : Prop :=
  match v with
  | ValueRef_Input name => is_Some (program_inputs program !! name)
  | ValueRef_Node node port =>
      ∃ producer, nodes !! node = Some producer ∧ is_Some (node_outputs producer !! port)
  end.

Definition selector_ok (program : AiosIr) (node : Node) (request : AuthorityRequest) : Prop :=
  ∀ input, req_resource request = "input:" +++ input →
    is_Some (program_inputs program !! input) ∧
    ∃ port, node_inputs node !! port = Some (ValueRef_Input input).

Definition node_references_ok (program : AiosIr) (nodes : gmap string Node) (node : Node) : Prop :=
  (∀ port v, node_inputs node !! port = Some v → value_ref_ok program nodes v) ∧
  (∀ request, request ∈ node_authority_requests node → selector_ok program node request).

Definition references_ok (program : AiosIr) (nodes : gmap string Node) : Prop :=
  (∀ node, node ∈ program_nodes program → node_references_ok program nodes node) ∧
  (∀ name v, program_outputs program !! name = Some v →
     (∃ node port, v = ValueRef_Node node port) ∧ value_ref_ok program nodes v).

(** ** Indexing *)

Lemma fold_index_lookup (m : gmap string Node) ns id :
  NoDup (node_id <$> ns) →
  foldl (λ m node, <[node_id node := node]> m) m ns !! id =
    match find (λ n, bool_decide (node_id n = id)) ns with Some n => Some n | None => m !! id end.
Proof.
  revert m. induction ns as [|n ns IH]; intros m; simpl; [done|].
  rewrite NoDup_cons. intros [Hn Hnd]. rewrite IH by done.
  case_bool_decide as Hid; subst.
  - destruct (find _ ns) eqn:Hf.
    + apply find_some in Hf as [Hin Hb%bool_decide_eq_true_1]. exfalso. apply Hn.
      apply list_elem_of_fmap. exists n0. split; [done|]. by apply list_elem_of_In.
    + apply lookup_insert_eq.
  - destruct (find _ ns); [done|]. by apply lookup_insert_ne.
Qed.

(** With unique identifiers the index holds exactly the program's nodes. *)
Lemma node_index_lookup ns id n :
  NoDup (node_id <$> ns) → node_index ns !! id = Some n ↔ n ∈ ns ∧ node_id n = id.
Proof.
  intros Hnd. unfold node_index. rewrite fold_index_lookup by done. rewrite lookup_empty. split.
  - destruct (find _ ns) eqn:Hf; [|done]. intros [= ->].
    apply find_some in Hf as [Hin Hb%bool_decide_eq_true_1].
    split; [by apply list_elem_of_In|done].
  - intros [Hin Hid]. destruct (find _ ns) as [n'|] eqn:Hf.
    + apply find_some in Hf as [Hin'%list_elem_of_In Hb%bool_decide_eq_true_1]. f_equal.
      eapply (NoDup_fmap_elem_inj node_id); eauto. congruence.
    + exfalso. apply list_elem_of_In in Hin. eapply find_none in Hf; [|done].
      by apply bool_decide_eq_false_1 in Hf.
Qed.

Lemma fold_ok_index (m : gmap string Node) (ns : list Node) k :
  fold_ok (λ (m : gmap string Node) (ix : nat * Node), m !! node_id ix.2 = None)
    (λ m ix, <[node_id ix.2 := ix.2]> m) m (imap (λ i n, (k + i, n)) ns) ↔
  NoDup (node_id <$> ns) ∧ ∀ n, n ∈ ns → m !! node_id n = None.
Proof.
  revert m k. induction ns as [|n ns IH]; intros m k; simpl.
  - rewrite forall_elem_of_nil. split; [|done]. intros _. split; [constructor|done].
  - rewrite (imap_ext _ (λ i n, (S k + i, n))) by (intros; simpl; f_equal; lia).
    rewrite IH, NoDup_cons, forall_elem_of_cons. split.
    + intros [Hn [Hnd Hm]]. split_and!; [|done|done|].
      * intros [n' [Heq Hin]]%list_elem_of_fmap.
        specialize (Hm n' Hin). rewrite <-Heq in Hm. by rewrite lookup_insert_eq in Hm.
      * intros n' Hin. specialize (Hm n' Hin).
        destruct (decide (node_id n = node_id n')) as [Heq|Hne].
        -- rewrite Heq in Hm. by rewrite lookup_insert_eq in Hm.
        -- by rewrite lookup_insert_ne in Hm.
    + intros [[Hni Hnd] [Hn Hm]]. split_and!; [done|done|].
      intros n' Hin. rewrite lookup_insert_ne; [auto|].
      intros Heq. apply Hni. rewrite Heq. apply list_elem_of_fmap. eauto.
Qed.

(** The indexing loop reports exactly the repeated identifiers. *)
Lemma checks_index_loop program :
  checks (for_fold (∅ : gmap string Node) (enumerate (program_nodes program))
    (λ nodes '(index, node),
      _ ← when (bool_decide (is_Some (nodes !! node_id node)))
        (emit (contextual IrGraphDuplicateNodeId
          ("node ID '" +++ node_id node +++ "' occurs more than once")
          (Some (node_id node)) None (Some (op_capability (node_operation node)))
          (Some ("/nodes/" +++ pretty index +++ "/id"))));
      mret (<[node_id node := node]> nodes)))
    (NoDup (node_id <$> program_nodes program)) (node_index (program_nodes program)).
Proof.
  unfold node_index. rewrite <-(foldl_imap_snd _ pair) by done. eapply checks_iff.
  - apply (checks_for_fold _ _ (λ (m : gmap string Node) ix, m !! node_id ix.2 = None)).
    intros m [i n] _. simpl. eapply checks_iff.
    + eapply checks_bind; [check_error|apply checks_ret].
    + rewrite bool_decide_eq_false, <-eq_None_not_Some. naive_solver.
  - change (enumerate (program_nodes program)) with (imap (λ i n, (0 + i, n)) (program_nodes program)).
    rewrite fold_ok_index. setoid_rewrite lookup_empty. naive_solver.
Qed.

(** ** Reference checking *)

Lemma checks_validate_value_ref v program nodes consumer port pointer :
  checks (validate_value_ref v program nodes consumer port pointer)
    (value_ref_ok program nodes v) ().
Proof.
  destruct v as [name|node p]; simpl.
  - eapply checks_iff; [check_error|].
    by rewrite bool_decide_eq_false, not_eq_None_Some.
  - destruct (nodes !! node) as [producer|].
    + eapply checks_iff; [check_error|].
      rewrite bool_decide_eq_false, not_eq_None_Some. naive_solver.
    + eapply checks_iff; [check_error|]. naive_solver.
Qed.

Lemma elem_of_consumed_program_inputs node input :
  input ∈ consumed_program_inputs node ↔ ∃ port, node_inputs node !! port = Some (ValueRef_Input input).
Proof.
  unfold consumed_program_inputs. rewrite elem_of_list_to_set, list_elem_of_omap. split.
  - intros [[name|] [Hin Heq]]; simplify_eq. by apply elem_of_btree_values in Hin.
  - intros Hex. exists (ValueRef_Input input). split; [|done]. by apply elem_of_btree_values.
Qed.

Lemma checks_selector program node request d :
  is_error d = true →
  checks (match strip_prefix "input:" (req_resource request) with
          | Some input =>
              when (bool_decide (program_inputs program !! input = None) ||
                    bool_decide (input ∉ consumed_program_inputs node)) (emit d)
          | None => mret ()
          end) (selector_ok program node request) ().
Proof.
  intros Hd. unfold selector_ok. setoid_rewrite <-strip_prefix_Some.
  destruct (strip_prefix _ _) as [input|].
  - eapply checks_iff; [by apply checks_when_error|].
    rewrite orb_false_iff, !bool_decide_eq_false, not_eq_None_Some.
    setoid_rewrite <-elem_of_consumed_program_inputs. split.
    + intros [Hi Hc] ? [= <-]. split; [done|]. by apply dec_stable.
    + intros H. destruct (H input eq_refl) as [Hi Hc]. split; [done|]. auto.
  - eapply checks_iff; [apply checks_ret|]. naive_solver.
Qed.

(** [validate_references] is sound and complete for [references_ok]. *)
Lemma checks_validate_references program nodes :
  checks (validate_references program nodes) (references_ok program nodes) ().
Proof.
  unfold validate_references, references_ok. eapply checks_bind.
  - apply (checks_for_enumerate _ _ (node_references_ok program nodes)).
    intros i node _. unfold node_references_ok. eapply checks_bind.
    + apply (checks_for_map _ _ (λ _, value_ref_ok program nodes)).
      intros port v _. apply checks_validate_value_ref.
    + apply (checks_for_enumerate _ _ (selector_ok program node)).
      intros j request _. by apply checks_selector, is_error_contextual.
  - apply (checks_for_map _ _ (λ _ v,
      (∃ node port, v = ValueRef_Node node port) ∧ value_ref_ok program nodes v)).
    intros name [input|node port] _.
    + eapply checks_iff; [check_error|]. naive_solver.
    + eapply checks_iff; [apply checks_validate_value_ref|]. naive_solver.
Qed.
