(* ===== verification/Acyclic.v ===== *)
(** * Data-flow acyclicity

    [validate_acyclic] of [crates/aios-ir/src/semantics.rs]: Kahn's algorithm
    over the producer-to-consumer relation of a program.  The work loop runs
    under a fuel of one more than the number of indexed nodes; the theorems show
    that the fuel is never exhausted, that no [expect] fails and that no
    in-degree underflows. *)

From S2P Require Import Prelude Json Contracts Collector References.

Abbreviation adjacency := (gmap string (gset string)).

(** The consumers of a producer; an absent entry has none. *)
Definition successors (consumers : adjacency) (id : string) : gset string :=
  default ∅ (consumers !! id).

(** One reference [producer -> id]: the in-degree counts distinct producers. *)
Definition add_edge (id producer : string) (st : gmap string nat * adjacency) :
    gmap string nat * adjacency :=
  let '(indegree, consumers) := st in
  let entry := successors consumers producer in
  if bool_decide (id ∈ entry) then (indegree, consumers)
  else (<[id := S (default 0 (indegree !! id))]> indegree,
        <[producer := {[ id ]} ∪ entry]> consumers).

Definition add_value_ref (id : string) (st : gmap string nat * adjacency) (v : ValueRef) :
    gmap string nat * adjacency :=
  match v with
  | ValueRef_Node producer _ => add_edge id producer st
  | ValueRef_Input _ => st
  end.

Definition build_graph (program : AiosIr) (nodes : gmap string Node) :
    gmap string nat * adjacency :=
  foldl (λ st node, foldl (add_value_ref (node_id node)) st (btree_values (node_inputs node)))
    ((λ _, 0) <$> nodes, ∅) (program_nodes program).

(** [for consumer in next]: decrement and release; [None] is a panic. *)
Fixpoint release (next : list string) (indegree : gmap string nat) (ready : gset string) :
    option (gmap string nat * gset string) :=
  match next with
  | [] => Some (indegree, ready)
  | consumer :: next' =>
      match indegree !! consumer with
      | None | Some 0 => None
      | Some (S degree) =>
          release next' (<[consumer := degree]> indegree)
            (if degree =? 0 then {[ consumer ]} ∪ ready else ready)
      end
  end.

(** [while let Some(id) = ready.pop_first()]; [None] is a panic or lack of fuel. *)
Fixpoint kahn (fuel : nat) (consumers : adjacency) (indegree : gmap string nat)
    (ready : gset string) (visited : nat) : option (gmap string nat * nat) :=
  match fuel with
  | 0 => None
  | S fuel' =>
      match btree_pop_first ready with
      | None => Some (indegree, visited)
      | Some (id, ready') =>
          match consumers !! id with
          | None => kahn fuel' consumers indegree ready' (S visited)
          | Some next =>
              match release (btree_set_iter next) indegree ready' with
              | None => None
              | Some (indegree', ready'') => kahn fuel' consumers indegree' ready'' (S visited)
              end
          end
      end
  end.

Definition initially_ready (indegree : gmap string nat) : gset string :=
  dom (filter (λ kv, kv.2 = 0) indegree).

Definition validate_acyclic (program : AiosIr) (nodes : gmap string Node) : Diag unit :=
  let '(indegree, consumers) := build_graph program nodes in
  '(indegree, visited) ← expect
    (kahn (S (size nodes)) consumers indegree (initially_ready indegree) 0);
  when (negb (visited =? size nodes))
    (let cyclic := (filter (λ kv, 0 < kv.2) (btree_iter indegree)).*1 in
     let diagnostic := Diagnostic_new IrGraphCycle "program data-flow graph contains a cycle" in
     emit {| diag_severity := diag_severity diagnostic; diag_code := diag_code diagnostic;
             diag_message := diag_message diagnostic; diag_node_id := diag_node_id diagnostic;
             diag_port := diag_port diagnostic; diag_capability := diag_capability diagnostic;
             diag_json_pointer := diag_json_pointer diagnostic; diag_related := cyclic |}).

(** ** Specification *)

(** [u] produces a value that node [v] consumes. *)
Definition data_edge (program : AiosIr) (u v : string) : Prop :=
  ∃ node name port, node ∈ program_nodes program ∧ node_id node = v ∧
    node_inputs node !! name = Some (ValueRef_Node u port).

(** No node feeds itself through a nonempty path. *)
Definition acyclic (program : AiosIr) : Prop := ∀ v, ¬ tc (data_edge program) v v.

(** ** The graph that the loops build *)

Definition preds (consumers : adjacency) (v : string) : gset string :=
  dom (filter (λ kv, v ∈ kv.2) consumers).

Lemma elem_of_preds consumers u v : u ∈ preds consumers v ↔ v ∈ successors consumers u.
Proof.
  unfold preds, successors. rewrite elem_of_dom. split.
  - intros [s [Hs Hv]%map_lookup_filter_Some]. by rewrite Hs.
  - destruct (consumers !! u) as [s|] eqn:Hu; simpl; [|set_solver].
    intros Hv. exists s. by apply map_lookup_filter_Some.
Qed.

(** In-degrees count distinct producers. *)
Definition degrees_ok (st : gmap string nat * adjacency) : Prop :=
  ∀ v, default 0 (st.1 !! v) = size (preds st.2 v).

Lemma successors_add_edge id producer st u v :
  v ∈ successors (add_edge id producer st).2 u ↔
  v ∈ successors st.2 u ∨ (u = producer ∧ v = id).
Proof.
  destruct st as [indegree consumers]. unfold add_edge. case_bool_decide as Hin; simpl.
  - naive_solver.
  - unfold successors at 1. rewrite lookup_insert. case_decide; subst; simpl.
    + rewrite elem_of_union, elem_of_singleton. naive_solver.
    + fold (successors consumers u). naive_solver.
Qed.

Lemma degrees_ok_add_edge id producer st : degrees_ok st → degrees_ok (add_edge id producer st).
Proof.
  destruct st as [indegree consumers]. intros Hd v.
  pose proof (λ u, successors_add_edge id producer (indegree, consumers) u v) as Hsucc.
  unfold add_edge in *. case_bool_decide as Hin; [apply Hd|]. simpl in *.
  specialize (Hd v) as Hv. simpl in Hv.
  destruct (decide (v = id)) as [->|Hne].
  - rewrite lookup_insert_eq. simpl. rewrite Hv.
    assert (preds (<[producer:={[id]} ∪ successors consumers producer]> consumers) id =
            {[ producer ]} ∪ preds consumers id) as ->.
    { apply set_eq. intros u. rewrite elem_of_union, elem_of_singleton, !elem_of_preds, Hsucc. naive_solver. }
    rewrite size_union, size_singleton; [lia|].
    rewrite disjoint_singleton_l, elem_of_preds. done.
  - rewrite lookup_insert_ne by done. rewrite Hv. f_equal.
    apply set_eq. intros u. rewrite !elem_of_preds, Hsucc. naive_solver.
Qed.

Lemma foldl_add_value_ref_spec id l st :
  degrees_ok st → id ∈ dom st.1 →
  let st' := foldl (add_value_ref id) st l in
  degrees_ok st' ∧ dom st'.1 = dom st.1 ∧
  ∀ u v, v ∈ successors st'.2 u ↔
         v ∈ successors st.2 u ∨ (v = id ∧ ∃ port, ValueRef_Node u port ∈ l).
Proof.
  revert st. induction l as [|[name|producer port] l IH]; intros st Hd Hid; simpl.
  - split_and!; [done|done|]. intros u v. setoid_rewrite elem_of_nil. naive_solver.
  - destruct (IH st Hd Hid) as (Hd' & Hdom & Hs). split_and!; [done|done|].
    intros u v. rewrite Hs. setoid_rewrite elem_of_cons. naive_solver.
  - assert (dom (add_edge id producer st).1 = dom st.1) as Hdom1.
    { destruct st as [ind con]. unfold add_edge. case_bool_decide; simpl in *; [done|].
      rewrite dom_insert_L. set_solver. }
    destruct (IH (add_edge id producer st)) as (Hd' & Hdom & Hs);
      [by apply degrees_ok_add_edge|by rewrite Hdom1|].
    split_and!; [done|by rewrite Hdom|]. intros u v. rewrite Hs, successors_add_edge.
    setoid_rewrite elem_of_cons. naive_solver.
Qed.

Lemma foldl_build_graph_spec ns (st : gmap string nat * adjacency) :
  degrees_ok st → (∀ n, n ∈ ns → node_id n ∈ dom st.1) →
  let st' := foldl (λ st node,
    foldl (add_value_ref (node_id node)) st (btree_values (node_inputs node))) st ns in
  degrees_ok st' ∧ dom st'.1 = dom st.1 ∧
  ∀ u v, v ∈ successors st'.2 u ↔
    v ∈ successors st.2 u ∨
    ∃ node name port, node ∈ ns ∧ node_id node = v ∧
      node_inputs node !! name = Some (ValueRef_Node u port).
Proof.
  revert st. induction ns as [|n ns IH]; intros st Hd Hids; simpl.
  - split_and!; [done|done|]. intros u v. setoid_rewrite elem_of_nil. naive_solver.
  - apply forall_elem_of_cons in Hids as [Hn Hids].
    destruct (foldl_add_value_ref_spec (node_id n) (btree_values (node_inputs n)) st Hd Hn)
      as (Hd1 & Hdom1 & Hs1).
    destruct (IH _ Hd1) as (Hd2 & Hdom2 & Hs2); [by rewrite Hdom1|].
    split_and!; [done|by rewrite Hdom2|]. intros u v. rewrite Hs2, Hs1.
    setoid_rewrite elem_of_btree_values. setoid_rewrite elem_of_cons. naive_solver.
Qed.

(** The consumer relation is exactly the data-flow relation of the program. *)
Lemma build_graph_spec program nodes :
  (∀ n, n ∈ program_nodes program → node_id n ∈ dom nodes) →
  let st := build_graph program nodes in
  degrees_ok st ∧ dom st.1 = dom nodes ∧
  ∀ u v, v ∈ successors st.2 u ↔ data_edge program u v.
Proof.
  intros Hids. unfold build_graph.
  assert (dom ((λ _ : Node, 0) <$> nodes) = dom nodes) as Hdom0 by apply dom_fmap_L.
  assert (∀ u v, v ∉ successors ∅ u) as Hempty.
  { intros u v. unfold successors. rewrite lookup_empty. simpl. set_solver. }
  destruct (foldl_build_graph_spec (program_nodes program) ((λ _, 0) <$> nodes, ∅))
    as (Hd & Hdom & Hs).
  - intros v. simpl. rewrite lookup_fmap.
    replace (preds ∅ v) with (∅ : gset string).
    + rewrite size_empty. by destruct (nodes !! v).
    + apply set_eq. intros u. rewrite elem_of_preds. specialize (Hempty u v). set_solver.
  - intros n Hn. simpl. rewrite Hdom0. auto.
  - split_and!; [done|by rewrite Hdom|]. intros u v. rewrite Hs. unfold data_edge.
    specialize (Hempty u v). simpl. naive_solver.
Qed.

(** ** Kahn's loop *)

(** Producers of [v] that are not yet in [D]. *)
Definition pending (consumers : adjacency) (D : gset string) (v : string) : gset string := preds consumers v ∖ D.

(** A consumer of [id] loses one pending producer when [id] is visited. *)
Lemma pending_release consumers D id v :
  id ∉ D → v ∈ successors consumers id →
  size (pending consumers D v) = S (size (pending consumers ({[ id ]} ∪ D) v)).
Proof.
  intros Hid Hv. unfold pending.
  replace (preds consumers v ∖ D) with ({[ id ]} ∪ (preds consumers v ∖ ({[ id ]} ∪ D))).
  - rewrite size_union, size_singleton; [done|]. set_solver.
  - apply set_eq. intros u. apply elem_of_preds in Hv.
    rewrite elem_of_union, elem_of_singleton, !elem_of_difference, elem_of_union, elem_of_singleton.
    destruct (decide (u = id)) as [->|]; naive_solver.
Qed.

(** A producer that is not a consumer of [id] keeps its pending set. *)
Lemma pending_other consumers D id v :
  v ∉ successors consumers id → pending consumers ({[ id ]} ∪ D) v = pending consumers D v.
Proof.
  intros Hv. unfold pending. apply set_eq. intros u.
  rewrite <-elem_of_preds in Hv. set_solver.
Qed.

Lemma size_pending_0 consumers D v : size (pending consumers D v) = 0 ↔ preds consumers v ⊆ D.
Proof.
  unfold pending. rewrite size_empty_iff. split.
  - intros He u Hu. destruct (decide (u ∈ D)); [done|]. set_solver.
  - set_solver.
Qed.

Section kahn.
Context (consumers : adjacency) (N : gset string).
Context (Hrange : ∀ u v, v ∈ successors consumers u → v ∈ N).

Implicit Types (indegree : gmap string nat) (ready D Q : gset string).

(** The invariant of the outer loop; [D] collects the visited identifiers. *)
Record kahn_inv indegree ready (visited : nat) D : Prop := {
  ki_dom : dom indegree = N;
  ki_degree : ∀ v d, indegree !! v = Some d → d = size (pending consumers D v);
  ki_ready : ∀ v, v ∈ ready ↔ (v ∈ N ∧ (v ∉ D) ∧ preds consumers v ⊆ D);
  ki_sub : D ⊆ N;
  ki_visited : visited = size D;
  ki_closed : ∀ v, v ∈ D → preds consumers v ⊆ D;
  ki_acc : ∀ v, v ∈ D → Acc (λ a b, a ∈ preds consumers b) v;
}.

(** The invariant of the inner loop, after the consumers in [Q] are released. *)
Record release_inv indegree ready D id (Q : gset string) : Prop := {
  ri_dom : dom indegree = N;
  ri_degree : ∀ v d, indegree !! v = Some d →
    d = size (pending consumers (if decide (v ∈ Q) then {[ id ]} ∪ D else D) v);
  ri_ready : ∀ v, v ∈ ready ↔
    (v ∈ N ∧ (v ∉ D) ∧ (v ≠ id) ∧ preds consumers v ⊆ D) ∨
    (v ∈ Q ∧ preds consumers v ⊆ {[ id ]} ∪ D);
}.

Lemma release_step indegree ready D id Q v :
  id ∉ D → v ∈ successors consumers id → v ∉ Q →
  release_inv indegree ready D id Q →
  ∃ degree, indegree !! v = Some (S degree) ∧
    release_inv (<[v := degree]> indegree)
      (if degree =? 0 then {[ v ]} ∪ ready else ready) D id ({[ v ]} ∪ Q).
Proof using Hrange.
  intros Hid Hv HQ [Hdom Hdeg Hready].
  destruct (indegree !! v) as [d|] eqn:Hd; cycle 1.
  { apply not_elem_of_dom in Hd. rewrite Hdom in Hd. destruct Hd. by eapply Hrange. }
  pose proof (Hdeg v d Hd) as Heq. rewrite decide_False in Heq by done.
  rewrite (pending_release consumers D id v) in Heq by done. subst d. eexists. split; [done|].
  split.
  - rewrite dom_insert_L, Hdom. apply Hrange in Hv. set_solver.
  - intros w d. rewrite lookup_insert. case_decide as Hvw; subst.
    + intros [= <-]. rewrite decide_True by set_solver. done.
    + intros Hw. rewrite (Hdeg w d Hw).
      destruct (decide (w ∈ Q)); [rewrite decide_True by set_solver|rewrite decide_False by set_solver]; done.
  - intros w. destruct (Nat.eqb_spec (size (pending consumers ({[id]} ∪ D) v)) 0) as [H0|H0];
      rewrite size_pending_0 in H0; rewrite ?elem_of_union, Hready, ?elem_of_singleton; [naive_solver|].
    split; [naive_solver|]. intros [?|[[->|?] ?]]; [naive_solver|done|naive_solver].
Qed.

Lemma release_spec indegree ready D id Q next :
  id ∉ D → NoDup next → (∀ v, v ∈ next → v ∈ successors consumers id ∧ v ∉ Q) →
  release_inv indegree ready D id Q →
  ∃ indegree' ready', release next indegree ready = Some (indegree', ready') ∧
    release_inv indegree' ready' D id (list_to_set next ∪ Q).
Proof using Hrange.
  intros Hid. revert indegree ready Q. induction next as [|v next IH]; intros indegree ready Q Hnd Hnext Hinv.
  - simpl. eexists _, _. split; [done|]. by replace (∅ ∪ Q) with Q by set_solver.
  - apply NoDup_cons in Hnd as [Hv Hnd]. apply forall_elem_of_cons in Hnext as [[Hvs HvQ] Hnext].
    destruct (release_step _ _ _ _ _ _ Hid Hvs HvQ Hinv) as (degree & Hlook & Hinv').
    simpl. rewrite Hlook.
    assert (∀ w, w ∈ next → w ∈ successors consumers id ∧ w ∉ {[v]} ∪ Q) as Hnext'.
    { intros w Hw. destruct (Hnext w Hw). split; [done|]. set_solver. }
    destruct (IH _ _ _ Hnd Hnext' Hinv') as (ind' & ready' & Heq & Hinv'').
    exists ind', ready'. split; [done|].
    by replace ({[v]} ∪ list_to_set next ∪ Q) with (list_to_set next ∪ ({[v]} ∪ Q)) by set_solver.
Qed.

(** Visiting one identifier re-establishes the outer invariant. *)
Lemma kahn_step indegree ready visited D id :
  kahn_inv indegree ready visited D → id ∈ ready →
  ∃ indegree' ready',
    match consumers !! id with
    | None => Some (indegree, ready ∖ {[ id ]})
    | Some next => release (btree_set_iter next) indegree (ready ∖ {[ id ]})
    end = Some (indegree', ready') ∧
    kahn_inv indegree' ready' (S visited) ({[ id ]} ∪ D).
Proof using Hrange.
  intros [Hdom Hdeg Hready Hsub Hvis Hclosed Hacc] Hid.
  destruct (proj1 (Hready id) Hid) as (HidN & HidD & Hpreds).
  assert (release_inv indegree (ready ∖ {[ id ]}) D id ∅) as Hrel.
  { split; [done| |].
    - intros v d Hv. rewrite decide_False by set_solver. auto.
    - intros v. rewrite elem_of_difference, Hready, elem_of_singleton. set_solver. }
  assert (∃ indegree' ready',
    match consumers !! id with
    | None => Some (indegree, ready ∖ {[ id ]})
    | Some next => release (btree_set_iter next) indegree (ready ∖ {[ id ]})
    end = Some (indegree', ready') ∧
    release_inv indegree' ready' D id (successors consumers id)) as (ind' & ready' & Heq & Hrel').
  { pose proof (release_spec indegree (ready ∖ {[ id ]}) D id ∅
      (btree_set_iter (successors consumers id)) HidD) as Hspec.
    destruct Hspec as (ind' & ready' & Heq & Hinv); [apply NoDup_btree_set_iter| |done|].
    { intros v Hv%elem_of_btree_set_iter. split; [done|]. apply not_elem_of_empty. }
    replace (list_to_set (btree_set_iter (successors consumers id)) ∪ ∅)
      with (successors consumers id) in Hinv; cycle 1.
    { apply set_eq. intros v. rewrite elem_of_union, elem_of_list_to_set, elem_of_btree_set_iter. set_solver. }
    unfold successors in *. destruct (consumers !! id); simpl in *; eauto. }
  exists ind', ready'. split; [done|]. destruct Hrel' as [Hdom' Hdeg' Hready'].
  split; [done| | |set_solver| | |].
  - intros v d Hv. rewrite (Hdeg' v d Hv). case_decide as Hs; [done|].
    by rewrite pending_other.
  - intros v. rewrite Hready'. split.
    + intros [(HN & HD & Hne & Hp)|[Hs Hp]]; [set_solver|].
      split_and!; [by eapply Hrange| |done].
      apply elem_of_preds in Hs. intros [->%elem_of_singleton|HvD]%elem_of_union.
      * apply HidD. set_solver.
      * apply HidD. by apply (Hclosed v HvD).
    + intros (HN & HD & Hp). destruct (decide (v ∈ successors consumers id)) as [Hs|Hs]; [by right|left].
      rewrite <-elem_of_preds in Hs. split_and!; [done|set_solver|set_solver|].
      intros u Hu. specialize (Hp u Hu). set_solver.
  - rewrite size_union, size_singleton by set_solver. lia.
  - intros v [->%elem_of_singleton|HvD]%elem_of_union; [set_solver|].
    specialize (Hclosed v HvD). set_solver.
  - intros v [->%elem_of_singleton|HvD]%elem_of_union; [|auto].
    constructor. intros u Hu. apply Hacc. by apply Hpreds.
Qed.

(** The loop ends within its fuel, without a panic, in a state where nothing is
    ready. *)
Lemma kahn_spec fuel indegree ready visited D :
  kahn_inv indegree ready visited D → size N < fuel + size D →
  ∃ indegree' visited' D', kahn fuel consumers indegree ready visited = Some (indegree', visited') ∧
    kahn_inv indegree' ∅ visited' D'.
Proof using Hrange.
  revert indegree ready visited D. induction fuel as [|fuel IH]; intros indegree ready visited D Hinv Hfuel.
  - pose proof (subseteq_size _ _ (ki_sub _ _ _ _ Hinv)). lia.
  - simpl. destruct (btree_pop_first ready) as [[id ready']|] eqn:Hpop.
    + apply btree_pop_first_Some in Hpop as [Hid ->].
      destruct (kahn_step _ _ _ _ _ Hinv Hid) as (ind' & ready' & Heq & Hinv').
      assert (size ({[ id ]} ∪ D) = S (size D)) as Hsize.
      { pose proof (ki_visited _ _ _ _ Hinv). pose proof (ki_visited _ _ _ _ Hinv'). lia. }
      destruct (IH _ _ _ _ Hinv') as (ind'' & vis'' & D'' & Hk & Hend); [lia|].
      exists ind'', vis'', D''. split; [|done].
      destruct (consumers !! id); [by rewrite Heq|by simplify_eq].
    + apply btree_pop_first_None in Hpop as ->. eauto.
Qed.

(** When nothing is ready, everything was visited exactly when the relation has
    no cycle. *)
Lemma kahn_end indegree visited D :
  (∀ u v, v ∈ successors consumers u → u ∈ N) →
  kahn_inv indegree ∅ visited D →
  visited = size N ↔ ∀ v, ¬ tc (λ a b, a ∈ preds consumers b) v v.
Proof using Hrange.
  intros Hsrc [Hdom Hdeg Hready Hsub Hvis Hclosed Hacc]. rewrite Hvis. split.
  - intros Hsize v Hv.
    assert (D = N) as HDN.
    { apply set_eq. intros x. split; [set_solver|]. intros Hx.
      destruct (decide (x ∈ D)); [done|].
      assert (size (N ∖ D) = 0) as H0 by (rewrite size_difference by done; lia).
      apply size_empty_iff in H0. set_solver. }
    assert (v ∈ D) as HvD.
    { rewrite HDN. inversion Hv as [? ? Hs|? y ? Hs Ht]; subst; apply elem_of_preds in Hs; eauto. }
    by apply (Acc_no_cycle _ _ (Hacc v HvD)).
  - intros Hirr.
    assert (∀ v, v ∈ N → v ∈ D) as Hall.
    { intros v Hv. assert (sn (flip (λ a b, a ∈ preds consumers b)) v) as Hsn.
      { apply tc_finite_sn.
        - intros x Hx. apply (Hirr x). by apply tc_flip in Hx.
        - exists (elements N). intros x Hx. apply elem_of_elements.
          clear -Hx Hsrc. induction Hx as [a b Hab|a b c Hab _ IH]; [|done].
          apply elem_of_preds in Hab. eauto. }
      revert Hv. induction Hsn as [v _ IHv]. intros Hv.
      destruct (decide (v ∈ D)); [done|]. exfalso. apply (not_elem_of_empty (C:=gset string) v).
      apply Hready. split_and!; [done|done|]. intros u Hu. apply IHv; [done|].
      apply elem_of_preds in Hu. eauto. }
    f_equal. apply set_eq. set_solver.
Qed.

End kahn.

(** ** The pass *)

#[local] Arguments kahn : simpl never.

Lemma tc_iff {A} (R S : relation A) x y : (∀ a b, R a b ↔ S a b) → tc R x y ↔ tc S x y.
Proof. intros H. split; apply (tc_congruence id); intros a b; apply H. Qed.

Lemma kahn_inv_init consumers N indegree :
  dom indegree = N → degrees_ok (indegree, consumers) →
  kahn_inv consumers N indegree (initially_ready indegree) 0 ∅.
Proof.
  intros Hdom Hdeg.
  assert (∀ v d, indegree !! v = Some d → d = size (pending consumers ∅ v)) as Hd.
  { intros v d Hv. specialize (Hdeg v). simpl in Hdeg. rewrite Hv in Hdeg. simpl in Hdeg.
    unfold pending. by replace (preds consumers v ∖ ∅) with (preds consumers v) by set_solver. }
  split; [done|done| |set_solver|done|set_solver|set_solver].
  intros v. unfold initially_ready. rewrite elem_of_dom, <-size_pending_0. split.
  - intros [d [Hv Hd0]%map_lookup_filter_Some]. simpl in Hd0. subst d.
    split_and!; [|set_solver|by symmetry; apply Hd]. rewrite <-Hdom. apply elem_of_dom. eauto.
  - intros (HN & _ & H0). rewrite <-Hdom in HN. apply elem_of_dom in HN as [d Hv].
    exists d. apply map_lookup_filter_Some. split; [done|]. simpl. by rewrite (Hd v d Hv).
Qed.

(** [validate_acyclic] terminates without a panic and reports a cycle exactly
    when the data-flow relation has one. *)
Lemma checks_validate_acyclic program nodes :
  (∀ n, n ∈ program_nodes program → node_id n ∈ dom nodes) →
  (∀ u v, data_edge program u v → u ∈ dom nodes) →
  checks (validate_acyclic program nodes) (acyclic program) ().
Proof.
  intros Hids Hsrc. unfold validate_acyclic, acyclic.
  destruct (build_graph_spec program nodes Hids) as (Hdeg & Hdom & Hedge).
  destruct (build_graph program nodes) as [indegree consumers]; simpl in *.
  assert (∀ u v, v ∈ successors consumers u → v ∈ dom nodes) as Hrange.
  { intros u v (node & name & port & Hin & <- & _)%Hedge. auto. }
  destruct (kahn_spec consumers (dom nodes) Hrange (S (size nodes)) indegree
    (initially_ready indegree) 0 ∅) as (indegree' & visited & D & Hk & Hend);
    [by apply kahn_inv_init|rewrite size_dom, size_empty; lia|].
  rewrite Hk. eapply checks_iff.
  - eapply checks_bind; [by apply checks_expect|]. simpl. by apply checks_when_error.
  - rewrite negb_false_iff, Nat.eqb_eq, <-size_dom.
    rewrite (kahn_end consumers (dom nodes) Hrange indegree' visited D); [|by intros u v ?%Hedge; eauto|done].
    setoid_rewrite (tc_iff (λ a b, a ∈ preds consumers b) (data_edge program)); [naive_solver|].
    intros a b. by rewrite elem_of_preds, Hedge.
Qed.
