(* ===== verification/TypeCheck.v ===== *)
(** * Types and capability contracts

    [validate_types_and_capabilities], [validate_port_shape] and
    [validate_flow_types] of [crates/aios-ir/src/semantics.rs], over any
    [ContractRegistry]. *)

From S2P Require Import Prelude Json Contracts Collector Version Registry References.

Definition expected_role (kind : OperationKind) : CapabilityRole :=
  match kind with Invoke => Ordinary | Verify => Verifier end.

Definition validate_port_shape (node : Node) (contract : CapabilityContract) (node_index : nat) :
    Diag unit :=
  let capability := Some (op_capability (node_operation node)) in
  _ ← for_each (btree_iter (cc_inputs contract)) (λ '(port, specification),
    when (port_required specification && bool_decide (node_inputs node !! port = None))
      (emit (contextual IrCapabilityPortMismatch
        ("required capability input port '" +++ port +++ "' is missing")
        (Some (node_id node)) (Some port) capability
        (Some ("/nodes/" +++ pretty node_index +++ "/inputs")))));
  _ ← for_each (btree_iter (node_inputs node)).*1 (λ port,
    when (bool_decide (cc_inputs contract !! port = None))
      (emit (contextual IrCapabilityPortMismatch
        ("input port '" +++ port +++ "' is not declared by the capability")
        (Some (node_id node)) (Some port) capability
        (Some ("/nodes/" +++ pretty node_index +++ "/inputs/" +++ escape_pointer port)))));
  _ ← for_each (btree_iter (cc_outputs contract)) (λ '(port, specification),
    when (port_required specification && bool_decide (node_outputs node !! port = None))
      (emit (contextual IrCapabilityPortMismatch
        ("required capability output port '" +++ port +++ "' is missing")
        (Some (node_id node)) (Some port) capability
        (Some ("/nodes/" +++ pretty node_index +++ "/outputs")))));
  for_each (btree_iter (node_outputs node)) (λ '(port, type_ref),
    let pointer := "/nodes/" +++ pretty node_index +++ "/outputs/" +++ escape_pointer port in
    match cc_outputs contract !! port with
    | None =>
        emit (contextual IrCapabilityPortMismatch
          ("output port '" +++ port +++ "' is not declared by the capability")
          (Some (node_id node)) (Some port) capability (Some pointer))
    | Some specification =>
        when (negb (bool_decide (port_type_ref specification = type_ref)))
          (emit (contextual IrCapabilityPortMismatch
            ("declared output type '" +++ type_ref +++ "' does not match capability type '" +++
             port_type_ref specification +++ "'")
            (Some (node_id node)) (Some port) capability (Some pointer)))
    end).

Definition validate_flow_types (program : AiosIr) (nodes : gmap string Node) (node : Node)
    (contract : CapabilityContract) (node_index : nat) : Diag unit :=
  let capability := Some (op_capability (node_operation node)) in
  for_each (btree_iter (node_inputs node)) (λ '(port, value_ref),
    match cc_inputs contract !! port with
    | None => mret ()
    | Some expected =>
        '(actual, optional_program_input) ←
          match value_ref with
          | ValueRef_Input name =>
              input ← expect (program_inputs program !! name);
              mret (input_type_ref input, negb (input_required input))
          | ValueRef_Node producer port =>
              producer ← expect (nodes !! producer);
              actual ← expect (node_outputs producer !! port);
              mret (actual, false)
          end;
        let pointer := "/nodes/" +++ pretty node_index +++ "/inputs/" +++ escape_pointer port in
        _ ← when (optional_program_input && port_required expected)
          (emit (contextual IrOptionalInputToRequiredPort
            ("optional program input cannot feed required port '" +++ port +++ "'")
            (Some (node_id node)) (Some port) capability (Some pointer)));
        when (negb (bool_decide (actual = port_type_ref expected)))
          (emit (contextual IrTypeMismatch
            ("value type '" +++ actual +++ "' does not match required type '" +++
             port_type_ref expected +++ "'")
            (Some (node_id node)) (Some port) capability (Some pointer)))
    end).

Section registry.
Context {R : Type} `{ContractRegistry R}.
Implicit Types (registry : R).

(** One iteration of the node loop; the carried map collects the contracts. *)
Definition check_node_contract (program : AiosIr) registry (nodes : gmap string Node)
    (capabilities : gmap string CapabilityContract) (node_index : nat) (node : Node) :
    Diag (gmap string CapabilityContract) :=
  let capability := Some (op_capability (node_operation node)) in
  _ ← for_each (btree_iter (node_outputs node)) (λ '(port, type_ref),
    when (bool_decide (flatten (resolve_type registry type_ref) = None))
      (emit (contextual IrTypeNotFound
        ("output '" +++ port +++ "' references unknown type '" +++ type_ref +++ "'")
        (Some (node_id node)) (Some port) capability
        (Some ("/nodes/" +++ pretty node_index +++ "/outputs/" +++ escape_pointer port)))));
  match flatten (resolve_capability registry (op_capability (node_operation node))) with
  | None =>
      _ ← emit (contextual IrCapabilityNotFound
        ("capability '" +++ op_capability (node_operation node) +++
         "' is absent from the selected registry snapshot")
        (Some (node_id node)) None capability
        (Some ("/nodes/" +++ pretty node_index +++ "/operation/capability")));
      mret capabilities
  | Some contract =>
      let capabilities := <[node_id node := contract]> capabilities in
      _ ← when (negb (bool_decide (cc_role contract = expected_role (op_kind (node_operation node)))))
        (emit (contextual IrCapabilityRoleMismatch
          ("operation kind " +++ OperationKind_debug (op_kind (node_operation node)) +++
           " is incompatible with capability role " +++ CapabilityRole_debug (cc_role contract))
          (Some (node_id node)) None capability
          (Some ("/nodes/" +++ pretty node_index +++ "/operation/kind"))));
      _ ← when (bool_decide (node_execution_class node ∉ cc_allowed_execution_classes contract))
        (emit (contextual IrExecutionClassIncompatible
          ("execution class " +++ ExecutionClass_debug (node_execution_class node) +++
           " is outside the capability contract envelope")
          (Some (node_id node)) None capability
          (Some ("/nodes/" +++ pretty node_index +++ "/execution_class"))));
      _ ← validate_port_shape node contract node_index;
      _ ← validate_flow_types program nodes node contract node_index;
      mret capabilities
  end.

Definition validate_types_and_capabilities (program : AiosIr) registry (nodes : gmap string Node) :
    Diag (gmap string CapabilityContract) :=
  _ ← for_each (btree_iter (program_inputs program)) (λ '(name, input),
    when (bool_decide (flatten (resolve_type registry (input_type_ref input)) = None))
      (emit (contextual IrTypeNotFound
        ("input '" +++ name +++ "' references unknown type '" +++ input_type_ref input +++ "'")
        None (Some name) None (Some ("/inputs/" +++ escape_pointer name +++ "/type")))));
  for_fold ∅ (enumerate (program_nodes program)) (λ capabilities '(node_index, node),
    check_node_contract program registry nodes capabilities node_index node).

(** ** Specification *)

(** The declared type of a value, and whether it may be absent at run time. *)
Definition value_type (program : AiosIr) (nodes : gmap string Node) (v : ValueRef) :
    option (string * bool) :=
  match v with
  | ValueRef_Input name =>
      (λ input, (input_type_ref input, negb (input_required input))) <$> program_inputs program !! name
  | ValueRef_Node producer port =>
      nodes !! producer ≫= λ producer, (λ t, (t, false)) <$> node_outputs producer !! port
  end.

(** The ports of a node fit the interface of its contract. *)
Record port_shape_ok (node : Node) (contract : CapabilityContract) : Prop := {
  shape_required_inputs : ∀ port spec, cc_inputs contract !! port = Some spec →
    port_required spec = true → is_Some (node_inputs node !! port);
  shape_declared_inputs : ∀ port, is_Some (node_inputs node !! port) →
    is_Some (cc_inputs contract !! port);
  shape_required_outputs : ∀ port spec, cc_outputs contract !! port = Some spec →
    port_required spec = true → is_Some (node_outputs node !! port);
  shape_declared_outputs : ∀ port t, node_outputs node !! port = Some t →
    ∃ spec, cc_outputs contract !! port = Some spec ∧ port_type_ref spec = t;
}.

(** Every bound input port receives a value of its declared type, and a required
    port never receives an optional program input. *)
Definition flow_ok (program : AiosIr) (nodes : gmap string Node) (node : Node)
    (contract : CapabilityContract) : Prop :=
  ∀ port v spec, node_inputs node !! port = Some v → cc_inputs contract !! port = Some spec →
    ∃ optional, value_type program nodes v = Some (port_type_ref spec, optional) ∧
      (optional = true → port_required spec = false).

Record node_contract_ok (program : AiosIr) registry (nodes : gmap string Node) (node : Node)
    (contract : CapabilityContract) : Prop := {
  nc_output_types : ∀ port t, node_outputs node !! port = Some t →
    is_Some (flatten (resolve_type registry t));
  nc_role : cc_role contract = expected_role (op_kind (node_operation node));
  nc_execution : node_execution_class node ∈ cc_allowed_execution_classes contract;
  nc_shape : port_shape_ok node contract;
  nc_flow : flow_ok program nodes node contract;
}.

Definition node_types_ok (program : AiosIr) registry (nodes : gmap string Node) (node : Node) : Prop :=
  ∃ contract, flatten (resolve_capability registry (op_capability (node_operation node))) = Some contract ∧
    node_contract_ok program registry nodes node contract.

Definition types_ok (program : AiosIr) registry (nodes : gmap string Node) : Prop :=
  (∀ name input, program_inputs program !! name = Some input →
     is_Some (flatten (resolve_type registry (input_type_ref input)))) ∧
  (∀ node, node ∈ program_nodes program → node_types_ok program registry nodes node).

(** The contract map that the loop returns. *)
Definition contract_step registry (m : gmap string CapabilityContract) (node : Node) :
    gmap string CapabilityContract :=
  match flatten (resolve_capability registry (op_capability (node_operation node))) with
  | Some contract => <[node_id node := contract]> m
  | None => m
  end.

Definition contract_map registry (ns : list Node) : gmap string CapabilityContract :=
  foldl (contract_step registry) ∅ ns.

End registry.

(** ** Correctness of the passes *)

Lemma checks_validate_port_shape node contract i :
  checks (validate_port_shape node contract i) (port_shape_ok node contract) ().
Proof.
  unfold validate_port_shape. eapply checks_iff.
  - repeat (eapply checks_bind).
    + apply (checks_for_map _ _ (λ port spec, port_required spec = true → is_Some (node_inputs node !! port))).
      intros port spec _. eapply checks_iff; [check_error|].
      rewrite andb_false_iff, bool_decide_eq_false, not_eq_None_Some.
      destruct (port_required spec); naive_solver.
    + apply (checks_for_each _ _ (λ port, is_Some (cc_inputs contract !! port))).
      intros port _. eapply checks_iff; [check_error|].
      by rewrite bool_decide_eq_false, not_eq_None_Some.
    + apply (checks_for_map _ _ (λ port spec, port_required spec = true → is_Some (node_outputs node !! port))).
      intros port spec _. eapply checks_iff; [check_error|].
      rewrite andb_false_iff, bool_decide_eq_false, not_eq_None_Some.
      destruct (port_required spec); naive_solver.
    + apply (checks_for_map _ _ (λ port t, ∃ spec, cc_outputs contract !! port = Some spec ∧ port_type_ref spec = t)).
      intros port t _. destruct (cc_outputs contract !! port) as [spec|].
      * eapply checks_iff; [check_error|].
        rewrite negb_false_iff, bool_decide_eq_true. naive_solver.
      * eapply checks_iff; [check_error|]. naive_solver.
  - setoid_rewrite list_elem_of_fmap. split.
    + intros (H1 & H2 & H3 & H4). split; [done| |done|done].
      intros port [v Hv]. apply H2. exists (port, v). split; [done|]. by apply elem_of_btree_iter.
    + intros [H1 H2 H3 H4]. split_and!; [done| |done|done].
      intros port [[? v] [-> Hv%elem_of_btree_iter]]. apply H2. eauto.
Qed.

(** A value that resolves has a type: the [expect]s of the pass cannot fail. *)
Lemma value_ref_ok_type program nodes v :
  value_ref_ok program nodes v → is_Some (value_type program nodes v).
Proof.
  destruct v as [name|producer port]; simpl.
  - by rewrite fmap_is_Some.
  - intros (n & -> & [t Ht]). simpl. by rewrite Ht.
Qed.

Lemma checks_validate_flow_types program nodes node contract i :
  (∀ port v, node_inputs node !! port = Some v → value_ref_ok program nodes v) →
  checks (validate_flow_types program nodes node contract i) (flow_ok program nodes node contract) ().
Proof.
  intros Hrefs. unfold validate_flow_types, flow_ok. eapply checks_iff.
  - apply (checks_for_map _ _ (λ port v, ∀ spec, cc_inputs contract !! port = Some spec →
      ∃ optional, value_type program nodes v = Some (port_type_ref spec, optional) ∧
        (optional = true → port_required spec = false))).
    intros port v Hv. destruct (cc_inputs contract !! port) as [spec|]; cycle 1.
    { eapply checks_iff; [apply checks_ret|]. naive_solver. }
    destruct (value_ref_ok_type program nodes v) as [[actual optional] Hty]; [eauto|].
    eapply checks_iff.
    + eapply (checks_bind _ _ True _ (actual, optional)).
      * destruct v as [name|producer p]; simpl in Hty.
        -- apply fmap_Some in Hty as (input & Hin & [= -> ->]). rewrite Hin. apply checks_ret.
        -- apply bind_Some in Hty as (n & Hn & (t & Ht & [= -> ->])%fmap_Some).
           rewrite Hn. eapply checks_iff; [eapply checks_bind; [by apply checks_expect|]|].
           ++ eapply checks_bind; [by apply checks_expect|apply checks_ret].
           ++ naive_solver.
      * eapply checks_bind; check_error.
    + rewrite Hty, andb_false_iff, negb_false_iff, bool_decide_eq_true. split.
      * intros (_ & Ho & ->) ? [= <-]. exists optional. split; [done|]. destruct Ho; congruence.
      * intros Hs. destruct (Hs spec eq_refl) as (o & [= -> <-] & Ho). split_and!; [done| |done].
        destruct optional; [right; auto|by left].
  - naive_solver.
Qed.

Section correctness.
Context {R : Type} `{ContractRegistry R} (registry : R).

Lemma checks_check_node_contract program nodes caps i node :
  (∀ port v, node_inputs node !! port = Some v → value_ref_ok program nodes v) →
  checks (check_node_contract program registry nodes caps i node)
    (node_types_ok program registry nodes node) (contract_step registry caps node).
Proof.
  intros Hrefs. unfold check_node_contract, node_types_ok, contract_step. eapply checks_iff.
  - eapply checks_bind.
    + apply (checks_for_map _ _ (λ _ t, is_Some (flatten (resolve_type registry t)))).
      intros port t _. eapply checks_iff; [check_error|].
      by rewrite bool_decide_eq_false, not_eq_None_Some.
    + instantiate (1 := ∃ contract, flatten (resolve_capability registry (op_capability (node_operation node))) = Some contract ∧
        cc_role contract = expected_role (op_kind (node_operation node)) ∧
        node_execution_class node ∈ cc_allowed_execution_classes contract ∧
        port_shape_ok node contract ∧ flow_ok program nodes node contract).
      destruct (flatten _) as [contract|]; simpl.
      * eapply checks_iff.
        -- check_step. check_step.
           eapply checks_bind; [apply checks_validate_port_shape|].
           eapply checks_bind; [by apply checks_validate_flow_types|]. apply checks_ret.
        -- rewrite negb_false_iff, bool_decide_eq_true, bool_decide_eq_false. split.
           ++ intros (? & ?%dec_stable & ? & ? & _). eauto 10.
           ++ intros (? & [= <-] & ? & ? & ? & ?). split_and!; auto.
      * eapply checks_iff; [eapply checks_bind; [check_error|apply checks_ret]|].
        naive_solver.
  - split.
    + intros (Ht & contract & Hc & ? & ? & ? & ?). exists contract. split; [done|]. by split.
    + intros (contract & Hc & []). eauto 10.
Qed.

(** The pass is sound and complete for [types_ok], and returns the contract of
    every node. *)
Lemma checks_validate_types program nodes :
  (∀ node, node ∈ program_nodes program → node_references_ok program nodes node) →
  checks (validate_types_and_capabilities program registry nodes)
    (types_ok program registry nodes) (contract_map registry (program_nodes program)).
Proof.
  intros Hrefs. unfold validate_types_and_capabilities, types_ok. eapply checks_bind.
  - apply (checks_for_map _ _ (λ _ input, is_Some (flatten (resolve_type registry (input_type_ref input))))).
    intros name input _. eapply checks_iff; [check_error|].
    by rewrite bool_decide_eq_false, not_eq_None_Some.
  - unfold contract_map. apply checks_for_fold_enumerate. intros caps i node Hnode.
    apply checks_check_node_contract. by apply Hrefs.
Qed.

(** Every node's contract is found under its identifier. *)
Lemma contract_map_lookup ns node :
  NoDup (node_id <$> ns) → node ∈ ns →
  contract_map registry ns !! node_id node =
    flatten (resolve_capability registry (op_capability (node_operation node))).
Proof.
  intros Hnd Hin. unfold contract_map.
  apply (foldl_insert_keyed_lookup node_id
    (λ n, flatten (resolve_capability registry (op_capability (node_operation n)))) ns node Hnd Hin).
Qed.

End correctness.
