(* ===== verification/Effects.v ===== *)
(** * Effects, authority, egress and caching

    [validate_effects], [validate_required_artifact_read_resources],
    [require_placement_authority] and [validate_egress] of
    [crates/aios-ir/src/semantics.rs]. *)

From S2P Require Import Prelude Json Contracts Collector Version Registry References TypeCheck.

Definition validate_required_artifact_read_resources (program : AiosIr) (node : Node)
    (contract : CapabilityContract) (reported_capability : string) (node_index : nat) : Diag unit :=
  for_each (btree_iter (node_inputs node)) (λ '(port, value_ref),
    match value_ref with
    | ValueRef_Node _ _ => mret ()
    | ValueRef_Input name =>
        match cc_inputs contract !! port, program_inputs program !! name with
        | Some port_contract, Some program_input =>
            if negb (starts_with "artifact." (port_type_ref port_contract))
               || negb (starts_with "artifact." (input_type_ref program_input))
            then mret ()
            else
              let expected_resource := "input:" +++ name in
              when (negb (existsb (λ request,
                     bool_decide (req_action request = "artifact.read") &&
                     bool_decide (req_resource request = expected_resource))
                     (node_authority_requests node)))
                (emit (contextual IrRequiredAuthorityMissing
                  ("required artifact.read authority does not cover accessed resource '" +++
                   expected_resource +++ "'")
                  (Some (node_id node)) (Some port) (Some reported_capability)
                  (Some ("/nodes/" +++ pretty node_index +++ "/authority_requests"))))
        | _, _ => mret ()
        end
    end).

Definition require_placement_authority (node : Node) (node_index : nat) (action : string)
    (requested_actions : gset string) : Diag unit :=
  when (bool_decide (action ∉ requested_actions))
    (emit (contextual IrRequiredAuthorityMissing
      ("non-local-only placement requires authority class '" +++ action +++ "'")
      (Some (node_id node)) None (Some (op_capability (node_operation node)))
      (Some ("/nodes/" +++ pretty node_index +++ "/authority_requests")))).

(** The resources of the node's [data.egress] requests. *)
Definition data_egress_resources (node : Node) : gset string :=
  list_to_set (req_resource <$>
    filter (λ request, req_action request = "data.egress") (node_authority_requests node)).

(** The selectors that policy egress must name. *)
Definition expected_destinations (node : Node) : gset string :=
  list_to_set ((λ destination, "destination:" +++ destination) <$>
    egress_destination_classes (node_egress node)).

Definition validate_egress (node : Node) (contract : CapabilityContract)
    (effects : gset EffectClass) (node_index : nat) : Diag unit :=
  let capability := Some (op_capability (node_operation node)) in
  _ ← when (bool_decide (egress_mode (node_egress node) ∉ cc_allowed_egress_modes contract))
    (emit (contextual IrEgressNotAllowed
      ("egress mode " +++ EgressMode_debug (egress_mode (node_egress node)) +++
       " is outside the capability contract envelope")
      (Some (node_id node)) None capability
      (Some ("/nodes/" +++ pretty node_index +++ "/egress/mode"))));
  let resources := data_egress_resources node in
  match egress_mode (node_egress node) with
  | Deny =>
      when (negb (bool_decide (egress_destination_classes (node_egress node) = []))
            || negb (bool_decide (resources = ∅))
            || bool_decide (DataEgress ∈ effects))
        (emit (contextual IrEgressContradiction
          "deny egress cannot name destinations or request data.egress authority"
          (Some (node_id node)) None capability
          (Some ("/nodes/" +++ pretty node_index +++ "/egress"))))
  | Policy =>
      let expected := expected_destinations node in
      when (bool_decide (expected = ∅)
            || existsb (λ resource, bool_decide (resource ∉ resources)) (btree_set_iter expected)
            || existsb (λ resource, bool_decide (resource ∉ expected)) (btree_set_iter resources))
        (emit (contextual IrEgressAuthorityMismatch
          "policy egress destinations must exactly match data.egress authority selectors"
          (Some (node_id node)) None capability
          (Some ("/nodes/" +++ pretty node_index +++ "/egress"))))
  end.

(** The variables of the request loop. *)
Record request_state := {
  rq_pairs : gset (string * string);
  rq_actions : gset string;
  rq_effects : gset EffectClass;
}.

(** One iteration over the authority requests of a node. *)
Definition check_request (node : Node) (contract : CapabilityContract) (node_index : nat)
    (st : request_state) (request_index : nat) (request : AuthorityRequest) : Diag request_state :=
  let capability := Some (op_capability (node_operation node)) in
  let pointer := "/nodes/" +++ pretty node_index +++ "/authority_requests/" +++ pretty request_index in
  let pair := (req_action request, req_resource request) in
  _ ← when (bool_decide (pair ∈ rq_pairs st))
    (emit (contextual IrAuthorityDuplicateRequest
      ("authority request ('" +++ req_action request +++ "', '" +++ req_resource request +++
       "') is duplicated")
      (Some (node_id node)) None capability (Some pointer)));
  let pairs := {[ pair ]} ∪ rq_pairs st in
  let actions := {[ req_action request ]} ∪ rq_actions st in
  _ ← when (bool_decide (req_action request ∉ cc_allowed_authority_classes contract))
    (emit (contextual IrAuthorityClassNotAllowed
      ("authority class '" +++ req_action request +++ "' is outside the capability contract envelope")
      (Some (node_id node)) None capability (Some (pointer +++ "/action"))));
  match effect_for_authority_class (req_action request) with
  | Some effect =>
      mret {| rq_pairs := pairs; rq_actions := actions; rq_effects := {[ effect ]} ∪ rq_effects st |}
  | None =>
      _ ← emit (contextual IrEffectClassNotAllowed
        ("authority class '" +++ req_action request +++ "' has no closed-profile effect mapping")
        (Some (node_id node)) None capability (Some (pointer +++ "/action")));
      mret {| rq_pairs := pairs; rq_actions := actions; rq_effects := rq_effects st |}
  end.

(** Every allowed placement is non-local. *)
Definition non_local_only (node : Node) : bool :=
  match node_constraints node with
  | Some constraints =>
      negb (bool_decide (con_locality constraints = [])) &&
      forallb (λ locality, negb (bool_decide (locality = Local))) (con_locality constraints)
  | None => false
  end.

Definition required_effects (contract : CapabilityContract) : gset EffectClass :=
  list_to_set (filter (λ effect, effect ≠ Pure) (cc_required_effect_classes contract)).

(** One iteration of the node loop: derive and check the effects of a node. *)
Definition check_node_effects (program : AiosIr) (contract : CapabilityContract)
    (node_index : nat) (node : Node) : Diag (gset EffectClass) :=
  let capability := Some (op_capability (node_operation node)) in
  st ← for_fold {| rq_pairs := ∅; rq_actions := ∅; rq_effects := required_effects contract |}
    (enumerate (node_authority_requests node))
    (λ st '(request_index, request), check_request node contract node_index st request_index request);
  let requested_actions := rq_actions st in
  _ ← for_each (cc_required_authority_classes contract) (λ required,
    if bool_decide (required ∉ requested_actions) then
      emit (contextual IrRequiredAuthorityMissing
        ("required authority class '" +++ required +++ "' was not requested")
        (Some (node_id node)) None capability
        (Some ("/nodes/" +++ pretty node_index +++ "/authority_requests")))
    else if bool_decide (required = "artifact.read") then
      validate_required_artifact_read_resources program node contract
        (op_capability (node_operation node)) node_index
    else mret ());
  effects ← (if non_local_only node then
      _ ← require_placement_authority node node_index "network.connect" requested_actions;
      let effects := {[ Network ]} ∪ rq_effects st in
      if bool_decide (node_inputs node = ∅) then mret effects
      else
        _ ← require_placement_authority node node_index "data.egress" requested_actions;
        mret ({[ DataEgress ]} ∪ effects)
    else mret (rq_effects st));
  let effects := if bool_decide (effects = ∅) then {[ Pure ]} else effects in
  _ ← for_each (btree_set_iter effects) (λ effect,
    when (bool_decide (effect ∉ cc_allowed_effect_classes contract))
      (emit (contextual IrEffectClassNotAllowed
        ("derived effect " +++ EffectClass_debug effect +++
         " is outside the capability contract envelope")
        (Some (node_id node)) None capability
        (Some ("/nodes/" +++ pretty node_index +++ "/authority_requests")))));
  _ ← validate_egress node contract effects node_index;
  _ ← when (negb (bool_decide (node_cache node = Never)) &&
            negb (bool_decide (node_execution_class node = Deterministic)))
    (emit (contextual IrCacheExecutionClassMismatch
      "non-deterministic execution cannot use deterministic or content-addressed caching"
      (Some (node_id node)) None capability
      (Some ("/nodes/" +++ pretty node_index +++ "/cache"))));
  mret effects.

Definition validate_effects (program : AiosIr) (capabilities : gmap string CapabilityContract) :
    Diag (gmap string (gset EffectClass)) :=
  for_fold ∅ (enumerate (program_nodes program)) (λ all_effects '(node_index, node),
    contract ← expect (capabilities !! node_id node);
    effects ← check_node_effects program contract node_index node;
    mret (<[node_id node := effects]> all_effects)).

(** ** Specification *)

(** The effects of a node: those its contract requires, those its requested
    authority implies, those its placement implies; [PURE] when there is none. *)
Definition node_effects (contract : CapabilityContract) (node : Node) : gset EffectClass :=
  let implied : gset EffectClass :=
    list_to_set (omap (effect_for_authority_class ∘ req_action) (node_authority_requests node)) in
  let placement : gset EffectClass :=
    if non_local_only node then
      {[ Network ]} ∪ (if bool_decide (node_inputs node = ∅) then ∅ else {[ DataEgress ]})
    else ∅ in
  let effects := placement ∪ implied ∪ required_effects contract in
  if bool_decide (effects = ∅) then {[ Pure ]} else effects.

(** A request for an action. *)
Definition requests (node : Node) (action : string) : Prop :=
  ∃ request, request ∈ node_authority_requests node ∧ req_action request = action.

(** A request for an action on a resource. *)
Definition requests_on (node : Node) (action resource : string) : Prop :=
  ∃ request, request ∈ node_authority_requests node ∧ req_action request = action ∧
    req_resource request = resource.

(** Every artifact input that the contract's port reads is covered by a read
    request on that very input. *)
Definition artifact_reads_covered (program : AiosIr) (node : Node) (contract : CapabilityContract) : Prop :=
  ∀ port name port_contract program_input,
    node_inputs node !! port = Some (ValueRef_Input name) →
    cc_inputs contract !! port = Some port_contract →
    program_inputs program !! name = Some program_input →
    starts_with "artifact." (port_type_ref port_contract) = true →
    starts_with "artifact." (input_type_ref program_input) = true →
    requests_on node "artifact.read" ("input:" +++ name).

Definition egress_ok (node : Node) (contract : CapabilityContract) (effects : gset EffectClass) : Prop :=
  egress_mode (node_egress node) ∈ cc_allowed_egress_modes contract ∧
  match egress_mode (node_egress node) with
  | Deny =>
      egress_destination_classes (node_egress node) = [] ∧
      (∀ resource, ¬ requests_on node "data.egress" resource) ∧ DataEgress ∉ effects
  | Policy =>
      egress_destination_classes (node_egress node) ≠ [] ∧
      ∀ resource, requests_on node "data.egress" resource ↔
        ∃ destination, destination ∈ egress_destination_classes (node_egress node) ∧
          resource = "destination:" +++ destination
  end.

Record node_effects_ok (program : AiosIr) (contract : CapabilityContract) (node : Node) : Prop := {
  eo_unique : NoDup ((λ r, (req_action r, req_resource r)) <$> node_authority_requests node);
  eo_allowed : ∀ action, requests node action → action ∈ cc_allowed_authority_classes contract;
  eo_mapped : ∀ action, requests node action → is_Some (effect_for_authority_class action);
  eo_required : ∀ action, action ∈ cc_required_authority_classes contract → requests node action;
  eo_artifact : "artifact.read" ∈ cc_required_authority_classes contract →
    artifact_reads_covered program node contract;
  eo_placement : non_local_only node = true →
    requests node "network.connect" ∧ (node_inputs node ≠ ∅ → requests node "data.egress");
  eo_effects : ∀ effect, effect ∈ node_effects contract node → effect ∈ cc_allowed_effect_classes contract;
  eo_egress : egress_ok node contract (node_effects contract node);
  eo_cache : node_cache node ≠ Never → node_execution_class node = Deterministic;
}.

(** ** Correctness of the helper passes *)

Lemma existsb_requests_on node action resource :
  existsb (λ request, bool_decide (req_action request = action) &&
                      bool_decide (req_resource request = resource))
    (node_authority_requests node) = true ↔ requests_on node action resource.
Proof.
  rewrite existsb_exists. unfold requests_on. split.
  - intros (r & Hr & [Ha Hs]%andb_true_iff). breflect. exists r. by rewrite list_elem_of_In.
  - intros (r & Hr & Ha & Hs). exists r. rewrite <-list_elem_of_In. split; [done|].
    by rewrite Ha, Hs, !bool_decide_eq_true_2.
Qed.

Lemma checks_artifact_reads program node contract capability i :
  checks (validate_required_artifact_read_resources program node contract capability i)
    (artifact_reads_covered program node contract) ().
Proof.
  unfold validate_required_artifact_read_resources, artifact_reads_covered. eapply checks_iff.
  - apply (checks_for_map _ _ (λ port v, ∀ name pc pi, v = ValueRef_Input name →
      cc_inputs contract !! port = Some pc → program_inputs program !! name = Some pi →
      starts_with "artifact." (port_type_ref pc) = true →
      starts_with "artifact." (input_type_ref pi) = true →
      requests_on node "artifact.read" ("input:" +++ name))).
    intros port [name|n p] _; [|eapply checks_iff; [apply checks_ret|naive_solver]].
    destruct (cc_inputs contract !! port) as [pc|]; [|eapply checks_iff; [apply checks_ret|naive_solver]].
    destruct (program_inputs program !! name) as [pi|] eqn:Hpi;
      [|eapply checks_iff; [apply checks_ret|naive_solver]].
    destruct (negb _ || negb _) eqn:Hart.
    + eapply checks_iff; [apply checks_ret|]. split; [|done]. intros _ name' pc' pi' [= <-] [= <-] Hpi' Ha Hb.
      simplify_eq. by rewrite Ha, Hb in Hart.
    + eapply checks_iff; [check_error|]. rewrite negb_false_iff, existsb_requests_on. breflect.
      split; [naive_solver|]. intros Hc. by apply (Hc name pc pi).
  - naive_solver.
Qed.

Lemma checks_require_placement node i action actions :
  checks (require_placement_authority node i action actions) (action ∈ actions) ().
Proof.
  unfold require_placement_authority. eapply checks_iff; [check_error|].
  rewrite bool_decide_eq_false. split; [apply dec_stable|auto].
Qed.

Lemma elem_of_data_egress_resources node resource :
  resource ∈ data_egress_resources node ↔ requests_on node "data.egress" resource.
Proof.
  unfold data_egress_resources, requests_on. rewrite elem_of_list_to_set, list_elem_of_fmap.
  setoid_rewrite list_elem_of_filter. naive_solver.
Qed.

Lemma elem_of_expected_destinations node resource :
  resource ∈ expected_destinations node ↔
  ∃ destination, destination ∈ egress_destination_classes (node_egress node) ∧
    resource = "destination:" +++ destination.
Proof.
  unfold expected_destinations. rewrite elem_of_list_to_set, list_elem_of_fmap. naive_solver.
Qed.

Lemma existsb_not_elem_of (s t : gset string) :
  existsb (λ x, bool_decide (x ∉ t)) (btree_set_iter s) = false ↔ s ⊆ t.
Proof.
  rewrite <-not_true_iff_false, existsb_exists. split.
  - intros Hn x Hx. destruct (decide (x ∈ t)) as [|Hne]; [done|]. destruct Hn. exists x.
    rewrite <-list_elem_of_In, elem_of_btree_set_iter. split; [done|]. by apply bool_decide_eq_true_2.
  - intros Hsub (x & Hx%list_elem_of_In%elem_of_btree_set_iter & Hb). breflect. auto.
Qed.

Lemma checks_validate_egress node contract effects i :
  checks (validate_egress node contract effects i) (egress_ok node contract effects) ().
Proof.
  unfold validate_egress, egress_ok. eapply checks_bind.
  { eapply checks_iff; [check_error|]. rewrite bool_decide_eq_false. split; [apply dec_stable|auto]. }
  destruct (egress_mode (node_egress node)).
  - eapply checks_iff; [check_error|].
    rewrite !orb_false_iff, !negb_false_iff, !bool_decide_eq_true, bool_decide_eq_false.
    setoid_rewrite <-elem_of_data_egress_resources. rewrite elem_of_equiv_empty_L. tauto.
  - eapply checks_iff; [check_error|].
    rewrite !orb_false_iff, !existsb_not_elem_of, bool_decide_eq_false.
    setoid_rewrite <-elem_of_data_egress_resources.
    setoid_rewrite <-elem_of_expected_destinations.
    assert (expected_destinations node = ∅ ↔ egress_destination_classes (node_egress node) = []) as ->.
    { unfold expected_destinations. destruct (egress_destination_classes _); simpl; [naive_solver|].
      split; [|done]. set_solver. }
    split; [intros [[??]?]; split; set_solver|]. intros [??]. split; [split; [done|]|]; set_solver.
Qed.

(** ** The request loop *)

Definition request_pair (r : AuthorityRequest) : string * string := (req_action r, req_resource r).

Definition request_step (st : request_state) (r : AuthorityRequest) : request_state := {|
  rq_pairs := {[ request_pair r ]} ∪ rq_pairs st;
  rq_actions := {[ req_action r ]} ∪ rq_actions st;
  rq_effects := match effect_for_authority_class (req_action r) with
                | Some e => {[ e ]} ∪ rq_effects st
                | None => rq_effects st
                end;
|}.

(** The condition that one request satisfies by itself. *)
Definition request_ok (contract : CapabilityContract) (r : AuthorityRequest) : Prop :=
  req_action r ∈ cc_allowed_authority_classes contract ∧
  is_Some (effect_for_authority_class (req_action r)).

Lemma checks_check_request node contract i st j r :
  checks (check_request node contract i st j r)
    (request_pair r ∉ rq_pairs st ∧ request_ok contract r) (request_step st r).
Proof.
  unfold check_request, request_ok, request_step. eapply checks_bind.
  { eapply checks_iff; [check_error|]. by rewrite bool_decide_eq_false. }
  eapply checks_bind.
  { eapply checks_iff; [check_error|]. rewrite bool_decide_eq_false. split; [apply dec_stable|auto]. }
  destruct (effect_for_authority_class (req_action r)) as [e|].
  - eapply checks_iff; [apply checks_ret|]. naive_solver.
  - eapply checks_iff; [eapply checks_bind; [check_error|apply checks_ret]|]. naive_solver.
Qed.

Lemma fold_ok_requests contract f st rs :
  (∀ i r, (f i r).2 = r) →
  fold_ok (λ st (ix : nat * AuthorityRequest), request_pair ix.2 ∉ rq_pairs st ∧ request_ok contract ix.2)
    (λ st ix, request_step st ix.2) st (imap f rs) ↔
  NoDup (request_pair <$> rs) ∧ (∀ r, r ∈ rs → request_pair r ∉ rq_pairs st) ∧
  (∀ r, r ∈ rs → request_ok contract r).
Proof.
  revert f st. induction rs as [|r rs IH]; intros f st Hf; simpl.
  - rewrite !forall_elem_of_nil. split; [|done]. intros _. split; [constructor|done].
  - rewrite (IH (f ∘ S)) by (intros; apply Hf). rewrite Hf, NoDup_cons, !forall_elem_of_cons. simpl.
    rewrite list_elem_of_fmap. setoid_rewrite elem_of_union. setoid_rewrite elem_of_singleton.
    split.
    + intros ((Hr & Hok) & Hnd & Hsep & Hall). split_and!; try done.
      * intros (r' & Heq & Hr'). apply (Hsep r' Hr'). by left.
      * intros r' Hr' Hin. apply (Hsep r' Hr'). by right.
    + intros ((Hnin & Hnd) & (Hr & Hsep) & (Hok & Hall)). split_and!; try done.
      intros r' Hr' [Heq|Hin]; [|by apply (Hsep r' Hr')]. destruct Hnin. by exists r'.
Qed.

Lemma foldl_request_step rs st :
  rq_actions (foldl request_step st rs) = list_to_set (req_action <$> rs) ∪ rq_actions st ∧
  rq_effects (foldl request_step st rs) =
    list_to_set (omap (effect_for_authority_class ∘ req_action) rs) ∪ rq_effects st.
Proof.
  revert st. induction rs as [|r rs IH]; intros st; simpl; [split; set_solver|].
  destruct (IH (request_step st r)) as [-> ->]. simpl. split; [set_solver|].
  unfold compose. destruct (effect_for_authority_class (req_action r)); set_solver.
Qed.

Lemma elem_of_requested_actions node action :
  action ∈ (list_to_set (req_action <$> node_authority_requests node) : gset string) ↔ requests node action.
Proof.
  rewrite elem_of_list_to_set, list_elem_of_fmap. unfold requests. naive_solver.
Qed.

(** ** One node *)

Lemma checks_request_loop node contract i st :
  checks (for_fold st (enumerate (node_authority_requests node))
            (λ st '(j, r), check_request node contract i st j r))
    (NoDup (request_pair <$> node_authority_requests node) ∧
     (∀ r, r ∈ node_authority_requests node → request_pair r ∉ rq_pairs st) ∧
     (∀ r, r ∈ node_authority_requests node → request_ok contract r))
    (foldl request_step st (node_authority_requests node)).
Proof.
  unfold enumerate. rewrite <-(fold_ok_requests contract pair) by done.
  rewrite <-(foldl_imap_snd request_step pair) by done.
  apply checks_for_fold. intros st' [j r] _. apply checks_check_request.
Qed.

Lemma checks_required_authority program node contract i (actions : gset string) :
  checks (for_each (cc_required_authority_classes contract) (λ required,
    if bool_decide (required ∉ actions) then
      emit (contextual IrRequiredAuthorityMissing
        ("required authority class '" +++ required +++ "' was not requested")
        (Some (node_id node)) None (Some (op_capability (node_operation node)))
        (Some ("/nodes/" +++ pretty i +++ "/authority_requests")))
    else if bool_decide (required = "artifact.read") then
      validate_required_artifact_read_resources program node contract
        (op_capability (node_operation node)) i
    else mret ()))
    (∀ required, required ∈ cc_required_authority_classes contract →
       required ∈ actions ∧ (required = "artifact.read" → artifact_reads_covered program node contract)) ().
Proof.
  apply checks_for_each. intros required _.
  case_bool_decide as Hin; [eapply checks_iff; [check_error|tauto]|].
  case_bool_decide as Hread.
  - eapply checks_iff; [apply checks_artifact_reads|]. tauto.
  - eapply checks_iff; [apply checks_ret|]. tauto.
Qed.

Lemma checks_placement node i (actions : gset string) (effects : gset EffectClass) :
  checks (if non_local_only node then
      _ ← require_placement_authority node i "network.connect" actions;
      let effects := {[ Network ]} ∪ effects in
      if bool_decide (node_inputs node = ∅) then mret effects
      else
        _ ← require_placement_authority node i "data.egress" actions;
        mret ({[ DataEgress ]} ∪ effects)
    else mret effects)
    (non_local_only node = true →
       "network.connect" ∈ actions ∧ (node_inputs node ≠ ∅ → "data.egress" ∈ actions))
    ((if non_local_only node then
        {[ Network ]} ∪ (if bool_decide (node_inputs node = ∅) then ∅ else {[ DataEgress ]})
      else ∅) ∪ effects : gset EffectClass).
Proof.
  destruct (non_local_only node).
  - eapply checks_iff; [eapply checks_bind; [apply checks_require_placement|]|].
    + case_bool_decide as He.
      * replace ({[Network]} ∪ ∅ ∪ effects) with ({[Network]} ∪ effects) by set_solver.
        eapply (checks_iff _ _ (node_inputs node ≠ ∅ → "data.egress" ∈ actions)); [apply checks_ret|tauto].
      * replace ({[Network]} ∪ {[DataEgress]} ∪ effects)
          with ({[DataEgress]} ∪ ({[Network]} ∪ effects)) by set_solver.
        eapply checks_iff; [eapply checks_bind; [apply checks_require_placement|apply checks_ret]|]. tauto.
    + tauto.
  - replace (∅ ∪ effects) with effects by set_solver.
    eapply checks_iff; [apply checks_ret|done].
Qed.

(** The condition the passes over one node check, as its parts. *)
Lemma node_effects_ok_parts program contract node :
  node_effects_ok program contract node ↔
  (NoDup (request_pair <$> node_authority_requests node) ∧
   (∀ r, r ∈ node_authority_requests node → request_ok contract r)) ∧
  (∀ required, required ∈ cc_required_authority_classes contract →
     requests node required ∧
     (required = "artifact.read" → artifact_reads_covered program node contract)) ∧
  (non_local_only node = true →
     requests node "network.connect" ∧ (node_inputs node ≠ ∅ → requests node "data.egress")) ∧
  (∀ effect, effect ∈ node_effects contract node → effect ∈ cc_allowed_effect_classes contract) ∧
  egress_ok node contract (node_effects contract node) ∧
  (node_cache node ≠ Never → node_execution_class node = Deterministic).
Proof.
  unfold request_ok. split.
  - intros []. split_and!; try done; [|naive_solver]. intros r Hr. split; [apply eo_allowed0|apply eo_mapped0]; by exists r.
  - intros ((Hnd & Hr) & Hreq & Hpl & Heff & Heg & Hc). split; try done.
    + intros a (r & Hin & <-). by apply Hr.
    + intros a (r & Hin & <-). by apply Hr.
    + naive_solver.
    + naive_solver.
Qed.

Lemma checks_check_node_effects program contract i node :
  checks (check_node_effects program contract i node) (node_effects_ok program contract node)
    (node_effects contract node).
Proof.
  rewrite node_effects_ok_parts. unfold check_node_effects.
  set (st0 := {| rq_pairs := ∅ |}).
  destruct (foldl_request_step (node_authority_requests node) st0) as [Hactions Heffects].
  eapply checks_bind.
  { eapply checks_iff; [apply checks_request_loop|]. simpl. set_solver. }
  rewrite Hactions. simpl. setoid_rewrite <-elem_of_requested_actions.
  rewrite union_empty_r_L. eapply checks_bind; [apply checks_required_authority|].
  eapply checks_bind; [apply checks_placement|]. rewrite Heffects. simpl.
  rewrite (assoc_L (∪)). fold (node_effects contract node). eapply checks_bind.
  { eapply checks_iff; [apply (checks_for_each _ _ (λ e, e ∈ cc_allowed_effect_classes contract))|].
    - intros e _. eapply checks_iff; [check_error|]. rewrite bool_decide_eq_false.
      split; [apply dec_stable|auto].
    - by setoid_rewrite elem_of_btree_set_iter. }
  eapply checks_bind; [apply checks_validate_egress|].
  eapply checks_iff; [eapply checks_bind; [check_error|apply checks_ret]|].
  rewrite andb_false_iff, !negb_false_iff, !bool_decide_eq_true.
  destruct (node_cache node), (node_execution_class node); naive_solver.
Qed.

(** ** The node loop *)

(** The condition checked for one node, and the effect map that results. *)
Definition effects_ok (program : AiosIr) (capabilities : gmap string CapabilityContract) : Prop :=
  ∀ node contract, node ∈ program_nodes program → capabilities !! node_id node = Some contract →
    node_effects_ok program contract node.

Definition effects_step (capabilities : gmap string CapabilityContract)
    (m : gmap string (gset EffectClass)) (node : Node) : gmap string (gset EffectClass) :=
  match capabilities !! node_id node with
  | Some contract => <[node_id node := node_effects contract node]> m
  | None => m
  end.

Definition effects_map (program : AiosIr) (capabilities : gmap string CapabilityContract) :
    gmap string (gset EffectClass) :=
  foldl (effects_step capabilities) ∅ (program_nodes program).

Lemma checks_validate_effects program capabilities :
  (∀ node, node ∈ program_nodes program → is_Some (capabilities !! node_id node)) →
  checks (validate_effects program capabilities) (effects_ok program capabilities)
    (effects_map program capabilities).
Proof.
  intros Hcaps. unfold validate_effects, effects_map, effects_ok. eapply checks_iff.
  - apply (checks_for_fold_enumerate _ _ (λ node, ∀ contract,
      capabilities !! node_id node = Some contract → node_effects_ok program contract node)).
    intros m i node Hnode. destruct (Hcaps _ Hnode) as [contract Hc]. unfold effects_step. rewrite Hc.
    eapply checks_iff.
    + eapply checks_bind; [by apply checks_expect|].
      eapply checks_bind; [apply checks_check_node_effects|apply checks_ret].
    + naive_solver.
  - naive_solver.
Qed.

(** The effects of every node are found under its identifier, and nothing else is. *)
Lemma effects_map_lookup program capabilities node :
  NoDup (node_id <$> program_nodes program) → node ∈ program_nodes program →
  effects_map program capabilities !! node_id node =
    (λ contract, node_effects contract node) <$> capabilities !! node_id node.
Proof.
  intros Hnd Hin. rewrite <-(foldl_insert_keyed_lookup node_id
    (λ n, (λ c, node_effects c n) <$> capabilities !! node_id n) _ _ Hnd Hin).
  unfold effects_map. f_equal. clear. generalize (∅ : gmap string (gset EffectClass)).
  induction (program_nodes program) as [|n ns IH]; intros m; simpl; [done|].
  rewrite IH. f_equal. unfold effects_step, insert_keyed. by destruct (capabilities !! node_id n).
Qed.

Lemma effects_map_dom program capabilities id effects :
  effects_map program capabilities !! id = Some effects →
  ∃ node, node ∈ program_nodes program ∧ node_id node = id.
Proof.
  unfold effects_map. assert (∀ m, foldl (effects_step capabilities) m (program_nodes program) !! id = Some effects →
    m !! id = Some effects ∨ ∃ node, node ∈ program_nodes program ∧ node_id node = id) as Hgen.
  { induction (program_nodes program) as [|n ns IH]; intros m; simpl; [by left|].
    intros [Hm|(n' & Hn' & Hid)]%IH; [|right; exists n'; split; [by right|done]].
    unfold effects_step in Hm. destruct (capabilities !! node_id n); [|by left].
    destruct (decide (node_id n = id)) as [Heq|Hne].
    - right. exists n. split; [by left|done].
    - left. by rewrite lookup_insert_ne in Hm. }
  intros [Hm|Hex]%Hgen; [|done]. by rewrite lookup_empty in Hm.
Qed.

Lemma elem_of_required_effects contract e :
  e ∈ required_effects contract ↔ e ∈ cc_required_effect_classes contract ∧ e ≠ Pure.
Proof. unfold required_effects. rewrite elem_of_list_to_set, list_elem_of_filter. naive_solver. Qed.

(** The sources of an effect other than the default [PURE]. *)
Lemma elem_of_node_effects contract node e :
  (∃ r, r ∈ node_authority_requests node ∧ effect_for_authority_class (req_action r) = Some e) ∨
  (e ∈ cc_required_effect_classes contract ∧ e ≠ Pure) ∨
  (non_local_only node = true ∧ (e = Network ∨ (e = DataEgress ∧ node_inputs node ≠ ∅))) →
  e ∈ node_effects contract node.
Proof.
  intros Hsrc. unfold node_effects. set (effects := _ ∪ _ ∪ _).
  assert (e ∈ effects) as He.
  { unfold effects. rewrite !elem_of_union, elem_of_list_to_set, list_elem_of_omap, elem_of_required_effects.
    destruct Hsrc as [Hr|[Hr|[-> Hp]]]; [left; right; done|by right|left; left].
    case_bool_decide; set_solver. }
  case_bool_decide as Hemp; [|done]. rewrite Hemp in He. set_solver.
Qed.

Lemma node_effects_nonempty contract node : ∃ e, e ∈ node_effects contract node.
Proof.
  unfold node_effects. case_bool_decide as He; [exists Pure; set_solver|]. by apply set_choose_L.
Qed.
