(* ===== verification/Worklist.v ===== *)
(** * Worklist reachability

    The two [while let Some(x) = pending.pop_front()] loops of
    [crates/aios-ir/src/semantics.rs]: [fallback_path_exists] tests for its
    target before it marks a capability, [warn_unused_pure_nodes] marks a node
    before it tests it.  Both run under a fuel of the number of edges plus two:
    every iteration removes one pending entry, and the entries of a key are
    appended at most once.  [None] stands for lack of fuel, which the lemmas
    rule out. *)

From S2P Require Import Prelude.

Abbreviation relation_map := (gmap string (gset string)).

(** [pending.extend(relation.get(x))], when there is an entry. *)
Definition extend_pending (relation : relation_map) (x : string) (pending : list string) : list string :=
  match relation !! x with
  | Some next => pending ++ btree_set_iter next
  | None => pending
  end.

(** The loop of [fallback_path_exists]. *)
Fixpoint path_loop (fuel : nat) (relation : relation_map) (target : string)
    (pending : list string) (visited : gset string) : option bool :=
  match fuel with
  | 0 => None
  | S fuel' =>
      match pending with
      | [] => Some false
      | capability :: pending' =>
          if bool_decide (capability = target) then Some true
          else if bool_decide (capability ∈ visited) then path_loop fuel' relation target pending' visited
          else path_loop fuel' relation target (extend_pending relation capability pending')
                 ({[ capability ]} ∪ visited)
      end
  end.

(** The loop of [warn_unused_pure_nodes]; [useful] is its break condition. *)
Fixpoint useful_loop (fuel : nat) (relation : relation_map) (useful : string → bool)
    (pending : list string) (seen : gset string) : option bool :=
  match fuel with
  | 0 => None
  | S fuel' =>
      match pending with
      | [] => Some false
      | candidate :: pending' =>
          if bool_decide (candidate ∈ seen) then useful_loop fuel' relation useful pending' seen
          else if useful candidate then Some true
          else useful_loop fuel' relation useful (extend_pending relation candidate pending')
                 ({[ candidate ]} ∪ seen)
      end
  end.

(** The number of edges of a relation. *)
Definition edge_count (relation : relation_map) : nat :=
  map_fold (λ _ next n, size next + n) 0 relation.

Definition worklist_fuel (relation : relation_map) : nat := S (S (edge_count relation)).

(** ** Specification *)

Definition related (relation : relation_map) (x y : string) : Prop :=
  ∃ next, relation !! x = Some next ∧ y ∈ next.

(** Some node satisfying [stop] can be reached. *)
Definition reaches (relation : relation_map) (stop : string → Prop) (x : string) : Prop :=
  ∃ y, rtc (related relation) x y ∧ stop y.

(** ** Termination *)

(** The entries of the keys that are still unmarked. *)
Definition unmarked (relation : relation_map) (visited : gset string) : relation_map :=
  filter (λ kv, kv.1 ∉ visited) relation.

Definition work_left (relation : relation_map) (pending : list string) (visited : gset string) : nat :=
  length pending + edge_count (unmarked relation visited).

Lemma edge_count_delete relation x next :
  relation !! x = Some next → edge_count relation = size next + edge_count (delete x relation).
Proof.
  intros Hx. unfold edge_count. apply (map_fold_delete_L (λ _ (next : gset string) n, size next + n) 0 x next relation);
    [|done].
  intros. lia.
Qed.

Lemma unmarked_mark relation x visited :
  unmarked relation ({[ x ]} ∪ visited) = delete x (unmarked relation visited).
Proof.
  apply map_eq. intros k. apply option_eq. intros v.
  rewrite lookup_delete_Some. unfold unmarked. rewrite !map_lookup_filter_Some. simpl. set_solver.
Qed.

Lemma work_left_extend relation x pending visited :
  x ∉ visited →
  work_left relation (extend_pending relation x pending) ({[ x ]} ∪ visited) =
  work_left relation pending visited.
Proof.
  intros Hx. unfold work_left, extend_pending. rewrite unmarked_mark.
  destruct (relation !! x) as [next|] eqn:Hr.
  - rewrite length_app, length_btree_set_iter,
      (edge_count_delete (unmarked relation visited) x next); [lia|].
    unfold unmarked. by rewrite map_lookup_filter_Some.
  - rewrite delete_id; [done|]. unfold unmarked. rewrite map_lookup_filter_None. by left.
Qed.

Lemma work_left_initial relation x : S (work_left relation [x] ∅) = worklist_fuel relation.
Proof.
  unfold work_left, worklist_fuel, unmarked. simpl. do 2 f_equal.
  f_equal. apply map_filter_id. intros. set_solver.
Qed.

(** ** Correctness *)

(** A marked node is not a goal, and its successors are marked or pending. *)
Definition marked_closed (relation : relation_map) (stop : string → Prop)
    (pending : list string) (visited : gset string) : Prop :=
  ∀ x, x ∈ visited → ¬ stop x ∧ ∀ y, related relation x y → y ∈ visited ∨ y ∈ pending.

Lemma elem_of_extend_pending relation x pending y :
  y ∈ extend_pending relation x pending ↔ y ∈ pending ∨ related relation x y.
Proof.
  unfold extend_pending, related. destruct (relation !! x) as [next|].
  - rewrite elem_of_app, elem_of_btree_set_iter. naive_solver.
  - naive_solver.
Qed.

(** A path that starts marked and ends in a goal runs through a pending node. *)
Lemma marked_closed_escape relation stop pending visited x :
  marked_closed relation stop pending visited → x ∈ visited → reaches relation stop x →
  ∃ p, p ∈ pending ∧ reaches relation stop p.
Proof.
  intros Hcl Hx (y & Hp & Hy). revert Hx Hy. induction Hp as [y|x z y Hxz Hzy IH]; intros Hx Hy.
  - by destruct (Hcl y Hx).
  - destruct (Hcl x Hx) as [_ Hs]. destruct (Hs z Hxz) as [Hz|Hz]; [by apply IH|].
    exists z. split; [done|]. by exists y.
Qed.

Lemma marked_closed_skip relation stop x pending visited :
  marked_closed relation stop (x :: pending) visited → x ∈ visited →
  marked_closed relation stop pending visited.
Proof. intros Hcl Hx y Hy. destruct (Hcl y Hy). split; [done|]. set_solver. Qed.

Lemma marked_closed_mark relation stop x pending visited :
  marked_closed relation stop (x :: pending) visited → ¬ stop x →
  marked_closed relation stop (extend_pending relation x pending) ({[ x ]} ∪ visited).
Proof.
  intros Hcl Hx y Hy. setoid_rewrite elem_of_extend_pending. apply elem_of_union in Hy as [Hy|Hy].
  - apply elem_of_singleton in Hy as ->. split; [done|]. auto.
  - destruct (Hcl y Hy) as [Hn Hs]. split; [done|]. intros z Hz. specialize (Hs z Hz). set_solver.
Qed.

(** Dropping a marked entry, or replacing an entry by its successors, keeps
    whether a goal can be reached from the pending entries. *)
Lemma reaches_skip relation stop x pending visited :
  marked_closed relation stop (x :: pending) visited → x ∈ visited →
  (∃ p, p ∈ pending ∧ reaches relation stop p) ↔ (∃ p, p ∈ x :: pending ∧ reaches relation stop p).
Proof.
  intros Hcl Hx. split; [intros (p & ? & ?); exists p; split; [by right|done]|].
  intros (p & Hp & Hr). apply elem_of_cons in Hp as [->|Hp]; [|eauto].
  eapply marked_closed_escape; [|done..]. by eapply marked_closed_skip.
Qed.

Lemma reaches_mark relation (stop : string → Prop) x pending :
  ¬ stop x →
  (∃ p, p ∈ extend_pending relation x pending ∧ reaches relation stop p) ↔
  (∃ p, p ∈ x :: pending ∧ reaches relation stop p).
Proof.
  intros Hx. setoid_rewrite elem_of_extend_pending. setoid_rewrite elem_of_cons. split.
  - intros (p & [Hp|Hxp] & Hr); [by eauto|]. exists x. split; [by left|].
    destruct Hr as (y & Hpy & Hy). exists y. split; [|done]. by eapply rtc_l.
  - intros (p & [->|Hp] & Hr); [|by eauto]. destruct Hr as (y & Hxy & Hy).
    apply rtc_inv in Hxy as [->|(z & Hxz & Hzy)]; [done|]. exists z. split; [by right|]. by exists y.
Qed.

(** Both loops return, and answer whether a goal is reachable. *)
Lemma path_loop_spec relation target fuel pending visited :
  work_left relation pending visited < fuel →
  marked_closed relation (eq target) pending visited →
  ∃ b, path_loop fuel relation target pending visited = Some b ∧
    (b = true ↔ ∃ p, p ∈ pending ∧ reaches relation (eq target) p).
Proof.
  revert pending visited. induction fuel as [|fuel IH]; intros pending visited Hf Hcl; [lia|]. simpl.
  destruct pending as [|x pending]; [exists false; split; [done|]; set_solver|].
  case_bool_decide as Ht.
  { exists true. split; [done|]. split; [|done]. intros _. exists x. split; [by left|].
    exists x. split; [apply rtc_refl|done]. }
  case_bool_decide as Hv.
  - destruct (IH pending visited) as (b & -> & Hb).
    + unfold work_left in *. simpl in Hf. lia.
    + by eapply marked_closed_skip.
    + exists b. split; [done|]. rewrite Hb. by apply reaches_skip with visited.
  - destruct (IH (extend_pending relation x pending) ({[x]} ∪ visited)) as (b & -> & Hb).
    + rewrite work_left_extend by done. unfold work_left in *. simpl in Hf. lia.
    + apply marked_closed_mark; [done|congruence].
    + exists b. split; [done|]. rewrite Hb. apply reaches_mark. congruence.
Qed.

Lemma useful_loop_spec relation useful fuel pending seen :
  work_left relation pending seen < fuel →
  marked_closed relation (λ y, useful y = true) pending seen →
  ∃ b, useful_loop fuel relation useful pending seen = Some b ∧
    (b = true ↔ ∃ p, p ∈ pending ∧ reaches relation (λ y, useful y = true) p).
Proof.
  revert pending seen. induction fuel as [|fuel IH]; intros pending seen Hf Hcl; [lia|]. simpl.
  destruct pending as [|x pending]; [exists false; split; [done|]; set_solver|].
  case_bool_decide as Hv.
  { destruct (IH pending seen) as (b & -> & Hb).
    - unfold work_left in *. simpl in Hf. lia.
    - by eapply marked_closed_skip.
    - exists b. split; [done|]. rewrite Hb. by apply reaches_skip with seen. }
  destruct (useful x) eqn:Hu.
  - exists true. split; [done|]. split; [|done]. intros _. exists x. split; [by left|].
    exists x. split; [apply rtc_refl|done].
  - destruct (IH (extend_pending relation x pending) ({[x]} ∪ seen)) as (b & -> & Hb).
    + rewrite work_left_extend by done. unfold work_left in *. simpl in Hf. lia.
    + apply marked_closed_mark; [done|congruence].
    + exists b. split; [done|]. rewrite Hb. apply reaches_mark. congruence.
Qed.

(** From a single start with nothing marked. *)
Lemma worklist_start relation stop x :
  marked_closed relation stop [x] ∅ ∧
  ((∃ p, p ∈ [x] ∧ reaches relation stop p) ↔ reaches relation stop x).
Proof. split; [intros y Hy; set_solver|]. setoid_rewrite list_elem_of_singleton. naive_solver. Qed.
