(* ===== verification/Fallbacks.v ===== *)
(** * Fallback capabilities

    [validate_fallbacks], [build_fallback_relation], [fallback_path_exists] and
    [fallback_ports_compatible] of [crates/aios-ir/src/semantics.rs]. *)

From S2P Require Import Prelude Json Contracts Collector Version Registry References TypeCheck Effects Worklist.

Definition build_fallback_relation (program : AiosIr) : relation_map :=
  foldl (λ relation node,
    match node_failure node with
    | Fallback fallback_capabilities =>
        let capability := op_capability (node_operation node) in
        <[capability := default ∅ (relation !! capability) ∪ list_to_set fallback_capabilities]> relation
    | _ => relation
    end) ∅ (program_nodes program).

Definition fallback_path_exists (relation : relation_map) (start target : string) : option bool :=
  path_loop (worklist_fuel relation) relation target [start] ∅.

(** [Iterator::all] with a closure that may panic. *)
Fixpoint all_or_panic {A} (f : A → option bool) (l : list A) : option bool :=
  match l with
  | [] => Some true
  | x :: l' =>
      match f x with
      | None => None
      | Some false => Some false
      | Some true => all_or_panic f l'
      end
  end.

(** The ports of a node that the rest of the program reads, in order. *)
Definition consumed_ports (program : AiosIr) (id : string) : list string :=
  omap (λ value_ref, match value_ref with
                     | ValueRef_Node producer port => if bool_decide (producer = id) then Some port else None
                     | ValueRef_Input _ => None
                     end)
    ((program_nodes program ≫= λ consumer, btree_values (node_inputs consumer)) ++
     btree_values (program_outputs program)).

(** One bound input of [fallback_ports_compatible]. *)
Definition bound_input_matches (program : AiosIr) (primary fallback : CapabilityContract)
    (entry : string * ValueRef) : bool :=
  let '(name, value_ref) := entry in
  match cc_inputs primary !! name with
  | None => false
  | Some primary_port =>
      match cc_inputs fallback !! name with
      | None => false
      | Some fallback_port =>
          if negb (bool_decide (port_type_ref fallback_port = port_type_ref primary_port)) then false
          else
            negb (port_required fallback_port) ||
            negb (match value_ref with
                  | ValueRef_Input name =>
                      match program_inputs program !! name with
                      | Some input => negb (input_required input)
                      | None => false
                      end
                  | ValueRef_Node _ _ => false
                  end)
      end
  end.

Definition fallback_ports_compatible (program : AiosIr) (node : Node)
    (primary fallback : CapabilityContract) : option bool :=
  let bound_inputs_match :=
    forallb (bound_input_matches program primary fallback) (btree_iter (node_inputs node)) in
  let required_fallback_inputs_are_bound :=
    forallb (λ '(name, port), negb (port_required port) || bool_decide (is_Some (node_inputs node !! name)))
      (btree_iter (cc_inputs fallback)) in
  match all_or_panic (λ port,
      match node_outputs node !! port with
      | None => None
      | Some expected_type =>
          Some (match cc_outputs fallback !! port with
                | Some fallback_port => bool_decide (port_type_ref fallback_port = expected_type)
                | None => false
                end)
      end) (consumed_ports program (node_id node)) with
  | None => None
  | Some consumed_outputs_match =>
      Some (bound_inputs_match && required_fallback_inputs_are_bound && consumed_outputs_match)
  end.

(** The capability broadens the effects, the authority or the egress. *)
Definition broadens_effects (fallback : CapabilityContract) (effects : gset EffectClass) : bool :=
  existsb (λ effect, bool_decide (effect ∉ effects))
    (filter (λ effect, effect ≠ Pure) (cc_allowed_effect_classes fallback)).

Definition broadens_authority (fallback : CapabilityContract) (actions : gset string) : bool :=
  existsb (λ action, bool_decide (action ∉ actions)) (cc_allowed_authority_classes fallback).

Definition broadens_egress (fallback : CapabilityContract) (node : Node) : bool :=
  bool_decide (egress_mode (node_egress node) = Deny) &&
  existsb (λ mode, negb (bool_decide (mode = Deny))) (cc_allowed_egress_modes fallback).

Section registry.
Context {R : Type} `{ContractRegistry R}.
Implicit Types (registry : R).

(** One iteration over the fallbacks of a node. *)
Definition check_fallback (program : AiosIr) registry (fallback_relation : relation_map)
    (node_index : nat) (node : Node) (primary : CapabilityContract) (actions : gset string)
    (effects : gset EffectClass) (fallback_index : nat) (fallback_ref : string) : Diag unit :=
  let pointer := "/nodes/" +++ pretty node_index +++ "/failure/fallback_capabilities/" +++
                 pretty fallback_index in
  let capability := op_capability (node_operation node) in
  let report code message :=
    emit (contextual code message (Some (node_id node)) None (Some fallback_ref) (Some pointer)) in
  if bool_decide (fallback_ref = capability) then
    emit (contextual IrFailurePolicyRecursiveFallback "fallback chain contains its primary capability"
      (Some (node_id node)) None (Some capability) (Some pointer))
  else
    recursive ← expect (fallback_path_exists fallback_relation fallback_ref capability);
    _ ← when recursive
      (emit (contextual IrFailurePolicyRecursiveFallback
        "fallback relation contains a multi-capability cycle"
        (Some (node_id node)) None (Some capability) (Some pointer)));
    match flatten (resolve_capability registry fallback_ref) with
    | None =>
        report IrCapabilityNotFound
          ("fallback capability '" +++ fallback_ref +++ "' is not in the registry")
    | Some fallback =>
        _ ← when (existsb (λ action, bool_decide (action = "artifact.read"))
                    (cc_required_authority_classes fallback))
          (validate_required_artifact_read_resources program node fallback fallback_ref node_index);
        compatible ← expect (fallback_ports_compatible program node primary fallback);
        _ ← when (negb compatible)
          (report IrFallbackPortMismatch
            ("fallback capability '" +++ fallback_ref +++
             "' cannot satisfy the node's bound inputs or graph-consumed outputs"));
        _ ← when (bool_decide (node_execution_class node ∉ cc_allowed_execution_classes fallback))
          (report IrExecutionClassIncompatible
            ("fallback capability '" +++ fallback_ref +++ "' cannot run with the node execution class"));
        let role := expected_role (op_kind (node_operation node)) in
        _ ← when (negb (bool_decide (cc_role fallback = role)))
          (report IrCapabilityRoleMismatch
            ("fallback capability '" +++ fallback_ref +++ "' has role " +++
             CapabilityRole_debug (cc_role fallback) +++ ", expected " +++ CapabilityRole_debug role));
        _ ← when (broadens_effects fallback effects)
          (report IrFallbackEffectBroadening
            ("fallback capability '" +++ fallback_ref +++ "' broadens the effect envelope"));
        _ ← when (broadens_authority fallback actions)
          (report IrFallbackAuthorityBroadening
            ("fallback capability '" +++ fallback_ref +++ "' broadens the authority envelope"));
        when (broadens_egress fallback node)
          (report IrFallbackEgressBroadening
            ("fallback capability '" +++ fallback_ref +++ "' broadens the egress envelope"))
    end.

Definition validate_fallbacks (program : AiosIr) registry
    (capabilities : gmap string CapabilityContract)
    (node_effects : gmap string (gset EffectClass)) : Diag unit :=
  let fallback_relation := build_fallback_relation program in
  for_each (enumerate (program_nodes program)) (λ '(node_index, node),
    match node_failure node with
    | Fallback fallback_capabilities =>
        primary ← expect (capabilities !! node_id node);
        let actions : gset string := list_to_set (req_action <$> node_authority_requests node) in
        effects ← expect (node_effects !! node_id node);
        for_each (enumerate fallback_capabilities) (λ '(fallback_index, fallback_ref),
          check_fallback program registry fallback_relation node_index node primary actions effects
            fallback_index fallback_ref)
    | _ => mret ()
    end).

(** ** Specification *)

(** Some node with capability [a] names [b] as a fallback. *)
Definition falls_back_to (program : AiosIr) (a b : string) : Prop :=
  ∃ node fallbacks, node ∈ program_nodes program ∧ op_capability (node_operation node) = a ∧
    node_failure node = Fallback fallbacks ∧ b ∈ fallbacks.

(** The program reads output [port] of node [id]. *)
Definition reads_port (program : AiosIr) (id port : string) : Prop :=
  (∃ consumer name, consumer ∈ program_nodes program ∧
     node_inputs consumer !! name = Some (ValueRef_Node id port)) ∨
  (∃ name, program_outputs program !! name = Some (ValueRef_Node id port)).

(** The fallback can be called the way the node calls its primary capability. *)
Record fallback_ports_ok (program : AiosIr) (node : Node) (primary fallback : CapabilityContract) : Prop := {
  fp_inputs : ∀ name v, node_inputs node !! name = Some v →
    ∃ p f, cc_inputs primary !! name = Some p ∧ cc_inputs fallback !! name = Some f ∧
      port_type_ref f = port_type_ref p ∧
      (port_required f = true → ∀ input spec, v = ValueRef_Input input →
         program_inputs program !! input = Some spec → input_required spec = true);
  fp_required : ∀ name f, cc_inputs fallback !! name = Some f → port_required f = true →
    is_Some (node_inputs node !! name);
  fp_outputs : ∀ port, reads_port program (node_id node) port →
    ∃ t f, node_outputs node !! port = Some t ∧ cc_outputs fallback !! port = Some f ∧ port_type_ref f = t;
}.

(** The fallback grants nothing beyond what the node already declares. *)
Record no_broadening (node : Node) (effects : gset EffectClass) (fallback : CapabilityContract) : Prop := {
  nb_effects : ∀ e, e ∈ cc_allowed_effect_classes fallback → e ≠ Pure → e ∈ effects;
  nb_authority : ∀ a, a ∈ cc_allowed_authority_classes fallback → requests node a;
  nb_egress : egress_mode (node_egress node) = Deny →
    ∀ m, m ∈ cc_allowed_egress_modes fallback → m = Deny;
}.

Record fallback_ok (program : AiosIr) registry (node : Node) (primary : CapabilityContract)
    (effects : gset EffectClass) (fallback_ref : string) : Prop := {
  fo_acyclic : ¬ rtc (falls_back_to program) fallback_ref (op_capability (node_operation node));
  fo_contract : ∃ fallback, flatten (resolve_capability registry fallback_ref) = Some fallback ∧
    ("artifact.read" ∈ cc_required_authority_classes fallback →
       artifact_reads_covered program node fallback) ∧
    fallback_ports_ok program node primary fallback ∧
    node_execution_class node ∈ cc_allowed_execution_classes fallback ∧
    cc_role fallback = expected_role (op_kind (node_operation node)) ∧
    no_broadening node effects fallback;
}.

Definition fallbacks_ok (program : AiosIr) registry (capabilities : gmap string CapabilityContract)
    (node_effects : gmap string (gset EffectClass)) : Prop :=
  ∀ node fallbacks primary effects fallback_ref,
    node ∈ program_nodes program → node_failure node = Fallback fallbacks →
    capabilities !! node_id node = Some primary → node_effects !! node_id node = Some effects →
    fallback_ref ∈ fallbacks → fallback_ok program registry node primary effects fallback_ref.

End registry.

(** ** The fallback relation and its paths *)

Lemma related_fallback_fold ns m a b :
  related (foldl (λ relation node,
    match node_failure node with
    | Fallback fallback_capabilities =>
        let capability := op_capability (node_operation node) in
        <[capability := default ∅ (relation !! capability) ∪ list_to_set fallback_capabilities]> relation
    | _ => relation
    end) m ns) a b ↔
  related m a b ∨
  ∃ node fallbacks, node ∈ ns ∧ op_capability (node_operation node) = a ∧
    node_failure node = Fallback fallbacks ∧ b ∈ fallbacks.
Proof.
  revert m. induction ns as [|n ns IH]; intros m; simpl; [set_solver|].
  rewrite IH.
  assert ((∃ node fallbacks, node ∈ n :: ns ∧ op_capability (node_operation node) = a ∧
      node_failure node = Fallback fallbacks ∧ b ∈ fallbacks) ↔
    (∃ fs, op_capability (node_operation n) = a ∧ node_failure n = Fallback fs ∧ b ∈ fs) ∨
    (∃ node fallbacks, node ∈ ns ∧ op_capability (node_operation node) = a ∧
      node_failure node = Fallback fallbacks ∧ b ∈ fallbacks)) as ->.
  { setoid_rewrite elem_of_cons. split; [|naive_solver].
    intros (n' & fs & [->|Hn'] & ?); [left; by exists fs|right; by exists n', fs]. }
  destruct (node_failure n) as [| |fs|]; [naive_solver..| |naive_solver].
  assert (related (<[op_capability (node_operation n) :=
      default ∅ (m !! op_capability (node_operation n)) ∪ list_to_set fs]> m) a b ↔
    related m a b ∨ (op_capability (node_operation n) = a ∧ b ∈ fs)) as ->; [|naive_solver].
  unfold related. destruct (decide (op_capability (node_operation n) = a)) as [->|Hne].
  - rewrite lookup_insert_eq. split.
    + intros (next & [= <-] & Hb). apply elem_of_union in Hb as [Hb|Hb].
      * left. destruct (m !! a) as [s|]; [by exists s|set_solver].
      * right. by apply elem_of_list_to_set in Hb.
    + intros Hor. eexists. split; [done|]. apply elem_of_union. rewrite elem_of_list_to_set.
      destruct Hor as [(next & -> & Hb)|[_ Hb]]; [by left|by right].
  - setoid_rewrite lookup_insert_ne; [|done]. naive_solver.
Qed.

Lemma related_build_fallback_relation program a b :
  related (build_fallback_relation program) a b ↔ falls_back_to program a b.
Proof.
  unfold build_fallback_relation, falls_back_to. rewrite related_fallback_fold.
  unfold related at 1. setoid_rewrite lookup_empty. naive_solver.
Qed.

(** [fallback_path_exists] returns and decides reachability. *)
Lemma fallback_path_exists_spec relation start target :
  ∃ b, fallback_path_exists relation start target = Some b ∧
    (b = true ↔ rtc (related relation) start target).
Proof.
  unfold fallback_path_exists. destruct (worklist_start relation (eq target) start) as [Hcl Hr].
  destruct (path_loop_spec relation target (worklist_fuel relation) [start] ∅) as (b & Hb & Hiff);
    [rewrite <-(work_left_initial relation start); lia|done|].
  exists b. split; [done|]. rewrite Hiff, Hr. unfold reaches. naive_solver.
Qed.

Lemma rtc_falls_back_to program start target :
  rtc (related (build_fallback_relation program)) start target ↔ rtc (falls_back_to program) start target.
Proof.
  split; intros Hr; eapply rtc_subrel; [|done| |done]; intros x y; apply related_build_fallback_relation.
Qed.

(** ** Port compatibility *)

Lemma elem_of_consumed_ports program id port :
  port ∈ consumed_ports program id ↔ reads_port program id port.
Proof.
  unfold consumed_ports, reads_port. rewrite list_elem_of_omap.
  setoid_rewrite elem_of_app. setoid_rewrite list_elem_of_bind. setoid_rewrite elem_of_btree_values.
  split.
  - intros ([name|producer p] & Hin & Heq); [done|]. case_bool_decide; simplify_eq.
    destruct Hin as [(c & [n Hn] & Hc)|Hn]; [left|right]; eauto.
  - intros Hin. exists (ValueRef_Node id port). rewrite bool_decide_eq_true_2 by done.
    split; [|done]. destruct Hin as [(c & n & Hc & Hn)|Hn]; [left|right]; eauto.
Qed.

Lemma all_or_panic_spec {A} (f : A → option bool) l :
  (∀ x, x ∈ l → is_Some (f x)) →
  ∃ b, all_or_panic f l = Some b ∧ (b = true ↔ ∀ x, x ∈ l → f x = Some true).
Proof.
  induction l as [|x l IH]; simpl; intros Hf.
  - exists true. split; [done|]. split; [|done]. intros _ x Hx. by apply not_elem_of_nil in Hx.
  - destruct (Hf x) as [b Hb]; [by left|]. rewrite Hb. setoid_rewrite forall_elem_of_cons.
    destruct b; [|exists false; naive_solver].
    destruct IH as (b & -> & Hiff); [intros y Hy; apply Hf; by right|].
    exists b. split; [done|]. rewrite Hiff. naive_solver.
Qed.

Lemma bound_input_matches_spec program primary fallback name v :
  bound_input_matches program primary fallback (name, v) = true ↔
  ∃ p f, cc_inputs primary !! name = Some p ∧ cc_inputs fallback !! name = Some f ∧
    port_type_ref f = port_type_ref p ∧
    (port_required f = true → ∀ input spec, v = ValueRef_Input input →
       program_inputs program !! input = Some spec → input_required spec = true).
Proof.
  unfold bound_input_matches. destruct (cc_inputs primary !! name) as [p|]; [|naive_solver].
  destruct (cc_inputs fallback !! name) as [f|]; [|naive_solver].
  case_bool_decide as Ht; simpl; [|naive_solver].
  transitivity (port_required f = true → ∀ input spec, v = ValueRef_Input input →
    program_inputs program !! input = Some spec → input_required spec = true).
  - destruct (port_required f); simpl; [|naive_solver]. destruct v as [input|n q]; [|naive_solver].
    destruct (program_inputs program !! input) as [spec|] eqn:Hs; [|naive_solver].
    rewrite negb_involutive. split; [|naive_solver].
    intros Hreq _ input' spec' [= <-] Hs'. by simplify_eq.
  - split; [intros Hr; by exists p, f|]. intros (p' & f' & ? & ? & _ & Hr). by simplify_eq.
Qed.

(** When every read output exists, the test never panics and decides
    [fallback_ports_ok]. *)
Lemma fallback_ports_compatible_spec program node primary fallback :
  (∀ port, reads_port program (node_id node) port → is_Some (node_outputs node !! port)) →
  ∃ b, fallback_ports_compatible program node primary fallback = Some b ∧
    (b = true ↔ fallback_ports_ok program node primary fallback).
Proof.
  intros Hreads. unfold fallback_ports_compatible.
  match goal with |- context [all_or_panic ?f ?l] => destruct (all_or_panic_spec f l) as (b & -> & Hb) end.
  { intros port Hport%elem_of_consumed_ports. by destruct (Hreads port Hport) as [t ->]. }
  eexists. split; [done|]. rewrite !andb_true_iff, Hb, !forallb_forall. split.
  - intros [[Hin Hreq] Hout]. split.
    + intros name v Hv. apply (bound_input_matches_spec program primary fallback name v), Hin.
      by apply list_elem_of_In, elem_of_btree_iter.
    + intros name f Hf Hr. specialize (Hreq (name, f)).
      rewrite <-list_elem_of_In, elem_of_btree_iter in Hreq. specialize (Hreq Hf).
      rewrite Hr in Hreq. by apply bool_decide_eq_true_1 in Hreq.
    + intros port Hport%elem_of_consumed_ports. specialize (Hout port Hport). simpl in Hout.
      destruct (node_outputs node !! port) as [t|]; [|done]. simplify_eq.
      destruct (cc_outputs fallback !! port) as [f|]; [|done]. breflect. by exists t, f.
  - intros [Hin Hreq Hout]. split; [split|].
    + intros [name v] Hv%list_elem_of_In%elem_of_btree_iter. by apply bound_input_matches_spec, Hin.
    + intros [name f] Hf%list_elem_of_In%elem_of_btree_iter. destruct (port_required f) eqn:Hr; [|done].
      simpl. apply bool_decide_eq_true_2. by eapply Hreq.
    + intros port Hport%elem_of_consumed_ports. destruct (Hout port Hport) as (t & f & -> & -> & Ht).
      by rewrite bool_decide_eq_true_2.
Qed.

(** ** Broadening *)

Lemma existsb_bool_decide_not_elem_of {A C} `{ElemOf A C, !RelDecision (∈@{C})} (l : list A) (s : C) :
  existsb (λ x, bool_decide (x ∉ s)) l = false ↔ ∀ x, x ∈ l → x ∈ s.
Proof.
  rewrite <-not_true_iff_false, existsb_exists. split.
  - intros Hn x Hx. apply dec_stable. intros Hns. apply Hn. exists x. rewrite <-list_elem_of_In.
    split; [done|]. by apply bool_decide_eq_true_2.
  - intros Hall (x & Hx%list_elem_of_In & Hb). breflect. auto.
Qed.

Lemma no_broadening_tests node effects fallback :
  (broadens_effects fallback effects = false ∧
   broadens_authority fallback (list_to_set (req_action <$> node_authority_requests node)) = false ∧
   broadens_egress fallback node = false) ↔ no_broadening node effects fallback.
Proof.
  unfold broadens_effects, broadens_authority, broadens_egress.
  rewrite !existsb_bool_decide_not_elem_of. setoid_rewrite list_elem_of_filter.
  setoid_rewrite elem_of_requested_actions.
  assert ((bool_decide (egress_mode (node_egress node) = Deny) &&
    existsb (λ mode, negb (bool_decide (mode = Deny))) (cc_allowed_egress_modes fallback)) = false ↔
    (egress_mode (node_egress node) = Deny → ∀ m, m ∈ cc_allowed_egress_modes fallback → m = Deny)) as ->.
  { case_bool_decide as Hd; simpl; [|tauto]. rewrite <-not_true_iff_false, existsb_exists. split.
    - intros Hn _ m Hm. apply dec_stable. intros Hne. apply Hn. exists m. rewrite <-list_elem_of_In.
      split; [done|]. by rewrite bool_decide_eq_false_2.
    - intros Hall (m & Hm%list_elem_of_In & Hb). rewrite (Hall Hd m Hm) in Hb. done. }
  split; [intros (? & ? & ?); split; naive_solver|]. intros []. naive_solver.
Qed.

(** ** The pass *)

Section correctness.
Context {R : Type} `{ContractRegistry R}.
Implicit Types (registry : R).

(** The contract half of the check, once the fallback is resolved. *)
Lemma fallback_contract_iff program registry node primary effects fallback_ref fallback :
  flatten (resolve_capability registry fallback_ref) = Some fallback →
  fallback_ok program registry node primary effects fallback_ref ↔
  ¬ rtc (falls_back_to program) fallback_ref (op_capability (node_operation node)) ∧
  ("artifact.read" ∈ cc_required_authority_classes fallback → artifact_reads_covered program node fallback) ∧
  fallback_ports_ok program node primary fallback ∧
  node_execution_class node ∈ cc_allowed_execution_classes fallback ∧
  cc_role fallback = expected_role (op_kind (node_operation node)) ∧
  no_broadening node effects fallback.
Proof.
  intros Hf. split.
  - intros [Hac (f & Hf' & Hrest)]. simplify_eq. tauto.
  - intros (Hac & Hrest). split; [done|]. by exists fallback.
Qed.

Lemma checks_artifact_reads_if program node fallback reported i :
  checks (when (existsb (λ action, bool_decide (action = "artifact.read"))
                  (cc_required_authority_classes fallback))
            (validate_required_artifact_read_resources program node fallback reported i))
    ("artifact.read" ∈ cc_required_authority_classes fallback →
       artifact_reads_covered program node fallback) ().
Proof.
  eapply checks_iff; [apply checks_when, checks_artifact_reads|].
  rewrite existsb_exists. setoid_rewrite <-list_elem_of_In. setoid_rewrite bool_decide_eq_true.
  naive_solver.
Qed.

Lemma checks_check_fallback program registry i node primary effects j fallback_ref :
  (∀ port, reads_port program (node_id node) port → is_Some (node_outputs node !! port)) →
  checks (check_fallback program registry (build_fallback_relation program) i node primary
            (list_to_set (req_action <$> node_authority_requests node)) effects j fallback_ref)
    (fallback_ok program registry node primary effects fallback_ref) ().
Proof.
  intros Hreads. unfold check_fallback. case_bool_decide as Hself.
  { eapply checks_iff; [check_error|]. split; [done|]. intros [Hac _]. destruct Hac. subst. apply rtc_refl. }
  destruct (fallback_path_exists_spec (build_fallback_relation program) fallback_ref
    (op_capability (node_operation node))) as (b & Hpath & Hb).
  rewrite rtc_falls_back_to in Hb.
  destruct (flatten (resolve_capability registry fallback_ref)) as [fallback|] eqn:Hf.
  - rewrite (fallback_contract_iff _ _ _ _ _ _ fallback) by done.
    destruct (fallback_ports_compatible_spec program node primary fallback Hreads) as (pc & Hpc & Hports).
    rewrite <-no_broadening_tests. eapply checks_iff.
    + eapply checks_bind; [by apply checks_expect|].
      eapply checks_bind; [check_error|].
      eapply checks_bind; [apply checks_artifact_reads_if|].
      eapply checks_bind; [by apply checks_expect|].
      do 5 (eapply checks_bind; [check_error|]). check_error.
    + rewrite <-Hb, <-Hports, !negb_false_iff, !bool_decide_eq_true, !bool_decide_eq_false.
      clear Hb Hports Hpc Hpath. split.
      * intros (_ & Hn & Har & _ & Hp & He & Hro & Hbe & Hba & Hbg).
        split_and!; try done; [by rewrite Hn|]. by apply dec_stable.
      * intros (Hn & Har & Hp & He & Hro & Hbe & Hba & Hbg).
        split_and!; try done; [by apply not_true_is_false|]. auto.
  - eapply checks_iff.
    + eapply checks_bind; [by apply checks_expect|]. eapply checks_bind; [check_error|]. check_error.
    + split; [tauto|]. intros [_ (? & ? & _)]. congruence.
Qed.

(** [validate_fallbacks] never panics on resolved programs whose references are
    valid, and is sound and complete for [fallbacks_ok]. *)
Lemma checks_validate_fallbacks program registry capabilities effects :
  (∀ node, node ∈ program_nodes program → is_Some (capabilities !! node_id node)) →
  (∀ node, node ∈ program_nodes program → is_Some (effects !! node_id node)) →
  (∀ node port, node ∈ program_nodes program → reads_port program (node_id node) port →
     is_Some (node_outputs node !! port)) →
  checks (validate_fallbacks program registry capabilities effects)
    (fallbacks_ok program registry capabilities effects) ().
Proof.
  intros Hcaps Heffs Hreads. unfold validate_fallbacks. eapply checks_iff.
  - apply (checks_for_enumerate _ _ (λ node, ∀ fallbacks primary es r,
      node_failure node = Fallback fallbacks → capabilities !! node_id node = Some primary →
      effects !! node_id node = Some es → r ∈ fallbacks →
      fallback_ok program registry node primary es r)).
    intros i node Hnode. destruct (Hcaps _ Hnode) as [primary Hp], (Heffs _ Hnode) as [es He].
    destruct (node_failure node) as [| |fallbacks|] eqn:Hfail;
      [eapply checks_iff; [apply checks_ret|naive_solver]..| |eapply checks_iff; [apply checks_ret|naive_solver]].
    eapply checks_iff.
    + eapply checks_bind; [by apply checks_expect|]. eapply checks_bind; [by apply checks_expect|].
      apply (checks_for_enumerate _ _ (fallback_ok program registry node primary es)).
      intros j r _. apply checks_check_fallback. intros port. by apply Hreads.
    + naive_solver.
  - unfold fallbacks_ok. naive_solver.
Qed.

End correctness.

(** C28: [fallback_path_exists] over the relation of a program terminates on every
    relation, cyclic ones included, and answers exactly whether the target can be
    reached from the start through declared fallbacks. *)
Theorem fallback_path_exact program start target :
  ∃ b, fallback_path_exists (build_fallback_relation program) start target = Some b ∧
    (b = true ↔ rtc (falls_back_to program) start target).
Proof.
  destruct (fallback_path_exists_spec (build_fallback_relation program) start target) as (b & Hb & Hiff).
  exists b. split; [done|]. by rewrite Hiff, rtc_falls_back_to.
Qed.
