(* ===== verification/Summary.v ===== *)
(** * Unused-node warnings and the effect summary

    [warn_unused_pure_nodes] and [build_summary] of
    [crates/aios-ir/src/semantics.rs].  An index into an absent map entry is a
    panic ([None]). *)

From S2P Require Import Prelude Json Contracts Collector References Acyclic Worklist.

(** The nodes that program outputs read. *)
Definition output_nodes (program : AiosIr) : gset string :=
  list_to_set (omap (λ reference, match reference with
                                  | ValueRef_Node node _ => Some node
                                  | ValueRef_Input _ => None
                                  end) (btree_values (program_outputs program))).

(** [node_effects.len() != 1 || !node_effects.contains(&Pure)] *)
Definition not_only_pure (effects : gset EffectClass) : bool :=
  negb (size effects =? 1) || bool_decide (Pure ∉ effects).

Definition effectful_nodes (effects : gmap string (gset EffectClass)) : gset string :=
  list_to_set (omap (λ '(id, node_effects), if not_only_pure node_effects then Some id else None)
    (btree_iter effects)).

Definition add_consumer (id : string) (consumers : relation_map) (v : ValueRef) : relation_map :=
  match v with
  | ValueRef_Node producer _ => <[producer := {[ id ]} ∪ default ∅ (consumers !! producer)]> consumers
  | ValueRef_Input _ => consumers
  end.

Definition consumer_map (program : AiosIr) : relation_map :=
  foldl (λ consumers node, foldl (add_consumer (node_id node)) consumers (btree_values (node_inputs node)))
    ∅ (program_nodes program).

Definition warn_unused_pure_nodes (program : AiosIr) (nodes : gmap string Node)
    (effects : gmap string (gset EffectClass)) : Diag unit :=
  let output_nodes := output_nodes program in
  let effectful := effectful_nodes effects in
  let consumers := consumer_map program in
  for_each (enumerate (program_nodes program)) (λ '(node_index, node),
    node_effects ← expect (effects !! node_id node);
    if not_only_pure node_effects then mret ()
    else
      useful ← expect (useful_loop (worklist_fuel consumers) consumers
        (λ candidate, bool_decide (candidate ∈ output_nodes) || bool_decide (candidate ∈ effectful))
        [node_id node] ∅);
      when (negb useful)
        (emit (contextual IrGraphUnusedPureNode
          "pure node has no path to a program output or effectful node"
          (Some (node_id node)) None (Some (op_capability (node_operation node)))
          (Some ("/nodes/" +++ pretty node_index))))).

(** [env!("CARGO_PKG_VERSION")] of the crate. *)
Definition cargo_pkg_version : string := "0.1.0".

(** The variables of the summary loop. *)
Record summary_state := {
  sum_effects : gset EffectClass;
  sum_authority_classes : gset string;
  sum_egress_modes : gset EgressMode;
  sum_nodes : list NodeEffectSummary;
  sum_verification_barriers : list string;
}.

Definition is_verification_gate (node : Node) : bool :=
  bool_decide (op_kind (node_operation node) = Verify).

Definition node_authorities (node : Node) : gset string :=
  list_to_set (req_action <$> node_authority_requests node).

Definition node_summary (derived : gset EffectClass) (node : Node) : NodeEffectSummary := {|
  ns_node_id := node_id node;
  ns_capability := op_capability (node_operation node);
  ns_execution_class := node_execution_class node;
  ns_effects := btree_set_iter derived;
  ns_authority_classes := btree_set_iter (node_authorities node);
  ns_egress_mode := egress_mode (node_egress node);
  ns_verification_gate := is_verification_gate node;
|}.

Definition summarize_node (node : Node) (derived : gset EffectClass) (st : summary_state) : summary_state := {|
  sum_effects := sum_effects st ∪ derived;
  sum_authority_classes := sum_authority_classes st ∪ node_authorities node;
  sum_egress_modes := {[ egress_mode (node_egress node) ]} ∪ sum_egress_modes st;
  sum_nodes := sum_nodes st ++ [node_summary derived node];
  sum_verification_barriers :=
    if is_verification_gate node then sum_verification_barriers st ++ [node_id node]
    else sum_verification_barriers st;
|}.

Fixpoint summarize_nodes (nodes : list Node) (node_effects : gmap string (gset EffectClass))
    (st : summary_state) : option summary_state :=
  match nodes with
  | [] => Some st
  | node :: nodes' =>
      match node_effects !! node_id node with
      | None => None
      | Some derived => summarize_nodes nodes' node_effects (summarize_node node derived st)
      end
  end.

(** [ordered_nodes.sort_by_key(|node| node.id)] *)
Definition ordered_nodes (program : AiosIr) : list Node :=
  sort_by (λ a b, key_leb (node_id a) (node_id b)) (program_nodes program).

Definition build_summary (program : AiosIr) (snapshot_id semantic_hash : string)
    (node_effects : gmap string (gset EffectClass)) : option EffectSummary :=
  match summarize_nodes (ordered_nodes program) node_effects
          {| sum_effects := ∅; sum_authority_classes := ∅; sum_egress_modes := ∅;
             sum_nodes := []; sum_verification_barriers := [] |} with
  | None => None
  | Some st =>
      let effects := if 1 <? size (sum_effects st) then sum_effects st ∖ {[ Pure ]} else sum_effects st in
      Some {|
        es_schema_version := "0.1";
        es_semantic_program_hash := semantic_hash;
        es_registry_snapshot_id := snapshot_id;
        es_effects := btree_set_iter effects;
        es_authority_classes := btree_set_iter (sum_authority_classes st);
        es_egress_modes := btree_set_iter (sum_egress_modes st);
        es_contains_probabilistic :=
          existsb (λ node, bool_decide (node_execution_class node = Probabilistic)) (program_nodes program);
        es_contains_opaque_external :=
          existsb (λ node, bool_decide (node_execution_class node = OpaqueExternal)) (program_nodes program)
          || existsb (λ effects, bool_decide (LegacyOpaque ∈ effects)) (btree_values node_effects);
        es_nodes := sum_nodes st;
        es_verification_barriers := sum_verification_barriers st;
        es_generated_by := Some {| gen_id := Some "org.ainative.aios-ir-validator";
                                   gen_version := Some cargo_pkg_version |};
        es_generated_at := None;
      |}
  end.

(** ** Specification *)

(** A node is useful when its value reaches a program output or an effectful node. *)
Definition useful_node (program : AiosIr) (effects : gmap string (gset EffectClass)) (id : string) : Prop :=
  ∃ id', rtc (data_edge program) id id' ∧
    ((∃ name port, program_outputs program !! name = Some (ValueRef_Node id' port)) ∨
     (∃ es, effects !! id' = Some es ∧ es ≠ {[ Pure ]})).

(** What the loop accumulates, in terms of the nodes it visits. *)
Definition all_effects (node_effects : gmap string (gset EffectClass)) (ns : list Node) : gset EffectClass :=
  ⋃ ((λ node, default ∅ (node_effects !! node_id node)) <$> ns).

Definition summary_of_nodes (node_effects : gmap string (gset EffectClass)) (ns : list Node) :
    list NodeEffectSummary :=
  (λ node, node_summary (default ∅ (node_effects !! node_id node)) node) <$> ns.

Definition barriers_of_nodes (ns : list Node) : list string :=
  node_id <$> filter (λ node, is_verification_gate node = true) ns.

(** ** Unused pure nodes *)

Lemma not_only_pure_spec effects : not_only_pure effects = false ↔ effects = {[ Pure ]}.
Proof.
  unfold not_only_pure. rewrite orb_false_iff, negb_false_iff, Nat.eqb_eq, bool_decide_eq_false. split.
  - intros [[x Hx]%size_1_elem_of Hp]. apply dec_stable in Hp. set_solver.
  - intros ->. rewrite size_singleton. set_solver.
Qed.

Lemma elem_of_output_nodes program id :
  id ∈ output_nodes program ↔ ∃ name port, program_outputs program !! name = Some (ValueRef_Node id port).
Proof.
  unfold output_nodes. rewrite elem_of_list_to_set, list_elem_of_omap.
  setoid_rewrite elem_of_btree_values. split.
  - intros ([input|node port] & [name Hname] & Heq); simplify_eq. by exists name, port.
  - intros (name & port & Hname). exists (ValueRef_Node id port). eauto.
Qed.

Lemma elem_of_effectful_nodes effects id :
  id ∈ effectful_nodes effects ↔ ∃ es, effects !! id = Some es ∧ es ≠ {[ Pure ]}.
Proof.
  unfold effectful_nodes. rewrite elem_of_list_to_set, list_elem_of_omap.
  setoid_rewrite <-not_only_pure_spec. setoid_rewrite not_false_iff_true. split.
  - intros ([id' es] & Hin%elem_of_btree_iter & Heq). destruct (not_only_pure es) eqn:Hes; [|done].
    simplify_eq. eauto.
  - intros (es & Hin & Hes). exists (id, es). by rewrite elem_of_btree_iter, Hes.
Qed.

Lemma related_add_consumer id m v a b :
  related (add_consumer id m v) a b ↔ related m a b ∨ (b = id ∧ ∃ port, v = ValueRef_Node a port).
Proof.
  destruct v as [|producer port]; simpl; [naive_solver|]. unfold related.
  destruct (decide (producer = a)) as [->|Hne].
  - rewrite lookup_insert_eq. split.
    + intros (next & [= <-] & Hb). apply elem_of_union in Hb as [Hb|Hb]; [right; set_solver|].
      left. destruct (m !! a) as [s|]; [by exists s|set_solver].
    + intros Hor. eexists. split; [done|]. destruct Hor as [(next & -> & Hb)|[-> _]]; set_solver.
  - rewrite lookup_insert_ne by done. naive_solver.
Qed.

Lemma related_add_consumers id vs m a b :
  related (foldl (add_consumer id) m vs) a b ↔
  related m a b ∨ (b = id ∧ ∃ port, ValueRef_Node a port ∈ vs).
Proof.
  revert m. induction vs as [|v vs IH]; intros m; simpl; [set_solver|].
  rewrite IH, related_add_consumer. setoid_rewrite elem_of_cons. naive_solver.
Qed.

Lemma related_consumer_map program a b :
  related (consumer_map program) a b ↔ data_edge program a b.
Proof.
  unfold consumer_map, data_edge. assert (∀ ns m,
    related (foldl (λ consumers node, foldl (add_consumer (node_id node)) consumers
      (btree_values (node_inputs node))) m ns) a b ↔
    related m a b ∨ ∃ node, node ∈ ns ∧ node_id node = b ∧
      ∃ port, ValueRef_Node a port ∈ btree_values (node_inputs node)) as Hfold.
  { induction ns as [|n ns IH]; intros m; simpl; [set_solver|].
    rewrite IH, related_add_consumers. setoid_rewrite elem_of_cons. naive_solver. }
  rewrite Hfold. unfold related at 1. setoid_rewrite lookup_empty. setoid_rewrite elem_of_btree_values.
  naive_solver.
Qed.

(** The break condition of the loop, over the reachable nodes. *)
Lemma reaches_useful program effects id :
  reaches (consumer_map program)
    (λ y, bool_decide (y ∈ output_nodes program) || bool_decide (y ∈ effectful_nodes effects) = true) id ↔
  useful_node program effects id.
Proof.
  unfold reaches, useful_node.
  assert (∀ y, rtc (related (consumer_map program)) id y ↔ rtc (data_edge program) id y) as Hrtc.
  { intros y. split; intros Hr; (eapply rtc_subrel; [|done]); intros ??; apply related_consumer_map. }
  setoid_rewrite Hrtc. setoid_rewrite orb_true_iff. setoid_rewrite bool_decide_eq_true.
  setoid_rewrite elem_of_output_nodes. by setoid_rewrite elem_of_effectful_nodes.
Qed.

Definition unused_warning (i : nat) (node : Node) : Diagnostic :=
  contextual IrGraphUnusedPureNode "pure node has no path to a program output or effectful node"
    (Some (node_id node)) None (Some (op_capability (node_operation node)))
    (Some ("/nodes/" +++ pretty i)).

(** The warnings are exactly those of the pure nodes that are not useful. *)
Lemma reports_warn_unused program nodes effects :
  (∀ node, node ∈ program_nodes program → is_Some (effects !! node_id node)) →
  reports (warn_unused_pure_nodes program nodes effects)
    (λ d, ∃ i node, program_nodes program !! i = Some node ∧ effects !! node_id node = Some {[ Pure ]} ∧
       ¬ useful_node program effects (node_id node) ∧ d = unused_warning i node) ().
Proof.
  intros Heff. unfold warn_unused_pure_nodes. eapply reports_iff.
  - apply (reports_for_each _ _ (λ (ix : nat * Node) d, effects !! node_id ix.2 = Some {[ Pure ]} ∧
      ¬ useful_node program effects (node_id ix.2) ∧ d = unused_warning ix.1 ix.2)).
    intros [i node] Hi%elem_of_enumerate. simpl.
    destruct (Heff node) as [es Hes]; [by eapply list_elem_of_lookup_2|]. eapply reports_expect; [done|]. rewrite Hes.
    destruct (not_only_pure es) eqn:Hp.
    + eapply reports_iff; [apply reports_ret|]. intros d. split; [done|]. intros [[= ->] _].
      by rewrite (proj2 (not_only_pure_spec {[ Pure ]}) eq_refl) in Hp.
    + apply not_only_pure_spec in Hp as ->.
      set (useful := λ y, _ || _).
      destruct (worklist_start (consumer_map program) (λ y, useful y = true) (node_id node)) as [Hcl Hst].
      destruct (useful_loop_spec (consumer_map program) useful (worklist_fuel (consumer_map program))
        [node_id node] ∅) as (b & Hloop & Hb);
        [rewrite <-(work_left_initial (consumer_map program) (node_id node)); lia|done|].
      rewrite Hst in Hb. unfold useful in Hb. rewrite reaches_useful in Hb.
      eapply reports_expect; [done|].
      destruct b; simpl.
      * eapply reports_iff; [apply reports_ret|]. naive_solver.
      * eapply reports_iff; [apply reports_emit|]. naive_solver.
  - intros d. split.
    + intros ([i node] & Hi%elem_of_enumerate & ?). by exists i, node.
    + intros (i & node & Hi & ?). exists (i, node). by rewrite elem_of_enumerate.
Qed.

(** ** The summary loop *)

Lemma summarize_nodes_spec ns node_effects st :
  (∀ node, node ∈ ns → is_Some (node_effects !! node_id node)) →
  ∃ st', summarize_nodes ns node_effects st = Some st' ∧
    sum_effects st' = sum_effects st ∪ all_effects node_effects ns ∧
    sum_authority_classes st' = sum_authority_classes st ∪ ⋃ (node_authorities <$> ns) ∧
    sum_egress_modes st' = list_to_set ((egress_mode ∘ node_egress) <$> ns) ∪ sum_egress_modes st ∧
    sum_nodes st' = sum_nodes st ++ summary_of_nodes node_effects ns ∧
    sum_verification_barriers st' = sum_verification_barriers st ++ barriers_of_nodes ns.
Proof.
  revert st. induction ns as [|n ns IH]; intros st Hall; simpl.
  - exists st. split_and!; [done|..]; unfold all_effects, barriers_of_nodes; simpl;
      rewrite ?app_nil_r; set_solver.
  - destruct (Hall n) as [derived Hd]; [by left|]. rewrite Hd.
    destruct (IH (summarize_node n derived st)) as (st' & -> & He & Ha & Hg & Hn & Hb);
      [intros node Hnode; apply Hall; by right|].
    exists st'. split_and!; [done|..].
    + rewrite He. unfold all_effects. simpl. rewrite Hd. simpl. by rewrite (assoc_L (∪)).
    + rewrite Ha. simpl. by rewrite (assoc_L (∪)).
    + rewrite Hg. simpl. rewrite (assoc_L (∪)), (comm_L (∪) (list_to_set _)). done.
    + rewrite Hn. simpl. by rewrite <-app_assoc.
    + rewrite Hb. simpl. unfold barriers_of_nodes. rewrite filter_cons. case_decide as Hv.
      * rewrite Hv, <-app_assoc. done.
      * by rewrite (not_true_is_false _ Hv).
Qed.

Lemma all_effects_perm node_effects ns1 ns2 :
  ns1 ≡ₚ ns2 → all_effects node_effects ns1 = all_effects node_effects ns2.
Proof. intros Hp. unfold all_effects. by rewrite Hp. Qed.

Lemma ordered_nodes_perm program : ordered_nodes program ≡ₚ program_nodes program.
Proof. apply sort_by_perm. Qed.

(** The effect classes of a program: [PURE] is dropped beside any other. *)
Definition reported_effects (effects : gset EffectClass) : gset EffectClass :=
  if 1 <? size effects then effects ∖ {[ Pure ]} else effects.

(** [build_summary] never panics on covered programs, and reports the union of
    the nodes' effects, authority classes and egress modes, with the nodes and
    the verification barriers in the order of their identifiers. *)
Lemma build_summary_spec program sid hash node_effects :
  (∀ node, node ∈ program_nodes program → is_Some (node_effects !! node_id node)) →
  ∃ s, build_summary program sid hash node_effects = Some s ∧
    es_effects s = btree_set_iter (reported_effects (all_effects node_effects (program_nodes program))) ∧
    es_authority_classes s = btree_set_iter (⋃ (node_authorities <$> program_nodes program)) ∧
    es_egress_modes s = btree_set_iter
      (list_to_set ((egress_mode ∘ node_egress) <$> program_nodes program)) ∧
    es_nodes s = summary_of_nodes node_effects (ordered_nodes program) ∧
    es_verification_barriers s = barriers_of_nodes (ordered_nodes program) ∧
    es_semantic_program_hash s = hash ∧ es_registry_snapshot_id s = sid.
Proof.
  intros Hall. unfold build_summary.
  destruct (summarize_nodes_spec (ordered_nodes program) node_effects
    {| sum_effects := ∅; sum_authority_classes := ∅; sum_egress_modes := ∅;
       sum_nodes := []; sum_verification_barriers := [] |}) as (st & -> & He & Ha & Hg & Hn & Hb).
  { intros node Hnode. apply Hall. by rewrite <-ordered_nodes_perm. }
  simpl in *. eexists. split; [done|]. simpl.
  rewrite left_id_L in He by apply _. rewrite left_id_L in Ha by apply _. rewrite right_id_L in Hg by apply _.
  rewrite He, Ha, Hg, Hn, Hb. fold (reported_effects (all_effects node_effects (ordered_nodes program))).
  rewrite (all_effects_perm _ _ _ (ordered_nodes_perm program)).
  split_and!; try done.
  - by rewrite ordered_nodes_perm.
  - f_equal. apply list_to_set_perm_L. by rewrite ordered_nodes_perm.
Qed.

Lemma ordered_nodes_permutation p1 p2 :
  NoDup (node_id <$> program_nodes p1) → program_nodes p1 ≡ₚ program_nodes p2 →
  ordered_nodes p1 = ordered_nodes p2.
Proof.
  intros Hnd Hp. apply sort_by_perm_eq; [..|done].
  - intros a b. apply key_leb_total.
  - intros a b c. apply key_leb_trans.
  - intros a b Ha Hb Hab Hba. apply (NoDup_fmap_elem_inj node_id _ _ _ Hnd); [done..|].
    by apply key_leb_antisym.
Qed.

Lemma build_summary_permutation p1 p2 sid hash node_effects :
  NoDup (node_id <$> program_nodes p1) → program_nodes p1 ≡ₚ program_nodes p2 →
  build_summary p1 sid hash node_effects = build_summary p2 sid hash node_effects.
Proof.
  intros Hnd Hp. unfold build_summary. rewrite (ordered_nodes_permutation p1 p2 Hnd Hp).
  destruct (summarize_nodes _ _ _); [|done]. do 2 f_equal; [by apply existsb_perm|].
  f_equal. by apply existsb_perm.
Qed.

Lemma elem_of_all_effects node_effects ns e :
  e ∈ all_effects node_effects ns ↔
  ∃ node es, node ∈ ns ∧ node_effects !! node_id node = Some es ∧ e ∈ es.
Proof.
  unfold all_effects. rewrite elem_of_union_list. setoid_rewrite list_elem_of_fmap. split.
  - intros (X & (node & -> & Hn) & He). exists node.
    destruct (node_effects !! node_id node) as [es|]; [by exists es|set_solver].
  - intros (node & es & Hn & Hes & He). exists es. split; [|done]. exists node. by rewrite Hes.
Qed.

Lemma elem_of_reported_effects effects e :
  e ≠ Pure → e ∈ reported_effects effects ↔ e ∈ effects.
Proof. intros Hp. unfold reported_effects. case_match; set_solver. Qed.

Lemma elem_of_reported_effects_Pure effects :
  Pure ∈ reported_effects effects ↔ effects = {[ Pure ]}.
Proof.
  unfold reported_effects. destruct (Nat.ltb_spec 1 (size effects)) as [Hlt|Hle].
  - split; [set_solver|]. intros ->. rewrite size_singleton in Hlt. lia.
  - split; [|set_solver]. intros Hp. destruct (decide (size effects = 1)) as [[x Hx]%size_1_elem_of|Hne].
    + set_solver.
    + assert (size effects = 0) as H0%size_empty_inv by lia. set_solver.
Qed.
