(* ===== verification/Analyze.v ===== *)
(** * Semantic analysis

    [analyze] of [crates/aios-ir/src/semantics.rs]: the passes in order, each
    followed by a gate on the collector.  The analysis decides
    [program_ok]: it never panics, it accepts exactly the programs that satisfy
    the specification, and it reports an error on all others. *)

From S2P Require Import Prelude Json Contracts Collector Version Registry References Acyclic TypeCheck Effects Worklist Fallbacks Summary.
Import DiagnosticCollector.

(** [if diagnostics.has_errors() { return None; }] *)
Definition gate {A} (rest : Diag (option A)) : Diag (option A) :=
  errors ← ask_errors;
  if errors : bool then mret None else rest.

Section analyze.
Context {R : Type} `{ContractRegistry R}.
Implicit Types (registry : R).

Definition analyze (program : AiosIr) registry : Diag (option EffectSummary) :=
  indexed ← index_nodes program;
  match indexed with
  | None => mret None
  | Some nodes =>
      _ ← validate_references program nodes;
      gate (
      _ ← validate_acyclic program nodes;
      gate (
      capabilities ← validate_types_and_capabilities program registry nodes;
      gate (
      node_effects ← validate_effects program capabilities;
      gate (
      _ ← validate_fallbacks program registry capabilities node_effects;
      gate (
      _ ← warn_unused_pure_nodes program nodes node_effects;
      summary ← expect (build_summary program (snapshot_id registry) "" node_effects);
      mret (Some summary))))))
  end.

(** ** Specification *)

Definition program_contracts (program : AiosIr) registry : gmap string CapabilityContract :=
  contract_map registry (program_nodes program).

Definition program_effects (program : AiosIr) registry : gmap string (gset EffectClass) :=
  effects_map program (program_contracts program registry).

(** A program that may be executed against the registry. *)
Record program_ok (program : AiosIr) registry : Prop := {
  po_unique : NoDup (node_id <$> program_nodes program);
  po_references : references_ok program (node_index (program_nodes program));
  po_acyclic : acyclic program;
  po_types : types_ok program registry (node_index (program_nodes program));
  po_effects : effects_ok program (program_contracts program registry);
  po_fallbacks : fallbacks_ok program registry (program_contracts program registry)
    (program_effects program registry);
}.

End analyze.

(** ** Gated sequences *)

(** Started without errors, [m] returns a value in [Q] when [P] holds; otherwise
    it returns none and leaves an error in the collector.  It only pushes. *)
Definition decides {A} (m : Diag (option A)) (P : Prop) (Q : A → Prop) : Prop :=
  ∀ c, has_errors c = false →
    ∃ r c', m c = Some (r, c') ∧
      ((P ∧ (∃ a, r = Some a ∧ Q a) ∧ has_errors c' = false) ∨
       (¬ P ∧ r = None ∧ has_errors c' = true)) ∧
      ∃ ds, c' = push_all ds c.

Lemma decides_iff {A} (m : Diag (option A)) P P' Q : decides m P Q → (P ↔ P') → decides m P' Q.
Proof. intros Hm HP c Hc. destruct (Hm c Hc) as (r & c' & Hr & Hcases). exists r, c'. by rewrite <-HP. Qed.

(** A pass that pushed [ds] and checked [P], then its gate. *)
Lemma decides_after {A} (k : Diag (option A)) P P' Q c ds :
  has_errors c = false → (has_errors (push_all ds c) = false ↔ has_errors c = false ∧ P) →
  (P → decides k P' Q) →
  ∃ r c', (if has_errors (push_all ds c) then mret None else k) (push_all ds c) = Some (r, c') ∧
    (((P ∧ P') ∧ (∃ a, r = Some a ∧ Q a) ∧ has_errors c' = false) ∨
     (¬ (P ∧ P') ∧ r = None ∧ has_errors c' = true)) ∧
    ∃ ds', c' = push_all ds' c.
Proof.
  intros Hc Herr Hk. destruct (has_errors (push_all ds c)) eqn:Hc1.
  - exists None, (push_all ds c). split; [done|]. split; [|by exists ds]. right. split; [|done]. intros [HP _].
    by pose proof (proj2 Herr (conj Hc HP)).
  - destruct (proj1 Herr eq_refl) as [_ HP]. destruct (Hk HP _ Hc1) as (r & c' & -> & Hcases & ds' & ->).
    exists r, (push_all ds' (push_all ds c)). split; [done|]. split; [naive_solver|].
    exists (ds ++ ds'). by rewrite push_all_app.
Qed.

Lemma decides_gate {A B} (m : Diag A) (k : A → Diag (option B)) P P' Q a :
  checks m P a → (P → decides (k a) P' Q) → decides (m ≫= λ x, gate (k x)) (P ∧ P') Q.
Proof.
  intros Hm Hk c Hc. destruct (checks_pushes m P a c Hm) as (ds & Hr & Herr).
  unfold mbind, Diag_bind, gate. rewrite Hr. unfold mbind, Diag_bind, ask_errors.
  exact (decides_after _ P P' Q c ds Hc Herr Hk).
Qed.

Lemma decides_ret {A B} (m : Diag A) (o : option B) b a Q :
  checks m True a → o = Some b → Q b →
  decides (m ≫= λ _, x ← expect o; mret (Some x)) True Q.
Proof.
  intros Hm -> HQ c Hc. destruct (checks_pushes m True a c Hm) as (ds & Hr & Herr).
  unfold mbind, Diag_bind. rewrite Hr. exists (Some b), (push_all ds c). split; [done|].
  split; [|by exists ds]. left. split; [done|]. split; [eauto|]. by apply Herr.
Qed.

(** ** Correctness *)

Section correctness.
Context {R : Type} `{ContractRegistry R}.
Implicit Types (registry : R).

Lemma decides_index program {B} (k : gmap string Node → Diag (option B)) P Q :
  (NoDup (node_id <$> program_nodes program) → decides (k (node_index (program_nodes program))) P Q) →
  decides (indexed ← index_nodes program;
           match indexed with None => mret None | Some nodes => k nodes end)
    (NoDup (node_id <$> program_nodes program) ∧ P) Q.
Proof.
  intros Hk c Hc. destruct (checks_pushes _ _ _ c (checks_index_loop program)) as (ds & Hr & Herr).
  unfold mbind at 1, Diag_bind at 1. unfold index_nodes. unfold mbind at 1, Diag_bind at 1. rewrite Hr.
  unfold mbind, Diag_bind, ask_errors. simpl.
  pose proof (decides_after (k (node_index (program_nodes program))) _ P Q c ds Hc Herr Hk) as Hd.
  by destruct (has_errors (push_all ds c)).
Qed.

(** What each pass may rely on. *)
Section facts.
Context (program : AiosIr) (registry : R).
Context (Hunique : NoDup (node_id <$> program_nodes program)).
Context (Hrefs : references_ok program (node_index (program_nodes program))).

Lemma index_dom n : n ∈ program_nodes program → node_id n ∈ dom (node_index (program_nodes program)).
Proof using Hunique. intros Hn. apply elem_of_dom. exists n. by apply node_index_lookup. Qed.

Lemma edge_source_indexed u v : data_edge program u v → u ∈ dom (node_index (program_nodes program)).
Proof using Hrefs.
  intros (node & name & port & Hin & _ & Href). destruct Hrefs as [Hn _].
  destruct (Hn node Hin) as [Hv _]. destruct (Hv _ _ Href) as (producer & Hp & _).
  apply elem_of_dom. eauto.
Qed.

Lemma read_ports_exist node port :
  node ∈ program_nodes program → reads_port program (node_id node) port →
  is_Some (node_outputs node !! port).
Proof using Hunique Hrefs.
  intros Hnode Hread. destruct Hrefs as [Hin Hout].
  assert (value_ref_ok program (node_index (program_nodes program)) (ValueRef_Node (node_id node) port))
    as (producer & Hp & Hport).
  { destruct Hread as [(c & name & Hc & Hname)|[name Hname]].
    - destruct (Hin c Hc) as [Hv _]. eauto.
    - by apply Hout in Hname as [_ ?]. }
  apply node_index_lookup in Hp as [Hp Hid]; [|done].
  by rewrite <-(NoDup_fmap_elem_inj node_id _ producer node Hunique Hp Hnode Hid).
Qed.

Lemma contracts_total :
  types_ok program registry (node_index (program_nodes program)) →
  ∀ node, node ∈ program_nodes program → is_Some (program_contracts program registry !! node_id node).
Proof using Hunique.
  intros [_ Ht] node Hnode. unfold program_contracts. rewrite contract_map_lookup by done.
  destruct (Ht node Hnode) as (contract & -> & _). eauto.
Qed.

Lemma effects_total :
  types_ok program registry (node_index (program_nodes program)) →
  ∀ node, node ∈ program_nodes program → is_Some (program_effects program registry !! node_id node).
Proof using Hunique.
  intros Ht node Hnode. unfold program_effects. rewrite effects_map_lookup by done.
  destruct (contracts_total Ht node Hnode) as [c ->]. eauto.
Qed.

End facts.

Lemma program_ok_parts program registry :
  program_ok program registry ↔
  NoDup (node_id <$> program_nodes program) ∧
  references_ok program (node_index (program_nodes program)) ∧ acyclic program ∧
  types_ok program registry (node_index (program_nodes program)) ∧
  effects_ok program (program_contracts program registry) ∧
  fallbacks_ok program registry (program_contracts program registry) (program_effects program registry) ∧
  True.
Proof. split; [by intros []|]. intros (? & ? & ? & ? & ? & ? & _). by split. Qed.

(** The analysis decides [program_ok], and returns the summary of the derived
    effects. *)
Lemma decides_analyze program registry :
  decides (analyze program registry) (program_ok program registry)
    (λ s, build_summary program (snapshot_id registry) "" (program_effects program registry) = Some s).
Proof.
  eapply decides_iff; [|symmetry; apply program_ok_parts]. unfold analyze.
  apply decides_index. intros Hunique.
  eapply decides_gate; [apply checks_validate_references|]. intros Hrefs.
  eapply decides_gate.
  { apply checks_validate_acyclic; [by apply index_dom|]. intros u v. by apply edge_source_indexed. }
  intros Hacyclic. eapply decides_gate; [apply checks_validate_types; by apply Hrefs|]. intros Htypes.
  pose proof (contracts_total program registry Hunique Htypes) as Hcaps.
  pose proof (effects_total program registry Hunique Htypes) as Heffs.
  eapply decides_gate; [by apply checks_validate_effects|]. intros Heffects.
  eapply decides_gate.
  { apply checks_validate_fallbacks; [done..|]. intros node port. by apply read_ports_exist. }
  intros _. destruct (build_summary_spec program (snapshot_id registry) "" (program_effects program registry))
    as (s & Hs & _); [done|].
  eapply decides_ret; [|done|done].
  eapply reports_checks; [by apply reports_warn_unused|]. by intros d (i & node & _ & _ & _ & ->).
Qed.

(** C2: [analyze], started on a fresh collector, always returns (no [expect], index
    or subtraction panics and every loop ends); it yields a summary exactly for the
    programs that satisfy [program_ok], and it leaves an error in the collector
    exactly for the others. *)
Theorem analyze_decides_program_ok program registry max :
  ∃ r c, analyze program registry (new max) = Some (r, c) ∧
    (is_Some r ↔ program_ok program registry) ∧
    (has_errors c = true ↔ ¬ program_ok program registry).
Proof.
  destruct (decides_analyze program registry (new max) eq_refl) as (r & c & Hr & Hcases & _).
  exists r, c. split; [done|].
  destruct Hcases as [(Hok & (s & -> & _) & ->)|(Hno & -> & ->)]; split; split; try done.
Qed.

End correctness.
