(* ===== verification/Fixtures.v ===== *)
(** * Fixtures

    Programs and contracts of [examples/aios-ir]: the registry of
    [capability-contracts.json] and [type-contracts.json], the program of
    [demonstration-a.ir.json], and programs of [valid-cases.json] and
    [edge-case-cases.json].  The theorems are instantiated on them. *)

From Stdlib Require Import SpecFloat.
From S2P Require Import Prelude Json Contracts Version Registry.

Definition cap_table_import : CapabilityContract := {|
  cc_capability := "table.import";
  cc_version := "1.0";
  cc_description := (Some "Import a user-selected tabular artifact into the normalized table semantic type.");
  cc_role := Ordinary;
  cc_inputs := (list_to_map [("source", {| port_type_ref := "artifact.table@1"; port_required := true; port_description := None |})]);
  cc_outputs := (list_to_map [("table", {| port_type_ref := "data.table@1"; port_required := true; port_description := None |})]);
  cc_allowed_execution_classes := [Deterministic];
  cc_required_effect_classes := [ArtifactRead];
  cc_allowed_effect_classes := [ArtifactRead];
  cc_required_authority_classes := ["artifact.read"];
  cc_allowed_authority_classes := ["artifact.read"];
  cc_allowed_egress_modes := [Deny];
  cc_determinism := (Some {| det_equivalence := Some DE_CanonicalValue; det_numeric_absolute_tolerance := None; det_numeric_relative_tolerance := None |});
  cc_error_classes := ["TABLE_IMPORT_UNSUPPORTED_FORMAT"; "TABLE_IMPORT_MALFORMED_INPUT"; "TABLE_IMPORT_SIZE_LIMIT"];
  cc_conformance := {| conf_suite_id := "conformance://table.import/1"; conf_suite_version := (Some "0.1"); conf_suite_hash := None |};
  cc_notes := [];
|}.

Definition cap_table_normalize : CapabilityContract := {|
  cc_capability := "table.normalize";
  cc_version := "1.0";
  cc_description := (Some "Normalize a parsed table under a declared table normalization contract.");
  cc_role := Ordinary;
  cc_inputs := (list_to_map [("table", {| port_type_ref := "data.table@1"; port_required := true; port_description := None |})]);
  cc_outputs := (list_to_map [("table", {| port_type_ref := "data.table@1"; port_required := true; port_description := None |})]);
  cc_allowed_execution_classes := [Deterministic];
  cc_required_effect_classes := [Pure];
  cc_allowed_effect_classes := [Pure];
  cc_required_authority_classes := [];
  cc_allowed_authority_classes := [];
  cc_allowed_egress_modes := [Deny];
  cc_determinism := (Some {| det_equivalence := Some DE_CanonicalValue; det_numeric_absolute_tolerance := None; det_numeric_relative_tolerance := None |});
  cc_error_classes := ["TABLE_NORMALIZE_INVALID_SCHEMA"; "TABLE_NORMALIZE_UNSUPPORTED_VALUE"];
  cc_conformance := {| conf_suite_id := "conformance://table.normalize/1"; conf_suite_version := (Some "0.1"); conf_suite_hash := None |};
  cc_notes := [];
|}.

Definition cap_stats_compare_periods : CapabilityContract := {|
  cc_capability := "stats.compare_periods";
  cc_version := "1.0";
  cc_description := (Some "Produce deterministic comparison metrics from a normalized table.");
  cc_role := Ordinary;
  cc_inputs := (list_to_map [("table", {| port_type_ref := "data.table@1"; port_required := true; port_description := None |})]);
  cc_outputs := (list_to_map [("metrics", {| port_type_ref := "data.metrics@1"; port_required := true; port_description := None |})]);
  cc_allowed_execution_classes := [Deterministic];
  cc_required_effect_classes := [Pure];
  cc_allowed_effect_classes := [Pure];
  cc_required_authority_classes := [];
  cc_allowed_authority_classes := [];
  cc_allowed_egress_modes := [Deny];
  cc_determinism := (Some {| det_equivalence := Some DE_NumericTolerance; det_numeric_absolute_tolerance := (Some (S754_finite false 4835703278458517%positive (-82)%Z)); det_numeric_relative_tolerance := (Some (S754_finite false 4835703278458517%positive (-82)%Z)) |});
  cc_error_classes := ["STATS_INVALID_INPUT"; "STATS_INSUFFICIENT_PERIODS"];
  cc_conformance := {| conf_suite_id := "conformance://stats.compare_periods/1"; conf_suite_version := (Some "0.1"); conf_suite_hash := None |};
  cc_notes := [];
|}.

Definition cap_chart_render : CapabilityContract := {|
  cc_capability := "chart.render";
  cc_version := "1.0";
  cc_description := (Some "Render a chart artifact from typed metrics.");
  cc_role := Ordinary;
  cc_inputs := (list_to_map [("metrics", {| port_type_ref := "data.metrics@1"; port_required := true; port_description := None |})]);
  cc_outputs := (list_to_map [("chart", {| port_type_ref := "artifact.image@1"; port_required := true; port_description := None |})]);
  cc_allowed_execution_classes := [Deterministic; BoundedNondeterministic];
  cc_required_effect_classes := [ArtifactWrite];
  cc_allowed_effect_classes := [ArtifactWrite];
  cc_required_authority_classes := ["artifact.write"];
  cc_allowed_authority_classes := ["artifact.write"];
  cc_allowed_egress_modes := [Deny];
  cc_determinism := (Some {| det_equivalence := Some DE_Semantic; det_numeric_absolute_tolerance := None; det_numeric_relative_tolerance := None |});
  cc_error_classes := ["CHART_INVALID_DATA"; "CHART_RENDER_FAILED"];
  cc_conformance := {| conf_suite_id := "conformance://chart.render/1"; conf_suite_version := (Some "0.1"); conf_suite_hash := None |};
  cc_notes := [];
|}.

Definition cap_report_summarize : CapabilityContract := {|
  cc_capability := "report.summarize";
  cc_version := "1.0";
  cc_description := (Some "Generate a concise narrative from typed metrics. Local providers may be pure; remote providers require explicit network/data-egress authority and policy.");
  cc_role := Ordinary;
  cc_inputs := (list_to_map [("metrics", {| port_type_ref := "data.metrics@1"; port_required := true; port_description := None |})]);
  cc_outputs := (list_to_map [("narrative", {| port_type_ref := "text.narrative@1"; port_required := true; port_description := None |})]);
  cc_allowed_execution_classes := [Probabilistic; BoundedNondeterministic];
  cc_required_effect_classes := [];
  cc_allowed_effect_classes := [Pure; Network; DataEgress];
  cc_required_authority_classes := [];
  cc_allowed_authority_classes := ["network.connect"; "data.egress"];
  cc_allowed_egress_modes := [Deny; Policy];
  cc_determinism := (Some {| det_equivalence := Some DE_NotApplicable; det_numeric_absolute_tolerance := None; det_numeric_relative_tolerance := None |});
  cc_error_classes := ["REPORT_MODEL_UNAVAILABLE"; "REPORT_INVALID_STRUCTURED_OUTPUT"; "REPORT_CONTEXT_LIMIT"];
  cc_conformance := {| conf_suite_id := "conformance://report.summarize/1"; conf_suite_version := (Some "0.1"); conf_suite_hash := None |};
  cc_notes := [];
|}.

Definition cap_verify_numeric_claims : CapabilityContract := {|
  cc_capability := "verify.numeric_claims";
  cc_version := "1.0";
  cc_description := (Some "Validate narrative numeric claims against authoritative deterministic metrics and return a verified narrative or failure.");
  cc_role := Verifier;
  cc_inputs := (list_to_map [("narrative", {| port_type_ref := "text.narrative@1"; port_required := true; port_description := None |}); ("metrics", {| port_type_ref := "data.metrics@1"; port_required := true; port_description := None |})]);
  cc_outputs := (list_to_map [("verified_narrative", {| port_type_ref := "text.narrative@1"; port_required := true; port_description := None |})]);
  cc_allowed_execution_classes := [Deterministic];
  cc_required_effect_classes := [Pure];
  cc_allowed_effect_classes := [Pure];
  cc_required_authority_classes := [];
  cc_allowed_authority_classes := [];
  cc_allowed_egress_modes := [Deny];
  cc_determinism := (Some {| det_equivalence := Some DE_CanonicalValue; det_numeric_absolute_tolerance := None; det_numeric_relative_tolerance := None |});
  cc_error_classes := ["VERIFY_UNSUPPORTED_CLAIM"; "VERIFY_NUMERIC_MISMATCH"; "VERIFY_PARSE_FAILED"];
  cc_conformance := {| conf_suite_id := "conformance://verify.numeric_claims/1"; conf_suite_version := (Some "0.1"); conf_suite_hash := None |};
  cc_notes := [];
|}.

Definition cap_document_compose : CapabilityContract := {|
  cc_capability := "document.compose";
  cc_version := "1.0";
  cc_description := (Some "Compose report artifacts from a chart, verified narrative, and machine-readable metrics.");
  cc_role := Ordinary;
  cc_inputs := (list_to_map [("chart", {| port_type_ref := "artifact.image@1"; port_required := true; port_description := None |}); ("narrative", {| port_type_ref := "text.narrative@1"; port_required := true; port_description := None |}); ("metrics", {| port_type_ref := "data.metrics@1"; port_required := true; port_description := None |})]);
  cc_outputs := (list_to_map [("report", {| port_type_ref := "artifact.report@1"; port_required := true; port_description := None |})]);
  cc_allowed_execution_classes := [Deterministic; BoundedNondeterministic];
  cc_required_effect_classes := [ArtifactWrite];
  cc_allowed_effect_classes := [ArtifactWrite];
  cc_required_authority_classes := ["artifact.write"];
  cc_allowed_authority_classes := ["artifact.write"];
  cc_allowed_egress_modes := [Deny];
  cc_determinism := (Some {| det_equivalence := Some DE_Semantic; det_numeric_absolute_tolerance := None; det_numeric_relative_tolerance := None |});
  cc_error_classes := ["DOCUMENT_INVALID_INPUT"; "DOCUMENT_COMPOSE_FAILED"];
  cc_conformance := {| conf_suite_id := "conformance://document.compose/1"; conf_suite_version := (Some "0.1"); conf_suite_hash := None |};
  cc_notes := [];
|}.

Definition cap_artifact_hash : CapabilityContract := {|
  cc_capability := "artifact.hash";
  cc_version := "1.0";
  cc_description := (Some "Produce a cryptographic content hash for an artifact.");
  cc_role := Verifier;
  cc_inputs := (list_to_map [("source", {| port_type_ref := "artifact.file@1"; port_required := true; port_description := None |})]);
  cc_outputs := (list_to_map [("hash", {| port_type_ref := "data.hash@1"; port_required := true; port_description := None |})]);
  cc_allowed_execution_classes := [Deterministic];
  cc_required_effect_classes := [ArtifactRead];
  cc_allowed_effect_classes := [ArtifactRead];
  cc_required_authority_classes := ["artifact.read"];
  cc_allowed_authority_classes := ["artifact.read"];
  cc_allowed_egress_modes := [Deny];
  cc_determinism := (Some {| det_equivalence := Some DE_ByteIdentical; det_numeric_absolute_tolerance := None; det_numeric_relative_tolerance := None |});
  cc_error_classes := ["ARTIFACT_HASH_READ_FAILED"; "ARTIFACT_HASH_UNSUPPORTED_ALGORITHM"];
  cc_conformance := {| conf_suite_id := "conformance://artifact.hash/1"; conf_suite_version := (Some "0.1"); conf_suite_hash := None |};
  cc_notes := [];
|}.

Definition cap_artifact_copy : CapabilityContract := {|
  cc_capability := "artifact.copy";
  cc_version := "1.0";
  cc_description := (Some "Copy an artifact into a task-owned output resource without changing its semantic content.");
  cc_role := Ordinary;
  cc_inputs := (list_to_map [("source", {| port_type_ref := "artifact.file@1"; port_required := true; port_description := None |})]);
  cc_outputs := (list_to_map [("copy", {| port_type_ref := "artifact.file@1"; port_required := true; port_description := None |})]);
  cc_allowed_execution_classes := [Deterministic];
  cc_required_effect_classes := [ArtifactRead; ArtifactWrite];
  cc_allowed_effect_classes := [ArtifactRead; ArtifactWrite];
  cc_required_authority_classes := ["artifact.read"; "artifact.write"];
  cc_allowed_authority_classes := ["artifact.read"; "artifact.write"];
  cc_allowed_egress_modes := [Deny];
  cc_determinism := (Some {| det_equivalence := Some DE_CanonicalValue; det_numeric_absolute_tolerance := None; det_numeric_relative_tolerance := None |});
  cc_error_classes := ["ARTIFACT_COPY_READ_FAILED"; "ARTIFACT_COPY_WRITE_FAILED"];
  cc_conformance := {| conf_suite_id := "conformance://artifact.copy/1"; conf_suite_version := (Some "0.1"); conf_suite_hash := None |};
  cc_notes := [];
|}.

Definition cap_artifact_copy_compat : CapabilityContract := {|
  cc_capability := "artifact.copy.compat";
  cc_version := "1.0";
  cc_description := (Some "Fallback-compatible deterministic Artifact copy with the same v0.1 semantic ports/effects as artifact.copy@1.");
  cc_role := Ordinary;
  cc_inputs := (list_to_map [("source", {| port_type_ref := "artifact.file@1"; port_required := true; port_description := None |})]);
  cc_outputs := (list_to_map [("copy", {| port_type_ref := "artifact.file@1"; port_required := true; port_description := None |})]);
  cc_allowed_execution_classes := [Deterministic];
  cc_required_effect_classes := [ArtifactRead; ArtifactWrite];
  cc_allowed_effect_classes := [ArtifactRead; ArtifactWrite];
  cc_required_authority_classes := ["artifact.read"; "artifact.write"];
  cc_allowed_authority_classes := ["artifact.read"; "artifact.write"];
  cc_allowed_egress_modes := [Deny];
  cc_determinism := (Some {| det_equivalence := Some DE_CanonicalValue; det_numeric_absolute_tolerance := None; det_numeric_relative_tolerance := None |});
  cc_error_classes := ["ARTIFACT_COPY_READ_FAILED"; "ARTIFACT_COPY_WRITE_FAILED"];
  cc_conformance := {| conf_suite_id := "conformance://artifact.copy.compat/1"; conf_suite_version := (Some "0.1"); conf_suite_hash := None |};
  cc_notes := [];
|}.

Definition cap_text_uppercase : CapabilityContract := {|
  cc_capability := "text.uppercase";
  cc_version := "1.0";
  cc_description := (Some "Transform plain text to uppercase under the v0.1 fixture text normalization contract.");
  cc_role := Ordinary;
  cc_inputs := (list_to_map [("text", {| port_type_ref := "text.plain@1"; port_required := true; port_description := None |})]);
  cc_outputs := (list_to_map [("text", {| port_type_ref := "text.plain@1"; port_required := true; port_description := None |})]);
  cc_allowed_execution_classes := [Deterministic];
  cc_required_effect_classes := [Pure];
  cc_allowed_effect_classes := [Pure];
  cc_required_authority_classes := [];
  cc_allowed_authority_classes := [];
  cc_allowed_egress_modes := [Deny];
  cc_determinism := (Some {| det_equivalence := Some DE_CanonicalValue; det_numeric_absolute_tolerance := None; det_numeric_relative_tolerance := None |});
  cc_error_classes := ["TEXT_INVALID_INPUT"];
  cc_conformance := {| conf_suite_id := "conformance://text.uppercase/1"; conf_suite_version := (Some "0.1"); conf_suite_hash := None |};
  cc_notes := [];
|}.

Definition type_artifact_file : TypeContract := {|
  tc_type_id := "artifact.file";
  tc_version := "1.0";
  tc_kind := Artifact;
  tc_description := "Generic durable file-like artifact referenced by an Artifact Handle.";
  tc_logical_schema_ref := None;
  tc_nullable := false;
  tc_representations := [{| rep_id := "artifact-handle"; rep_media_type := None; rep_schema_ref := (Some "../specs/artifact-handle.schema.json"); rep_zero_copy_candidate := true |}];
  tc_equality := {| te_mode := EM_ByteIdentical; te_canonicalizer := (Some "content-hash"); te_numeric_absolute_tolerance := None; te_numeric_relative_tolerance := None |};
  tc_unit_semantics := None;
  tc_conversion_capabilities := ["artifact.copy@1"];
  tc_conformance := {| conf_suite_id := "conformance://type/artifact.file/1"; conf_suite_version := (Some "0.1"); conf_suite_hash := None |};
  tc_notes := [];
|}.

Definition type_artifact_table : TypeContract := {|
  tc_type_id := "artifact.table";
  tc_version := "1.0";
  tc_kind := Artifact;
  tc_description := "Durable user-facing artifact intended to be interpreted as tabular data by an explicit import capability.";
  tc_logical_schema_ref := None;
  tc_nullable := false;
  tc_representations := [{| rep_id := "csv"; rep_media_type := (Some "text/csv"); rep_schema_ref := None; rep_zero_copy_candidate := false |}; {| rep_id := "xlsx"; rep_media_type := (Some "application/vnd.openxmlformats-officedocument.spreadsheetml.sheet"); rep_schema_ref := None; rep_zero_copy_candidate := false |}];
  tc_equality := {| te_mode := EM_ByteIdentical; te_canonicalizer := (Some "content-hash"); te_numeric_absolute_tolerance := None; te_numeric_relative_tolerance := None |};
  tc_unit_semantics := None;
  tc_conversion_capabilities := ["table.import@1"];
  tc_conformance := {| conf_suite_id := "conformance://type/artifact.table/1"; conf_suite_version := (Some "0.1"); conf_suite_hash := None |};
  tc_notes := [];
|}.

Definition type_artifact_image : TypeContract := {|
  tc_type_id := "artifact.image";
  tc_version := "1.0";
  tc_kind := Artifact;
  tc_description := "Durable rendered image/vector artifact.";
  tc_logical_schema_ref := None;
  tc_nullable := false;
  tc_representations := [{| rep_id := "png"; rep_media_type := (Some "image/png"); rep_schema_ref := None; rep_zero_copy_candidate := false |}; {| rep_id := "svg"; rep_media_type := (Some "image/svg+xml"); rep_schema_ref := None; rep_zero_copy_candidate := false |}];
  tc_equality := {| te_mode := EM_Semantic; te_canonicalizer := None; te_numeric_absolute_tolerance := None; te_numeric_relative_tolerance := None |};
  tc_unit_semantics := None;
  tc_conversion_capabilities := [];
  tc_conformance := {| conf_suite_id := "conformance://type/artifact.image/1"; conf_suite_version := (Some "0.1"); conf_suite_hash := None |};
  tc_notes := [];
|}.

Definition type_artifact_report : TypeContract := {|
  tc_type_id := "artifact.report";
  tc_version := "1.0";
  tc_kind := Artifact;
  tc_description := "Durable human-readable report artifact.";
  tc_logical_schema_ref := None;
  tc_nullable := false;
  tc_representations := [{| rep_id := "pdf"; rep_media_type := (Some "application/pdf"); rep_schema_ref := None; rep_zero_copy_candidate := false |}; {| rep_id := "html"; rep_media_type := (Some "text/html"); rep_schema_ref := None; rep_zero_copy_candidate := false |}];
  tc_equality := {| te_mode := EM_Semantic; te_canonicalizer := None; te_numeric_absolute_tolerance := None; te_numeric_relative_tolerance := None |};
  tc_unit_semantics := None;
  tc_conversion_capabilities := [];
  tc_conformance := {| conf_suite_id := "conformance://type/artifact.report/1"; conf_suite_version := (Some "0.1"); conf_suite_hash := None |};
  tc_notes := [];
|}.

Definition type_data_table : TypeContract := {|
  tc_type_id := "data.table";
  tc_version := "1.0";
  tc_kind := Structured;
  tc_description := "Normalized typed tabular value with ordered named columns and explicit missing-value semantics.";
  tc_logical_schema_ref := None;
  tc_nullable := false;
  tc_representations := [{| rep_id := "arrow-ipc"; rep_media_type := (Some "application/vnd.apache.arrow.file"); rep_schema_ref := None; rep_zero_copy_candidate := true |}; {| rep_id := "canonical-json-table"; rep_media_type := (Some "application/json"); rep_schema_ref := None; rep_zero_copy_candidate := false |}];
  tc_equality := {| te_mode := EM_CanonicalValue; te_canonicalizer := (Some "aios.data.table.v1"); te_numeric_absolute_tolerance := None; te_numeric_relative_tolerance := None |};
  tc_unit_semantics := None;
  tc_conversion_capabilities := ["table.normalize@1"; "stats.compare_periods@1"];
  tc_conformance := {| conf_suite_id := "conformance://type/data.table/1"; conf_suite_version := (Some "0.1"); conf_suite_hash := None |};
  tc_notes := [];
|}.

Definition type_data_metrics : TypeContract := {|
  tc_type_id := "data.metrics";
  tc_version := "1.0";
  tc_kind := Structured;
  tc_description := "Machine-verifiable metric collection with value, unit, source, and computation method metadata.";
  tc_logical_schema_ref := None;
  tc_nullable := false;
  tc_representations := [{| rep_id := "canonical-json"; rep_media_type := (Some "application/json"); rep_schema_ref := None; rep_zero_copy_candidate := false |}];
  tc_equality := {| te_mode := EM_NumericTolerance; te_canonicalizer := (Some "aios.data.metrics.v1"); te_numeric_absolute_tolerance := (Some (S754_finite false 4835703278458517%positive (-82)%Z)); te_numeric_relative_tolerance := (Some (S754_finite false 4835703278458517%positive (-82)%Z)) |};
  tc_unit_semantics := None;
  tc_conversion_capabilities := ["chart.render@1"; "report.summarize@1"];
  tc_conformance := {| conf_suite_id := "conformance://type/data.metrics/1"; conf_suite_version := (Some "0.1"); conf_suite_hash := None |};
  tc_notes := [];
|}.

Definition type_data_hash : TypeContract := {|
  tc_type_id := "data.hash";
  tc_version := "1.0";
  tc_kind := Scalar;
  tc_description := "Algorithm-tagged cryptographic content digest.";
  tc_logical_schema_ref := None;
  tc_nullable := false;
  tc_representations := [{| rep_id := "tagged-string"; rep_media_type := (Some "text/plain"); rep_schema_ref := None; rep_zero_copy_candidate := true |}];
  tc_equality := {| te_mode := EM_ByteIdentical; te_canonicalizer := (Some "lowercase-algorithm-tag"); te_numeric_absolute_tolerance := None; te_numeric_relative_tolerance := None |};
  tc_unit_semantics := None;
  tc_conversion_capabilities := [];
  tc_conformance := {| conf_suite_id := "conformance://type/data.hash/1"; conf_suite_version := (Some "0.1"); conf_suite_hash := None |};
  tc_notes := [];
|}.

Definition type_text_plain : TypeContract := {|
  tc_type_id := "text.plain";
  tc_version := "1.0";
  tc_kind := Scalar;
  tc_description := "Unicode plain text without narrative claim annotations.";
  tc_logical_schema_ref := None;
  tc_nullable := false;
  tc_representations := [{| rep_id := "utf8"; rep_media_type := (Some "text/plain;charset=utf-8"); rep_schema_ref := None; rep_zero_copy_candidate := true |}];
  tc_equality := {| te_mode := EM_CanonicalValue; te_canonicalizer := (Some "unicode-normalized-text"); te_numeric_absolute_tolerance := None; te_numeric_relative_tolerance := None |};
  tc_unit_semantics := None;
  tc_conversion_capabilities := ["text.uppercase@1"];
  tc_conformance := {| conf_suite_id := "conformance://type/text.plain/1"; conf_suite_version := (Some "0.1"); conf_suite_hash := None |};
  tc_notes := [];
|}.

Definition type_text_narrative : TypeContract := {|
  tc_type_id := "text.narrative";
  tc_version := "1.0";
  tc_kind := Structured;
  tc_description := "Human-readable narrative text that may carry claim annotations for deterministic verification.";
  tc_logical_schema_ref := None;
  tc_nullable := false;
  tc_representations := [{| rep_id := "narrative-json"; rep_media_type := (Some "application/json"); rep_schema_ref := None; rep_zero_copy_candidate := false |}; {| rep_id := "plain-text-lossy"; rep_media_type := (Some "text/plain;charset=utf-8"); rep_schema_ref := None; rep_zero_copy_candidate := true |}];
  tc_equality := {| te_mode := EM_NotDefined; te_canonicalizer := None; te_numeric_absolute_tolerance := None; te_numeric_relative_tolerance := None |};
  tc_unit_semantics := None;
  tc_conversion_capabilities := ["verify.numeric_claims@1"; "document.compose@1"];
  tc_conformance := {| conf_suite_id := "conformance://type/text.narrative/1"; conf_suite_version := (Some "0.1"); conf_suite_hash := None |};
  tc_notes := [];
|}.

Definition type_verification_result : TypeContract := {|
  tc_type_id := "verification.result";
  tc_version := "1.0";
  tc_kind := Structured;
  tc_description := "Machine-readable pass/fail/indeterminate verification result with stable reason codes.";
  tc_logical_schema_ref := None;
  tc_nullable := false;
  tc_representations := [{| rep_id := "canonical-json"; rep_media_type := (Some "application/json"); rep_schema_ref := None; rep_zero_copy_candidate := false |}];
  tc_equality := {| te_mode := EM_CanonicalValue; te_canonicalizer := (Some "aios.verification.result.v1"); te_numeric_absolute_tolerance := None; te_numeric_relative_tolerance := None |};
  tc_unit_semantics := None;
  tc_conversion_capabilities := [];
  tc_conformance := {| conf_suite_id := "conformance://type/verification.result/1"; conf_suite_version := (Some "0.1"); conf_suite_hash := None |};
  tc_notes := [];
|}.

Definition fixture_snapshot : RegistrySnapshot := {|
  rs_schema_version := "0.1";
  rs_snapshot_id := "sha256:5b1e89c974f35a0f3e1e7040bbec8f2e44ea908eb9a12d313ecda40600c6ddbd";
  rs_generation := (Some "fixture-v0.1");
  rs_type_contracts := [
    {| cr_id := "artifact.file"; cr_version := "1.0"; cr_content_hash := "sha256:d6b09d10397738719b82bb6896606df22f4997ca37fe6d531289e269660477a7"; cr_source := (Some "type-contracts.json") |};
    {| cr_id := "artifact.table"; cr_version := "1.0"; cr_content_hash := "sha256:c5ec22237e6d390a8e377b429d1247946102de1d82316921af3dbc5cdceab397"; cr_source := (Some "type-contracts.json") |};
    {| cr_id := "artifact.image"; cr_version := "1.0"; cr_content_hash := "sha256:19f8f4a94aa913be4e57ea46cafefd65c53c1d7fe3382cc56a300dd13b1cd72c"; cr_source := (Some "type-contracts.json") |};
    {| cr_id := "artifact.report"; cr_version := "1.0"; cr_content_hash := "sha256:7a5841c4f84a566d2568539cc2c58d0175ccfe071e8f42fafa1b483c2a96e997"; cr_source := (Some "type-contracts.json") |};
    {| cr_id := "data.table"; cr_version := "1.0"; cr_content_hash := "sha256:d1ee3178cdff1304bee09e01a4b0e03a6b1d19e781b80e0e886e4816b19c927e"; cr_source := (Some "type-contracts.json") |};
    {| cr_id := "data.metrics"; cr_version := "1.0"; cr_content_hash := "sha256:67654e3256c32d035d5c3accf1dc1e11984767d1d3bb08cb1951218bc1fa59ed"; cr_source := (Some "type-contracts.json") |};
    {| cr_id := "data.hash"; cr_version := "1.0"; cr_content_hash := "sha256:dd451aabbd2be94cc3d2446e1c5cf946001cf81b657aa5fedaaacc9499f660c8"; cr_source := (Some "type-contracts.json") |};
    {| cr_id := "text.plain"; cr_version := "1.0"; cr_content_hash := "sha256:2e5bf88f286aada2359bd70bff864db74926d521d868f247449ed144e5a5f5f6"; cr_source := (Some "type-contracts.json") |};
    {| cr_id := "text.narrative"; cr_version := "1.0"; cr_content_hash := "sha256:8e3c9d6977e0a6321650dc578afa1ffbaf009109d556ed76c07ccf7fea73ad8b"; cr_source := (Some "type-contracts.json") |};
    {| cr_id := "verification.result"; cr_version := "1.0"; cr_content_hash := "sha256:fc9f1fe4bd26a710663ce8e278d2318fcb05b6ba1d09f09a668a34553c79ef91"; cr_source := (Some "type-contracts.json") |}];
  rs_capability_contracts := [
    {| cr_id := "table.import"; cr_version := "1.0"; cr_content_hash := "sha256:b6ab9313d952be9ee69e1fa240f17032a7a71b2e15c5d413077ce106570710c6"; cr_source := (Some "capability-contracts.json") |};
    {| cr_id := "table.normalize"; cr_version := "1.0"; cr_content_hash := "sha256:1dfc9e43a01ce1196fbc7293c7f4865fb964295d55ee1e85a0e7912d38fd50b2"; cr_source := (Some "capability-contracts.json") |};
    {| cr_id := "stats.compare_periods"; cr_version := "1.0"; cr_content_hash := "sha256:7d637da8cef1b7a02b8653c09a9cd901fedb7297c50b3f4a5b20c20d2ac8da24"; cr_source := (Some "capability-contracts.json") |};
    {| cr_id := "chart.render"; cr_version := "1.0"; cr_content_hash := "sha256:d087fa1d01dca16152c0dd895402c8cb3f3973c8314a1edb3ee24a3a3ffe5867"; cr_source := (Some "capability-contracts.json") |};
    {| cr_id := "report.summarize"; cr_version := "1.0"; cr_content_hash := "sha256:cc14edb6f65813fbba02756e5a154342522d57f6244f86327a0e7e3acafc0852"; cr_source := (Some "capability-contracts.json") |};
    {| cr_id := "verify.numeric_claims"; cr_version := "1.0"; cr_content_hash := "sha256:c5b03578fd63e125caf948168b59b4808839f2739d79f3fc2d4875c6aa8885d5"; cr_source := (Some "capability-contracts.json") |};
    {| cr_id := "document.compose"; cr_version := "1.0"; cr_content_hash := "sha256:335fbb1d57f1921aab827f82027346f61c48b8138a2ba7b9649478d25e7c0d79"; cr_source := (Some "capability-contracts.json") |};
    {| cr_id := "artifact.hash"; cr_version := "1.0"; cr_content_hash := "sha256:03b838e40f74382cf86f49e2b5c50e2ac0101d6b169ac68052a25a2fab32b174"; cr_source := (Some "capability-contracts.json") |};
    {| cr_id := "artifact.copy"; cr_version := "1.0"; cr_content_hash := "sha256:e131f5ec57aa4513371eb55897e74e9d9e5af31c513e1613886923b4a8503920"; cr_source := (Some "capability-contracts.json") |};
    {| cr_id := "artifact.copy.compat"; cr_version := "1.0"; cr_content_hash := "sha256:7138ee705f7aa612aed8a08592f6813f44a57d118a29e56e6ad8ad2089c3812c"; cr_source := (Some "capability-contracts.json") |};
    {| cr_id := "text.uppercase"; cr_version := "1.0"; cr_content_hash := "sha256:e741813442438e876b9353ba4a14712c0cc0dd59cba32c95997ef1dc4b63e2b2"; cr_source := (Some "capability-contracts.json") |}];
  rs_created_at := "2026-09-15T00:00:00Z";
  rs_publisher := None;
  rs_notes := ["Content identities generated with the v0.1 domain-separated RFC 8785 canonicalization profiles."];
|}.

Definition fixture_registry : SemanticRegistry := {|
  reg_snapshot := fixture_snapshot;
  reg_snapshot_id := rs_snapshot_id fixture_snapshot;
  reg_hash_verification := Strict;
  reg_types := list_to_map [
    (("artifact.file", 1%N), type_artifact_file);
    (("artifact.table", 1%N), type_artifact_table);
    (("artifact.image", 1%N), type_artifact_image);
    (("artifact.report", 1%N), type_artifact_report);
    (("data.table", 1%N), type_data_table);
    (("data.metrics", 1%N), type_data_metrics);
    (("data.hash", 1%N), type_data_hash);
    (("text.plain", 1%N), type_text_plain);
    (("text.narrative", 1%N), type_text_narrative);
    (("verification.result", 1%N), type_verification_result)];
  reg_capabilities := list_to_map [
    (("table.import", 1%N), cap_table_import);
    (("table.normalize", 1%N), cap_table_normalize);
    (("stats.compare_periods", 1%N), cap_stats_compare_periods);
    (("chart.render", 1%N), cap_chart_render);
    (("report.summarize", 1%N), cap_report_summarize);
    (("verify.numeric_claims", 1%N), cap_verify_numeric_claims);
    (("document.compose", 1%N), cap_document_compose);
    (("artifact.hash", 1%N), cap_artifact_hash);
    (("artifact.copy", 1%N), cap_artifact_copy);
    (("artifact.copy.compat", 1%N), cap_artifact_copy_compat);
    (("text.uppercase", 1%N), cap_text_uppercase)];
  reg_type_hashes := list_to_map [
    (("artifact.file", 1%N), "sha256:d6b09d10397738719b82bb6896606df22f4997ca37fe6d531289e269660477a7");
    (("artifact.table", 1%N), "sha256:c5ec22237e6d390a8e377b429d1247946102de1d82316921af3dbc5cdceab397");
    (("artifact.image", 1%N), "sha256:19f8f4a94aa913be4e57ea46cafefd65c53c1d7fe3382cc56a300dd13b1cd72c");
    (("artifact.report", 1%N), "sha256:7a5841c4f84a566d2568539cc2c58d0175ccfe071e8f42fafa1b483c2a96e997");
    (("data.table", 1%N), "sha256:d1ee3178cdff1304bee09e01a4b0e03a6b1d19e781b80e0e886e4816b19c927e");
    (("data.metrics", 1%N), "sha256:67654e3256c32d035d5c3accf1dc1e11984767d1d3bb08cb1951218bc1fa59ed");
    (("data.hash", 1%N), "sha256:dd451aabbd2be94cc3d2446e1c5cf946001cf81b657aa5fedaaacc9499f660c8");
    (("text.plain", 1%N), "sha256:2e5bf88f286aada2359bd70bff864db74926d521d868f247449ed144e5a5f5f6");
    (("text.narrative", 1%N), "sha256:8e3c9d6977e0a6321650dc578afa1ffbaf009109d556ed76c07ccf7fea73ad8b");
    (("verification.result", 1%N), "sha256:fc9f1fe4bd26a710663ce8e278d2318fcb05b6ba1d09f09a668a34553c79ef91")];
  reg_capability_hashes := list_to_map [
    (("table.import", 1%N), "sha256:b6ab9313d952be9ee69e1fa240f17032a7a71b2e15c5d413077ce106570710c6");
    (("table.normalize", 1%N), "sha256:1dfc9e43a01ce1196fbc7293c7f4865fb964295d55ee1e85a0e7912d38fd50b2");
    (("stats.compare_periods", 1%N), "sha256:7d637da8cef1b7a02b8653c09a9cd901fedb7297c50b3f4a5b20c20d2ac8da24");
    (("chart.render", 1%N), "sha256:d087fa1d01dca16152c0dd895402c8cb3f3973c8314a1edb3ee24a3a3ffe5867");
    (("report.summarize", 1%N), "sha256:cc14edb6f65813fbba02756e5a154342522d57f6244f86327a0e7e3acafc0852");
    (("verify.numeric_claims", 1%N), "sha256:c5b03578fd63e125caf948168b59b4808839f2739d79f3fc2d4875c6aa8885d5");
    (("document.compose", 1%N), "sha256:335fbb1d57f1921aab827f82027346f61c48b8138a2ba7b9649478d25e7c0d79");
    (("artifact.hash", 1%N), "sha256:03b838e40f74382cf86f49e2b5c50e2ac0101d6b169ac68052a25a2fab32b174");
    (("artifact.copy", 1%N), "sha256:e131f5ec57aa4513371eb55897e74e9d9e5af31c513e1613886923b4a8503920");
    (("artifact.copy.compat", 1%N), "sha256:7138ee705f7aa612aed8a08592f6813f44a57d118a29e56e6ad8ad2089c3812c");
    (("text.uppercase", 1%N), "sha256:e741813442438e876b9353ba4a14712c0cc0dd59cba32c95997ef1dc4b63e2b2")];
|}.

(** [demonstration-a.ir.json] *)
Definition demonstration_a : AiosIr := {|
  ir_version := "0.1";
  program_id := "demo.analyze_numbers.v1";
  program_kind := TaskGraph;
  program_inputs := (list_to_map [("source", {| input_type_ref := "artifact.table@1"; input_required := true; input_media_types := ["text/csv"; "application/vnd.openxmlformats-officedocument.spreadsheetml.sheet"]; input_description := (Some "User-selected tabular input artifact") |})]);
  program_nodes := [
    {| node_id := "import_table";
       node_operation := {| op_kind := Invoke; op_capability := "table.import@1" |};
       node_execution_class := Deterministic;
       node_inputs := (list_to_map [("source", (ValueRef_Input "source"))]);
       node_outputs := (list_to_map [("table", "data.table@1")]);
       node_authority_requests := [{| req_action := "artifact.read"; req_resource := "input:source"; req_reason := (Some "Read the user-selected table") |}];
       node_egress := {| egress_mode := Deny; egress_destination_classes := [] |};
       node_constraints := (Some {| con_locality := [Local]; con_max_latency_ms := None; con_max_cost_microusd := None; con_min_memory_bytes := None; con_accelerator := None |});
       node_failure := Stop;
       node_cache := ContentAddressed;
       node_description := (Some "Parse the source artifact into a typed table");
       node_metadata := None |};
    {| node_id := "normalize_table";
       node_operation := {| op_kind := Invoke; op_capability := "table.normalize@1" |};
       node_execution_class := Deterministic;
       node_inputs := (list_to_map [("table", (ValueRef_Node "import_table" "table"))]);
       node_outputs := (list_to_map [("table", "data.table@1")]);
       node_authority_requests := [];
       node_egress := {| egress_mode := Deny; egress_destination_classes := [] |};
       node_constraints := (Some {| con_locality := [Local]; con_max_latency_ms := None; con_max_cost_microusd := None; con_min_memory_bytes := None; con_accelerator := None |});
       node_failure := Stop;
       node_cache := ContentAddressed;
       node_description := None;
       node_metadata := None |};
    {| node_id := "compute_metrics";
       node_operation := {| op_kind := Invoke; op_capability := "stats.compare_periods@1" |};
       node_execution_class := Deterministic;
       node_inputs := (list_to_map [("table", (ValueRef_Node "normalize_table" "table"))]);
       node_outputs := (list_to_map [("metrics", "data.metrics@1")]);
       node_authority_requests := [];
       node_egress := {| egress_mode := Deny; egress_destination_classes := [] |};
       node_constraints := (Some {| con_locality := [Local; Peer]; con_max_latency_ms := (Some 5000%N); con_max_cost_microusd := None; con_min_memory_bytes := None; con_accelerator := None |});
       node_failure := Stop;
       node_cache := ContentAddressed;
       node_description := None;
       node_metadata := None |};
    {| node_id := "render_chart";
       node_operation := {| op_kind := Invoke; op_capability := "chart.render@1" |};
       node_execution_class := Deterministic;
       node_inputs := (list_to_map [("metrics", (ValueRef_Node "compute_metrics" "metrics"))]);
       node_outputs := (list_to_map [("chart", "artifact.image@1")]);
       node_authority_requests := [{| req_action := "artifact.write"; req_resource := "task.output"; req_reason := (Some "Create the chart artifact") |}];
       node_egress := {| egress_mode := Deny; egress_destination_classes := [] |};
       node_constraints := (Some {| con_locality := [Local; Peer]; con_max_latency_ms := None; con_max_cost_microusd := None; con_min_memory_bytes := None; con_accelerator := None |});
       node_failure := (Retry 2);
       node_cache := ContentAddressed;
       node_description := None;
       node_metadata := None |};
    {| node_id := "draft_narrative";
       node_operation := {| op_kind := Invoke; op_capability := "report.summarize@1" |};
       node_execution_class := Probabilistic;
       node_inputs := (list_to_map [("metrics", (ValueRef_Node "compute_metrics" "metrics"))]);
       node_outputs := (list_to_map [("narrative", "text.narrative@1")]);
       node_authority_requests := [];
       node_egress := {| egress_mode := Deny; egress_destination_classes := [] |};
       node_constraints := (Some {| con_locality := [Local]; con_max_latency_ms := (Some 15000%N); con_max_cost_microusd := None; con_min_memory_bytes := None; con_accelerator := None |});
       node_failure := (Replan 1);
       node_cache := Never;
       node_description := (Some "Generate a concise interpretation of deterministic metrics");
       node_metadata := None |};
    {| node_id := "verify_narrative";
       node_operation := {| op_kind := Verify; op_capability := "verify.numeric_claims@1" |};
       node_execution_class := Deterministic;
       node_inputs := (list_to_map [("narrative", (ValueRef_Node "draft_narrative" "narrative")); ("metrics", (ValueRef_Node "compute_metrics" "metrics"))]);
       node_outputs := (list_to_map [("verified_narrative", "text.narrative@1")]);
       node_authority_requests := [];
       node_egress := {| egress_mode := Deny; egress_destination_classes := [] |};
       node_constraints := (Some {| con_locality := [Local]; con_max_latency_ms := None; con_max_cost_microusd := None; con_min_memory_bytes := None; con_accelerator := None |});
       node_failure := Stop;
       node_cache := DeterministicOnly;
       node_description := (Some "Reject or repair unsupported numeric claims before composition");
       node_metadata := None |};
    {| node_id := "compose_report";
       node_operation := {| op_kind := Invoke; op_capability := "document.compose@1" |};
       node_execution_class := Deterministic;
       node_inputs := (list_to_map [("chart", (ValueRef_Node "render_chart" "chart")); ("narrative", (ValueRef_Node "verify_narrative" "verified_narrative")); ("metrics", (ValueRef_Node "compute_metrics" "metrics"))]);
       node_outputs := (list_to_map [("report", "artifact.report@1")]);
       node_authority_requests := [{| req_action := "artifact.write"; req_resource := "task.output"; req_reason := (Some "Create the final report artifact") |}];
       node_egress := {| egress_mode := Deny; egress_destination_classes := [] |};
       node_constraints := (Some {| con_locality := [Local; Peer]; con_max_latency_ms := None; con_max_cost_microusd := None; con_min_memory_bytes := None; con_accelerator := None |});
       node_failure := Stop;
       node_cache := ContentAddressed;
       node_description := None;
       node_metadata := None |}];
  program_outputs := (list_to_map [("analysis", (ValueRef_Node "compute_metrics" "metrics")); ("chart", (ValueRef_Node "render_chart" "chart")); ("report", (ValueRef_Node "compose_report" "report"))]);
  program_metadata := (Some (list_to_map [("purpose", Str "Canonical v0.1 AIOS IR example for Demonstration A"); ("authority_note", Str "Authority declarations are requests only; no grants are embedded in the program.")]));
|}.

(** [valid-cases.json], policy-controlled-remote-summary-egress *)
Definition policy_controlled_remote_summary_egress : AiosIr := {|
  ir_version := "0.1";
  program_id := "fixture.remote_summary";
  program_kind := TaskGraph;
  program_inputs := (list_to_map [("metrics", {| input_type_ref := "data.metrics@1"; input_required := true; input_media_types := []; input_description := None |})]);
  program_nodes := [
    {| node_id := "summarize";
       node_operation := {| op_kind := Invoke; op_capability := "report.summarize@1" |};
       node_execution_class := Probabilistic;
       node_inputs := (list_to_map [("metrics", (ValueRef_Input "metrics"))]);
       node_outputs := (list_to_map [("narrative", "text.narrative@1")]);
       node_authority_requests := [{| req_action := "network.connect"; req_resource := "service:model"; req_reason := None |}; {| req_action := "data.egress"; req_resource := "destination:remote-model"; req_reason := None |}];
       node_egress := {| egress_mode := Policy; egress_destination_classes := ["remote-model"] |};
       node_constraints := (Some {| con_locality := [Remote]; con_max_latency_ms := None; con_max_cost_microusd := None; con_min_memory_bytes := None; con_accelerator := None |});
       node_failure := Stop;
       node_cache := Never;
       node_description := None;
       node_metadata := None |}];
  program_outputs := (list_to_map [("narrative", (ValueRef_Node "summarize" "narrative"))]);
  program_metadata := None;
|}.

(** [valid-cases.json], bounded-provider-fallback *)
Definition bounded_provider_fallback : AiosIr := {|
  ir_version := "0.1";
  program_id := "fixture.bounded_fallback";
  program_kind := TaskGraph;
  program_inputs := (list_to_map [("source", {| input_type_ref := "artifact.file@1"; input_required := true; input_media_types := []; input_description := None |})]);
  program_nodes := [
    {| node_id := "copy";
       node_operation := {| op_kind := Invoke; op_capability := "artifact.copy@1" |};
       node_execution_class := Deterministic;
       node_inputs := (list_to_map [("source", (ValueRef_Input "source"))]);
       node_outputs := (list_to_map [("copy", "artifact.file@1")]);
       node_authority_requests := [{| req_action := "artifact.read"; req_resource := "input:source"; req_reason := None |}; {| req_action := "artifact.write"; req_resource := "task.output"; req_reason := None |}];
       node_egress := {| egress_mode := Deny; egress_destination_classes := [] |};
       node_constraints := None;
       node_failure := (Fallback ["artifact.copy.compat@1"]);
       node_cache := ContentAddressed;
       node_description := None;
       node_metadata := None |}];
  program_outputs := (list_to_map [("copy", (ValueRef_Node "copy" "copy"))]);
  program_metadata := None;
|}.

(** [edge-case-cases.json], unused-pure-node-is-warning-not-error *)
Definition unused_pure_node : AiosIr := {|
  ir_version := "0.1";
  program_id := "edge.unused-pure";
  program_kind := TaskGraph;
  program_inputs := (list_to_map [("source", {| input_type_ref := "artifact.table@1"; input_required := true; input_media_types := []; input_description := None |})]);
  program_nodes := [
    {| node_id := "import";
       node_operation := {| op_kind := Invoke; op_capability := "table.import@1" |};
       node_execution_class := Deterministic;
       node_inputs := (list_to_map [("source", (ValueRef_Input "source"))]);
       node_outputs := (list_to_map [("table", "data.table@1")]);
       node_authority_requests := [{| req_action := "artifact.read"; req_resource := "input:source"; req_reason := None |}];
       node_egress := {| egress_mode := Deny; egress_destination_classes := [] |};
       node_constraints := None;
       node_failure := Stop;
       node_cache := ContentAddressed;
       node_description := None;
       node_metadata := None |};
    {| node_id := "normalize_unused";
       node_operation := {| op_kind := Invoke; op_capability := "table.normalize@1" |};
       node_execution_class := Deterministic;
       node_inputs := (list_to_map [("table", (ValueRef_Node "import" "table"))]);
       node_outputs := (list_to_map [("table", "data.table@1")]);
       node_authority_requests := [];
       node_egress := {| egress_mode := Deny; egress_destination_classes := [] |};
       node_constraints := None;
       node_failure := Stop;
       node_cache := ContentAddressed;
       node_description := None;
       node_metadata := None |}];
  program_outputs := (list_to_map [("table", (ValueRef_Node "import" "table"))]);
  program_metadata := None;
|}.
