(* ===== verification/Guarantees.v ===== *)
(** * What acceptance guarantees

    Consequences of [analyze] accepting a program, stated over any registry:
    an execution order in which every input is available with the type its
    port expects, effects confined to contracts and reported in the summary,
    no undeclared egress, and fallbacks that neither recurse nor broaden. *)

From S2P Require Import Prelude Json Contracts Collector Version Registry References Acyclic TypeCheck Effects Worklist Fallbacks Summary Analyze Fixtures.
Import DiagnosticCollector.

(** ** Topological orders *)

(** Positions respect the relation. *)
Definition respects {A} (R : relation A) (l : list A) : Prop :=
  ∀ i j x y, l !! i = Some x → l !! j = Some y → R x y → i < j.

(** What one input port of a node receives when the nodes before position [j]
    have run. *)
Definition input_available (program : AiosIr) (order : list Node) (j : nat) (spec : PortContract)
    (v : ValueRef) : Prop :=
  match v with
  | ValueRef_Input name =>
      ∃ input, program_inputs program !! name = Some input ∧ input_type_ref input = port_type_ref spec ∧
        (port_required spec = true → input_required input = true)
  | ValueRef_Node u out =>
      ∃ i producer, i < j ∧ order !! i = Some producer ∧ node_id producer = u ∧
        node_outputs producer !! out = Some (port_type_ref spec)
  end.

Section definitions.
Context {R : Type} `{ContractRegistry R}.
Implicit Types (registry : R).

(** Executing the nodes in this order, every node finds its inputs. *)
Definition runnable_order (program : AiosIr) registry (order : list Node) : Prop :=
  order ≡ₚ program_nodes program ∧
  ∀ j node, order !! j = Some node →
    ∃ contract, flatten (resolve_capability registry (op_capability (node_operation node))) = Some contract ∧
      (∀ port v, node_inputs node !! port = Some v →
         ∃ spec, cc_inputs contract !! port = Some spec ∧ input_available program order j spec v) ∧
      (∀ port spec, cc_inputs contract !! port = Some spec → port_required spec = true →
         is_Some (node_inputs node !! port)).

(** The effects of a node: implied by its authority, required by its contract,
    allowed by it, and all reported. *)
Record effects_confined registry (s : EffectSummary) (node : Node) (contract : CapabilityContract) : Prop := {
  ec_contract : flatten (resolve_capability registry (op_capability (node_operation node))) = Some contract;
  ec_requested : ∀ action, requests node action → action ∈ cc_allowed_authority_classes contract ∧
    ∃ e, effect_for_authority_class action = Some e ∧ e ∈ node_effects contract node;
  ec_required : ∀ e, e ∈ cc_required_effect_classes contract → e ≠ Pure → e ∈ node_effects contract node;
  ec_allowed : ∀ e, e ∈ node_effects contract node → e ∈ cc_allowed_effect_classes contract;
  ec_program : ∀ e, e ∈ node_effects contract node → e ≠ Pure → e ∈ es_effects s;
  ec_entry : ∃ entry, entry ∈ es_nodes s ∧ ns_node_id entry = node_id node ∧
    ∀ e, e ∈ ns_effects entry ↔ e ∈ node_effects contract node;
}.

(** No data leaves through a node, under the contract of the capability it names, or through any of its fallbacks. *)
Record egress_closed registry (node : Node) (contract : CapabilityContract) : Prop := {
  eg_contract : flatten (resolve_capability registry (op_capability (node_operation node))) = Some contract;
  eg_destinations : egress_destination_classes (node_egress node) = [];
  eg_requests : ¬ requests node "data.egress";
  eg_effects : DataEgress ∉ node_effects contract node;
  eg_fallbacks : ∀ fallbacks r, node_failure node = Fallback fallbacks → r ∈ fallbacks →
    ∃ fallback, flatten (resolve_capability registry r) = Some fallback ∧
      (∀ m, m ∈ cc_allowed_egress_modes fallback → m = Deny) ∧
      DataEgress ∉ cc_allowed_effect_classes fallback ∧
      "data.egress" ∉ cc_allowed_authority_classes fallback;
}.

(** No chain of fallbacks leads from a capability back to itself. *)
Definition fallbacks_acyclic (program : AiosIr) : Prop :=
  ∀ capability, ¬ tc (falls_back_to program) capability capability.

(** What a fallback may do is bounded by what the node declared for its primary. *)
Record fallback_bounded (node : Node) (contract fallback : CapabilityContract) : Prop := {
  fb_role : cc_role fallback = cc_role contract;
  fb_execution : node_execution_class node ∈ cc_allowed_execution_classes fallback;
  fb_effects : ∀ e, e ∈ cc_allowed_effect_classes fallback → e ≠ Pure →
    e ∈ node_effects contract node ∧ e ∈ cc_allowed_effect_classes contract;
  fb_authority : ∀ a, a ∈ cc_allowed_authority_classes fallback →
    requests node a ∧ a ∈ cc_allowed_authority_classes contract;
}.

End definitions.

Lemma minimal_element {A} (R : relation A) `{!RelDecision R} (l : list A) x :
  Acc R x → x ∈ l → ∃ m, m ∈ l ∧ ∀ y, y ∈ l → ¬ R y m.
Proof.
  induction 1 as [x _ IH]. intros Hx. destruct (decide (Exists (λ y, R y x) l)) as [He|Hn].
  - apply Exists_exists in He as (y & Hy & Hyx). by apply (IH y).
  - exists x. split; [done|]. intros y Hy Hyx. apply Hn, Exists_exists. eauto.
Qed.

Lemma topological_order {A} (R : relation A) `{!RelDecision R} (l : list A) :
  (∀ x, x ∈ l → Acc R x) → ∃ order, order ≡ₚ l ∧ respects R order.
Proof.
  remember (length l) as n eqn:Hn. revert l Hn. induction n as [|n IH]; intros l Hn Hacc.
  { destruct l; [|done]. exists []. split; [done|]. by intros i j x y Hi. }
  destruct l as [|x0 l0]; [done|]. destruct (minimal_element R (x0 :: l0) x0) as (m & Hm & Hmin);
    [apply Hacc; by left|by left|].
  apply elem_of_Permutation in Hm as [l1 Hl1].
  destruct (IH l1) as (order & Hp & Hr).
  - apply Permutation_length in Hl1. simpl in Hl1, Hn. lia.
  - intros x Hx. apply Hacc. rewrite Hl1. by right.
  - exists (m :: order). split; [by rewrite Hp, Hl1|]. intros [|i] [|j] x y Hi Hj Hxy; simpl in *.
    + simplify_eq. exfalso. eapply Hmin; [|done]. rewrite Hl1. by left.
    + lia.
    + simplify_eq. exfalso. eapply Hmin; [|done]. rewrite Hl1. right. rewrite <-Hp.
      by eapply list_elem_of_lookup_2.
    + specialize (Hr i j x y Hi Hj Hxy). lia.
Qed.

(** [node] reads a value of the node named [u]. *)
Definition reads_from (u : string) (node : Node) : Prop :=
  map_Exists (λ _ v, match v with ValueRef_Node w _ => w = u | ValueRef_Input _ => False end)
    (node_inputs node).

#[export] Instance reads_from_dec u node : Decision (reads_from u node).
Proof. apply map_Exists_dec. intros _ [|w p]; apply _. Defined.

Lemma data_edge_reads_from program u v :
  data_edge program u v ↔ Exists (λ node, node_id node = v ∧ reads_from u node) (program_nodes program).
Proof.
  unfold data_edge, reads_from. rewrite Exists_exists. unfold map_Exists. split.
  - intros (node & name & port & ? & ? & ?). exists node. split_and!; [done..|].
    by exists name, (ValueRef_Node u port).
  - intros (node & ? & ? & name & [|w port] & ? & Hw); [done|]. subst. by exists node, name, port.
Qed.

#[export] Instance data_edge_dec program : RelDecision (data_edge program).
Proof.
  intros u v. refine (cast_if (decide (Exists (λ node, node_id node = v ∧ reads_from u node)
    (program_nodes program)))); by rewrite data_edge_reads_from.
Defined.

(** The identifiers of an accepted program can be ordered along its data flow. *)
Lemma program_order program :
  NoDup (node_id <$> program_nodes program) →
  references_ok program (node_index (program_nodes program)) → acyclic program →
  ∃ order, order ≡ₚ program_nodes program ∧
    respects (λ a b, data_edge program (node_id a) (node_id b)) order.
Proof.
  intros Hnd Hrefs Hac. destruct (topological_order (data_edge program) (node_id <$> program_nodes program))
    as (ids & Hp & Hr).
  - intros x _. apply (tc_finite_sn (R := flip (data_edge program))).
    + intros y Hy%tc_flip. by apply (Hac y).
    + exists (node_id <$> program_nodes program). intros y Hy%tc_flip.
      assert (∃ z, data_edge program y z) as [z Hz] by (inversion Hy; eauto).
      apply edge_source_indexed in Hz; [|done]. apply elem_of_dom in Hz as [n Hn].
      apply node_index_lookup in Hn as [Hn <-]; [|done]. by apply list_elem_of_fmap_2.
  - destruct (Permutation_map_inv _ _ Hp) as (order & -> & Ho).
    exists order. split; [done|]. intros i j a b Ha Hb Hab. apply (Hr i j (node_id a) (node_id b)); [| |done].
    + by rewrite list_lookup_fmap, Ha.
    + by rewrite list_lookup_fmap, Hb.
Qed.

(** ** Acceptance *)

Section guarantees.
Context {R : Type} `{ContractRegistry R}.
Implicit Types (registry : R).

Lemma analyze_accepted program registry max s c :
  analyze program registry (new max) = Some (Some s, c) →
  program_ok program registry ∧
  build_summary program (snapshot_id registry) "" (program_effects program registry) = Some s.
Proof.
  intros Ha. destruct (decides_analyze program registry (new max) eq_refl)
    as (r & c' & Hr & [(Hok & (s' & -> & Hs) & _)|(_ & -> & _)] & _); rewrite Ha in Hr; by simplify_eq.
Qed.

(** The contract that a node of an accepted program resolves to. *)
Lemma node_contract program registry node :
  program_ok program registry → node ∈ program_nodes program →
  ∃ contract, flatten (resolve_capability registry (op_capability (node_operation node))) = Some contract ∧
    program_contracts program registry !! node_id node = Some contract ∧
    program_effects program registry !! node_id node = Some (node_effects contract node) ∧
    node_contract_ok program registry (node_index (program_nodes program)) node contract ∧
    node_effects_ok program contract node.
Proof.
  intros Hok Hn. destruct (po_types _ _ Hok) as [_ Ht]. destruct (Ht node Hn) as (contract & Hc & Hnc).
  assert (program_contracts program registry !! node_id node = Some contract) as Hpc.
  { unfold program_contracts. rewrite contract_map_lookup; [done|by apply (po_unique _ _ Hok)|done]. }
  exists contract. split_and!; [done|done| |done|].
  - unfold program_effects. rewrite effects_map_lookup; [by rewrite Hpc|by apply (po_unique _ _ Hok)|done].
  - by apply (po_effects _ _ Hok).
Qed.

(** ** The theorems *)

Lemma flow_input_available program registry order j node contract port v spec :
  program_ok program registry → order ≡ₚ program_nodes program →
  respects (λ a b, data_edge program (node_id a) (node_id b)) order → order !! j = Some node →
  flow_ok program (node_index (program_nodes program)) node contract →
  node_inputs node !! port = Some v → cc_inputs contract !! port = Some spec →
  input_available program order j spec v.
Proof.
  intros Hok Hp Hresp Hj Hflow Hv Hspec.
  destruct (Hflow port v spec Hv Hspec) as (opt & Hty & Hopt). destruct v as [name|u out]; simpl in *.
  - destruct (program_inputs program !! name) as [input|]; [|done]. simplify_eq/=.
    exists input. split_and!; [done..|]. intros Hreq. apply dec_stable. intros Hn.
    apply not_true_is_false in Hn. rewrite Hn in Hopt. rewrite (Hopt eq_refl) in Hreq. done.
  - destruct (node_index (program_nodes program) !! u) as [producer|] eqn:Hu; [|done]. simplify_eq/=.
    destruct (node_outputs producer !! out) as [t|] eqn:Ht; [|done]. simplify_eq/=.
    apply node_index_lookup in Hu as [Hin Hid]; [|by apply (po_unique _ _ Hok)].
    rewrite <-Hp in Hin. apply list_elem_of_lookup in Hin as [i Hi].
    exists i, producer. split_and!; [|done..]. apply (Hresp i j producer node Hi Hj).
    exists node, port, out. subst u. split_and!; [|done|done]. rewrite <-Hp. by eapply list_elem_of_lookup_2.
Qed.

(** C3: An accepted program can be executed: its nodes have an order in which, at
    every node, each input port bound by the node is declared by the node's contract
    and receives a value of the declared type, from a program input (never an
    optional one for a required port) or from a node that ran before; and every
    required input port is bound. *)
Theorem accepted_program_runs program registry max s c :
  analyze program registry (new max) = Some (Some s, c) →
  ∃ order, runnable_order program registry order.
Proof.
  intros [Hok _]%analyze_accepted.
  destruct (program_order program) as (order & Hp & Hresp); [apply Hok..|].
  exists order. split; [done|]. intros j node Hj.
  assert (node ∈ program_nodes program) as Hn by (rewrite <-Hp; by eapply list_elem_of_lookup_2).
  destruct (node_contract program registry node Hok Hn) as (contract & Hc & _ & _ & Hnc & _).
  exists contract. split; [done|]. destruct Hnc as [_ _ _ [Hreq Hdecl _ _] Hflow]. split; [|done].
  intros port v Hv. destruct (Hdecl port) as [spec Hspec]; [by rewrite Hv|].
  exists spec. split; [done|]. by eapply flow_input_available.
Qed.

(** C4: No effect of an accepted program is hidden or out of contract: for every
    node the effects implied by its requested authority and required by its
    contract are among its derived effects, these are allowed by the contract, and
    the summary has an entry for the node that lists exactly them and lists each
    (other than [PURE]) for the whole program. *)
Theorem accepted_effects_confined program registry max s c node :
  analyze program registry (new max) = Some (Some s, c) → node ∈ program_nodes program →
  ∃ contract, effects_confined registry s node contract.
Proof.
  intros [Hok Hs]%analyze_accepted Hn.
  destruct (node_contract program registry node Hok Hn) as (contract & Hc & _ & Heff & _ & Hne).
  exists contract.
  destruct (build_summary_spec program (snapshot_id registry) "" (program_effects program registry))
    as (s' & Hs' & Hes & _ & _ & Hns & _); [eapply effects_total; apply Hok|].
  rewrite Hs in Hs'. injection Hs' as <-. split; [done|..].
  - intros action Ha. split; [by apply (eo_allowed _ _ _ Hne)|].
    destruct (eo_mapped _ _ _ Hne action Ha) as [e He]. exists e. split; [done|].
    apply elem_of_node_effects. left. destruct Ha as (r & Hr & <-). eauto.
  - intros e He Hp. apply elem_of_node_effects. right. left. eauto.
  - apply (eo_effects _ _ _ Hne).
  - intros e He Hp. rewrite Hes, elem_of_btree_set_iter. apply elem_of_reported_effects; [done|].
    apply elem_of_all_effects. eauto.
  - exists (node_summary (node_effects contract node) node). split_and!; [|done|].
    + rewrite Hns. apply list_elem_of_fmap. exists node. rewrite Heff. split; [done|].
      by rewrite ordered_nodes_perm.
    + intros e. simpl. apply elem_of_btree_set_iter.
Qed.

(** C5: A node of an accepted program that declares [deny] egress names no
    destination, requests no [data.egress] authority and derives no [DATA_EGRESS]
    effect under the contract that its capability resolves to, and each of its
    fallbacks resolves to a contract without another egress mode, the
    [DATA_EGRESS] effect and [data.egress] authority. *)
Theorem accepted_deny_egress_closed program registry max s c node :
  analyze program registry (new max) = Some (Some s, c) → node ∈ program_nodes program →
  egress_mode (node_egress node) = Deny →
  ∃ contract, egress_closed registry node contract.
Proof.
  intros [Hok _]%analyze_accepted Hn Hdeny.
  destruct (node_contract program registry node Hok Hn) as (contract & Hc & Hpc & Heff & _ & Hne).
  exists contract. destruct (eo_egress _ _ _ Hne) as [_ Hegress]. rewrite Hdeny in Hegress.
  destruct Hegress as (Hdest & Hreq & Hdata).
  assert (¬ requests node "data.egress") as Hnone.
  { intros (r & Hr & Ha). apply (Hreq (req_resource r)). by exists r. }
  split; [done..|]. intros fallbacks r Hf Hr.
  destruct (po_fallbacks _ _ Hok node fallbacks contract (node_effects contract node) r Hn Hf Hpc Heff Hr)
    as [_ (fallback & Hfb & _ & _ & _ & _ & [Hbe Hba Hbg])].
  exists fallback. split_and!; [done|by apply Hbg| |].
  - intros Hin. apply Hdata, Hbe; done.
  - intros Hin. by apply Hnone, Hba.
Qed.

(** C6: A fallback of an accepted program never broadens what its node declared:
    it has the role and admits the execution class of the primary, every effect it
    may have (other than [PURE]) is a derived effect of the node and allowed by the
    primary contract, and every authority class it may use was requested by the
    node. *)
Theorem accepted_fallbacks_bounded program registry max s c node fallbacks r :
  analyze program registry (new max) = Some (Some s, c) → node ∈ program_nodes program →
  node_failure node = Fallback fallbacks → r ∈ fallbacks →
  ∃ contract fallback,
    flatten (resolve_capability registry (op_capability (node_operation node))) = Some contract ∧
    flatten (resolve_capability registry r) = Some fallback ∧
    fallback_bounded node contract fallback.
Proof.
  intros [Hok _]%analyze_accepted Hn Hf Hr.
  destruct (node_contract program registry node Hok Hn) as (contract & Hc & Hpc & Heff & Hnc & Hne).
  destruct (po_fallbacks _ _ Hok node fallbacks contract (node_effects contract node) r Hn Hf Hpc Heff Hr)
    as [_ (fallback & Hfb & _ & _ & Hex & Hrole & [Hbe Hba Hbg])].
  exists contract, fallback. split_and!; [done..|]. split.
  - rewrite Hrole. symmetry. apply (nc_role _ _ _ _ _ Hnc).
  - done.
  - intros e He Hp. split; [by apply Hbe|]. by apply (eo_effects _ _ _ Hne), Hbe.
  - intros a Ha. split; [by apply Hba|]. by apply (eo_allowed _ _ _ Hne), Hba.
Qed.

(** C7: The fallback relation of an accepted program has no cycle: no chain of
    fallbacks, through any nodes, leads from a capability back to itself. *)
Theorem accepted_fallbacks_acyclic program registry max s c :
  analyze program registry (new max) = Some (Some s, c) → fallbacks_acyclic program.
Proof.
  intros [Hok _]%analyze_accepted capability Htc.
  assert (∃ f, falls_back_to program capability f ∧ rtc (falls_back_to program) f capability)
    as (f & (node & fallbacks & Hn & <- & Hf & Hin) & Hrtc).
  { inversion Htc as [? ? Hone|? f ? Hone Hmore]; simplify_eq.
    - exists capability. split; [done|apply rtc_refl].
    - exists f. split; [done|]. by apply tc_rtc. }
  destruct (node_contract program registry node Hok Hn) as (contract & _ & Hpc & Heff & _).
  by destruct (po_fallbacks _ _ Hok node fallbacks contract _ f Hn Hf Hpc Heff Hin) as [Hac _].
Qed.

End guarantees.

(** ** Witnesses on the repository's fixtures *)

Lemma accepted_program_runs_witness : ∃ order, runnable_order demonstration_a fixture_registry order.
Proof. eapply (accepted_program_runs demonstration_a fixture_registry 256). vm_compute. reflexivity. Defined.

(** The seventh node of the demonstration, and the only node of the fallback case. *)
Lemma accepted_effects_confined_witness :
  match program_nodes demonstration_a !! 6 with
  | Some node => ∃ s contract, effects_confined fixture_registry s node contract
  | None => False
  end.
Proof.
  destruct (program_nodes demonstration_a !! 6) as [node|] eqn:Hnode; [|discriminate Hnode].
  eexists. eapply (accepted_effects_confined demonstration_a fixture_registry 256).
  - vm_compute. reflexivity.
  - by eapply list_elem_of_lookup_2.
Defined.

Lemma accepted_deny_egress_closed_witness :
  match program_nodes bounded_provider_fallback !! 0 with
  | Some node => ∃ contract, egress_closed fixture_registry node contract
  | None => False
  end.
Proof.
  assert (egress_mode ∘ node_egress <$> program_nodes bounded_provider_fallback !! 0 = Some Deny) as Hmode
    by reflexivity.
  destruct (program_nodes bounded_provider_fallback !! 0) as [node|] eqn:Hnode; [|discriminate Hnode].
  eapply (accepted_deny_egress_closed bounded_provider_fallback fixture_registry 256).
  - vm_compute. reflexivity.
  - by eapply list_elem_of_lookup_2.
  - by injection Hmode.
Defined.

Lemma accepted_fallbacks_bounded_witness :
  match program_nodes bounded_provider_fallback !! 0 with
  | Some node => ∃ contract fallback,
      flatten (resolve_capability fixture_registry (op_capability (node_operation node))) = Some contract ∧
      flatten (resolve_capability fixture_registry "artifact.copy.compat@1") = Some fallback ∧
      fallback_bounded node contract fallback
  | None => False
  end.
Proof.
  assert (node_failure <$> program_nodes bounded_provider_fallback !! 0 =
    Some (Fallback ["artifact.copy.compat@1"])) as Hfail by reflexivity.
  destruct (program_nodes bounded_provider_fallback !! 0) as [node|] eqn:Hnode; [|discriminate Hnode].
  eapply (accepted_fallbacks_bounded bounded_provider_fallback fixture_registry 256).
  - vm_compute. reflexivity.
  - by eapply list_elem_of_lookup_2.
  - injection Hfail as ->. reflexivity.
  - by left.
Defined.

Lemma accepted_fallbacks_acyclic_witness : fallbacks_acyclic bounded_provider_fallback.
Proof.
  eapply (accepted_fallbacks_acyclic bounded_provider_fallback fixture_registry 256).
  vm_compute. reflexivity.
Defined.
