(* ===== verification/Reorder.v ===== *)
(** * Node order is irrelevant

    The nodes of a program form a graph: listing them in another order changes
    neither whether [analyze] accepts the program nor the summary it returns. *)

From S2P Require Import Prelude Json Contracts Collector Version Registry References Acyclic TypeCheck Effects Worklist Fallbacks Summary Analyze Fixtures.
Import DiagnosticCollector.

(** The same program up to the order of its node list. *)
Record reordered (p q : AiosIr) : Prop := {
  ro_inputs : program_inputs p = program_inputs q;
  ro_outputs : program_outputs p = program_outputs q;
  ro_nodes : program_nodes p ≡ₚ program_nodes q;
}.

#[export] Instance reordered_equivalence : Equivalence reordered.
Proof.
  split.
  - intros p. by split.
  - intros p q []. by split.
  - intros p q r [? ? ?] [? ? ?]. split; [congruence..|]. by etransitivity.
Qed.

(** ** The maps built from the node list *)

Lemma foldl_insert_keyed_perm {V} (val : Node → option V) l1 l2 :
  NoDup (node_id <$> l1) → l1 ≡ₚ l2 →
  foldl (insert_keyed node_id val) ∅ l1 = foldl (insert_keyed node_id val) ∅ l2.
Proof.
  intros Hnd Hp. apply map_eq. intros k.
  assert (NoDup (node_id <$> l2)) as Hnd2 by (by rewrite <-Hp).
  destruct (decide (k ∈ node_id <$> l1)) as [(n & -> & Hn)%list_elem_of_fmap|Hk].
  - rewrite (foldl_insert_keyed_lookup _ _ l1 n) by done.
    rewrite (foldl_insert_keyed_lookup _ _ l2 n) by (done || by rewrite <-Hp). done.
  - rewrite !foldl_insert_keyed_other; [done|..]; intros n Hn _ <-; apply Hk.
    + rewrite Hp. by apply list_elem_of_fmap_2.
    + by apply list_elem_of_fmap_2.
Qed.

Lemma effects_map_keyed program caps :
  effects_map program caps =
  foldl (insert_keyed node_id (λ n, (λ c, node_effects c n) <$> caps !! node_id n)) ∅ (program_nodes program).
Proof.
  unfold effects_map. generalize (∅ : gmap string (gset EffectClass)).
  induction (program_nodes program) as [|n ns IH]; intros m; simpl; [done|].
  rewrite IH. f_equal. unfold effects_step, insert_keyed. by destruct (caps !! node_id n).
Qed.

Section reorder.
Context {R : Type} `{ContractRegistry R} (registry : R).
Context (p q : AiosIr) (Hpq : reordered p q).
Context (Hnd : NoDup (node_id <$> program_nodes p)).

Lemma elem_of_nodes n : n ∈ program_nodes p ↔ n ∈ program_nodes q.
Proof using Hpq. by rewrite (ro_nodes _ _ Hpq). Qed.

Lemma node_index_reorder : node_index (program_nodes p) = node_index (program_nodes q).
Proof using Hpq Hnd. exact (foldl_insert_keyed_perm Some _ _ Hnd (ro_nodes _ _ Hpq)). Qed.

Lemma program_contracts_reorder : program_contracts p registry = program_contracts q registry.
Proof using Hpq Hnd.
  apply (foldl_insert_keyed_perm
    (λ n, flatten (resolve_capability registry (op_capability (node_operation n))))); [done|apply Hpq].
Qed.

Lemma program_effects_reorder : program_effects p registry = program_effects q registry.
Proof using Hpq Hnd.
  unfold program_effects. rewrite program_contracts_reorder, !effects_map_keyed.
  apply foldl_insert_keyed_perm; [done|apply Hpq].
Qed.

(** ** The conditions depend on the set of nodes *)

Lemma value_ref_ok_reorder nodes v : value_ref_ok p nodes v ↔ value_ref_ok q nodes v.
Proof using Hpq. unfold value_ref_ok. by rewrite (ro_inputs _ _ Hpq). Qed.

Lemma references_ok_reorder :
  references_ok p (node_index (program_nodes p)) ↔ references_ok q (node_index (program_nodes q)).
Proof using Hpq Hnd.
  unfold references_ok, node_references_ok, selector_ok. rewrite node_index_reorder, (ro_outputs _ _ Hpq), (ro_inputs _ _ Hpq).
  setoid_rewrite elem_of_nodes. by setoid_rewrite value_ref_ok_reorder.
Qed.

Lemma data_edge_reorder u v : data_edge p u v ↔ data_edge q u v.
Proof using Hpq. unfold data_edge. by setoid_rewrite elem_of_nodes. Qed.

Lemma acyclic_reorder : acyclic p ↔ acyclic q.
Proof using Hpq.
  unfold acyclic. split; intros Hac v Hv; apply (Hac v); (eapply tc_mono; [|exact Hv]);
    intros x y; apply data_edge_reorder.
Qed.

Lemma types_ok_reorder nodes : types_ok p registry nodes ↔ types_ok q registry nodes.
Proof using Hpq.
  assert (∀ node contract, node_contract_ok p registry nodes node contract ↔
    node_contract_ok q registry nodes node contract) as Hnc.
  { assert (∀ node contract, flow_ok p nodes node contract ↔ flow_ok q nodes node contract) as Hflow.
    { intros. unfold flow_ok, value_type. by rewrite (ro_inputs _ _ Hpq). }
    intros node contract. split; intros []; split; try done; by apply Hflow. }
  unfold types_ok, node_types_ok. rewrite (ro_inputs _ _ Hpq). setoid_rewrite elem_of_nodes.
  by setoid_rewrite Hnc.
Qed.

Lemma artifact_reads_reorder node contract :
  artifact_reads_covered p node contract ↔ artifact_reads_covered q node contract.
Proof using Hpq. unfold artifact_reads_covered. by rewrite (ro_inputs _ _ Hpq). Qed.

Lemma effects_ok_reorder caps : effects_ok p caps ↔ effects_ok q caps.
Proof using Hpq.
  unfold effects_ok. setoid_rewrite elem_of_nodes. setoid_rewrite node_effects_ok_parts.
  by setoid_rewrite artifact_reads_reorder.
Qed.

Lemma reads_port_reorder id port : reads_port p id port ↔ reads_port q id port.
Proof using Hpq. unfold reads_port. rewrite (ro_outputs _ _ Hpq). by setoid_rewrite elem_of_nodes. Qed.

Lemma fallback_ok_reorder node primary effects r :
  fallback_ok p registry node primary effects r ↔ fallback_ok q registry node primary effects r.
Proof using Hpq.
  assert (∀ a b, falls_back_to p a b ↔ falls_back_to q a b) as Hfall.
  { intros. unfold falls_back_to. by setoid_rewrite elem_of_nodes. }
  assert (∀ a b, rtc (falls_back_to p) a b ↔ rtc (falls_back_to q) a b) as Hrtc.
  { intros a b. split; intros Hr; eapply rtc_subrel; try exact Hr; intros ??; apply Hfall. }
  assert (∀ fallback, fallback_ports_ok p node primary fallback ↔
    fallback_ports_ok q node primary fallback) as Hports.
  { intros fallback. pose proof (ro_inputs _ _ Hpq) as Hi.
    split; intros [Hin Hreq Hout]; split; [by rewrite <-Hi|done| |by rewrite Hi|done|].
    all: intros port Hport; apply Hout; by apply reads_port_reorder. }
  split; intros [Hac (fallback & Hrest)].
  - split; [by rewrite <-Hrtc|]. exists fallback. by rewrite <-Hports, <-artifact_reads_reorder.
  - split; [by rewrite Hrtc|]. exists fallback. by rewrite Hports, artifact_reads_reorder.
Qed.

Lemma program_ok_reorder : program_ok p registry ↔ program_ok q registry.
Proof using Hpq Hnd.
  assert (NoDup (node_id <$> program_nodes q)) as Hnq by (by rewrite <-(ro_nodes _ _ Hpq)).
  assert (fallbacks_ok p registry (program_contracts p registry) (program_effects p registry) ↔
    fallbacks_ok q registry (program_contracts q registry) (program_effects q registry)) as Hfb.
  { unfold fallbacks_ok. rewrite program_contracts_reorder, program_effects_reorder.
    setoid_rewrite elem_of_nodes. by setoid_rewrite fallback_ok_reorder. }
  rewrite !program_ok_parts, references_ok_reorder, acyclic_reorder, types_ok_reorder, effects_ok_reorder, Hfb.
  rewrite node_index_reorder, program_contracts_reorder. tauto.
Qed.

End reorder.

(** ** The theorem *)

(** C26: Listing the nodes of a program in another order does not change its
    analysis: the reordered program is accepted exactly when the original is, and
    with the same effect summary. *)
Theorem analyze_reorder {R} `{ContractRegistry R} (registry : R) (p q : AiosIr) (max : nat) s c :
  reordered p q → analyze p registry (new max) = Some (Some s, c) →
  ∃ c', analyze q registry (new max) = Some (Some s, c').
Proof.
  intros Hpq Ha.
  destruct (decides_analyze p registry (new max) eq_refl)
    as (r & c1 & Hr & [(Hok & (s' & -> & Hs) & _)|(_ & -> & _)] & _); rewrite Ha in Hr; [|done].
  injection Hr as <- <-. pose proof (po_unique _ _ Hok) as Hnd.
  destruct (decides_analyze q registry (new max) eq_refl)
    as (r & c2 & Hr & [(_ & (s' & -> & Hs') & _)|(Hno & _)] & _).
  - rewrite <-(program_effects_reorder registry p q Hpq Hnd) in Hs'.
    rewrite <-(build_summary_permutation p q _ _ _ Hnd (ro_nodes _ _ Hpq)), Hs in Hs'.
    injection Hs' as <-. eauto.
  - destruct Hno. by apply (program_ok_reorder registry p q).
Qed.

(** The demonstration with its nodes reversed. *)
Definition demonstration_a_reversed : AiosIr := {|
  ir_version := ir_version demonstration_a;
  program_id := program_id demonstration_a;
  program_kind := program_kind demonstration_a;
  program_inputs := program_inputs demonstration_a;
  program_nodes := reverse (program_nodes demonstration_a);
  program_outputs := program_outputs demonstration_a;
  program_metadata := program_metadata demonstration_a;
|}.

Lemma analyze_reorder_witness : ∃ s c,
  analyze demonstration_a_reversed fixture_registry (new 256) = Some (Some s, c).
Proof.
  eexists. eapply (analyze_reorder fixture_registry demonstration_a demonstration_a_reversed 256).
  - split; [done..|]. simpl. by rewrite reverse_Permutation.
  - vm_compute. reflexivity.
Defined.
