(* ===== verification/Stages.v ===== *)
(** * The stages of the analysis, one by one

    Exactness of single passes on the programs that reach them, and the contents
    of the summary of an accepted program. *)

From S2P Require Import Prelude Json Contracts Collector Version Registry References Acyclic TypeCheck Effects Worklist Fallbacks Summary Analyze Fixtures Guarantees.
Import DiagnosticCollector.

(** A collector state reached without an error. *)
Definition clean_run {A} (m : Diag A) (c : DiagnosticCollector) : bool :=
  match m c with Some (_, c') => negb (has_errors c') | None => false end.

Lemma clean_run_checks {A} (m : Diag A) P a c :
  checks m P a → clean_run m c = true → P.
Proof.
  intros Hm Hc. destruct (checks_run m P a c Hm) as (c' & Hr & Herr). unfold clean_run in Hc.
  rewrite Hr in Hc. apply negb_true_iff in Hc. by apply Herr.
Qed.

(** What the summary of an accepted program contains. *)
Record summary_contents (program : AiosIr) (effects : gmap string (gset EffectClass)) (s : EffectSummary) : Prop := {
  sc_ids : ns_node_id <$> es_nodes s ≡ₚ node_id <$> program_nodes program;
  sc_sorted : Sorted (λ a b, key_leb (ns_node_id a) (ns_node_id b) = true) (es_nodes s);
  sc_effects : ∀ e, e ≠ Pure →
    e ∈ es_effects s ↔ ∃ node es, node ∈ program_nodes program ∧
      effects !! node_id node = Some es ∧ e ∈ es;
  sc_authority : ∀ a, a ∈ es_authority_classes s ↔ ∃ node, node ∈ program_nodes program ∧ requests node a;
  sc_egress : ∀ m, m ∈ es_egress_modes s ↔
    ∃ node, node ∈ program_nodes program ∧ egress_mode (node_egress node) = m;
  sc_barriers : ∀ id, id ∈ es_verification_barriers s ↔
    ∃ node, node ∈ program_nodes program ∧ node_id node = id ∧ op_kind (node_operation node) = Verify;
}.

(** Node [i] is pure and its value is of no use. *)
Definition unused_pure (program : AiosIr) (effects : gmap string (gset EffectClass)) (i : nat) (node : Node) : Prop :=
  program_nodes program !! i = Some node ∧ effects !! node_id node = Some {[ Pure ]} ∧
  ¬ useful_node program effects (node_id node).

(** No node has an effect. *)
Definition all_pure (program : AiosIr) (effects : gmap string (gset EffectClass)) : Prop :=
  ∀ node, node ∈ program_nodes program → effects !! node_id node = Some {[ Pure ]}.

Lemma ordered_nodes_Sorted program :
  Sorted (λ a b, key_leb (node_id a) (node_id b) = true) (ordered_nodes program).
Proof. apply sort_by_Sorted. intros a b. apply key_leb_total. Qed.

Lemma Sorted_fmap {A B} (R : relation B) (f : A → B) l :
  Sorted (λ a b, R (f a) (f b)) l → Sorted R (f <$> l).
Proof.
  induction 1 as [|x l Hs IH Hh]; simpl; constructor; [done|].
  destruct Hh; simpl; by constructor.
Qed.

Lemma build_summary_contents program sid hash effects s :
  (∀ node, node ∈ program_nodes program → is_Some (effects !! node_id node)) →
  build_summary program sid hash effects = Some s → summary_contents program effects s.
Proof.
  intros Heff Hs. destruct (build_summary_spec program sid hash effects Heff)
    as (s' & Hs' & He & Ha & Hg & Hn & Hb & _). rewrite Hs in Hs'. injection Hs' as <-. split.
  - rewrite Hn. unfold summary_of_nodes. rewrite <-list_fmap_compose, <-(ordered_nodes_perm program). done.
  - rewrite Hn. unfold summary_of_nodes. apply Sorted_fmap, ordered_nodes_Sorted.
  - intros e Hp. rewrite He, elem_of_btree_set_iter, elem_of_reported_effects by done. apply elem_of_all_effects.
  - intros a. rewrite Ha, elem_of_btree_set_iter, elem_of_union_list. setoid_rewrite list_elem_of_fmap. split.
    + intros (X & (node & -> & Hin) & Hx%elem_of_requested_actions). eauto.
    + intros (node & Hin & Hx%elem_of_requested_actions). eauto.
  - intros m. rewrite Hg, elem_of_btree_set_iter, elem_of_list_to_set, list_elem_of_fmap.
    unfold compose. naive_solver.
  - intros id. rewrite Hb. unfold barriers_of_nodes. rewrite list_elem_of_fmap.
    setoid_rewrite list_elem_of_filter. setoid_rewrite ordered_nodes_perm.
    unfold is_verification_gate. setoid_rewrite bool_decide_eq_true. naive_solver.
Qed.

(** ** The theorems *)

(** C27: On a program with unique identifiers whose references resolved, Kahn's loop
    returns (its fuel is never exhausted, no in-degree underflows, no lookup fails)
    and reports an error exactly when some node depends on itself through a
    nonempty path of data edges. *)
Theorem validate_acyclic_exact program max c :
  NoDup (node_id <$> program_nodes program) →
  clean_run (validate_references program (node_index (program_nodes program))) (new max) = true →
  has_errors c = false →
  ∃ c', validate_acyclic program (node_index (program_nodes program)) c = Some ((), c') ∧
    (has_errors c' = false ↔ ∀ id, ¬ tc (data_edge program) id id).
Proof.
  intros Hnd Hclean Hc.
  pose proof (clean_run_checks _ _ _ _ (checks_validate_references _ _) Hclean) as Hrefs.
  destruct (checks_run (validate_acyclic program (node_index (program_nodes program))) _ _ c
    (checks_validate_acyclic program _ (index_dom program Hnd) (edge_source_indexed program Hrefs)))
    as (c' & Hr & Herr).
  exists c'. split; [done|]. rewrite Herr. unfold acyclic. tauto.
Qed.

Lemma validate_acyclic_exact_witness : acyclic demonstration_a.
Proof.
  destruct (validate_acyclic_exact demonstration_a 256 (new 256)) as (c' & Hr & Hiff).
  - apply (bool_decide_unpack (NoDup (node_id <$> program_nodes demonstration_a))). vm_compute. exact I.
  - vm_compute. reflexivity.
  - reflexivity.
  - refine (proj1 Hiff _). vm_compute in Hr. injection Hr as <-. reflexivity.
Defined.

(** C30: The summary of an accepted program describes exactly that program: one
    entry per node in the order of identifiers; a non-[PURE] effect, an authority
    class or an egress mode is listed exactly when some node has it; and the
    verification barriers are exactly the verify nodes. *)
Theorem accepted_summary_contents {R} `{ContractRegistry R} program (registry : R) max s c :
  analyze program registry (new max) = Some (Some s, c) →
  summary_contents program (program_effects program registry) s.
Proof.
  intros [Hok Hs]%analyze_accepted. eapply build_summary_contents; [|done].
  eapply effects_total; apply Hok.
Qed.

Lemma accepted_summary_contents_witness : ∃ s,
  summary_contents demonstration_a (program_effects demonstration_a fixture_registry) s.
Proof.
  eexists. eapply (accepted_summary_contents demonstration_a fixture_registry 256). vm_compute. reflexivity.
Defined.

(** C29: The unused-node pass warns about exactly the nodes whose only effect is
    [PURE] and whose value reaches neither a program output nor an effectful node;
    its search terminates and it reports nothing else.  The operation kind plays no
    part: a [verify] node is warned only when it is pure, although docs/68 section 6
    and docs/70 ask for the warning on every [verify] node that gates nothing
    ([idle_verifier_not_warned]). *)
Theorem unused_warnings_exact program nodes effects :
  forallb (λ node, bool_decide (is_Some (effects !! node_id node))) (program_nodes program) = true →
  ∃ ds, emits (warn_unused_pure_nodes program nodes effects) () ds ∧
    ∀ d, d ∈ ds ↔ ∃ i node, unused_pure program effects i node ∧ d = unused_warning i node.
Proof.
  intros Hall. eapply reports_iff; [apply reports_warn_unused|unfold unused_pure; naive_solver].
  intros node Hn.
  rewrite forallb_forall in Hall. specialize (Hall node). rewrite <-list_elem_of_In in Hall.
  by apply Hall, bool_decide_eq_true_1 in Hn.
Qed.

Lemma unused_warnings_exact_witness : ∃ ds,
  emits (warn_unused_pure_nodes unused_pure_node (node_index (program_nodes unused_pure_node))
    (program_effects unused_pure_node fixture_registry)) () ds ∧ ds ≠ [].
Proof.
  destruct (unused_warnings_exact unused_pure_node (node_index (program_nodes unused_pure_node))
    (program_effects unused_pure_node fixture_registry)) as (ds & Hem & _); [vm_compute; reflexivity|].
  exists ds. split; [done|]. intros ->. specialize (Hem (new 256)). vm_compute in Hem. discriminate Hem.
Defined.

(** A copied artifact is returned, and the verifier [artifact.hash], which reads an
    artifact, checks the source for nobody. *)
Definition idle_verifier : AiosIr := {|
  ir_version := "0.1";
  program_id := "edge.idle-verifier";
  program_kind := TaskGraph;
  program_inputs := (list_to_map [("source", {| input_type_ref := "artifact.file@1"; input_required := true; input_media_types := []; input_description := None |})]);
  program_nodes := [
    {| node_id := "copy";
       node_operation := {| op_kind := Invoke; op_capability := "artifact.copy@1" |};
       node_execution_class := Deterministic;
       node_inputs := (list_to_map [("source", (ValueRef_Input "source"))]);
       node_outputs := (list_to_map [("copy", "artifact.file@1")]);
       node_authority_requests := [{| req_action := "artifact.read"; req_resource := "input:source"; req_reason := None |}; {| req_action := "artifact.write"; req_resource := "task.output"; req_reason := None |}];
       node_egress := {| egress_mode := Deny; egress_destination_classes := [] |};
       node_constraints := None;
       node_failure := Stop;
       node_cache := ContentAddressed;
       node_description := None;
       node_metadata := None |};
    {| node_id := "check";
       node_operation := {| op_kind := Verify; op_capability := "artifact.hash@1" |};
       node_execution_class := Deterministic;
       node_inputs := (list_to_map [("source", (ValueRef_Input "source"))]);
       node_outputs := (list_to_map [("hash", "data.hash@1")]);
       node_authority_requests := [{| req_action := "artifact.read"; req_resource := "input:source"; req_reason := None |}];
       node_egress := {| egress_mode := Deny; egress_destination_classes := [] |};
       node_constraints := None;
       node_failure := Stop;
       node_cache := ContentAddressed;
       node_description := None;
       node_metadata := None |}];
  program_outputs := (list_to_map [("copy", (ValueRef_Node "copy" "copy"))]);
  program_metadata := None;
|}.

(** A reference to an output of the node. *)
Definition refers_to (id : string) (reference : ValueRef) : bool :=
  match reference with ValueRef_Node producer _ => bool_decide (producer = id) | _ => false end.

(** The node [check] of [idle_verifier] is a [verify] node whose value no node consumes and
    no program output exposes, and the program is accepted without any diagnostic: the
    warning that docs/68 section 6 and docs/70 describe for such a node is not emitted. *)
Theorem idle_verifier_not_warned :
  (∃ node, program_nodes idle_verifier !! 1 = Some node ∧ op_kind (node_operation node) = Verify ∧
    existsb (λ consumer, existsb (refers_to (node_id node)) (map_to_list (node_inputs consumer)).*2) (program_nodes idle_verifier) = false ∧
    existsb (refers_to (node_id node)) (map_to_list (program_outputs idle_verifier)).*2 = false) ∧
  ∃ summary c, analyze idle_verifier fixture_registry (new 256) = Some (Some summary, c) ∧ finish c = ([], false).
Proof.
  split; [eexists; split; [reflexivity|split_and!; vm_compute; reflexivity]|].
  do 2 eexists. split; [vm_compute; reflexivity|reflexivity].
Qed.

(** C31: [PURE] is reported for a nonempty accepted program exactly when no node has
    any effect. *)
Theorem accepted_pure_summary {R} `{ContractRegistry R} program (registry : R) max s c :
  analyze program registry (new max) = Some (Some s, c) → program_nodes program ≠ [] →
  Pure ∈ es_effects s ↔ all_pure program (program_effects program registry).
Proof.
  intros [Hok Hs]%analyze_accepted Hne.
  pose proof (effects_total program registry (po_unique _ _ Hok) (po_types _ _ Hok)) as Htot.
  destruct (build_summary_spec program (snapshot_id registry) "" (program_effects program registry) Htot)
    as (s' & Hs' & He & _). rewrite Hs in Hs'. injection Hs' as <-.
  rewrite He, elem_of_btree_set_iter, elem_of_reported_effects_Pure. unfold all_pure. split.
  - intros Hall node Hn. destruct (node_contract program registry node Hok Hn) as (contract & _ & _ & Heff & _).
    rewrite Heff. f_equal.
    assert (∀ e, e ∈ node_effects contract node → e = Pure) as Hsub.
    { intros e Hin. assert (e ∈ all_effects (program_effects program registry) (program_nodes program)) as Hx
        by (apply elem_of_all_effects; eauto). rewrite Hall in Hx. set_solver. }
    destruct (node_effects_nonempty contract node) as [e Hin].
    apply set_eq. intros e'. rewrite elem_of_singleton. split; [apply Hsub|].
    intros ->. by rewrite <-(Hsub e Hin).
  - intros Hall. apply set_eq. intros e. rewrite elem_of_all_effects, elem_of_singleton. split.
    + intros (node & es & Hn & Hes & Hin). rewrite (Hall node Hn) in Hes. set_solver.
    + intros ->. destruct (program_nodes program) as [|node ns]; [done|].
      exists node, {[ Pure ]}. split_and!; [by left|apply Hall; by left|set_solver].
Qed.

Lemma accepted_pure_summary_witness : ∃ s,
  Pure ∈ es_effects s ↔ all_pure demonstration_a (program_effects demonstration_a fixture_registry).
Proof.
  eexists. eapply (accepted_pure_summary demonstration_a fixture_registry 256).
  - vm_compute. reflexivity.
  - discriminate.
Defined.
