(* ===== verification/Provider.v ===== *)
(** * Provider manifests

    The capability-manifest records of [crates/aios-contracts/src/provider.rs]. *)

From S2P Require Import Prelude Json Contracts.

Record ProviderPublisher := {
  pp_id : string;
  pp_name : option string;
  pp_source_url : option string;
  pp_signature : option string;
}.

Inductive ProviderRuntimeKind :=
  | Builtin | Process | Varlink | Oci | Wasm | ModelAdapter | LegacyAdapter | RemoteRuntime.

Record ProviderRuntime := {
  prt_kind : ProviderRuntimeKind;
  prt_entrypoint : option string;
  prt_interface : option string;
  prt_image : option string;
  prt_digest : option string;
}.

Record ProviderContractClaim := {
  claim_capability : string;
  claim_version : string;
  claim_contract_hash : option string;
  claim_contract_source : option string;
}.

Inductive ConformanceStatus := Declared | Tested | Certified.

Record ProviderConformance := {
  pcf_suite : string;
  pcf_suite_hash : option string;
  pcf_status : ConformanceStatus;
  pcf_tested_at : option string;
  pcf_test_environment : option string;
}.

Inductive IsolationProfile := P0 | P1 | P2 | P3 | P4 | P5.

Inductive NetworkDefault := NoNetwork | Allowlist | Internet.

Record ProviderExecution := {
  pex_locality : list Locality;
  pex_execution_class : ExecutionClass;
  pex_minimum_isolation : IsolationProfile;
  pex_network_default : option NetworkDefault;
}.

Record ProviderAuthority := {
  pau_actions : list string;
  pau_resource_classes : list string;
}.

Record ProviderResourceRequirements := {
  prr_min_memory_bytes : option N;
  prr_preferred_accelerators : list string;
  prr_requires_gpu : bool;
}.

Record ProviderCapability := {
  pcap_contract : ProviderContractClaim;
  pcap_conformance : ProviderConformance;
  pcap_effect_classes : list EffectClass;
  pcap_execution : ProviderExecution;
  pcap_authority : option ProviderAuthority;
  pcap_representations : gmap string (list string);
  pcap_resource_requirements : option ProviderResourceRequirements;
}.

Inductive ProviderReviewStatus := Unreviewed | ProjectReviewed | ThirdPartyReviewed.

Record ProviderTrust := {
  ptr_source_hash : option string;
  ptr_build_provenance : option string;
  ptr_review_status : option ProviderReviewStatus;
}.

Record CapabilityManifest := {
  man_schema_version : string;
  man_id : string;
  man_version : string;
  man_publisher : ProviderPublisher;
  man_runtime : ProviderRuntime;
  man_provides : list ProviderCapability;
  man_trust : option ProviderTrust;
}.

#[export] Instance ProviderRuntimeKind_eq_dec : EqDecision ProviderRuntimeKind.
Proof. solve_decision. Defined.
#[export] Instance NetworkDefault_eq_dec : EqDecision NetworkDefault.
Proof. solve_decision. Defined.

(** The derived order of the isolation profiles. *)
Definition IsolationProfile_rank (p : IsolationProfile) : nat :=
  match p with P0 => 0 | P1 => 1 | P2 => 2 | P3 => 3 | P4 => 4 | P5 => 5 end.

Definition isolation_lt (p q : IsolationProfile) : bool :=
  IsolationProfile_rank p <? IsolationProfile_rank q.
