(* ===== verification/Conformance.v ===== *)
(** * Provider conformance

    The static check of provider declarations against the semantic registry,
    [crates/aios-registry/src/conformance.rs].  The check cannot fail; it threads
    the collector of that module, which remembers whether anything was reported
    apart from the bounded list of diagnostics.  [debug_str] stands for the
    standard library's [Debug] rendering of a string, which only message texts
    use. *)

From S2P Require Import Prelude Json Contracts Version Registry Provider Fixtures.

Record ProviderConformanceOptions := {
  opt_allow_bootstrap_missing_contract_hash : bool;
  opt_max_diagnostics : nat;
}.

Definition default_options : ProviderConformanceOptions := {|
  opt_allow_bootstrap_missing_contract_hash := false;
  opt_max_diagnostics := 64;
|}.

Record ProviderConformanceDiagnostic := {
  pd_code : ProviderReasonCode;
  pd_message : string;
  pd_provider_id : string;
  pd_capability : option string;
}.

Record ProviderConformanceReport := {
  pr_valid : bool;
  pr_diagnostics : list ProviderConformanceDiagnostic;
  pr_diagnostics_truncated : bool;
  pr_bootstrap_contract_hash_bypass_used : bool;
}.

Definition report_contains (self : ProviderConformanceReport) (code : ProviderReasonCode) : bool :=
  existsb (λ diagnostic, bool_decide (pd_code diagnostic = code)) (pr_diagnostics self).

(** ** The module's own collector *)

Record ProviderCollector := {
  pc_provider_id : string;
  pc_maximum : nat;
  pc_diagnostics : list ProviderConformanceDiagnostic;
  pc_truncated : bool;
  pc_invalid : bool;
  pc_bypass_used : bool;
}.

Module ProviderCollector.

Definition new (provider_id : string) (maximum : nat) : ProviderCollector := {|
  pc_provider_id := provider_id;
  pc_maximum := maximum;
  pc_diagnostics := [];
  pc_truncated := false;
  pc_invalid := false;
  pc_bypass_used := false;
|}.

Definition mark_bootstrap_contract_hash_bypass (self : ProviderCollector) : ProviderCollector := {|
  pc_provider_id := pc_provider_id self;
  pc_maximum := pc_maximum self;
  pc_diagnostics := pc_diagnostics self;
  pc_truncated := pc_truncated self;
  pc_invalid := pc_invalid self;
  pc_bypass_used := true;
|}.

Definition push (code : ProviderReasonCode) (message : string) (capability : option string)
    (self : ProviderCollector) : ProviderCollector :=
  if pc_maximum self <=? length (pc_diagnostics self) then
    {| pc_provider_id := pc_provider_id self; pc_maximum := pc_maximum self;
       pc_diagnostics := pc_diagnostics self; pc_truncated := true; pc_invalid := true;
       pc_bypass_used := pc_bypass_used self |}
  else
    {| pc_provider_id := pc_provider_id self; pc_maximum := pc_maximum self;
       pc_diagnostics := pc_diagnostics self ++
         [{| pd_code := code; pd_message := message; pd_provider_id := pc_provider_id self;
             pd_capability := capability |}];
       pc_truncated := pc_truncated self; pc_invalid := true; pc_bypass_used := pc_bypass_used self |}.

Definition finish (self : ProviderCollector) : ProviderConformanceReport := {|
  pr_valid := negb (pc_invalid self);
  pr_diagnostics := pc_diagnostics self;
  pr_diagnostics_truncated := pc_truncated self;
  pr_bootstrap_contract_hash_bypass_used := pc_bypass_used self;
|}.

(** [if b { collector.push(..) }] *)
Definition push_if (b : bool) (code : ProviderReasonCode) (message : string)
    (capability : option string) (self : ProviderCollector) : ProviderCollector :=
  if b then push code message capability self else self.

End ProviderCollector.
Import ProviderCollector.

(** ** Helpers *)

(** [values.iter().collect::<BTreeSet<_>>().len() != values.len()] *)
Definition has_duplicates {A} `{EqDecision A} (values : list A) : bool :=
  negb (length (remove_dups values) =? length values).

Definition validate_provider_id (id : string) : bool :=
  if byte_len id <? 3 then false
  else match id with
       | EmptyString => false
       | String c rest => (is_lower c || is_digit c) && string_forallb semantic_id_char rest
       end.

(** The first condition of [validate_provider_capability]. *)
Definition malformed_declaration (provider : ProviderCapability) : bool :=
  bool_decide (pcap_effect_classes provider = [])
  || bool_decide (pex_locality (pcap_execution provider) = [])
  || has_duplicates (pex_locality (pcap_execution provider))
  || bool_decide (pcf_suite (pcap_conformance provider) = "")
  || match pcap_resource_requirements provider with
     | Some requirements =>
         bool_decide (prr_min_memory_bytes requirements = Some 0%N)
         || has_duplicates (prr_preferred_accelerators requirements)
     | None => false
     end
  || match pcap_authority provider with
     | Some authority =>
         has_duplicates (pau_actions authority) || has_duplicates (pau_resource_classes authority)
     | None => false
     end.

Definition authority_actions (provider : ProviderCapability) : list string :=
  match pcap_authority provider with Some authority => pau_actions authority | None => [] end.

(** The derived network facts of a declaration. *)
Definition network_default_requires_network (provider : ProviderCapability) : bool :=
  match pex_network_default (pcap_execution provider) with
  | Some Allowlist | Some Internet => true
  | _ => false
  end.

Definition remote_execution (provider : ProviderCapability) (kind : ProviderRuntimeKind) : bool :=
  bool_decide (kind = RemoteRuntime)
  || existsb (λ locality, negb (bool_decide (locality = Local))) (pex_locality (pcap_execution provider)).

Definition requires_network_envelope (provider : ProviderCapability) (kind : ProviderRuntimeKind) : bool :=
  network_default_requires_network provider || remote_execution provider kind.

Definition remote_bindable_input (provider : ProviderCapability) (kind : ProviderRuntimeKind)
    (contract : CapabilityContract) : bool :=
  remote_execution provider kind && negb (bool_decide (cc_inputs contract = ∅)).

Definition protected_effects (provider : ProviderCapability) (kind : ProviderRuntimeKind)
    (contract : CapabilityContract) : list EffectClass :=
  filter (λ effect, effect ≠ Pure ∧ effect ≠ LegacyOpaque)
    (pcap_effect_classes provider
     ++ (if requires_network_envelope provider kind then [Network] else [])
     ++ (if remote_bindable_input provider kind contract then [DataEgress] else [])).

Definition missing_protected_effect_authority (provider : ProviderCapability)
    (kind : ProviderRuntimeKind) (contract : CapabilityContract) : bool :=
  existsb (λ effect, negb (existsb (λ action, bool_decide (effect_for_authority_class action = Some effect))
                            (authority_actions provider)))
    (protected_effects provider kind contract).

Definition provider_egress (provider : ProviderCapability) (kind : ProviderRuntimeKind)
    (contract : CapabilityContract) : EgressMode :=
  if remote_bindable_input provider kind contract
     || bool_decide (DataEgress ∈ pcap_effect_classes provider)
     || existsb (λ action, bool_decide (action = "data.egress")) (authority_actions provider)
  then Policy else Deny.

Section debug.
Context (debug_str : string → string).

(** [{:?}] on an [Option<&str>] *)
Definition debug_option_str (o : option string) : string :=
  match o with None => "None" | Some s => "Some(" +++ debug_str s +++ ")" end.

(** One entry of the representation loop. *)
Definition check_representations (registry : SemanticRegistry) (contract : CapabilityContract)
    (capability : string) (entry : string * list string) (c : ProviderCollector) : ProviderCollector :=
  let '(port_name, representations) := entry in
  let port := match cc_inputs contract !! port_name with
              | Some port => Some port
              | None => cc_outputs contract !! port_name
              end in
  match port with
  | None =>
      push ProviderPortOrTypeMismatch
        ("provider declares representations for unknown port " +++ debug_str port_name) (Some capability) c
  | Some port =>
      match SemanticRef.parse (port_type_ref port) with
      | Err _ =>
          push ProviderPortOrTypeMismatch
            ("semantic port " +++ debug_str port_name +++ " has an invalid type reference") (Some capability) c
      | Ok type_reference =>
          match SemanticRegistry.type_contract registry (sr_id type_reference) (sr_major type_reference) with
          | None =>
              push ProviderPortOrTypeMismatch
                ("semantic port " +++ debug_str port_name +++ " type is absent from the snapshot")
                (Some capability) c
          | Some type_contract =>
              push_if
                (has_duplicates representations
                 || existsb (λ representation,
                      negb (existsb (λ allowed, bool_decide (rep_id allowed = representation))
                        (tc_representations type_contract))) representations)
                ProviderPortOrTypeMismatch
                ("provider representations for port " +++ debug_str port_name +++
                 " are incompatible with " +++ port_type_ref port)
                (Some capability) c
          end
      end
  end.

(** The checks against the resolved contract, from the execution class on. *)
Definition check_against_contract (registry : SemanticRegistry) (provider : ProviderCapability)
    (kind : ProviderRuntimeKind) (contract : CapabilityContract) (capability : string)
    (c : ProviderCollector) : ProviderCollector :=
  let actions := authority_actions provider in
  let effects := pcap_effect_classes provider in
  let c := push_if (bool_decide (pex_execution_class (pcap_execution provider)
                      ∉ cc_allowed_execution_classes contract))
    ProviderExecutionClassIncompatible
    "provider execution class is outside the semantic contract envelope" (Some capability) c in
  let c := push_if (has_duplicates actions
                    || existsb (λ action, bool_decide (action ∉ cc_allowed_authority_classes contract)) actions)
    ProviderAuthorityNotAllowed
    "provider authority exceeds or ambiguously repeats the semantic contract envelope" (Some capability) c in
  let c := push_if (existsb (λ required, bool_decide (required ∉ actions)) (cc_required_authority_classes contract))
    ProviderRequiredAuthorityMissing
    "provider declaration omits authority required by the semantic contract" (Some capability) c in
  let c := push_if (existsb (λ action, match effect_for_authority_class action with
                                       | None => true
                                       | Some effect => bool_decide (effect ∉ effects)
                                       end) actions)
    ProviderRequiredEffectMissing
    "provider authority declaration is not reflected in its effect envelope" (Some capability) c in
  let c := push_if (has_duplicates effects
                    || existsb (λ effect, bool_decide (effect ∉ cc_allowed_effect_classes contract)) effects
                    || (bool_decide (Pure ∈ effects)
                        && existsb (λ effect, negb (bool_decide (effect = Pure))) effects))
    ProviderEffectNotAllowed
    "provider effects exceed or contradict the semantic contract envelope" (Some capability) c in
  let c := push_if (existsb (λ required, bool_decide (required ∉ effects)) (cc_required_effect_classes contract))
    ProviderRequiredEffectMissing
    "provider declaration omits an effect required by the semantic contract" (Some capability) c in
  let c := push_if (bool_decide (kind = RemoteRuntime)
                    && bool_decide (Local ∈ pex_locality (pcap_execution provider)))
    ProviderDeclarationInvalid
    "remote provider runtime contradicts a capability declaration containing local locality"
    (Some capability) c in
  let c := push_if (requires_network_envelope provider kind && bool_decide (Network ∉ effects))
    ProviderRequiredEffectMissing
    "provider network default or remote execution requires the NETWORK effect declaration"
    (Some capability) c in
  let c := push_if (remote_bindable_input provider kind contract && bool_decide (DataEgress ∉ effects))
    ProviderRequiredEffectMissing
    "remote execution with bindable inputs requires the DATA_EGRESS effect declaration"
    (Some capability) c in
  let c := push_if (missing_protected_effect_authority provider kind contract)
    ProviderRequiredAuthorityMissing
    "provider protected effects require their mapped authority actions" (Some capability) c in
  let c := push_if (bool_decide (provider_egress provider kind contract ∉ cc_allowed_egress_modes contract))
    ProviderEgressNotAllowed
    "provider data-egress declaration is not permitted by the semantic contract" (Some capability) c in
  let c := push_if (negb (bool_decide (pcf_suite (pcap_conformance provider) = conf_suite_id (cc_conformance contract)))
                    || negb (bool_decide (pcf_suite_hash (pcap_conformance provider)
                                          = conf_suite_hash (cc_conformance contract))))
    ProviderSuiteMismatch
    "provider conformance suite identity/hash does not match the semantic contract" (Some capability) c in
  foldl (λ c entry, check_representations registry contract capability entry c) c
    (btree_iter (pcap_representations provider)).

Definition validate_provider_capability (registry : SemanticRegistry) (provider : ProviderCapability)
    (kind : ProviderRuntimeKind) (options : ProviderConformanceOptions) (c : ProviderCollector) :
    ProviderCollector :=
  let capability := claim_capability (pcap_contract provider) in
  let claimed_version := claim_version (pcap_contract provider) in
  let c := push_if (malformed_declaration provider) ProviderDeclarationInvalid
    "provider capability declaration violates required nonempty or uniqueness constraints"
    (Some capability) c in
  let c := push_if (isolation_lt (pex_minimum_isolation (pcap_execution provider)) P2)
    ProviderIsolationIncompatible
    "provider minimum isolation is below the v0.1 P2 provider floor" (Some capability) c in
  match (match FullVersion.parse claimed_version with
         | Ok version => match validate_semantic_id capability with Ok _ => Some version | Err _ => None end
         | Err _ => None
         end) with
  | None =>
      push ProviderDeclarationInvalid
        "provider semantic contract claim has an invalid ID or full version" (Some capability) c
  | Some version =>
      match SemanticRegistry.capability_contract registry capability (fv_major version) with
      | None =>
          push ProviderContractNotFound
            ("semantic contract " +++ capability +++ "@" +++ pretty (fv_major version) +++
             " is absent from the selected snapshot") (Some capability) c
      | Some contract =>
          if negb (bool_decide (cc_version contract = claimed_version)) then
            push ProviderContractNotFound
              ("provider claims " +++ capability +++ " " +++ claimed_version +++
               ", but the snapshot selects " +++ cc_version contract) (Some capability) c
          else
            match SemanticRegistry.capability_contract_hash registry capability (fv_major version) with
            | None =>
                push ProviderContractNotFound
                  "resolved semantic contract has no immutable content identity" (Some capability) c
            | Some expected_hash =>
                let declared := claim_contract_hash (pcap_contract provider) in
                let c :=
                  if bool_decide (declared = Some expected_hash) then c
                  else if bool_decide (declared = None) && opt_allow_bootstrap_missing_contract_hash options
                  then mark_bootstrap_contract_hash_bypass c
                  else push ProviderContractHashMismatch
                         ("provider contract hash " +++ debug_option_str declared +++
                          " does not match " +++ expected_hash) (Some capability) c in
                check_against_contract registry provider kind contract capability c
            end
      end
  end.

(** One claim: the loop carries the claims seen so far. *)
Definition check_claim (registry : SemanticRegistry) (kind : ProviderRuntimeKind)
    (options : ProviderConformanceOptions) (st : gset (string * string) * ProviderCollector)
    (provider : ProviderCapability) : gset (string * string) * ProviderCollector :=
  let '(claims, c) := st in
  let claim_key := (claim_capability (pcap_contract provider), claim_version (pcap_contract provider)) in
  if bool_decide (claim_key ∈ claims) then
    (claims, push ProviderDeclarationInvalid "provider repeats the same semantic contract claim"
               (Some (claim_capability (pcap_contract provider))) c)
  else ({[ claim_key ]} ∪ claims, validate_provider_capability registry provider kind options c).

Definition malformed_manifest (manifest : CapabilityManifest) : bool :=
  negb (bool_decide (man_schema_version manifest = "0.1"))
  || negb (validate_provider_id (man_id manifest))
  || bool_decide (man_version manifest = "")
  || bool_decide (pp_id (man_publisher manifest) = "")
  || bool_decide (man_provides manifest = []).

Definition validate_provider_manifest (registry : SemanticRegistry) (manifest : CapabilityManifest)
    (options : ProviderConformanceOptions) : ProviderConformanceReport :=
  let c := new (man_id manifest) (opt_max_diagnostics options) in
  let c := push_if (negb (SemanticRegistry.is_strictly_verified registry)) ProviderDeclarationInvalid
    "provider conformance requires a strictly hash-verified registry" None c in
  let c := push_if (malformed_manifest manifest) ProviderDeclarationInvalid
    "provider manifest has an unsupported schema version, invalid identity, or no capability declarations"
    None c in
  finish (foldl (check_claim registry (prt_kind (man_runtime manifest)) options) (∅, c)
            (man_provides manifest)).2.

End debug.

(** ** Specification *)

(** The required nonempty and uniqueness constraints of a declaration. *)
Record declaration_wf (provider : ProviderCapability) : Prop := {
  dw_effects : pcap_effect_classes provider ≠ [];
  dw_locality : pex_locality (pcap_execution provider) ≠ [] ∧ NoDup (pex_locality (pcap_execution provider));
  dw_suite : pcf_suite (pcap_conformance provider) ≠ "";
  dw_requirements : ∀ r, pcap_resource_requirements provider = Some r →
    prr_min_memory_bytes r ≠ Some 0%N ∧ NoDup (prr_preferred_accelerators r);
  dw_authority : ∀ a, pcap_authority provider = Some a → NoDup (pau_actions a) ∧ NoDup (pau_resource_classes a);
}.

(** The representations declared for a port are representations of its type. *)
Definition representations_ok (registry : SemanticRegistry) (contract : CapabilityContract)
    (port_name : string) (representations : list string) : Prop :=
  ∃ port type_reference type_contract,
    (cc_inputs contract !! port_name = Some port ∨
     (cc_inputs contract !! port_name = None ∧ cc_outputs contract !! port_name = Some port)) ∧
    SemanticRef.parse (port_type_ref port) = Ok type_reference ∧
    SemanticRegistry.type_contract registry (sr_id type_reference) (sr_major type_reference) = Some type_contract ∧
    NoDup representations ∧
    ∀ r, r ∈ representations → ∃ allowed, allowed ∈ tc_representations type_contract ∧ rep_id allowed = r.

(** The declaration stays inside the contract and is consistent with itself. *)
Record within_contract (registry : SemanticRegistry) (provider : ProviderCapability)
    (kind : ProviderRuntimeKind) (contract : CapabilityContract) : Prop := {
  wc_execution : pex_execution_class (pcap_execution provider) ∈ cc_allowed_execution_classes contract;
  wc_actions : NoDup (authority_actions provider) ∧
    ∀ a, a ∈ authority_actions provider → a ∈ cc_allowed_authority_classes contract;
  wc_required_actions : ∀ a, a ∈ cc_required_authority_classes contract → a ∈ authority_actions provider;
  wc_action_effects : ∀ a, a ∈ authority_actions provider →
    ∃ e, effect_for_authority_class a = Some e ∧ e ∈ pcap_effect_classes provider;
  wc_effects : NoDup (pcap_effect_classes provider) ∧
    (∀ e, e ∈ pcap_effect_classes provider → e ∈ cc_allowed_effect_classes contract) ∧
    (Pure ∈ pcap_effect_classes provider → ∀ e, e ∈ pcap_effect_classes provider → e = Pure);
  wc_required_effects : ∀ e, e ∈ cc_required_effect_classes contract → e ∈ pcap_effect_classes provider;
  wc_remote_runtime : kind = RemoteRuntime → Local ∉ pex_locality (pcap_execution provider);
  wc_network : requires_network_envelope provider kind = true → Network ∈ pcap_effect_classes provider;
  wc_remote_inputs : remote_bindable_input provider kind contract = true →
    DataEgress ∈ pcap_effect_classes provider;
  wc_protected : ∀ e, e ∈ protected_effects provider kind contract →
    ∃ a, a ∈ authority_actions provider ∧ effect_for_authority_class a = Some e;
  wc_egress : provider_egress provider kind contract ∈ cc_allowed_egress_modes contract;
  wc_suite : pcf_suite (pcap_conformance provider) = conf_suite_id (cc_conformance contract) ∧
    pcf_suite_hash (pcap_conformance provider) = conf_suite_hash (cc_conformance contract);
  wc_representations : ∀ port rs, pcap_representations provider !! port = Some rs →
    representations_ok registry contract port rs;
}.

(** The contract that a claim selects: same identifier, same full version, and the
    declared content hash (which the bootstrap option lets be absent). *)
Definition claims_contract (registry : SemanticRegistry) (provider : ProviderCapability)
    (options : ProviderConformanceOptions) (contract : CapabilityContract) : Prop :=
  ∃ version hash,
    FullVersion.parse (claim_version (pcap_contract provider)) = Ok version ∧
    validate_semantic_id (claim_capability (pcap_contract provider)) = Ok () ∧
    SemanticRegistry.capability_contract registry (claim_capability (pcap_contract provider))
      (fv_major version) = Some contract ∧
    cc_version contract = claim_version (pcap_contract provider) ∧
    SemanticRegistry.capability_contract_hash registry (claim_capability (pcap_contract provider))
      (fv_major version) = Some hash ∧
    (claim_contract_hash (pcap_contract provider) = Some hash ∨
     claim_contract_hash (pcap_contract provider) = None ∧
     opt_allow_bootstrap_missing_contract_hash options = true).

Record capability_conforms (registry : SemanticRegistry) (provider : ProviderCapability)
    (kind : ProviderRuntimeKind) (options : ProviderConformanceOptions) : Prop := {
  cf_declaration : declaration_wf provider;
  cf_isolation : 2 ≤ IsolationProfile_rank (pex_minimum_isolation (pcap_execution provider));
  cf_contract : ∃ contract, claims_contract registry provider options contract ∧
    within_contract registry provider kind contract;
}.

Record manifest_wf (manifest : CapabilityManifest) : Prop := {
  mw_schema : man_schema_version manifest = "0.1";
  mw_id : validate_provider_id (man_id manifest) = true;
  mw_version : man_version manifest ≠ "";
  mw_publisher : pp_id (man_publisher manifest) ≠ "";
  mw_provides : man_provides manifest ≠ [];
}.

Definition claim_keys (manifest : CapabilityManifest) : list (string * string) :=
  (λ p, (claim_capability (pcap_contract p), claim_version (pcap_contract p))) <$> man_provides manifest.

Record manifest_conforms (registry : SemanticRegistry) (manifest : CapabilityManifest)
    (options : ProviderConformanceOptions) : Prop := {
  mc_strict : SemanticRegistry.is_strictly_verified registry = true;
  mc_wf : manifest_wf manifest;
  mc_claims : NoDup (claim_keys manifest);
  mc_capabilities : ∀ p, p ∈ man_provides manifest →
    capability_conforms registry p (prt_kind (man_runtime manifest)) options;
}.

(** ** Lemmas *)

Lemma invalid_push code msg cap c : pc_invalid (push code msg cap c) = true.
Proof. unfold push. by case_match. Qed.

Lemma invalid_push_if b code msg cap c : pc_invalid (push_if b code msg cap c) = pc_invalid c || b.
Proof. unfold push_if. destruct b; [by rewrite invalid_push, orb_true_r|by rewrite orb_false_r]. Qed.

Lemma has_duplicates_false {A} `{EqDecision A} (l : list A) : has_duplicates l = false ↔ NoDup l.
Proof.
  unfold has_duplicates. rewrite negb_false_iff, Nat.eqb_eq. induction l as [|x l IH]; simpl.
  - split; [constructor|done].
  - assert (length (remove_dups l) ≤ length l) as Hle.
    { clear. induction l as [|y l IH]; simpl; [lia|]. case_decide; simpl; lia. }
    rewrite NoDup_cons, <-IH. case_decide; simpl; [split; [lia|tauto]|]. split; [split; [done|lia]|lia].
Qed.

Lemma not_elem_bool_decide {A} `{EqDecision A} (x : A) (l : list A) :
  bool_decide (x ∉ l) = false ↔ x ∈ l.
Proof. rewrite bool_decide_eq_false. split; [apply dec_stable|auto]. Qed.

Lemma malformed_declaration_false provider :
  malformed_declaration provider = false ↔ declaration_wf provider.
Proof.
  unfold malformed_declaration. rewrite !orb_false_iff, !bool_decide_eq_false, !has_duplicates_false.
  assert ((match pcap_resource_requirements provider with
    | Some r => bool_decide (prr_min_memory_bytes r = Some 0%N) || has_duplicates (prr_preferred_accelerators r)
    | None => false end) = false ↔ ∀ r, pcap_resource_requirements provider = Some r →
      prr_min_memory_bytes r ≠ Some 0%N ∧ NoDup (prr_preferred_accelerators r)) as ->.
  { destruct (pcap_resource_requirements provider) as [r|]; [|naive_solver].
    rewrite orb_false_iff, bool_decide_eq_false, has_duplicates_false. naive_solver. }
  assert ((match pcap_authority provider with
    | Some a => has_duplicates (pau_actions a) || has_duplicates (pau_resource_classes a)
    | None => false end) = false ↔ ∀ a, pcap_authority provider = Some a →
      NoDup (pau_actions a) ∧ NoDup (pau_resource_classes a)) as ->.
  { destruct (pcap_authority provider) as [a|]; [|naive_solver].
    rewrite orb_false_iff, !has_duplicates_false. naive_solver. }
  split; [|intros []; tauto]. intros (((((? & ?) & ?) & ?) & ?) & ?). by split.
Qed.

(** ** What the collector can hold *)

(** The collectors that the module's operations can reach. *)
Inductive evolves : ProviderCollector → ProviderCollector → Prop :=
  | evolves_refl c : evolves c c
  | evolves_push c d code msg cap : evolves c d → evolves c (push code msg cap d)
  | evolves_mark c d : evolves c d → evolves c (mark_bootstrap_contract_hash_bypass d).

#[local] Hint Constructors evolves : aios.

Lemma evolves_push_if c d b code msg cap : evolves c d → evolves c (push_if b code msg cap d).
Proof. unfold push_if. destruct b; auto with aios. Qed.

#[local] Hint Resolve evolves_push_if : aios.

Lemma evolves_foldl {A} (f : ProviderCollector → A → ProviderCollector) c d l :
  (∀ c d x, evolves c d → evolves c (f d x)) → evolves c d → evolves c (foldl f d l).
Proof. intros Hf. revert d. induction l as [|x l IH]; intros d Hd; simpl; auto. Qed.

(** The list is bounded, and the flags tell exactly what it cannot. *)
Record collector_wf (c : ProviderCollector) : Prop := {
  cw_bound : length (pc_diagnostics c) ≤ pc_maximum c;
  cw_invalid : pc_invalid c = true ↔ pc_diagnostics c ≠ [] ∨ pc_truncated c = true;
}.

Lemma collector_wf_evolves c d : evolves c d → collector_wf c → collector_wf d.
Proof.
  induction 1 as [c|c d code msg cap _ IH|c d _ IH]; intros Hc; [done| |].
  - destruct (IH Hc) as [Hb Hi]. unfold push.
    destruct (Nat.leb_spec (pc_maximum d) (length (pc_diagnostics d))); split; simpl; try tauto; try lia.
    + rewrite length_app. simpl. lia.
    + split; [|done]. intros _. left. by destruct (pc_diagnostics d).
  - destruct (IH Hc). by split.
Qed.

Section correctness.
Context (debug_str : string → string).

Lemma evolves_validate_capability registry provider kind options c d :
  evolves c d → evolves c (validate_provider_capability debug_str registry provider kind options d).
Proof.
  intros Hd. unfold validate_provider_capability, check_against_contract.
  repeat case_match; auto 20 with aios.
  all: apply evolves_foldl; [|auto 20 with aios].
  all: intros ? ? [? ?] ?; unfold check_representations; repeat case_match; auto with aios.
Qed.

Lemma evolves_check_claims registry kind options providers claims c d :
  evolves c d → evolves c (foldl (check_claim debug_str registry kind options) (claims, d) providers).2.
Proof.
  revert claims d. induction providers as [|p providers IH]; intros claims d Hd; cbn [foldl]; [done|].
  unfold check_claim at 2. case_bool_decide; apply IH; auto with aios.
  by apply evolves_validate_capability.
Qed.

Lemma invalid_check_representations registry contract capability port rs c :
  pc_invalid (check_representations debug_str registry contract capability (port, rs) c) = false ↔
  pc_invalid c = false ∧ representations_ok registry contract port rs.
Proof.
  unfold check_representations, representations_ok.
  set (found := match cc_inputs contract !! port with Some p => Some p | None => _ end).
  assert (∀ p, (cc_inputs contract !! port = Some p ∨
    (cc_inputs contract !! port = None ∧ cc_outputs contract !! port = Some p)) ↔ found = Some p) as Hfound.
  { unfold found. intros p. destruct (cc_inputs contract !! port); naive_solver. }
  setoid_rewrite Hfound. destruct found as [p|]; [|rewrite invalid_push; naive_solver].
  destruct (SemanticRef.parse (port_type_ref p)) as [tr|] eqn:Htr.
  2: { rewrite invalid_push. split; [done|]. intros (_ & p' & ? & ? & [= <-] & ? & _). congruence. }
  destruct (SemanticRegistry.type_contract registry (sr_id tr) (sr_major tr)) as [tc|] eqn:Htc.
  2: { rewrite invalid_push. split; [done|]. intros (_ & p' & ? & ? & [= <-] & ? & ? & _). congruence. }
  rewrite invalid_push_if, !orb_false_iff, has_duplicates_false, existsb_false.
  setoid_rewrite negb_false_iff. setoid_rewrite existsb_exists.
  setoid_rewrite <-list_elem_of_In. setoid_rewrite bool_decide_eq_true.
  split.
  - intros (Hc & Hnd & Hr). split; [done|]. by exists p, tr, tc.
  - intros (Hc & p' & tr' & tc' & Hp & Htr' & Htc' & Hnd & Hr). injection Hp as <-.
    rewrite Htr in Htr'. injection Htr' as <-. rewrite Htc in Htc'. injection Htc' as <-. done.
Qed.

Lemma invalid_representations_loop registry contract capability entries c :
  pc_invalid (foldl (λ c entry, check_representations debug_str registry contract capability entry c) c entries)
    = false ↔
  pc_invalid c = false ∧ ∀ port rs, (port, rs) ∈ entries → representations_ok registry contract port rs.
Proof.
  revert c. induction entries as [|[port rs] entries IH]; intros c; cbn [foldl]; [set_solver|].
  rewrite IH, invalid_check_representations. setoid_rewrite elem_of_cons. naive_solver.
Qed.

(** The tests of [check_against_contract], one per condition of the specification. *)
Lemma action_effect_tests effects actions :
  existsb (λ action, match effect_for_authority_class action with
                     | None => true
                     | Some effect => bool_decide (effect ∉ (effects : list EffectClass))
                     end) actions = false ↔
  ∀ a, a ∈ actions → ∃ e, effect_for_authority_class a = Some e ∧ e ∈ effects.
Proof.
  rewrite existsb_false. split; intros Hall a Ha; specialize (Hall a Ha).
  - destruct (effect_for_authority_class a) as [e|]; [|done]. apply not_elem_bool_decide in Hall. eauto.
  - destruct Hall as (e & -> & He). by apply not_elem_bool_decide.
Qed.

Lemma pure_exclusive_test (effects : list EffectClass) :
  bool_decide (Pure ∈ effects) && existsb (λ effect, negb (bool_decide (effect = Pure))) effects = false ↔
  (Pure ∈ effects → ∀ e, e ∈ effects → e = Pure).
Proof.
  case_bool_decide as Hp; simpl; [|tauto]. rewrite existsb_false.
  setoid_rewrite negb_false_iff. setoid_rewrite bool_decide_eq_true. tauto.
Qed.

Lemma missing_protected_test provider kind contract :
  missing_protected_effect_authority provider kind contract = false ↔
  ∀ e, e ∈ protected_effects provider kind contract →
    ∃ a, a ∈ authority_actions provider ∧ effect_for_authority_class a = Some e.
Proof.
  unfold missing_protected_effect_authority. rewrite existsb_false.
  setoid_rewrite negb_false_iff. setoid_rewrite existsb_exists.
  setoid_rewrite <-list_elem_of_In. by setoid_rewrite bool_decide_eq_true.
Qed.

Lemma implication_test (b : bool) (e : EffectClass) (effects : list EffectClass) :
  b && bool_decide (e ∉ effects) = false ↔ (b = true → e ∈ effects).
Proof.
  destruct b; simpl; [|naive_solver]. rewrite not_elem_bool_decide. tauto.
Qed.

Lemma invalid_check_against_contract registry provider kind contract capability c :
  pc_invalid (check_against_contract debug_str registry provider kind contract capability c) = false ↔
  pc_invalid c = false ∧ within_contract registry provider kind contract.
Proof.
  unfold check_against_contract. rewrite invalid_representations_loop, !invalid_push_if, !orb_false_iff.
  setoid_rewrite elem_of_btree_iter.
  rewrite !not_elem_bool_decide, !has_duplicates_false, action_effect_tests, pure_exclusive_test,
    missing_protected_test, !implication_test, !existsb_false.
  setoid_rewrite not_elem_bool_decide. rewrite !negb_false_iff, !bool_decide_eq_true.
  assert (bool_decide (kind = RemoteRuntime) && bool_decide (Local ∈ pex_locality (pcap_execution provider)) = false ↔
    (kind = RemoteRuntime → Local ∉ pex_locality (pcap_execution provider))) as ->.
  { rewrite andb_false_iff, !bool_decide_eq_false. destruct (decide (kind = RemoteRuntime)); tauto. }
  split; [|intros [Hc []]; tauto].
  intros (((((((((((((Hc & ?) & ?) & ?) & ?) & ?) & ?) & ?) & ?) & ?) & ?) & ?) & ?) & ?).
  split; [done|]. split; tauto.
Qed.

(** The hash step reports a mismatch unless the hash is declared or excused. *)
Lemma invalid_hash_step (declared : option string) hash options code msg cap c :
  pc_invalid (if bool_decide (declared = Some hash) then c
    else if bool_decide (declared = None) && opt_allow_bootstrap_missing_contract_hash options
    then mark_bootstrap_contract_hash_bypass c else push code msg cap c) = false ↔
  pc_invalid c = false ∧
  (declared = Some hash ∨ declared = None ∧ opt_allow_bootstrap_missing_contract_hash options = true).
Proof.
  clear debug_str. case_bool_decide as Hh; [naive_solver|].
  destruct (bool_decide (declared = None) && _) eqn:Hb.
  - apply andb_true_iff in Hb as [Hd%bool_decide_eq_true_1 Ho]. simpl. naive_solver.
  - rewrite invalid_push. split; [done|]. intros [_ [?|[-> Ho]]]; [done|].
    rewrite bool_decide_eq_true_2, Ho in Hb by done. done.
Qed.

Lemma invalid_validate_capability registry provider kind options c :
  pc_invalid (validate_provider_capability debug_str registry provider kind options c) = false ↔
  pc_invalid c = false ∧ capability_conforms registry provider kind options.
Proof.
  unfold validate_provider_capability. set (c1 := push_if (isolation_lt _ _) _ _ _ _).
  assert (pc_invalid c1 = false ↔ pc_invalid c = false ∧ declaration_wf provider ∧
    2 ≤ IsolationProfile_rank (pex_minimum_isolation (pcap_execution provider))) as Hc1.
  { unfold c1. rewrite !invalid_push_if, !orb_false_iff, malformed_declaration_false.
    unfold isolation_lt. rewrite Nat.ltb_ge. simpl. tauto. }
  assert (capability_conforms registry provider kind options ↔
    declaration_wf provider ∧ 2 ≤ IsolationProfile_rank (pex_minimum_isolation (pcap_execution provider)) ∧
    ∃ contract, claims_contract registry provider options contract ∧
      within_contract registry provider kind contract) as ->.
  { split; [intros []; tauto|]. intros (? & ? & ?). by split. }
  assert (pc_invalid c1 = false ∧ (∃ contract, claims_contract registry provider options contract ∧
      within_contract registry provider kind contract) ↔
    pc_invalid c = false ∧ declaration_wf provider ∧
    2 ≤ IsolationProfile_rank (pex_minimum_isolation (pcap_execution provider)) ∧
    ∃ contract, claims_contract registry provider options contract ∧
      within_contract registry provider kind contract) as <- by (rewrite Hc1; tauto).
  unfold claims_contract. clearbody c1. clear Hc1.
  destruct (FullVersion.parse _) as [version|] eqn:Hv; [|rewrite invalid_push; naive_solver].
  destruct (validate_semantic_id _) as [[]|] eqn:Hid; [|rewrite invalid_push; naive_solver].
  destruct (SemanticRegistry.capability_contract _ _ _) as [contract|] eqn:Hct.
  2: { rewrite invalid_push. split; [done|]. intros (_ & ct & (v & h & [= <-] & _ & Hc & _) & _). congruence. }
  destruct (negb _) eqn:Hver.
  { rewrite invalid_push. split; [done|]. intros (_ & ct & (v & h & [= <-] & _ & Hc & Hve & _) & _).
    rewrite Hct in Hc. injection Hc as <-. apply negb_true_iff, bool_decide_eq_false_1 in Hver. done. }
  apply negb_false_iff, bool_decide_eq_true_1 in Hver.
  destruct (SemanticRegistry.capability_contract_hash _ _ _) as [hash|] eqn:Hh.
  2: { rewrite invalid_push. split; [done|].
       intros (_ & ct & (v & h & [= <-] & _ & _ & _ & Hh' & _) & _). congruence. }
  rewrite invalid_check_against_contract, invalid_hash_step. split.
  - intros [[Hc Hd] Hw]. split; [done|]. exists contract. split; [|done]. by exists version, hash.
  - intros (Hc & ct & (v & h & [= <-] & _ & Hct' & _ & Hh' & Hd) & Hw).
    rewrite Hct in Hct'. injection Hct' as <-. rewrite Hh in Hh'. injection Hh' as <-. tauto.
Qed.

Lemma invalid_claims registry kind options providers claims c :
  pc_invalid (foldl (check_claim debug_str registry kind options) (claims, c) providers).2 = false ↔
  pc_invalid c = false ∧
  NoDup ((λ p, (claim_capability (pcap_contract p), claim_version (pcap_contract p))) <$> providers) ∧
  (∀ p, p ∈ providers →
     (claim_capability (pcap_contract p), claim_version (pcap_contract p)) ∉ claims) ∧
  (∀ p, p ∈ providers → capability_conforms registry p kind options).
Proof.
  revert claims c. induction providers as [|p providers IH]; intros claims c.
  - simpl. rewrite !forall_elem_of_nil. split; [intros; split_and!; try done; constructor|naive_solver].
  - rewrite fmap_cons, NoDup_cons, !forall_elem_of_cons. cbn [foldl]. unfold check_claim at 2.
    case_bool_decide as Hin.
    + rewrite IH, invalid_push. naive_solver.
    + rewrite IH, invalid_validate_capability, list_elem_of_fmap.
      setoid_rewrite elem_of_union. setoid_rewrite elem_of_singleton. split.
      * intros ([Hc Hp] & Hnd & Hsep & Hall). split_and!; try done.
        -- intros (p' & Heq & Hp'). apply (Hsep p' Hp'). by left.
        -- intros p' Hp' Hx. apply (Hsep p' Hp'). by right.
      * intros (Hc & [Hnin Hnd] & [_ Hsep] & Hp & Hall). split_and!; try done.
        intros p' Hp' [Heq|Hx]; [|by apply (Hsep p' Hp')]. apply Hnin. by exists p'.
Qed.

Lemma malformed_manifest_false manifest : malformed_manifest manifest = false ↔ manifest_wf manifest.
Proof.
  unfold malformed_manifest. rewrite !orb_false_iff, !negb_false_iff, !bool_decide_eq_false, bool_decide_eq_true.
  split; [intros ((((? & ?) & ?) & ?) & ?); by split|intros []; tauto].
Qed.

Lemma validate_provider_manifest_spec registry manifest options :
  pr_valid (validate_provider_manifest debug_str registry manifest options) = true ↔
  manifest_conforms registry manifest options.
Proof.
  unfold validate_provider_manifest. simpl. rewrite negb_true_iff, invalid_claims, !invalid_push_if, !orb_false_iff,
    negb_false_iff, malformed_manifest_false. simpl. split.
  - intros (([_ Hs] & Hm) & Hnd & _ & Hall). by split.
  - intros []. by split_and!.
Qed.

(** ** The theorems *)

(** C11: The static provider check accepts exactly the conforming manifests: the
    registry is strictly verified, the manifest and its declarations are well
    formed, no contract is claimed twice, isolation is at least P2, and every
    claimed capability names an existing contract by identifier, full version and
    content hash and stays inside it. *)
Theorem provider_manifest_exact registry manifest options :
  pr_valid (validate_provider_manifest debug_str registry manifest options) = true ↔
  manifest_conforms registry manifest options.
Proof. apply validate_provider_manifest_spec. Qed.

(** The diagnostics of a provider report never exceed the configured maximum,
    and the report is valid exactly when nothing was reported: no diagnostic is
    listed and none was dropped, whatever the maximum. *)
Theorem provider_report_consistent registry manifest options :
  let report := validate_provider_manifest debug_str registry manifest options in
  length (pr_diagnostics report) ≤ opt_max_diagnostics options ∧
  (pr_valid report = true ↔ pr_diagnostics report = [] ∧ pr_diagnostics_truncated report = false).
Proof.
  unfold validate_provider_manifest. simpl.
  set (c0 := new (man_id manifest) (opt_max_diagnostics options)).
  match goal with |- context [foldl ?f (∅, ?d) ?l] => set (st := foldl f (∅, d) l) end.
  assert (evolves c0 st.2) as Hev by (apply evolves_check_claims; auto with aios).
  assert (pc_maximum st.2 = opt_max_diagnostics options) as Hmax.
  { clearbody st. change (opt_max_diagnostics options) with (pc_maximum c0). clearbody c0.
    revert Hev. generalize st.2 as d. induction 1 as [|c d ? ? ? ? IH|]; [done| |done].
    unfold push. by case_match. }
  assert (collector_wf st.2) as [Hb Hi].
  { apply (collector_wf_evolves c0); [done|]. split; simpl; [lia|]. naive_solver. }
  rewrite <-Hmax. split; [done|]. rewrite negb_true_iff, <-not_true_iff_false, Hi.
  destruct (pc_diagnostics st.2), (pc_truncated st.2); naive_solver.
Qed.

(** C12: The effects and the authority that an accepted provider declares correspond
    exactly: every authority action it declares is a known one whose effect it
    declares too, and every effect it declares, apart from [PURE] and
    [LEGACY_OPAQUE], is that of an authority action it declares. *)
Theorem provider_effects_match_authority registry manifest options p :
  pr_valid (validate_provider_manifest debug_str registry manifest options) = true →
  p ∈ man_provides manifest →
  (∀ action, action ∈ authority_actions p →
     ∃ e, effect_for_authority_class action = Some e ∧ e ∈ pcap_effect_classes p) ∧
  (∀ e, e ∈ pcap_effect_classes p → e ≠ Pure → e ≠ LegacyOpaque →
     ∃ action, action ∈ authority_actions p ∧ effect_for_authority_class action = Some e).
Proof.
  rewrite validate_provider_manifest_spec. intros Hm Hp.
  destruct (mc_capabilities _ _ _ Hm p Hp) as [_ _ (contract & _ & Hw)]. split.
  - exact (wc_action_effects _ _ _ _ Hw).
  - intros e He Hpure Hlegacy. apply (wc_protected _ _ _ _ Hw). unfold protected_effects.
    apply list_elem_of_filter. split; [done|]. apply elem_of_app. by left.
Qed.

(** C13: An accepted provider that executes remotely cannot move inputs silently: if
    its runtime is remote or a locality is not local, it declares the [NETWORK]
    effect with [network.connect] authority, and if its contract has inputs it also
    declares [DATA_EGRESS] with [data.egress] authority and the contract allows
    policy egress. *)
Theorem provider_remote_declared registry manifest options p :
  pr_valid (validate_provider_manifest debug_str registry manifest options) = true →
  p ∈ man_provides manifest → remote_execution p (prt_kind (man_runtime manifest)) = true →
  Network ∈ pcap_effect_classes p ∧ "network.connect" ∈ authority_actions p ∧
  ∃ contract, claims_contract registry p options contract ∧
    (cc_inputs contract ≠ ∅ →
     DataEgress ∈ pcap_effect_classes p ∧ "data.egress" ∈ authority_actions p ∧
     Policy ∈ cc_allowed_egress_modes contract).
Proof.
  rewrite validate_provider_manifest_spec. intros Hm Hp Hremote.
  destruct (mc_capabilities _ _ _ Hm p Hp) as [_ _ (contract & Hclaim & Hw)].
  assert (requires_network_envelope p (prt_kind (man_runtime manifest)) = true) as Hnet
    by (unfold requires_network_envelope; by rewrite Hremote, orb_true_r).
  assert (∀ e a, e ∈ protected_effects p (prt_kind (man_runtime manifest)) contract →
    effect_for_authority_class a = Some e → a ∈ authority_actions p) as Hauth.
  { intros e a He Ha. destruct (wc_protected _ _ _ _ Hw e He) as (a' & Hin & Ha').
    by rewrite (effect_for_authority_class_inj a a' e Ha Ha'). }
  split_and!; [by apply (wc_network _ _ _ _ Hw)| |].
  - apply (Hauth Network); [|done]. unfold protected_effects. apply list_elem_of_filter. split; [done|].
    rewrite Hnet, !elem_of_app, list_elem_of_singleton. auto.
  - exists contract. split; [done|]. intros Hin.
    assert (remote_bindable_input p (prt_kind (man_runtime manifest)) contract = true) as Hrb.
    { unfold remote_bindable_input. rewrite Hremote, bool_decide_eq_false_2; done. }
    split_and!; [by apply (wc_remote_inputs _ _ _ _ Hw)| |].
    + apply (Hauth DataEgress); [|done]. unfold protected_effects. apply list_elem_of_filter. split; [done|].
      rewrite Hrb, !elem_of_app, list_elem_of_singleton. auto.
    + pose proof (wc_egress _ _ _ _ Hw) as Heg. unfold provider_egress in Heg. by rewrite Hrb in Heg.
Qed.

End correctness.

(** ** Witnesses *)

(** The capability that the conforming fixture provides. *)
Definition artifact_hash_capability : ProviderCapability := {|
  pcap_contract := {| claim_capability := "artifact.hash"; claim_version := "1.0";
    claim_contract_hash := Some "sha256:03b838e40f74382cf86f49e2b5c50e2ac0101d6b169ac68052a25a2fab32b174";
    claim_contract_source := Some "capability-contracts.json" |};
  pcap_conformance := {| pcf_suite := "conformance://artifact.hash/1"; pcf_suite_hash := None;
    pcf_status := Declared; pcf_tested_at := None; pcf_test_environment := None |};
  pcap_effect_classes := [ArtifactRead];
  pcap_execution := {| pex_locality := [Local]; pex_execution_class := Deterministic;
    pex_minimum_isolation := P2; pex_network_default := Some NoNetwork |};
  pcap_authority := Some {| pau_actions := ["artifact.read"]; pau_resource_classes := ["artifact"] |};
  pcap_representations := ∅;
  pcap_resource_requirements := Some {| prr_min_memory_bytes := Some 16777216%N;
    prr_preferred_accelerators := []; prr_requires_gpu := false |} |}.

(** [provider-conformance-cases.json], conforming-local-artifact-hasher *)
Definition local_artifact_hasher : CapabilityManifest := {|
  man_schema_version := "0.1";
  man_id := "org.ainative.fixture.artifact-hash";
  man_version := "0.1.0";
  man_publisher := {| pp_id := "org.ainative.fixture"; pp_name := Some "Fixture Publisher";
                      pp_source_url := None; pp_signature := None |};
  man_runtime := {| prt_kind := Process; prt_entrypoint := Some "fixture-artifact-hash";
                    prt_interface := None; prt_image := None; prt_digest := None |};
  man_provides := [artifact_hash_capability];
  man_trust := Some {| ptr_source_hash := None; ptr_build_provenance := None;
                       ptr_review_status := Some Unreviewed |};
|}.

(** A remote implementation of a contract with inputs. *)
Definition remote_summarize_capability : ProviderCapability := {|
  pcap_contract := {| claim_capability := "report.summarize"; claim_version := "1.0";
    claim_contract_hash :=
      SemanticRegistry.capability_contract_hash fixture_registry "report.summarize" 1;
    claim_contract_source := None |};
  pcap_conformance := {| pcf_suite := "conformance://report.summarize/1"; pcf_suite_hash := None;
    pcf_status := Declared; pcf_tested_at := None; pcf_test_environment := None |};
  pcap_effect_classes := [Network; DataEgress];
  pcap_execution := {| pex_locality := [Remote]; pex_execution_class := Probabilistic;
    pex_minimum_isolation := P2; pex_network_default := Some Allowlist |};
  pcap_authority := Some {| pau_actions := ["network.connect"; "data.egress"]; pau_resource_classes := [] |};
  pcap_representations := ∅;
  pcap_resource_requirements := None |}.

(** A remote implementation of [report.summarize@1]. *)
Definition remote_summarizer : CapabilityManifest := {|
  man_schema_version := "0.1";
  man_id := "org.ainative.fixture.remote-summarizer";
  man_version := "0.1.0";
  man_publisher := {| pp_id := "org.ainative.fixture"; pp_name := None;
                      pp_source_url := None; pp_signature := None |};
  man_runtime := {| prt_kind := RemoteRuntime; prt_entrypoint := None;
                    prt_interface := Some "fixture.summarize"; prt_image := None; prt_digest := None |};
  man_provides := [remote_summarize_capability];
  man_trust := None;
|}.

Lemma provider_effects_match_authority_witness :
  (∃ e, effect_for_authority_class "artifact.read" = Some e ∧ e ∈ pcap_effect_classes artifact_hash_capability) ∧
  ∃ action, action ∈ authority_actions artifact_hash_capability ∧ effect_for_authority_class action = Some ArtifactRead.
Proof.
  destruct (provider_effects_match_authority id fixture_registry local_artifact_hasher default_options
    artifact_hash_capability) as [Hactions Heffects].
  - vm_compute. reflexivity.
  - by left.
  - split; [apply Hactions; by left|apply Heffects; [by left|discriminate..]].
Defined.

Lemma provider_remote_declared_witness :
  "network.connect" ∈ authority_actions remote_summarize_capability ∧
  ∃ contract, claims_contract fixture_registry remote_summarize_capability default_options contract.
Proof.
  destruct (provider_remote_declared id fixture_registry remote_summarizer default_options
    remote_summarize_capability) as (_ & Ha & contract & Hc & _).
  - vm_compute. reflexivity.
  - by left.
  - reflexivity.
  - split; [exact Ha|]. exists contract. exact Hc.
Defined.
