(* ===== verification/Numbers.v ===== *)
(** * Lexical number handling

    [crates/aios-registry/src/numbers.rs]: number tokens are rewritten before any
    binary64 conversion.  Bytes are the characters of a [string]; an index into a
    token is the remaining suffix.  [i64] and [u64] arithmetic keeps its width:
    saturating and checked operations are written out.  The one use of
    [f64::from_str] (is the token a positive finite binary64 value?) is decided
    exactly on the decimal value, by the rounding bounds of IEEE 754. *)

From Stdlib Require Import ZArith.
From S2P Require Import Prelude.

Definition i64_max : Z := 9223372036854775807.
Definition i64_min : Z := -9223372036854775808.

(** Saturating [i64] results. *)
Definition saturate_i64 (z : Z) : Z := Z.max i64_min (Z.min i64_max z).

Inductive NumberProfile := IrIntegers | RegistryTolerance.

(** The longest prefix of characters that satisfy [p], and the rest. *)
Fixpoint span (p : ascii → bool) (s : string) : string * string :=
  match s with
  | EmptyString => ("", "")
  | String c s' =>
      if p c then let '(l, r) := span p s' in (String c l, r) else ("", s)
  end.

(** ** Lexing: the grammar that [DecimalToken::parse] walks *)

Record Lexeme := {
  lx_negative : bool;
  lx_integer : string;
  lx_fraction : string;
  lx_exponent_negative : bool;
  lx_exponent : string;
}.

Definition nonzero_digit (c : ascii) : bool :=
  is_digit c && negb (bool_decide (c = "0"%char)).

Definition lex_integer (s : string) : option (string * string) :=
  match s with
  | EmptyString => None
  | String c rest =>
      if bool_decide (c = "0"%char) then Some ("0", rest)
      else if nonzero_digit c then Some (span is_digit s)
      else None
  end.

Definition lex_fraction (s : string) : option (string * string) :=
  match s with
  | EmptyString => Some ("", s)
  | String c rest =>
      if bool_decide (c = "."%char) then
        let '(digits, rest) := span is_digit rest in
        if bool_decide (digits = "") then None else Some (digits, rest)
      else Some ("", s)
  end.

Definition lex_exponent (s : string) : option (bool * string * string) :=
  match s with
  | EmptyString => Some (false, "", s)
  | String c rest =>
      if bool_decide (c = "e"%char) || bool_decide (c = "E"%char) then
        let negative := starts_with "-" rest in
        let rest := match rest with
                    | String d rest' =>
                        if bool_decide (d = "+"%char) || bool_decide (d = "-"%char) then rest' else rest
                    | EmptyString => rest
                    end in
        let '(digits, rest) := span is_digit rest in
        if bool_decide (digits = "") then None else Some (negative, digits, rest)
      else Some (false, "", s)
  end.

Definition lex (token : string) : option Lexeme :=
  let negative := starts_with "-" token in
  let body := if negative then match token with String _ rest => rest | EmptyString => token end else token in
  '(integer, rest) ← lex_integer body;
  '(fraction, rest) ← lex_fraction rest;
  '(exponent_negative, exponent, rest) ← lex_exponent rest;
  if bool_decide (rest = "") then
    Some {| lx_negative := negative; lx_integer := integer; lx_fraction := fraction;
            lx_exponent_negative := exponent_negative; lx_exponent := exponent |}
  else None.

(** ** Decimal tokens *)

Record DecimalToken := {
  dt_negative : bool;
  dt_digits : string;
  dt_fraction : Z;
  dt_exponent : Z;
}.

(** [exponent = exponent.saturating_mul(10).saturating_add(digit)] *)
Fixpoint saturating_decimal (acc : Z) (s : string) : Z :=
  match s with
  | EmptyString => acc
  | String c s' => saturating_decimal (saturate_i64 (saturate_i64 (acc * 10) + Z.of_N (digit_value c))) s'
  end.

Module DecimalToken.

Definition parse (token : string) : option DecimalToken :=
  lexeme ← lex token;
  let fraction := Z.of_nat (byte_len (lx_fraction lexeme)) in
  if (i64_max <? fraction)%Z then None
  else
    let exponent := saturating_decimal 0 (lx_exponent lexeme) in
    Some {| dt_negative := lx_negative lexeme;
            dt_digits := lx_integer lexeme +++ lx_fraction lexeme;
            dt_fraction := fraction;
            dt_exponent := if lx_exponent_negative lexeme then (- exponent)%Z else exponent |}.

Definition is_zero (self : DecimalToken) : bool :=
  string_forallb (λ c, bool_decide (c = "0"%char)) (dt_digits self).

(** [checked_mul(10)?.checked_add(digit)?] over the kept digits. *)
Fixpoint checked_decimal (acc : N) (s : string) : option N :=
  match s with
  | EmptyString => Some acc
  | String c s' =>
      let product := (acc * 10)%N in
      if (u64_max <? product)%N then None
      else
        let sum := (product + digit_value c)%N in
        if (u64_max <? sum)%N then None else checked_decimal sum s'
  end.

(** [for _ in 0..n { value = value.checked_mul(10)?; }] *)
Fixpoint checked_scale (n : nat) (value : N) : option N :=
  match n with
  | 0 => Some value
  | S n' =>
      let product := (value * 10)%N in
      if (u64_max <? product)%N then None else checked_scale n' product
  end.

(** [slice[..n]] and [slice[n..]] *)
Fixpoint take_bytes (n : nat) (s : string) : string :=
  match n, s with
  | S n', String c s' => String c (take_bytes n' s')
  | _, _ => ""
  end.

Fixpoint drop_bytes (n : nat) (s : string) : string :=
  match n, s with
  | S n', String _ s' => drop_bytes n' s'
  | _, _ => s
  end.

Definition is_zero_char (c : ascii) : bool := bool_decide (c = "0"%char).

Definition safe_integer (self : DecimalToken) : option N :=
  let digits := (span is_zero_char (dt_digits self)).2 in
  if bool_decide (digits = "") then Some 0%N
  else if dt_negative self then None
  else
    let scale := saturate_i64 (dt_exponent self - dt_fraction self) in
    let size := Z.of_nat (byte_len digits) in
    if (i64_max <? size)%Z then None
    else
      let length := saturate_i64 (size + scale) in
      if negb ((1 <=? length)%Z && (length <=? 16)%Z) then None
      else
        kept ← (if (scale <? 0)%Z then
                  if bool_decide (scale = i64_min) then None
                  else
                    let removed := Z.to_nat (- scale) in
                    if byte_len digits <? removed then None
                    else
                      let kept := byte_len digits - removed in
                      if string_forallb is_zero_char (drop_bytes kept digits)
                      then Some (take_bytes kept digits) else None
                else Some digits);
        value ← checked_decimal 0 kept;
        value ← checked_scale (Z.to_nat (Z.max 0 scale)) value;
        if (value <=? 9007199254740991)%N then Some value else None.

End DecimalToken.
Import DecimalToken.

(** ** Positive finite binary64 values

    The correctly rounded value of [m * 10^e] ([m > 0]) is positive exactly above
    half the least subnormal, [2^-1075], and finite exactly below [2^1024 - 2^970]
    (both bounds round away from the accepted side).  Exponents far outside the
    range are decided by the number of digits, without computing the power. *)
Definition positive_finite_f64 (m : N) (e : Z) (digits : Z) : bool :=
  if (m =? 0)%N then false
  else if (400 <? digits + e)%Z then false
  else if (digits + e <? -400)%Z then false
  else
    let num := (Z.of_N m * 10 ^ Z.max 0 e)%Z in
    let den := (10 ^ Z.max 0 (- e))%Z in
    (den <? num * 2 ^ 1075)%Z && (num <? den * (2 ^ 1024 - 2 ^ 970))%Z.

(** The exact exponent of a lexeme, and the value test of [RegistryTolerance]. *)
Definition lexeme_exponent (lx : Lexeme) : Z :=
  let e := Z.of_N (decimal_value 0 (lx_exponent lx)) in
  ((if lx_exponent_negative lx then - e else e) - Z.of_nat (byte_len (lx_fraction lx)))%Z.

Definition lexeme_digits (lx : Lexeme) : string := lx_integer lx +++ lx_fraction lx.

Definition token_positive_finite (token : string) : bool :=
  match lex token with
  | None => false
  | Some lx =>
      let digits := (span is_zero_char (lexeme_digits lx)).2 in
      positive_finite_f64 (decimal_value 0 digits) (lexeme_exponent lx) (Z.of_nat (byte_len digits))
  end.

(** ** The scanner *)

Definition token_delimiter (c : ascii) : bool :=
  bool_decide (c ∈ [" "%char; "009"%char; "013"%char; "010"%char; ","%char; "]"%char; "}"%char]).

Definition number_start (c : ascii) : bool := bool_decide (c = "-"%char) || is_digit c.

Definition tolerance_error : string :=
  "registry tolerance must be nonnegative and finite, without nonzero underflow".

(** What replaces a number token; an error stops the scan. *)
Definition replace_token (profile : NumberProfile) (token : string) : result string string :=
  match DecimalToken.parse token with
  | None => Ok token
  | Some number =>
      match profile with
      | IrIntegers =>
          match safe_integer number with
          | Some integer => Ok (pretty integer)
          | None => Ok token
          end
      | RegistryTolerance =>
          if is_zero number then Ok "0"
          else if dt_negative number || negb (token_positive_finite token) then Err tolerance_error
          else Ok token
      end
  end.

(** The position of the scan: outside strings, inside a string, or after a
    backslash inside a string. *)
Inductive scan_mode := Outside | InString | Escaped.

(** [while let Some(&byte) = bytes.get(index)]; every iteration consumes a byte, so
    the length of the input bounds the iterations. *)
Fixpoint scan_numbers (fuel : nat) (profile : NumberProfile) (mode : scan_mode) (s : string) :
    result string string :=
  match fuel, s with
  | _, EmptyString => Ok ""
  | 0, _ => Ok ""
  | S fuel', String c rest =>
      match mode with
      | InString =>
          let mode := if bool_decide (c = "\"%char) then Escaped
                      else if bool_decide (c = "034"%char) then Outside else InString in
          out ← scan_numbers fuel' profile mode rest; mret (String c out)
      | Escaped => out ← scan_numbers fuel' profile InString rest; mret (String c out)
      | Outside =>
          if bool_decide (c = "034"%char) then
            out ← scan_numbers fuel' profile InString rest; mret (String c out)
          else if number_start c then
            let '(token, rest) := span (λ d, negb (token_delimiter d)) s in
            replacement ← replace_token profile token;
            out ← scan_numbers fuel' profile Outside rest;
            mret (replacement +++ out)
          else
            out ← scan_numbers fuel' profile Outside rest; mret (String c out)
      end
  end.

Definition prepare_numbers (bytes : string) (profile : NumberProfile) : result string string :=
  scan_numbers (byte_len bytes) profile Outside bytes.

(** ** Spans and lexemes *)

Lemma span_spec p s : ∀ l r, span p s = (l, r) →
  s = l +++ r ∧ string_forallb p l = true ∧ match r with String c _ => p c = false | EmptyString => True end.
Proof.
  induction s as [|c s IH]; intros l r; simpl; [by intros [= <- <-]|].
  destruct (p c) eqn:Hc.
  - destruct (span p s) as [l' r']. intros [= <- <-]. destruct (IH l' r' eq_refl) as (-> & Hl & Hr).
    simpl. by rewrite Hc, Hl.
  - intros [= <- <-]. by rewrite Hc.
Qed.

Lemma byte_len_append s t : byte_len (s +++ t) = byte_len s + byte_len t.
Proof. unfold byte_len. induction s as [|c s IH]; [done|]. rewrite append_cons. simpl. by rewrite IH. Qed.

Lemma string_forallb_append p s t : string_forallb p (s +++ t) = string_forallb p s && string_forallb p t.
Proof. induction s as [|c s IH]; [done|]. rewrite append_cons. simpl. by rewrite IH, andb_assoc. Qed.

(** The parts of a lexeme are digit strings and fit in the token. *)
Record lexeme_wf (token : string) (lx : Lexeme) : Prop := {
  lw_integer : string_forallb is_digit (lx_integer lx) = true;
  lw_fraction : string_forallb is_digit (lx_fraction lx) = true;
  lw_exponent : string_forallb is_digit (lx_exponent lx) = true;
  lw_length : byte_len (lx_integer lx) + byte_len (lx_fraction lx) + byte_len (lx_exponent lx) ≤ byte_len token;
}.

Lemma lex_integer_wf s l r :
  lex_integer s = Some (l, r) → string_forallb is_digit l = true ∧ byte_len s = byte_len l + byte_len r.
Proof.
  destruct s as [|c s]; cbn [lex_integer]; [done|]. case_bool_decide as H0; [intros [= <- <-]; done|].
  destruct (nonzero_digit c); [|done]. intros [= Hs]. change (span is_digit (String c s) = (l, r)) in Hs.
  apply span_spec in Hs as (-> & Hl & _). split; [done|]. by rewrite byte_len_append.
Qed.

Lemma lex_fraction_wf s l r :
  lex_fraction s = Some (l, r) → string_forallb is_digit l = true ∧ byte_len l + byte_len r ≤ byte_len s.
Proof.
  destruct s as [|c s]; cbn [lex_fraction]; [by intros [= <- <-]|].
  case_bool_decide; [|intros [= <- <-]; done].
  destruct (span is_digit s) as [d rest] eqn:Hs. apply span_spec in Hs as (-> & Hl & _).
  case_bool_decide; [done|]. intros [= <- <-]. split; [done|]. unfold byte_len at 3. simpl.
  change (String.length (d +++ rest)) with (byte_len (d +++ rest)). rewrite byte_len_append. lia.
Qed.

Lemma lex_exponent_wf s n l r :
  lex_exponent s = Some (n, l, r) → string_forallb is_digit l = true ∧ byte_len l + byte_len r ≤ byte_len s.
Proof.
  destruct s as [|c s]; cbn [lex_exponent]; [by intros [= <- <- <-]|].
  destruct (bool_decide _ || bool_decide _); [|intros [= <- <- <-]; done].
  set (rest := match s with String d s' => _ | EmptyString => _ end).
  assert (byte_len rest ≤ byte_len s) as Hr by (unfold rest; destruct s; [done|]; case_match; simpl; unfold byte_len; simpl; lia).
  destruct (span is_digit rest) as [d r'] eqn:Hs. apply span_spec in Hs as (Heq & Hl & _).
  rewrite Heq, byte_len_append in Hr. case_bool_decide; [done|]. intros [= <- <- <-]. split; [done|].
  unfold byte_len at 3. simpl. unfold byte_len in *. lia.
Qed.

Lemma lex_wf token lx : lex token = Some lx → lexeme_wf token lx.
Proof.
  unfold lex. set (body := if starts_with "-" token then _ else token).
  assert (byte_len body ≤ byte_len token) as Hb
    by (unfold body; case_match; [destruct token; unfold byte_len; simpl; lia|done]).
  destruct (lex_integer body) as [[i r1]|] eqn:Hi; [|done]. simpl.
  destruct (lex_fraction r1) as [[f r2]|] eqn:Hf; [|done]. simpl.
  destruct (lex_exponent r2) as [[[n e] r3]|] eqn:He; [|done]. simpl.
  case_bool_decide; [|done]. intros [= <-].
  apply lex_integer_wf in Hi as [Hi1 Hi2]. apply lex_fraction_wf in Hf as [Hf1 Hf2].
  apply lex_exponent_wf in He as [He1 He2]. split; simpl; [done..|lia].
Qed.

(** ** Decimal values *)

Lemma decimal_value_acc acc s :
  decimal_value acc s = (acc * 10 ^ N.of_nat (byte_len s) + decimal_value 0 s)%N.
Proof.
  revert acc. induction s as [|c s IH]; intros acc.
  - simpl. unfold byte_len. simpl. lia.
  - cbn [decimal_value]. rewrite (IH (10 * acc + digit_value c)%N), (IH (10 * 0 + digit_value c)%N).
    change (byte_len (String c s)) with (S (byte_len s)).
    rewrite Nat2N.inj_succ, N.pow_succ_r by lia. lia.
Qed.

Lemma decimal_value_append s t :
  decimal_value 0 (s +++ t) = (decimal_value 0 s * 10 ^ N.of_nat (byte_len t) + decimal_value 0 t)%N.
Proof.
  rewrite <-decimal_value_acc. generalize 0%N at 1 2. induction s as [|c s IH]; intros acc; [done|].
  rewrite append_cons. simpl. apply IH.
Qed.

Lemma digit_value_lt c : is_digit c = true → (digit_value c < 10)%N.
Proof. intros Hc. by apply is_digit_pretty in Hc as [? _]. Qed.

Lemma decimal_value_lt s : string_forallb is_digit s = true →
  (decimal_value 0 s < 10 ^ N.of_nat (byte_len s))%N.
Proof.
  induction s as [|c s IH]; [done|]. simpl string_forallb. intros [Hc Hs]%andb_true_iff.
  cbn [decimal_value]. rewrite decimal_value_acc.
  change (byte_len (String c s)) with (S (byte_len s)). rewrite Nat2N.inj_succ, N.pow_succ_r by lia.
  specialize (IH Hs). apply digit_value_lt in Hc. nia.
Qed.

Lemma decimal_value_zeros s : string_forallb is_digit s = true →
  string_forallb is_zero_char s = true ↔ decimal_value 0 s = 0%N.
Proof.
  induction s as [|c s IH]; [done|]. simpl string_forallb. intros [Hc Hs]%andb_true_iff.
  rewrite andb_true_iff, (IH Hs). cbn [decimal_value]. rewrite (decimal_value_acc (10 * 0 + digit_value c)).
  assert (is_zero_char c = true ↔ digit_value c = 0%N) as ->.
  { unfold is_zero_char. rewrite bool_decide_eq_true. split; [by intros ->|].
    intros Hd. apply is_digit_pretty in Hc as [_ Hp]. by rewrite Hd in Hp. }
  pose proof (N.pow_nonzero 10 (N.of_nat (byte_len s))). nia.
Qed.

(** The leading zeros do not count, and what remains starts with a nonzero digit. *)
Lemma strip_zeros s z d : string_forallb is_digit s = true → span is_zero_char s = (z, d) →
  decimal_value 0 s = decimal_value 0 d ∧ string_forallb is_digit d = true ∧
  byte_len d ≤ byte_len s ∧
  (d ≠ "" → (10 ^ (N.of_nat (byte_len d) - 1) ≤ decimal_value 0 d)%N).
Proof.
  intros Hs Hsp. apply span_spec in Hsp as (-> & Hz & Hd). rewrite string_forallb_append in Hs.
  apply andb_true_iff in Hs as [Hzd Hdd]. rewrite byte_len_append.
  rewrite decimal_value_append, (proj1 (decimal_value_zeros z Hzd) Hz), N.mul_0_l, N.add_0_l.
  split_and!; [done|done|lia|]. intros Hne. destruct d as [|c d]; [done|].
  cbn [decimal_value]. rewrite decimal_value_acc.
  change (byte_len (String c d)) with (S (byte_len d)).
  replace (N.of_nat (S (byte_len d)) - 1)%N with (N.of_nat (byte_len d)) by lia.
  assert (digit_value c ≠ 0%N) as Hc.
  { intros H0. simpl in Hdd. apply andb_true_iff in Hdd as [Hc _]. apply is_digit_pretty in Hc as [_ Hp].
    rewrite H0 in Hp. subst c. done. }
  pose proof (N.pow_nonzero 10 (N.of_nat (byte_len d))). nia.
Qed.

(** ** Exactness of [safe_integer] *)

(** The decimal value of a lexeme is the integer [n]; a negative one only as zero. *)
Definition exact_integer (lx : Lexeme) (n : N) : Prop :=
  let m := Z.of_N (decimal_value 0 (lexeme_digits lx)) in
  let e := lexeme_exponent lx in
  (lx_negative lx = true → m = 0%Z) ∧
  (m * 10 ^ Z.max 0 e = Z.of_N n * 10 ^ Z.max 0 (- e))%Z.

Lemma pow10_pos (k : Z) : (0 ≤ k)%Z → (0 < 10 ^ k)%Z.
Proof. intros. apply Z.pow_pos_nonneg; lia. Qed.

(** A safe integer value has between one and sixteen digits before the point. *)
Lemma exact_length (D n L e : Z) :
  (1 ≤ L)%Z → (10 ^ (L - 1) ≤ D < 10 ^ L)%Z → (0 ≤ n ≤ 9007199254740991)%Z →
  (D * 10 ^ Z.max 0 e = n * 10 ^ Z.max 0 (- e))%Z → (1 ≤ L + e ≤ 16)%Z.
Proof.
  intros HL [HD1 HD2] Hn Heq.
  assert (9007199254740991 < 10 ^ 16)%Z as H16 by (vm_compute; done).
  destruct (Z.le_gt_cases 0 e) as [He|He].
  - rewrite (Z.max_r 0 e), (Z.max_l 0 (-e)), Z.pow_0_r, Z.mul_1_r in Heq by lia.
    split; [lia|]. destruct (Z.le_gt_cases (L + e) 16) as [|Hgt]; [done|]. exfalso.
    assert (10 ^ 16 ≤ 10 ^ (L - 1 + e))%Z as Hp by (apply Z.pow_le_mono_r; lia).
    rewrite Z.pow_add_r in Hp by lia. pose proof (pow10_pos e). nia.
  - rewrite (Z.max_l 0 e), (Z.max_r 0 (-e)), Z.pow_0_r, Z.mul_1_r in Heq by lia.
    pose proof (pow10_pos (- e)). pose proof (pow10_pos (L - 1)).
    assert (1 ≤ n)%Z as Hn1 by nia. split.
    + destruct (Z.le_gt_cases 1 (L + e)) as [|Hlt]; [done|]. exfalso.
      assert (10 ^ L ≤ 10 ^ (- e))%Z by (apply Z.pow_le_mono_r; lia). nia.
    + destruct (Z.le_gt_cases (L + e) 16) as [|Hgt]; [done|]. exfalso.
      assert (10 ^ (16 + - e) ≤ 10 ^ (L - 1))%Z as Hp by (apply Z.pow_le_mono_r; lia).
      rewrite Z.pow_add_r in Hp by lia. nia.
Qed.

Lemma checked_decimal_spec acc s : (acc ≤ u64_max)%N →
  checked_decimal acc s = if (decimal_value acc s <=? u64_max)%N then Some (decimal_value acc s) else None.
Proof.
  revert acc. induction s as [|c s IH]; intros acc Hacc; cbn [checked_decimal decimal_value].
  - by rewrite (proj2 (N.leb_le _ _) Hacc).
  - replace (10 * acc)%N with (acc * 10)%N by lia.
    assert (acc * 10 + digit_value c ≤ decimal_value (acc * 10 + digit_value c) s)%N as Hle.
    { rewrite decimal_value_acc. pose proof (N.pow_nonzero 10 (N.of_nat (byte_len s))). nia. }
    destruct (N.ltb_spec u64_max (acc * 10)).
    { by rewrite (proj2 (N.leb_gt _ _)) by lia. }
    destruct (N.ltb_spec u64_max (acc * 10 + digit_value c)).
    { by rewrite (proj2 (N.leb_gt _ _)) by lia. }
    by apply IH.
Qed.

Lemma checked_scale_spec n v : (v ≤ u64_max)%N →
  checked_scale n v = if (v * 10 ^ N.of_nat n <=? u64_max)%N then Some (v * 10 ^ N.of_nat n)%N else None.
Proof.
  revert v. induction n as [|n IH]; intros v Hv; cbn [checked_scale].
  - rewrite N.pow_0_r, N.mul_1_r. by rewrite (proj2 (N.leb_le _ _) Hv).
  - rewrite Nat2N.inj_succ, N.pow_succ_r by lia.
    replace (v * (10 * 10 ^ N.of_nat n))%N with (v * 10 * 10 ^ N.of_nat n)%N by lia.
    destruct (N.ltb_spec u64_max (v * 10)).
    + pose proof (N.pow_nonzero 10 (N.of_nat n)). by rewrite (proj2 (N.leb_gt _ _)) by nia.
    + by apply IH.
Qed.

Lemma take_drop_bytes k s : s = take_bytes k s +++ drop_bytes k s ∧
  (k ≤ byte_len s → byte_len (drop_bytes k s) = byte_len s - k).
Proof.
  unfold byte_len. revert k. induction s as [|c s IH]; intros [|k]; cbn [take_bytes drop_bytes String.length].
  - split; [done|simpl; lia].
  - split; [done|simpl; lia].
  - split; [done|lia].
  - destruct (IH k) as [Heq Hl]. rewrite append_cons. split; [by f_equal|]. intros. rewrite Hl by lia. lia.
Qed.

(** The tail of [safe_integer], once the scale is exact and the length in range. *)
Definition scaled_value (digits : string) (scale : Z) : option N :=
  kept ← (if (scale <? 0)%Z then
            if bool_decide (scale = i64_min) then None
            else
              let removed := Z.to_nat (- scale) in
              if byte_len digits <? removed then None
              else
                let kept := byte_len digits - removed in
                if string_forallb is_zero_char (drop_bytes kept digits)
                then Some (take_bytes kept digits) else None
          else Some digits);
  value ← checked_decimal 0 kept;
  value ← checked_scale (Z.to_nat (Z.max 0 scale)) value;
  if (value <=? 9007199254740991)%N then Some value else None.

(** Under the length bound no checked operation overflows. *)
Lemma scaled_value_nonneg digits scale n :
  string_forallb is_digit digits = true → (0 ≤ scale)%Z →
  (Z.of_nat (byte_len digits) + scale ≤ 16)%Z →
  scaled_value digits scale = Some n ↔
  (n ≤ 9007199254740991)%N ∧ (Z.of_N (decimal_value 0 digits) * 10 ^ scale = Z.of_N n)%Z.
Proof.
  intros Hd Hs Hlen. unfold scaled_value. rewrite (proj2 (Z.ltb_ge _ _)) by lia. simpl.
  pose proof (decimal_value_lt digits Hd) as Hlt.
  assert (decimal_value 0 digits * 10 ^ N.of_nat (Z.to_nat (Z.max 0 scale)) < 10 ^ 16)%N as Hsmall.
  { assert (N.of_nat (byte_len digits) + N.of_nat (Z.to_nat (Z.max 0 scale)) ≤ 16)%N by lia.
    assert (10 ^ (N.of_nat (byte_len digits) + N.of_nat (Z.to_nat (Z.max 0 scale))) ≤ 10 ^ 16)%N as Hp
      by (apply N.pow_le_mono_r; lia).
    rewrite N.pow_add_r in Hp. pose proof (N.pow_nonzero 10 (N.of_nat (Z.to_nat (Z.max 0 scale)))). nia. }
  assert (10 ^ 16 ≤ u64_max)%N as Hu by (vm_compute; done).
  pose proof (N.pow_nonzero 10 (N.of_nat (Z.to_nat (Z.max 0 scale)))).
  rewrite checked_decimal_spec by (vm_compute; done).
  rewrite (proj2 (N.leb_le _ _)) by nia. simpl. rewrite checked_scale_spec by nia.
  rewrite (proj2 (N.leb_le _ _)) by lia. simpl.
  assert (Z.of_N (decimal_value 0 digits * 10 ^ N.of_nat (Z.to_nat (Z.max 0 scale))) =
    Z.of_N (decimal_value 0 digits) * 10 ^ scale)%Z as Heq.
  { rewrite N2Z.inj_mul, N2Z.inj_pow. do 2 f_equal. lia. }
  destruct (N.leb_spec (decimal_value 0 digits * 10 ^ N.of_nat (Z.to_nat (Z.max 0 scale))) 9007199254740991).
  - split; [intros [= <-]; by rewrite Heq|]. intros [_ Hn]. f_equal. rewrite <-Heq in Hn. lia.
  - split; [done|]. intros [Hn1 Hn2]. rewrite <-Heq in Hn2. lia.
Qed.

Lemma scaled_value_neg digits scale n :
  string_forallb is_digit digits = true → (scale < 0)%Z →
  (Z.of_nat (byte_len digits) ≤ i64_max)%Z →
  (1 ≤ Z.of_nat (byte_len digits) + scale ≤ 16)%Z →
  scaled_value digits scale = Some n ↔
  (n ≤ 9007199254740991)%N ∧ (Z.of_N (decimal_value 0 digits) = Z.of_N n * 10 ^ (- scale))%Z.
Proof.
  intros Hd Hs Hmax Hlen. unfold scaled_value. rewrite (proj2 (Z.ltb_lt _ _)) by lia.
  rewrite bool_decide_eq_false_2 by (unfold i64_min, i64_max in *; lia).
  set (removed := Z.to_nat (- scale)). set (kept := byte_len digits - removed).
  rewrite (proj2 (Nat.ltb_ge _ _)) by lia.
  destruct (take_drop_bytes kept digits) as [Hsplit Hdrop]. specialize (Hdrop ltac:(lia)).
  replace (byte_len digits - kept) with removed in Hdrop by lia.
  rewrite Hsplit, string_forallb_append in Hd. apply andb_true_iff in Hd as [Ht Hr].
  assert (decimal_value 0 digits = decimal_value 0 (take_bytes kept digits) * 10 ^ N.of_nat removed +
    decimal_value 0 (drop_bytes kept digits))%N as Hval
    by (rewrite Hsplit at 1; by rewrite decimal_value_append, Hdrop).
  pose proof (decimal_value_lt _ Ht) as Htl. pose proof (decimal_value_lt _ Hr) as Hrl. rewrite Hdrop in Hrl.
  assert (byte_len (take_bytes kept digits) = kept) as Htk.
  { pose proof (f_equal byte_len Hsplit) as Hl. rewrite byte_len_append, Hdrop in Hl. lia. }
  rewrite Htk in Htl.
  assert (Z.of_N (10 ^ N.of_nat removed) = 10 ^ (- scale))%Z as Hpow.
  { rewrite N2Z.inj_pow. f_equal. lia. }
  pose proof (pow10_pos (- scale) ltac:(lia)) as Hpos.
  destruct (string_forallb is_zero_char (drop_bytes kept digits)) eqn:Hz; simpl.
  - apply decimal_value_zeros in Hz; [|done]. rewrite Hz in Hval.
    assert (10 ^ N.of_nat kept ≤ 10 ^ 16)%N by (apply N.pow_le_mono_r; lia).
    assert (10 ^ 16 ≤ u64_max)%N by (vm_compute; done).
    rewrite checked_decimal_spec by (vm_compute; done). rewrite (proj2 (N.leb_le _ _)) by lia. simpl.
    rewrite Z.max_l by lia. simpl.
    destruct (N.leb_spec (decimal_value 0 (take_bytes kept digits)) 9007199254740991).
    + split; [intros [= <-]; split; [done|lia]|]. intros [_ Hn]. f_equal. nia.
    + split; [done|]. intros [Hn1 Hn2]. nia.
  - split; [done|]. intros [_ Hn]. exfalso.
    assert (decimal_value 0 (drop_bytes kept digits) ≠ 0)%N as Hnz.
    { intros H0. apply decimal_value_zeros in H0; [|done]. congruence. }
    rewrite Hval in Hn. rewrite N2Z.inj_add, N2Z.inj_mul, Hpow in Hn.
    assert (Z.of_N (decimal_value 0 (drop_bytes kept digits)) < 10 ^ (- scale))%Z as Hrz by (rewrite <-Hpow; lia).
    set (k := (Z.of_N n - Z.of_N (decimal_value 0 (take_bytes kept digits)))%Z).
    assert (Z.of_N (decimal_value 0 (drop_bytes kept digits)) = k * 10 ^ (- scale))%Z as Hk by (unfold k; lia).
    destruct (Z.le_gt_cases k 0); nia.
Qed.

Lemma saturating_decimal_spec s acc : (acc ≤ Z.to_N i64_max)%N →
  saturating_decimal (Z.of_N acc) s = Z.min i64_max (Z.of_N (decimal_value acc s)).
Proof.
  revert acc. induction s as [|c s IH]; intros acc Hacc; cbn [saturating_decimal decimal_value].
  - unfold i64_max in *. lia.
  - assert (saturate_i64 (saturate_i64 (Z.of_N acc * 10) + Z.of_N (digit_value c)) =
      Z.of_N (N.min (Z.to_N i64_max) (10 * acc + digit_value c))) as ->
      by (unfold saturate_i64, i64_max, i64_min in *; lia).
    rewrite IH by lia.
    set (x := (10 * acc + digit_value c)%N).
    destruct (N.le_gt_cases x (Z.to_N i64_max)); [by rewrite N.min_r|].
    rewrite N.min_l by lia.
    assert (∀ a, a ≤ decimal_value a s)%N as Hge.
    { intros a. rewrite decimal_value_acc. pose proof (N.pow_nonzero 10 (N.of_nat (byte_len s))). nia. }
    pose proof (Hge x). pose proof (Hge (Z.to_N i64_max)). unfold i64_max in *. lia.
Qed.

(** A digit string whose value leaves [i64] has at least nineteen digits. *)
Lemma large_decimal_length s : string_forallb is_digit s = true →
  (i64_max < Z.of_N (decimal_value 0 s))%Z → 19 ≤ byte_len s.
Proof.
  intros Hs Hbig. destruct (le_lt_dec 19 (byte_len s)) as [|Hlt]; [done|]. exfalso.
  pose proof (decimal_value_lt s Hs).
  assert (10 ^ N.of_nat (byte_len s) ≤ 10 ^ 18)%N by (apply N.pow_le_mono_r; lia).
  assert (Z.of_N (10 ^ 18) ≤ i64_max)%Z by (vm_compute; done). lia.
Qed.

(** The saturated scale and length decide the range exactly, and in range the
    scale is the exact exponent. *)
Lemma scale_exact token lx t L :
  DecimalToken.parse token = Some t → lex token = Some lx →
  (Z.of_nat (byte_len token) ≤ i64_max)%Z →
  1 ≤ L → L ≤ byte_len (lexeme_digits lx) →
  let scale := saturate_i64 (dt_exponent t - dt_fraction t) in
  let length := saturate_i64 (Z.of_nat L + scale) in
  let e := lexeme_exponent lx in
  ((1 ≤ length ≤ 16)%Z ↔ (1 ≤ Z.of_nat L + e ≤ 16)%Z) ∧ ((1 ≤ length ≤ 16)%Z → scale = e).
Proof.
  intros Hp Hlex Hlen HL1 HL2. unfold DecimalToken.parse in Hp. rewrite Hlex in Hp. simpl in Hp.
  destruct (lex_wf _ _ Hlex) as [_ _ Hexp Htot].
  unfold lexeme_digits in HL2. rewrite byte_len_append in HL2.
  destruct (Z.ltb_spec i64_max (Z.of_nat (byte_len (lx_fraction lx)))); [done|].
  injection Hp as <-. simpl. unfold lexeme_exponent.
  change 0%Z with (Z.of_N 0). rewrite saturating_decimal_spec by (unfold i64_max; lia).
  pose proof (large_decimal_length _ Hexp) as Hlarge.
  generalize dependent (decimal_value 0 (lx_exponent lx)). intros x Hlarge.
  generalize dependent (byte_len (lx_exponent lx)). intros len_e Htot Hlarge.
  generalize dependent (byte_len (lx_fraction lx)). generalize dependent (byte_len (lx_integer lx)).
  generalize dependent (byte_len token). intros T HT I F HF HL2 Htot.
  unfold saturate_i64, i64_max, i64_min in *. destruct (lx_exponent_negative lx); lia.
Qed.

Lemma lexeme_digits_wf token lx : lex token = Some lx →
  string_forallb is_digit (lexeme_digits lx) = true ∧ byte_len (lexeme_digits lx) ≤ byte_len token.
Proof.
  intros [Hi Hf _ Hl]%lex_wf. unfold lexeme_digits.
  rewrite string_forallb_append, byte_len_append, Hi, Hf. split; [done|lia].
Qed.

Lemma safe_integer_spec token lx t n :
  DecimalToken.parse token = Some t → lex token = Some lx →
  (Z.of_nat (byte_len token) ≤ i64_max)%Z →
  safe_integer t = Some n ↔ (n ≤ 9007199254740991)%N ∧ exact_integer lx n.
Proof.
  intros Hp Hlex Hlen. destruct (lexeme_digits_wf _ _ Hlex) as [Hdig Hdl].
  assert (dt_digits t = lexeme_digits lx ∧ dt_negative t = lx_negative lx) as [Htd Htn].
  { unfold DecimalToken.parse in Hp. rewrite Hlex in Hp. simpl in Hp. case_match; [done|]. by injection Hp as <-. }
  unfold safe_integer, exact_integer. rewrite Htd, Htn.
  destruct (span is_zero_char (lexeme_digits lx)) as [z d] eqn:Hsp.
  destruct (strip_zeros _ _ _ Hdig Hsp) as (Hval & Hdd & Hdlen & Hfirst). simpl. rewrite Hval.
  case_bool_decide as Hd.
  { subst d. simpl. pose proof (pow10_pos (Z.max 0 (- lexeme_exponent lx)) ltac:(lia)). split.
    - intros [= <-]. split; [lia|]. done.
    - intros (_ & _ & Hn). f_equal. nia. }
  specialize (Hfirst Hd). assert (1 ≤ byte_len d) as HL1 by (destruct d; [done|unfold byte_len; simpl; lia]).
  pose proof (decimal_value_lt d Hdd) as Hup.
  assert (10 ^ (Z.of_nat (byte_len d) - 1) ≤ Z.of_N (decimal_value 0 d) < 10 ^ Z.of_nat (byte_len d))%Z as HD.
  { split.
    - replace (Z.of_nat (byte_len d) - 1)%Z with (Z.of_N (N.of_nat (byte_len d) - 1)) by lia.
      change 10%Z with (Z.of_N 10). rewrite <-N2Z.inj_pow. lia.
    - replace (Z.of_nat (byte_len d)) with (Z.of_N (N.of_nat (byte_len d))) by lia.
      change 10%Z with (Z.of_N 10). rewrite <-N2Z.inj_pow. lia. }
  pose proof (pow10_pos (Z.of_nat (byte_len d) - 1) ltac:(lia)) as Hpos.
  destruct (lx_negative lx).
  { split; [done|]. intros (_ & Hneg & _). specialize (Hneg eq_refl). lia. }
  rewrite (proj2 (Z.ltb_ge _ _)) by lia.
  destruct (scale_exact token lx t (byte_len d) Hp Hlex Hlen HL1 ltac:(lia)) as [Hrange Hscale].
  set (scale := saturate_i64 (dt_exponent t - dt_fraction t)) in *.
  set (len := saturate_i64 (Z.of_nat (byte_len d) + scale)) in *.
  destruct ((1 <=? len)%Z && (len <=? 16)%Z) eqn:Hb; simpl.
  - apply andb_true_iff in Hb as [Hb1%Z.leb_le Hb2%Z.leb_le].
    rewrite (Hscale (conj Hb1 Hb2)). apply proj1 in Hrange. specialize (Hrange (conj Hb1 Hb2)).
    change (scaled_value d (lexeme_exponent lx) = Some n ↔ (n ≤ 9007199254740991)%N ∧ (false = true →
      Z.of_N (decimal_value 0 d) = 0%Z) ∧ (Z.of_N (decimal_value 0 d) * 10 ^ Z.max 0 (lexeme_exponent lx) =
      Z.of_N n * 10 ^ Z.max 0 (- lexeme_exponent lx))%Z).
    destruct (Z.le_gt_cases 0 (lexeme_exponent lx)) as [He|He].
    + rewrite scaled_value_nonneg by (done || lia).
      rewrite (Z.max_r 0 (lexeme_exponent lx)), (Z.max_l 0 (- lexeme_exponent lx)), Z.pow_0_r, Z.mul_1_r by lia.
      naive_solver.
    + rewrite scaled_value_neg by (done || lia).
      rewrite (Z.max_l 0 (lexeme_exponent lx)), (Z.max_r 0 (- lexeme_exponent lx)), Z.pow_0_r, Z.mul_1_r by lia.
      naive_solver.
  - split; [done|]. intros (Hn & _ & Heq). exfalso.
    assert (1 ≤ Z.of_nat (byte_len d) + lexeme_exponent lx ≤ 16)%Z as Hin
      by (eapply exact_length; [..|exact Heq]; [lia|done|lia]).
    apply Hrange in Hin as [H1 H2]. apply Z.leb_le in H1, H2. by rewrite H1, H2 in Hb.
Qed.

(** C34: Number preparation is exact: a token that parses is replaced by an integer
    [n] exactly when its decimal value, with unbounded exponent, is the integer [n]
    and [n] is at most [2^53 - 1] (a negative token only as zero).  The saturating
    exponent arithmetic, the digit count and the checked [u64] operations never
    change the outcome, for any token that fits in memory. *)
Theorem safe_integer_exact token t n :
  DecimalToken.parse token = Some t → (Z.of_nat (byte_len token) ≤ i64_max)%Z →
  ∃ lx, lex token = Some lx ∧
    (safe_integer t = Some n ↔ (n ≤ 9007199254740991)%N ∧ exact_integer lx n).
Proof.
  intros Hp Hlen. destruct (lex token) as [lx|] eqn:Hlex.
  - exists lx. split; [done|]. by eapply safe_integer_spec.
  - unfold DecimalToken.parse in Hp. by rewrite Hlex in Hp.
Qed.

Lemma safe_integer_exact_witness : ∃ t lx,
  DecimalToken.parse "1000e-3" = Some t ∧ lex "1000e-3" = Some lx ∧
  (safe_integer t = Some 1%N ↔ (1 ≤ 9007199254740991)%N ∧ exact_integer lx 1).
Proof.
  destruct (DecimalToken.parse "1000e-3") as [t|] eqn:Ht; [|discriminate Ht].
  destruct (safe_integer_exact "1000e-3" t 1 Ht) as (lx & Hlx & Hiff); [vm_compute; discriminate|].
  exists t, lx. split; [reflexivity|]. split; assumption.
Defined.

(** ** The scanner *)

Lemma span_all p s t : string_forallb p s = true →
  match t with String c _ => p c = false | EmptyString => True end → span p (s +++ t) = (s, t).
Proof.
  induction s as [|c s IH]; intros Hs Ht.
  - change ("" +++ t) with t. destruct t as [|d t]; [done|]. simpl. by rewrite Ht.
  - rewrite append_cons. simpl in *. apply andb_true_iff in Hs as [Hc Hs]. by rewrite Hc, IH.
Qed.

(** Canonical numerals lex as themselves. *)
Lemma lex_pretty (n : N) :
  lex (pretty n) = Some {| lx_negative := false; lx_integer := pretty n; lx_fraction := "";
                           lx_exponent_negative := false; lx_exponent := "" |}.
Proof.
  pose proof (canonical_numeral_pretty n) as Hc. destruct (pretty n) as [|c s]; [done|].
  simpl in Hc. apply andb_true_iff in Hc as [[Hd Hs]%andb_true_iff Hz].
  assert (starts_with "-" (String c s) = false) as Hm.
  { unfold starts_with. cbn [strip_prefix]. rewrite bool_decide_eq_false_2; [done|]. intros <-. done. }
  unfold lex. rewrite Hm. cbn [lex_integer].
  case_bool_decide as H0.
  - apply negb_true_iff in Hz. simpl in Hz. apply negb_false_iff, bool_decide_eq_true_1 in Hz. subst. done.
  - unfold nonzero_digit. rewrite Hd, bool_decide_eq_false_2 by done. simpl andb. cbv iota.
    rewrite <-(append_nil_r (String c s)) at 1. rewrite span_all; [done| |done]. simpl. by rewrite Hd, Hs.
Qed.

Lemma byte_len_pretty_safe n : (n ≤ 9007199254740991)%N → byte_len (pretty n) ≤ 16.
Proof.
  intros Hn. pose proof (canonical_numeral_digits_pretty n) as Hd.
  destruct (span is_zero_char (pretty n)) as [z d] eqn:Hsp.
  destruct (strip_zeros _ _ _ Hd Hsp) as (Hval & _ & _ & Hfirst). rewrite decimal_value_pretty in Hval.
  destruct (decide (n = 0)%N) as [->|Hn0]; [vm_compute; lia|].
  assert (d = pretty n) as ->.
  { apply span_spec in Hsp as (Heq & Hz & _). pose proof (canonical_numeral_pretty n) as Hc.
    destruct z as [|c z]; [done|]. exfalso. rewrite Heq, append_cons in Hc. simpl in Hz.
    apply andb_true_iff in Hz as [Hz0%bool_decide_eq_true_1 _]. subst c. simpl in Hc.
    apply andb_true_iff in Hc as [_ Hc]. apply negb_true_iff in Hc. simpl in Hc.
    apply negb_false_iff, bool_decide_eq_true_1 in Hc. rewrite append_cons, Hc in Heq.
    apply (f_equal (decimal_value 0)) in Heq. rewrite decimal_value_pretty in Heq. done. }
  assert (pretty n ≠ "") as Hne.
  { intros H0. pose proof (canonical_numeral_pretty n) as Hc. by rewrite H0 in Hc. }
  specialize (Hfirst Hne). rewrite <-Hval in Hfirst.
  destruct (le_lt_dec (byte_len (pretty n)) 16) as [|Hgt]; [done|]. exfalso.
  assert (10 ^ 16 ≤ 10 ^ (N.of_nat (byte_len (pretty n)) - 1))%N by (apply N.pow_le_mono_r; lia).
  assert (9007199254740991 < 10 ^ 16)%N by (vm_compute; done). lia.
Qed.

Lemma safe_integer_pretty n : (n ≤ 9007199254740991)%N →
  ∃ t, DecimalToken.parse (pretty n) = Some t ∧ safe_integer t = Some n.
Proof.
  intros Hn. pose proof (byte_len_pretty_safe n Hn) as Hlen.
  destruct (DecimalToken.parse (pretty n)) as [t|] eqn:Hp.
  - exists t. split; [done|]. eapply safe_integer_spec; [done|apply lex_pretty|unfold i64_max; lia|].
    split; [done|]. unfold exact_integer, lexeme_digits, lexeme_exponent. simpl.
    rewrite append_nil_r, decimal_value_pretty. done.
  - unfold DecimalToken.parse in Hp. rewrite lex_pretty in Hp. done.
Qed.

Lemma safe_integer_bound t n : safe_integer t = Some n → (n ≤ 9007199254740991)%N.
Proof.
  unfold safe_integer. repeat case_match; simpl; intros Hs; try done; try (injection Hs as <-; lia).
  all: repeat (match goal with H : mbind _ ?o = Some _ |- _ => destruct o; [simpl in H|done] end).
  all: repeat case_match; simplify_eq; by apply N.leb_le.
Qed.

(** A replacement is a token again, and replacing it changes nothing. *)
Lemma replace_token_idemp profile token r :
  replace_token profile token = Ok r → replace_token profile r = Ok r.
Proof.
  unfold replace_token at 1. destruct (DecimalToken.parse token) as [t|] eqn:Hp.
  2: { intros [= <-]. unfold replace_token. by rewrite Hp. }
  destruct profile.
  - destruct (safe_integer t) as [n|] eqn:Hs.
    + intros [= <-]. destruct (safe_integer_pretty n) as (t' & Hp' & Hs'); [by eapply safe_integer_bound|].
      unfold replace_token. by rewrite Hp', Hs'.
    + intros [= <-]. unfold replace_token. by rewrite Hp, Hs.
  - destruct (is_zero t) eqn:Hz; [by intros [= <-]|].
    destruct (dt_negative t || negb (token_positive_finite token)) eqn:Hneg; [done|].
    intros [= <-]. unfold replace_token. by rewrite Hp, Hz, Hneg.
Qed.

Lemma digit_not_delimiter c : is_digit c = true → token_delimiter c = false.
Proof. destruct c as [[] [] [] [] [] [] [] []]; vm_compute; done. Qed.

Lemma replace_token_shape profile c token r :
  string_forallb (λ d, negb (token_delimiter d)) (String c token) = true → number_start c = true →
  replace_token profile (String c token) = Ok r →
  ∃ c' r', r = String c' r' ∧ number_start c' = true ∧
    string_forallb (λ d, negb (token_delimiter d)) r = true.
Proof.
  intros Hd Hc. unfold replace_token.
  assert (∀ n : N, ∃ c' r', pretty n = String c' r' ∧ number_start c' = true ∧
    string_forallb (λ d, negb (token_delimiter d)) (pretty n) = true) as Hpretty.
  { intros n. pose proof (canonical_numeral_digits_pretty n) as Hn. pose proof (canonical_numeral_pretty n) as Hcn.
    destruct (pretty n) as [|c' r'] eqn:Hpn; [done|]. exists c', r'.
    unfold number_start. simpl in Hn. apply andb_true_iff in Hn as Hn'. destruct Hn' as [Hc' _].
    rewrite Hc', orb_true_r. split_and!; [done..|]. clear -Hn.
    change (string_forallb is_digit (String c' r') = true) in Hn. revert Hn.
    generalize (String c' r'). induction s as [|d s IH]; [done|]. simpl. intros [Hd Hs]%andb_true_iff.
    by rewrite digit_not_delimiter, IH. }
  intros Hr. destruct (DecimalToken.parse (String c token)) as [t|]; [|injection Hr as <-; eauto 10].
  destruct profile.
  - destruct (safe_integer t) as [n|]; injection Hr as <-; [apply Hpretty|eauto 10].
  - destruct (is_zero t); [injection Hr as <-; apply (Hpretty 0%N)|].
    destruct (dt_negative t || _); [done|]. injection Hr as <-. eauto 10.
Qed.

Lemma delimiter_plain c : token_delimiter c = true → number_start c = false ∧ c ≠ "034"%char.
Proof. destruct c as [[] [] [] [] [] [] [] []]; vm_compute; done. Qed.

(** Outside strings a delimiter is copied, so a token's boundary is kept. *)
Lemma scan_keeps_boundary fuel profile s out :
  byte_len s ≤ fuel → scan_numbers fuel profile Outside s = Ok out →
  match s with String c _ => negb (token_delimiter c) = false | EmptyString => True end →
  match out with String c _ => negb (token_delimiter c) = false | EmptyString => True end.
Proof.
  destruct s as [|c s].
  - destruct fuel; simpl; by intros _ [= <-].
  - intros Hf Hscan Hc. destruct fuel as [|fuel]; [unfold byte_len in Hf; simpl in Hf; lia|].
    simpl in Hscan. apply negb_false_iff in Hc as Hdel. destruct (delimiter_plain c Hdel) as [Hn Hq].
    rewrite Hn, bool_decide_eq_false_2 in Hscan by done.
    destruct (scan_numbers fuel profile Outside s); [|done]. simpl in Hscan. injection Hscan as <-. done.
Qed.

Lemma scan_idemp fuel profile mode s out :
  byte_len s ≤ fuel → scan_numbers fuel profile mode s = Ok out →
  ∀ fuel', byte_len out ≤ fuel' → scan_numbers fuel' profile mode out = Ok out.
Proof.
  revert mode s out. induction fuel as [|fuel IH]; intros mode s out Hf Hscan fuel' Hf'.
  { destruct s; [|unfold byte_len in Hf; simpl in Hf; lia]. simpl in Hscan. injection Hscan as <-.
    by destruct fuel'. }
  destruct s as [|c s]; [simpl in Hscan; injection Hscan as <-; by destruct fuel'|].
  change (byte_len (String c s)) with (S (byte_len s)) in Hf.
  assert (∀ mode' o, scan_numbers fuel profile mode' s = Ok o → byte_len (String c o) ≤ fuel' →
    ∃ f, fuel' = S f ∧ scan_numbers f profile mode' o = Ok o) as Hstep.
  { intros mode' o Ho Hl. destruct fuel' as [|f]; [unfold byte_len in Hl; simpl in Hl; lia|].
    exists f. split; [done|]. apply (IH mode' s o); [lia|done|]. unfold byte_len in *. simpl in Hl. lia. }
  destruct mode; cbn [scan_numbers] in Hscan.
  - case_bool_decide as Hq.
    + destruct (scan_numbers fuel profile InString s) as [o|] eqn:Ho; [|done]. injection Hscan as <-.
      destruct (Hstep _ _ Ho Hf') as (f & -> & Hs). cbn [scan_numbers].
      rewrite bool_decide_eq_true_2 by done. by rewrite Hs.
    + destruct (number_start c) eqn:Hn.
      * destruct (span _ (String c s)) as [token rest] eqn:Hsp.
        apply span_spec in Hsp as (Heq & Htok & Hrest).
        assert (∃ token', token = String c token') as [token' ->].
        { destruct token as [|d token']; [exfalso|].
          - change ("" +++ rest) with rest in Heq. subst rest. apply negb_false_iff in Hrest.
            apply delimiter_plain in Hrest as [Hr _]. congruence.
          - rewrite append_cons in Heq. injection Heq as -> _. eauto. }
        destruct (replace_token profile (String c token')) as [r|] eqn:Hr; [|done]. simpl in Hscan.
        destruct (scan_numbers fuel profile Outside rest) as [o|] eqn:Ho; [|done]. simpl in Hscan.
        injection Hscan as <-. rewrite append_cons in Heq. injection Heq as ->.
        rewrite byte_len_append in Hf. assert (byte_len rest ≤ fuel) as Hfr by lia.
        pose proof (scan_keeps_boundary _ _ _ _ Hfr Ho Hrest) as Hbound.
        destruct (replace_token_shape _ _ _ _ Htok Hn Hr) as (c' & r' & -> & Hn' & Hr').
        rewrite byte_len_append in Hf'. destruct fuel' as [|f]; [unfold byte_len in Hf'; simpl in Hf'; lia|].
        rewrite append_cons. cbn [scan_numbers]. rewrite bool_decide_eq_false_2.
        2: { intros ->. done. }
        rewrite Hn'. change (String c' (r' +++ o)) with (String c' r' +++ o).
        rewrite (span_all _ (String c' r') o Hr' Hbound). rewrite (replace_token_idemp _ _ _ Hr). simpl.
        rewrite (IH Outside rest o Hfr Ho f); [done|]. unfold byte_len in *. simpl in Hf'. lia.
      * destruct (scan_numbers fuel profile Outside s) as [o|] eqn:Ho; [|done]. injection Hscan as <-.
        destruct (Hstep _ _ Ho Hf') as (f & -> & Hs). cbn [scan_numbers].
        rewrite bool_decide_eq_false_2, Hn by done. by rewrite Hs.
  - match type of Hscan with (scan_numbers fuel profile ?m s ≫= _) = _ => set (mode' := m) in * end.
    destruct (scan_numbers fuel profile mode' s) as [o|] eqn:Ho; [|done]. injection Hscan as <-.
    destruct (Hstep _ _ Ho Hf') as (f & -> & Hs). cbn [scan_numbers]. fold mode'. by rewrite Hs.
  - destruct (scan_numbers fuel profile InString s) as [o|] eqn:Ho; [|done]. injection Hscan as <-.
    destruct (Hstep _ _ Ho Hf') as (f & -> & Hs). cbn [scan_numbers]. by rewrite Hs.
Qed.

(** C35: Preparing a document's numbers is idempotent under both profiles: a
    document that was prepared once is left byte for byte unchanged by a second
    pass, so canonical numerals, strings and rejected tokens are stable. *)
Theorem prepare_numbers_idempotent bytes profile out :
  prepare_numbers bytes profile = Ok out → prepare_numbers out profile = Ok out.
Proof. intros Hp. unfold prepare_numbers in *. by eapply scan_idemp; [|exact Hp|]. Qed.

Lemma prepare_numbers_idempotent_witness :
  prepare_numbers (String "[" (pretty 7%N +++ ",1]")) IrIntegers = Ok "[7,1]".
Proof.
  apply (prepare_numbers_idempotent "[7.0,1e0]" IrIntegers). vm_compute. reflexivity.
Defined.

(** The vectors of the module's own tests. *)
Example exact_integer_tokens_do_not_round :
  (λ s, prepare_numbers s IrIntegers) <$>
    ["1.0"; "1e0"; "-0"; "-0e999999999999999999"; "1000e-3"; "9007199254740991.0"; "9007199254740991.1"] =
  Ok <$> ["1"; "1"; "0"; "0"; "1"; "9007199254740991"; "9007199254740991.1"].
Proof. vm_compute. reflexivity. Qed.
