(* ===== verification/Limits.v ===== *)
(** * Resource limits

    [crates/aios-ir/src/limits.rs]: the configured ceilings, their clamping to the
    supported ranges, and the inspection of a parsed document.  Ceilings are
    [usize] values; they are only compared, never computed with. *)

From S2P Require Import Prelude Json Contracts.

Definition MAX_OUTPUT_DIAGNOSTICS : N := 256.
Definition MAX_SUPPORTED_JSON_DEPTH : N := 127.

Record ValidationLimits := {
  max_document_bytes : N;
  max_depth : N;
  max_nodes : N;
  max_ports_per_interface : N;
  max_authority_requests_per_node : N;
  max_fallbacks_per_node : N;
  max_string_chars : N;
  max_diagnostics : N;
}.

Definition default_limits : ValidationLimits := {|
  max_document_bytes := 1048576;
  max_depth := 64;
  max_nodes := 512;
  max_ports_per_interface := 128;
  max_authority_requests_per_node := 32;
  max_fallbacks_per_node := 3;
  max_string_chars := 16384;
  max_diagnostics := 256;
|}.

Definition bounded_for_output (self : ValidationLimits) : ValidationLimits := {|
  max_document_bytes := max_document_bytes self;
  max_depth := N.min (max_depth self) MAX_SUPPORTED_JSON_DEPTH;
  max_nodes := max_nodes self;
  max_ports_per_interface := max_ports_per_interface self;
  max_authority_requests_per_node := max_authority_requests_per_node self;
  max_fallbacks_per_node := max_fallbacks_per_node self;
  max_string_chars := max_string_chars self;
  max_diagnostics := N.max 1 (N.min MAX_OUTPUT_DIAGNOSTICS (max_diagnostics self));
|}.

Inductive LimitViolation :=
  | NodeCount | PortCount | AuthorityRequestCount | FallbackCount | StringLength.

#[export] Instance LimitViolation_eq_dec : EqDecision LimitViolation.
Proof. solve_decision. Defined.

Definition exceeds {A} (l : list A) (limit : N) : bool := (limit <? N.of_nat (length l))%N.

(** [value.get(name).and_then(Value::as_array)] and its object form. *)
Definition get_array (name : string) (v : Value) : option (list Value) := value_get name v ≫= as_array.
Definition get_object (name : string) (v : Value) : option (list (string * Value)) :=
  value_get name v ≫= as_object.

(** The interface sizes of one object, in the order [inputs], [outputs]. *)
Definition interface_sizes (v : Value) : list N :=
  omap (λ name, (λ ms, N.of_nat (length ms)) <$> get_object name v) ["inputs"; "outputs"].

Definition interfaces (value : Value) : list N :=
  interface_sizes value ++ (default [] (get_array "nodes" value) ≫= interface_sizes).

Definition string_too_long (max_chars : N) (s : string) : bool := (max_chars <? N.of_nat (chars_count s))%N.

Fixpoint contains_long_string (max_chars : N) (value : Value) : bool :=
  match value with
  | Str s => string_too_long max_chars s
  | Array values => existsb (contains_long_string max_chars) values
  | Object members =>
      existsb (λ kv, string_too_long max_chars kv.1 || contains_long_string max_chars kv.2) members
  | Null | Bool _ | Num _ => false
  end.

(** [nodes.is_some_and(|nodes| nodes.iter().any(..))] *)
Definition any_node (value : Value) (f : Value → bool) : bool :=
  match get_array "nodes" value with Some nodes => existsb f nodes | None => false end.

Definition is_some_and {A} (o : option A) (f : A → bool) : bool :=
  match o with Some a => f a | None => false end.

Definition inspect_value_limits (value : Value) (limits : ValidationLimits) : list LimitViolation :=
  (if is_some_and (get_array "nodes" value) (λ nodes, exceeds nodes (max_nodes limits))
   then [NodeCount] else []) ++
  (if existsb (λ count, (max_ports_per_interface limits <? count)%N) (interfaces value)
   then [PortCount] else []) ++
  (if any_node value (λ node, is_some_and (get_array "authority_requests" node)
        (λ requests, exceeds requests (max_authority_requests_per_node limits)))
   then [AuthorityRequestCount] else []) ++
  (if any_node value (λ node, is_some_and (value_get "failure" node ≫= get_array "fallback_capabilities")
        (λ fallbacks, exceeds fallbacks (max_fallbacks_per_node limits)))
   then [FallbackCount] else []) ++
  (if contains_long_string (max_string_chars limits) value then [StringLength] else []).

(** ** Specification *)

(** Every string of a document: member names and string values, at any depth. *)
Inductive occurs : string → Value → Prop :=
  | occurs_str s : occurs s (Str s)
  | occurs_array s v vs : v ∈ vs → occurs s v → occurs s (Array vs)
  | occurs_key k v ms : (k, v) ∈ ms → occurs k (Object ms)
  | occurs_member s k v ms : (k, v) ∈ ms → occurs s v → occurs s (Object ms).

(** The nodes of a document. *)
Definition document_node (value node : Value) : Prop :=
  ∃ nodes, get_array "nodes" value = Some nodes ∧ node ∈ nodes.

(** A document within the limits; every ceiling is inclusive. *)
Record within_limits (value : Value) (limits : ValidationLimits) : Prop := {
  wl_nodes : ∀ nodes, get_array "nodes" value = Some nodes → (N.of_nat (length nodes) ≤ max_nodes limits)%N;
  wl_ports : ∀ owner name ports, (owner = value ∨ document_node value owner) →
    name = "inputs" ∨ name = "outputs" → get_object name owner = Some ports →
    (N.of_nat (length ports) ≤ max_ports_per_interface limits)%N;
  wl_requests : ∀ node requests, document_node value node →
    get_array "authority_requests" node = Some requests →
    (N.of_nat (length requests) ≤ max_authority_requests_per_node limits)%N;
  wl_fallbacks : ∀ node failure fallbacks, document_node value node →
    value_get "failure" node = Some failure → get_array "fallback_capabilities" failure = Some fallbacks →
    (N.of_nat (length fallbacks) ≤ max_fallbacks_per_node limits)%N;
  wl_strings : ∀ s, occurs s value → (N.of_nat (chars_count s) ≤ max_string_chars limits)%N;
}.

(** ** Lemmas *)

Lemma existsb_elem_of {A} (f : A → bool) l : existsb f l = true ↔ ∃ x, x ∈ l ∧ f x = true.
Proof. rewrite existsb_exists. by setoid_rewrite <-list_elem_of_In. Qed.

Lemma contains_long_string_spec max_chars v :
  contains_long_string max_chars v = true ↔ ∃ s, occurs s v ∧ string_too_long max_chars s = true.
Proof.
  induction v as [|b|n|s|vs IH|ms IH] using Value_ind'; simpl.
  - split; [done|]. intros (s & Ho & _). inversion Ho.
  - split; [done|]. intros (s & Ho & _). inversion Ho.
  - split; [done|]. intros (s & Ho & _). inversion Ho.
  - split; [eauto using occurs|]. intros (t & Ho & Ht). inversion Ho. by subst.
  - rewrite Forall_forall in IH. rewrite existsb_elem_of. split.
    + intros (v & Hv & (s & Ho & Hs)%(IH v Hv)). eauto using occurs.
    + intros (s & Ho & Hs). inversion Ho as [|? v ? Hv Hov| |]; subst. exists v. split; [done|]. apply IH; eauto.
  - rewrite Forall_forall in IH. rewrite existsb_elem_of. setoid_rewrite orb_true_iff. split.
    + intros ([k v] & Hkv & [Hk|Hv]); simpl in *; [eauto using occurs|].
      apply (IH (k, v) Hkv) in Hv as (s & Ho & Hs). eauto using occurs.
    + intros (s & Ho & Hs). inversion Ho as [| |k v ? Hkv|? k v ? Hkv Hov]; subst.
      * exists (s, v). auto.
      * exists (k, v). split; [done|]. right. apply (IH (k, v) Hkv). eauto.
Qed.

Lemma elem_of_interface_sizes v n :
  n ∈ interface_sizes v ↔ ∃ name ms, (name = "inputs" ∨ name = "outputs") ∧
    get_object name v = Some ms ∧ n = N.of_nat (length ms).
Proof.
  unfold interface_sizes. rewrite list_elem_of_omap. split.
  - intros (name & Hname & Hn). apply fmap_Some in Hn as (ms & Hms & ->).
    rewrite !elem_of_cons, elem_of_nil in Hname. exists name, ms. split_and!; [tauto|done|done].
  - intros (name & ms & Hname & Hms & ->). exists name. rewrite Hms, !elem_of_cons, elem_of_nil. naive_solver.
Qed.

Lemma any_node_spec value f : any_node value f = true ↔ ∃ node, document_node value node ∧ f node = true.
Proof.
  unfold any_node, document_node. destruct (get_array "nodes" value) as [nodes|]; [|naive_solver].
  rewrite existsb_elem_of. naive_solver.
Qed.

Lemma is_some_and_spec {A} (o : option A) f : is_some_and o f = true ↔ ∃ a, o = Some a ∧ f a = true.
Proof. destruct o; simpl; naive_solver. Qed.

Lemma exceeds_spec {A} (l : list A) limit : exceeds l limit = true ↔ (limit < N.of_nat (length l))%N.
Proof. apply N.ltb_lt. Qed.

(** Membership of each violation in the result. *)
Lemma elem_of_inspect violation value limits :
  violation ∈ inspect_value_limits value limits ↔
  match violation with
  | NodeCount => ∃ nodes, get_array "nodes" value = Some nodes ∧ (max_nodes limits < N.of_nat (length nodes))%N
  | PortCount => ∃ n, n ∈ interfaces value ∧ (max_ports_per_interface limits < n)%N
  | AuthorityRequestCount => ∃ node, document_node value node ∧ ∃ requests,
      get_array "authority_requests" node = Some requests ∧
      (max_authority_requests_per_node limits < N.of_nat (length requests))%N
  | FallbackCount => ∃ node, document_node value node ∧ ∃ fallbacks,
      (value_get "failure" node ≫= get_array "fallback_capabilities") = Some fallbacks ∧
      (max_fallbacks_per_node limits < N.of_nat (length fallbacks))%N
  | StringLength => ∃ s, occurs s value ∧ (max_string_chars limits < N.of_nat (chars_count s))%N
  end.
Proof.
  assert (∀ (b : bool) (w : LimitViolation), violation ∈ (if b then [w] else []) ↔ b = true ∧ violation = w) as Hone.
  { intros [] w; [rewrite list_elem_of_singleton|rewrite elem_of_nil]; naive_solver. }
  unfold inspect_value_limits. rewrite !elem_of_app, !Hone, !any_node_spec, !is_some_and_spec, existsb_elem_of,
    contains_long_string_spec.
  unfold string_too_long. setoid_rewrite is_some_and_spec. setoid_rewrite exceeds_spec.
  setoid_rewrite N.ltb_lt.
  destruct violation; naive_solver.
Qed.

Lemma elem_of_interfaces value n :
  n ∈ interfaces value ↔ ∃ owner name ports, (owner = value ∨ document_node value owner) ∧
    (name = "inputs" ∨ name = "outputs") ∧ get_object name owner = Some ports ∧ n = N.of_nat (length ports).
Proof.
  unfold interfaces, document_node. rewrite elem_of_app, list_elem_of_bind, elem_of_interface_sizes.
  setoid_rewrite elem_of_interface_sizes.
  destruct (get_array "nodes" value) as [nodes|]; simpl.
  - split; [|naive_solver]. intros [(name & ms & ?)|(node & (name & ms & ?) & ?)].
    + exists value, name, ms. naive_solver.
    + exists node, name, ms. naive_solver.
  - setoid_rewrite elem_of_nil. split; [|naive_solver].
    intros [(name & ms & ?)|(node & _ & [])]. exists value, name, ms. naive_solver.
Qed.

Lemma inspect_value_limits_nil value limits :
  inspect_value_limits value limits = [] ↔ within_limits value limits.
Proof.
  assert (inspect_value_limits value limits = [] ↔ ∀ w, w ∉ inspect_value_limits value limits) as ->.
  { destruct (inspect_value_limits value limits) as [|w l]; [set_solver|].
    split; [done|]. intros H. destruct (H w). by left. }
  setoid_rewrite elem_of_inspect. split.
  - intros H. split; intros; apply N.nlt_ge; intros ?.
    + apply (H NodeCount). eauto.
    + apply (H PortCount). eexists. rewrite elem_of_interfaces. eauto 10.
    + apply (H AuthorityRequestCount). eauto 10.
    + match goal with H1 : value_get _ _ = _, H2 : get_array _ _ = _ |- _ =>
        apply (H FallbackCount); eexists; split; [eassumption|]; eexists; rewrite H1; split; [exact H2|done] end.
    + apply (H StringLength). eauto.
  - intros [Hn Hp Hr Hf Hs] [].
    + intros (nodes & ? & ?). specialize (Hn nodes). naive_solver lia.
    + intros (n & (owner & name & ports & ? & ? & ? & ->)%elem_of_interfaces & ?).
      specialize (Hp owner name ports). naive_solver lia.
    + intros (node & ? & requests & ? & ?). specialize (Hr node requests). naive_solver lia.
    + intros (node & ? & fallbacks & (failure & ? & ?)%bind_Some & ?).
      specialize (Hf node failure fallbacks). naive_solver lia.
    + intros (s & ? & ?). specialize (Hs s). naive_solver lia.
Qed.

(** ** Claims *)

(** C24: [inspect_value_limits] reports nothing exactly for the documents inside
    every ceiling, each ceiling inclusive: the node count, the size of every
    program and node interface, the authority requests and fallbacks of every node,
    and the scalar count of every member name and string value at any depth. *)
Theorem inspect_value_limits_exact value limits :
  inspect_value_limits value limits = [] ↔ within_limits value limits.
Proof. apply inspect_value_limits_nil. Qed.

(** Whatever limits a caller asks for, the clamped limits stay in the supported
    ranges (JSON depth at most 127, between 1 and 256 diagnostics), no ceiling is
    raised except the diagnostic one from zero to one, clamping twice changes nothing,
    and the default limits are already in range. *)
Theorem bounded_for_output_range (self : ValidationLimits) :
  let b := bounded_for_output self in
  (max_depth b ≤ 127)%N ∧ (1 ≤ max_diagnostics b ≤ 256)%N ∧
  (max_depth b ≤ max_depth self)%N ∧ (max_diagnostics b ≤ N.max 1 (max_diagnostics self))%N ∧
  max_string_chars b = max_string_chars self ∧ max_document_bytes b = max_document_bytes self ∧
  (∀ value, inspect_value_limits value b = inspect_value_limits value self) ∧
  bounded_for_output b = b ∧ bounded_for_output default_limits = default_limits.
Proof.
  unfold bounded_for_output, MAX_SUPPORTED_JSON_DEPTH, MAX_OUTPUT_DIAGNOSTICS; simpl.
  split_and!; try lia; try done. f_equal; lia.
Qed.
