(* ===== verification/Parse.v ===== *)
(** * Strict JSON parsing

    [crates/aios-ir/src/parse.rs]: the depth pre-scan, the scanner that neutralises
    out-of-range numbers under [metadata], the visitor that rejects duplicate member
    names, and their composition [parse_strict_json].

    Bytes are the characters of a [string].  The third-party [serde_json] is a
    parameter: [decode_string] and [number_parses] are [from_slice::<String>] and
    [from_slice::<Number>] on one token, and [deserializer] gives, for a byte string,
    the calls it makes on a visitor (a [Doc], errors included, in source order) with
    the result of [Deserializer::end].

    A scanner keeps the bytes not yet read next to the index of the first of them.
    Its recursion is bounded by fuel; [None] is running out of fuel or a slice out of
    range, and neither happens ([sanitize_numbers_only]). *)

From Stdlib Require Import SpecFloat.
From S2P Require Import Prelude Json Numbers Limits.

#[local] Set Warnings "-register-all".

Definition DUPLICATE_MARKER : string := "AIOS_DUPLICATE_KEY:".

Inductive StrictJsonError :=
  | DepthLimit
  | DuplicateKey (key : string)
  | Invalid (message : string).

(** ** The depth pre-scan *)

Definition quote : ascii := "034"%char.
Definition backslash : ascii := "092"%char.
Definition opening (c : ascii) : bool := bool_decide (c = "{"%char) || bool_decide (c = "["%char).
Definition closing (c : ascii) : bool := bool_decide (c = "}"%char) || bool_decide (c = "]"%char).

(** [usize::saturating_add(1)] *)
Definition saturating_succ (depth : N) : N := N.min u64_max (depth + 1).

Fixpoint depth_loop (max_depth depth : N) (in_string escaped : bool) (bytes : string) : bool :=
  match bytes with
  | EmptyString => false
  | String byte rest =>
      if in_string then
        if escaped then depth_loop max_depth depth true false rest
        else if bool_decide (byte = backslash) then depth_loop max_depth depth true true rest
        else if bool_decide (byte = quote) then depth_loop max_depth depth false escaped rest
        else depth_loop max_depth depth true escaped rest
      else if bool_decide (byte = quote) then depth_loop max_depth depth true escaped rest
      else if opening byte then
        let depth := saturating_succ depth in
        if (max_depth <? depth)%N then true else depth_loop max_depth depth false escaped rest
      else if closing byte then depth_loop max_depth (N.pred depth) false escaped rest
      else depth_loop max_depth depth false escaped rest
  end.

Definition exceeds_depth (bytes : string) (max_depth : N) : bool := depth_loop max_depth 0 false false bytes.

(** ** The metadata scanner *)

Record MetadataScanner := {
  sc_rest : string;
  sc_index : nat;
  sc_replacements : list (nat * nat);
}.

(** A step of the scanner: no fuel, [Err(())], or a result with the new scanner. *)
Definition Scan (A : Type) : Type := MetadataScanner → option (result unit (A * MetadataScanner)).

#[export] Instance Scan_ret : MRet Scan := λ A a s, Some (Ok (a, s)).
#[export] Instance Scan_bind : MBind Scan := λ A B k m s,
  match m s with
  | None => None
  | Some (Err e) => Some (Err e)
  | Some (Ok (a, s')) => k a s'
  end.

Definition scan_fail {A} : Scan A := λ _, Some (Err ()).
Definition no_fuel {A} : Scan A := λ _, None.

(** Read [token], which the remaining bytes start with. *)
Definition advance (token rest : string) (s : MetadataScanner) : MetadataScanner :=
  {| sc_rest := rest; sc_index := sc_index s + byte_len token; sc_replacements := sc_replacements s |}.

(** [u8::is_ascii_whitespace] *)
Definition is_ascii_whitespace (c : ascii) : bool :=
  bool_decide (c ∈ [" "%char; "009"%char; "010"%char; "012"%char; "013"%char]).

Definition skip_whitespace : Scan unit := λ s,
  let '(blank, rest) := span is_ascii_whitespace (sc_rest s) in Some (Ok ((), advance blank rest s)).

Definition consume (expected : ascii) : Scan bool := λ s,
  match sc_rest s with
  | String c rest =>
      if bool_decide (c = expected) then Some (Ok (true, advance (String c "") rest s)) else Some (Ok (false, s))
  | EmptyString => Some (Ok (false, s))
  end.

(** [self.bytes.get(self.index)] *)
Definition peek : Scan (option ascii) := λ s,
  Some (Ok (match sc_rest s with String c _ => Some c | EmptyString => None end, s)).

Definition scan_literal (literal : string) : Scan unit := λ s,
  match strip_prefix literal (sc_rest s) with
  | Some rest => Some (Ok ((), advance literal rest s))
  | None => Some (Err ())
  end.

(** The string loop: the bytes up to the closing quote, and those after it. *)
Fixpoint string_body (escaped : bool) (bytes : string) : option (string * string) :=
  match bytes with
  | EmptyString => None
  | String byte rest =>
      if escaped then '(body, after) ← string_body false rest; Some (String byte body, after)
      else if bool_decide (byte = backslash) then
        '(body, after) ← string_body true rest; Some (String byte body, after)
      else if bool_decide (byte = quote) then Some (String byte "", rest)
      else '(body, after) ← string_body false rest; Some (String byte body, after)
  end.

(** The grammar of [scan_number]: the token and the bytes after it. *)
Definition number_token (bytes : string) : option (string * string) :=
  let unsigned := match bytes with
                  | String c rest => if bool_decide (c = "-"%char) then rest else bytes
                  | EmptyString => bytes
                  end in
  '(_, rest) ← lex_integer unsigned;
  '(_, rest) ← lex_fraction rest;
  '(_, _, rest) ← lex_exponent rest;
  Some (DecimalToken.take_bytes (byte_len bytes - byte_len rest) bytes, rest).

(** [&bytes[start..end]], which panics out of range. *)
Definition slice (bytes : string) (first last : nat) : option string :=
  if (first <=? last) && (last <=? byte_len bytes)
  then Some (DecimalToken.take_bytes (last - first) (DecimalToken.drop_bytes first bytes)) else None.

(** The rewriting loop of [sanitize_out_of_range_metadata_numbers]. *)
Fixpoint splice (bytes : string) (copied : nat) (replacements : list (nat * nat)) : option string :=
  match replacements with
  | [] => slice bytes copied (byte_len bytes)
  | (first, last) :: replacements' =>
      kept ← slice bytes copied first;
      rest ← splice bytes last replacements';
      Some (kept +++ "0" +++ rest)
  end.

Section scanner.

Context (decode_string : string → option string) (number_parses : string → bool).

Definition scan_string : Scan string := λ s,
  match sc_rest s with
  | EmptyString => Some (Err ())
  | String c rest =>
      if bool_decide (c = quote) then
        match string_body false rest with
        | None => Some (Err ())
        | Some (body, after) =>
            match decode_string (String c body) with
            | None => Some (Err ())
            | Some key => Some (Ok (key, advance (String c body) after s))
            end
        end
      else Some (Err ())
  end.

Definition scan_number (inside_metadata : bool) : Scan unit := λ s,
  match number_token (sc_rest s) with
  | None => Some (Err ())
  | Some (token, rest) =>
      let s' := advance token rest s in
      if inside_metadata && negb (number_parses token) then
        Some (Ok ((), {| sc_rest := sc_rest s'; sc_index := sc_index s';
                         sc_replacements := sc_replacements s' ++ [(sc_index s, sc_index s')] |}))
      else Some (Ok ((), s'))
  end.

(** [scan_object] and [scan_array] are the branches of [scan_value] on an opening
    bracket and the two loops. *)
Fixpoint scan_value (fuel : nat) (inside_metadata : bool) (depth : N) : Scan unit :=
  match fuel with
  | 0 => no_fuel
  | S fuel' =>
      if (MAX_SUPPORTED_JSON_DEPTH <? depth)%N then scan_fail
      else
        skip_whitespace ≫= λ _,
        peek ≫= λ next,
        match next with
        | None => scan_fail
        | Some c =>
            if bool_decide (c = "{"%char) then
              consume "{"%char ≫= λ _,
              skip_whitespace ≫= λ _,
              consume "}"%char ≫= λ closed : bool,
              if closed then mret () else scan_members fuel' inside_metadata depth
            else if bool_decide (c = "["%char) then
              consume "["%char ≫= λ _,
              skip_whitespace ≫= λ _,
              consume "]"%char ≫= λ closed : bool,
              if closed then mret () else scan_elements fuel' inside_metadata depth
            else if bool_decide (c = quote) then scan_string ≫= λ _, mret ()
            else if bool_decide (c = "t"%char) then scan_literal "true"
            else if bool_decide (c = "f"%char) then scan_literal "false"
            else if bool_decide (c = "n"%char) then scan_literal "null"
            else if number_start c then scan_number inside_metadata
            else scan_fail
        end
  end
with scan_members (fuel : nat) (inside_metadata : bool) (depth : N) : Scan unit :=
  match fuel with
  | 0 => no_fuel
  | S fuel' =>
      scan_string ≫= λ key,
      skip_whitespace ≫= λ _,
      consume ":"%char ≫= λ colon : bool,
      if negb colon then scan_fail
      else
        scan_value fuel' (inside_metadata || bool_decide (key = "metadata")) (depth + 1) ≫= λ _,
        skip_whitespace ≫= λ _,
        consume "}"%char ≫= λ closed : bool,
        if closed then mret ()
        else
          consume ","%char ≫= λ comma : bool,
          if negb comma then scan_fail
          else skip_whitespace ≫= λ _, scan_members fuel' inside_metadata depth
  end
with scan_elements (fuel : nat) (inside_metadata : bool) (depth : N) : Scan unit :=
  match fuel with
  | 0 => no_fuel
  | S fuel' =>
      scan_value fuel' inside_metadata (depth + 1) ≫= λ _,
      skip_whitespace ≫= λ _,
      consume "]"%char ≫= λ closed : bool,
      if closed then mret ()
      else
        consume ","%char ≫= λ comma : bool,
        if negb comma then scan_fail else scan_elements fuel' inside_metadata depth
  end.

(** Two fuel units per byte are enough. *)
Definition scan_fuel (bytes : string) : nat := 2 * byte_len bytes + 1.

Definition sanitize_out_of_range_metadata_numbers (bytes : string) : option string :=
  let scanner := {| sc_rest := bytes; sc_index := 0; sc_replacements := [] |} in
  match (scan_value (scan_fuel bytes) false 0 ≫= λ _, skip_whitespace) scanner with
  | None => None
  | Some (Err _) => Some bytes
  | Some (Ok (_, s)) =>
      if negb (bool_decide (sc_index s = byte_len bytes)) || bool_decide (sc_replacements s = [])
      then Some bytes
      else splice bytes 0 (sc_replacements s)
  end.

End scanner.

(** ** The strict visitor *)

(** What the deserializer calls on the visitor.  An error of the deserializer is a
    [DError] or the end of a sequence or object; [position] is the text that it
    appends to an error that the visitor raises at this place. *)
Inductive Doc :=
  | DError (message : string)
  | DUnit
  | DBool (value : bool)
  | DI64 (value : Z)
  | DU64 (value : N)
  | DF64 (value : spec_float) (position : string)
  | DStr (value : string)
  | DSeq (elements : list Doc) (tail : result string unit)
  | DMap (members : list (string * Doc)) (tail : result string unit) (position : string).

(** [Number::from::<i64>] and [Number::from_f64]. *)
Definition number_from_i64 (value : Z) : Number :=
  if (value <? 0)%Z then NegInt value else PosInt (Z.to_N value).

Definition number_from_f64 (value : spec_float) : option Number :=
  match value with S754_zero _ | S754_finite _ _ _ => Some (Float value) | _ => None end.

(** [Map::contains_key] *)
Definition contains_key {V} (key : string) (values : list (string * V)) : bool :=
  match assoc_get key values with Some _ => true | None => false end.

Fixpoint visit (doc : Doc) : result string Value :=
  match doc with
  | DError message => Err message
  | DUnit => Ok Null
  | DBool value => Ok (Bool value)
  | DI64 value => Ok (Num (number_from_i64 value))
  | DU64 value => Ok (Num (PosInt value))
  | DF64 value position =>
      match number_from_f64 value with
      | Some number => Ok (Num number)
      | None => Err ("non-finite JSON number" +++ position)
      end
  | DStr value => Ok (Str value)
  | DSeq elements tail =>
      (fix visit_seq (values : list Value) (elements : list Doc) : result string Value :=
         match elements with
         | [] => match tail with Ok _ => Ok (Array values) | Err e => Err e end
         | element :: elements' =>
             match visit element with
             | Err e => Err e
             | Ok value => visit_seq (values ++ [value]) elements'
             end
         end) [] elements
  | DMap members tail position =>
      (fix visit_map (values : list (string * Value)) (members : list (string * Doc)) : result string Value :=
         match members with
         | [] => match tail with Ok _ => Ok (Object values) | Err e => Err e end
         | (key, member) :: members' =>
             if contains_key key values then Err (DUPLICATE_MARKER +++ key +++ position)
             else
               match visit member with
               | Err e => Err e
               | Ok value => visit_map (assoc_insert key value values) members'
               end
         end) [] members
  end.

(** [str::find]: the text before and after the first occurrence. *)
Fixpoint find_str (pattern s : string) : option (string * string) :=
  match strip_prefix pattern s with
  | Some rest => Some ("", rest)
  | None =>
      match s with
      | EmptyString => None
      | String c s' => '(before, rest) ← find_str pattern s'; Some (String c before, rest)
      end
  end.

Definition classify_error (message : string) : StrictJsonError :=
  match find_str DUPLICATE_MARKER message with
  | Some (_, key) =>
      let key := match find_str " at line " key with Some (before, _) => before | None => key end in
      DuplicateKey (take_chars 256 key)
  | None => Invalid message
  end.

Section parse.

Context (decode_string : string → option string) (number_parses : string → bool)
        (deserializer : string → Doc * result string unit).

(** [None]: the sanitizer panics (or has no fuel). *)
Definition parse_strict_json (bytes : string) (max_depth : N) : option (result StrictJsonError Value) :=
  let max_depth := N.min max_depth MAX_SUPPORTED_JSON_DEPTH in
  if exceeds_depth bytes max_depth then Some (Err DepthLimit)
  else
    sanitized ← sanitize_out_of_range_metadata_numbers decode_string number_parses bytes;
    Some
      match prepare_numbers sanitized IrIntegers with
      | Err message => Err (Invalid message)
      | Ok prepared =>
          let '(doc, fin) := deserializer prepared in
          match visit doc with
          | Err error => Err (classify_error error)
          | Ok value =>
              match fin with
              | Err error => Err (classify_error error)
              | Ok _ => Ok value
              end
          end
      end.

End parse.

(** ** The depth pre-scan is exact *)

(** Texts whose brackets balance outside of string literals, with their depth. *)
Inductive nested : string → N → Prop :=
  | nested_nil : nested "" 0
  | nested_char c s d : c ≠ quote → opening c = false → closing c = false →
      nested s d → nested (String c s) d
  | nested_string body s d : string_body false body = Some (body, "") →
      nested s d → nested (String quote (body +++ s)) d
  | nested_group o c body s d1 d2 : opening o = true → closing c = true →
      nested body d1 → nested s d2 → nested (String o (body +++ String c s)) (N.max (d1 + 1) d2).

(** Texts in which every closing bracket has its opening one. *)
Inductive opened : string → N → Prop :=
  | opened_nested s d : nested s d → opened s d
  | opened_string s body d : nested s d → string_body false body = None → opened (s +++ String quote body) d
  | opened_group s o rest d1 d2 : nested s d1 → opening o = true → opened rest d2 →
      opened (s +++ String o rest) (N.max d1 (d2 + 1)).

(** Any text, with the depth of its brackets: a closing bracket without an opening one
    is ignored, and one that is missing at the end is not needed. *)
Inductive bracketed : string → N → Prop :=
  | bracketed_opened s d : opened s d → bracketed s d
  | bracketed_closing s c rest d1 d2 : nested s d1 → closing c = true → bracketed rest d2 →
      bracketed (s +++ String c rest) (N.max d1 d2).

Lemma depth_loop_string max depth esc body rest : string_body esc body = Some (body, "") →
  depth_loop max depth true esc (body +++ rest) = depth_loop max depth false false rest.
Proof.
  revert esc. induction body as [|b body IH]; intros esc; simpl; [done|].
  assert (∀ e', (('(x, after) ← string_body e' body; Some (String b x, after)) = Some (String b body, "")) →
    string_body e' body = Some (body, "")) as Hrec.
  { intros e'. destruct (string_body e' body) as [[x after]|]; simpl; [|done]. by intros [= -> ->]. }
  destruct esc; [by intros ?%Hrec; apply IH|].
  case_bool_decide; [by intros ?%Hrec; apply IH|].
  case_bool_decide; [by intros [= <-]|by intros ?%Hrec; apply IH].
Qed.

Lemma opening_not_quote c : opening c = true → c ≠ quote ∧ closing c = false.
Proof.
  unfold opening, closing. intros [->%bool_decide_eq_true| ->%bool_decide_eq_true]%orb_true_iff; done.
Qed.

Lemma closing_not_quote c : closing c = true → c ≠ quote ∧ opening c = false.
Proof.
  unfold opening, closing. intros [->%bool_decide_eq_true| ->%bool_decide_eq_true]%orb_true_iff; done.
Qed.

Lemma depth_loop_nested max text d depth rest : nested text d → (max < u64_max)%N → (depth ≤ max)%N →
  depth_loop max depth false false (text +++ rest) =
  if (max <? depth + d)%N then true else depth_loop max depth false false rest.
Proof.
  intros Hn Hmax. revert depth rest. induction Hn as [|c s d Hq Ho Hc Hn IH|body s d Hb Hn IH
    |o c body s d1 d2 Ho Hc Hn1 IH1 Hn2 IH2]; intros depth rest Hd.
  - rewrite N.add_0_r. destruct (N.ltb_spec max depth); [lia|done].
  - rewrite append_cons. cbn [depth_loop]. rewrite bool_decide_eq_false_2, Ho, Hc by done. by apply IH.
  - rewrite append_cons, append_assoc. cbn [depth_loop]. rewrite bool_decide_eq_true_2 by done.
    rewrite depth_loop_string by done. by apply IH.
  - apply opening_not_quote in Ho as Ho'. destruct Ho' as [Hoq _]. apply closing_not_quote in Hc as Hc'.
    destruct Hc' as [Hcq Hco]. rewrite append_cons, append_assoc, append_cons. cbn [depth_loop].
    rewrite bool_decide_eq_false_2, Ho by done.
    assert (saturating_succ depth = depth + 1)%N as -> by (unfold saturating_succ; lia).
    destruct (N.ltb_spec max (depth + 1)) as [H|H].
    { destruct (N.ltb_spec max (depth + N.max (d1 + 1) d2)); [done|lia]. }
    rewrite IH1 by lia. destruct (N.ltb_spec max (depth + 1 + d1)) as [H1|H1].
    { destruct (N.ltb_spec max (depth + N.max (d1 + 1) d2)); [done|lia]. }
    cbn [depth_loop]. rewrite bool_decide_eq_false_2, Hco, Hc by done.
    rewrite <-N.sub_1_r, N.add_sub, IH2 by lia.
    destruct (N.ltb_spec max (depth + d2)), (N.ltb_spec max (depth + N.max (d1 + 1) d2)); done || lia.
Qed.

(** An unterminated literal hides everything that follows it. *)
Lemma depth_loop_unterminated max depth esc body : string_body esc body = None → depth_loop max depth true esc body = false.
Proof.
  revert esc. induction body as [|b body IH]; intros esc; simpl; [done|].
  assert (∀ e', (('(x, after) ← string_body e' body; Some (String b x, after)) = None) → string_body e' body = None) as Hrec.
  { intros e'. by destruct (string_body e' body) as [[x after]|]. }
  destruct esc; [by intros ?%Hrec; apply IH|]. case_bool_decide; [by intros ?%Hrec; apply IH|].
  case_bool_decide; [done|by intros ?%Hrec; apply IH].
Qed.

Lemma depth_loop_opened max text d depth : opened text d → (max < u64_max)%N → (depth ≤ max)%N →
  depth_loop max depth false false text = (max <? depth + d)%N.
Proof.
  intros Ho Hmax. revert depth. induction Ho as [s d Hn|s body d Hn Hb|s o rest d1 d2 Hn Ho _ IH]; intros depth Hd.
  - rewrite <-(append_nil_r s), (depth_loop_nested _ _ d) by done. by destruct (max <? depth + d)%N.
  - rewrite (depth_loop_nested _ _ d) by done. cbn [depth_loop]. rewrite bool_decide_eq_true_2 by done.
    rewrite depth_loop_unterminated by done. by destruct (max <? depth + d)%N.
  - rewrite (depth_loop_nested _ _ d1) by done. destruct (opening_not_quote o Ho) as [Hoq _].
    cbn [depth_loop]. rewrite bool_decide_eq_false_2, Ho by done.
    assert (saturating_succ depth = depth + 1)%N as -> by (unfold saturating_succ; lia).
    destruct (N.ltb_spec max (depth + d1)), (N.ltb_spec max (depth + 1)); [..|rewrite IH by lia];
      destruct (N.ltb_spec max (depth + N.max d1 (d2 + 1))); try (destruct (N.ltb_spec max (depth + 1 + d2))); done || lia.
Qed.

Lemma depth_loop_bracketed max text d : bracketed text d → (max < u64_max)%N →
  depth_loop max 0 false false text = (max <? d)%N.
Proof.
  intros Hb Hmax. induction Hb as [s d Ho|s c rest d1 d2 Hn Hc _ IH]; [rewrite (depth_loop_opened _ _ d) by (done || lia); by rewrite N.add_0_l|].
  rewrite (depth_loop_nested _ _ d1), N.add_0_l by (done || lia). destruct (closing_not_quote c Hc) as [Hcq Hco].
  cbn [depth_loop]. rewrite bool_decide_eq_false_2, Hco, Hc by done. change (N.pred 0) with 0%N. rewrite IH.
  destruct (N.ltb_spec max d1), (N.ltb_spec max d2), (N.ltb_spec max (N.max d1 d2)); done || lia.
Qed.

(** A complete piece before a text. *)
Definition piece (p : string) (k : N) : Prop := ∀ s d, nested s d → nested (p +++ s) (N.max k d).

Lemma piece_opened p k s d : piece p k → opened s d → opened (p +++ s) (N.max k d).
Proof.
  intros Hp Ho. destruct Ho as [s d Hn|s body d Hn Hb|s o rest d1 d2 Hn Ho Hr].
  - by apply opened_nested, Hp.
  - rewrite <-append_assoc. apply opened_string; [by apply Hp|done].
  - rewrite <-append_assoc, N.max_assoc. apply opened_group; [by apply Hp|done|done].
Qed.

(** A text has an unmatched closing bracket, or none. *)
Definition split_text (s : string) : Prop :=
  (∃ d, opened s d) ∨ ∃ pre c rest d, nested pre d ∧ closing c = true ∧ s = pre +++ String c rest.

Lemma piece_split p k s : piece p k → split_text s → split_text (p +++ s).
Proof.
  intros Hp [(d & Ho)|(pre & c & rest & d & Hn & Hc & ->)]; [left|right].
  - eexists. by apply (piece_opened p k).
  - exists (p +++ pre), c, rest, (N.max k d). split_and!; [by apply Hp|done|by rewrite append_assoc].
Qed.

Lemma string_body_split esc s body after : string_body esc s = Some (body, after) →
  s = body +++ after ∧ string_body esc body = Some (body, "").
Proof.
  revert esc body. induction s as [|b s IH]; intros esc body; simpl; [done|].
  assert (∀ e', (('(x, after) ← string_body e' s; Some (String b x, after)) = Some (body, after)) →
    ∃ x, body = String b x ∧ s = x +++ after ∧ string_body e' x = Some (x, "")) as Hrec.
  { intros e'. destruct (string_body e' s) as [[x after']|] eqn:E; simpl; [|done]. intros [= <- ->]. exists x. by apply IH in E. }
  destruct esc; [|case_bool_decide as Hb; [|case_bool_decide as Hq]].
  3: { intros [= <- <-]. split; [done|]. simpl. by rewrite bool_decide_eq_false_2, bool_decide_eq_true_2. }
  all: intros (x & -> & -> & Hx)%Hrec; split; [done|]; simpl.
  - by rewrite Hx.
  - by rewrite bool_decide_eq_true_2, Hx.
  - by rewrite !bool_decide_eq_false_2, Hx.
Qed.

Lemma text_splits s : split_text s.
Proof.
  remember (byte_len s) as n eqn:Hn. revert s Hn. induction (lt_wf n) as [n _ IH]. intros [|c s] ->; [left; exists 0%N; constructor; constructor|].
  assert (∀ t, byte_len t ≤ byte_len s → split_text t) as IHt.
  { intros t Ht. apply (IH (byte_len t)); [|done]. unfold byte_len in *. simpl. lia. }
  destruct (decide (c = quote)) as [->|Hq].
  { destruct (string_body false s) as [[body after]|] eqn:E.
    - apply string_body_split in E as [-> Hb]. apply (piece_split (String quote body) 0).
      + intros t d Ht. rewrite N.max_0_l. by apply nested_string.
      + apply IHt. rewrite byte_len_append. lia.
    - left. exists 0%N. apply (opened_string ""); [constructor|done]. }
  destruct (closing c) eqn:Hc; [right; exists "", c, s, 0%N; split_and!; [constructor|done|done]|].
  destruct (opening c) eqn:Ho.
  - destruct (IHt s) as [(d & Hs)|(pre & c' & rest & d & Hp & Hc' & ->)]; [done|left|].
    + eexists. apply (opened_group "" c s 0 d); [constructor|done|done].
    + assert (String c (pre +++ String c' rest) = String c (pre +++ String c' "") +++ rest) as -> by (rewrite append_cons, append_assoc; done).
      apply (piece_split _ (d + 1)).
      * intros t k Ht. rewrite append_cons, append_assoc. by apply nested_group.
      * apply IHt. rewrite byte_len_append. unfold byte_len. simpl. lia.
  - apply (piece_split (String c "") 0); [|by apply IHt]. intros t d Ht. rewrite N.max_0_l. by apply nested_char.
Qed.

Lemma bracketed_total s : ∃ d, bracketed s d.
Proof.
  remember (byte_len s) as n eqn:Hn. revert s Hn. induction (lt_wf n) as [n _ IH]. intros s ->.
  destruct (text_splits s) as [(d & Ho)|(pre & c & rest & d & Hp & Hc & ->)]; [exists d; by constructor|].
  destruct (IH (byte_len rest)) with rest as [d' Hr]; [rewrite byte_len_append; unfold byte_len; simpl; lia|done|].
  eexists. by apply (bracketed_closing pre c rest d d').
Qed.

(** C16: every text has a bracket depth, and the depth pre-scan rejects exactly the texts
    nested deeper than the limit (which is inclusive): brackets inside string literals,
    escaped quotes included, do not count; neither do closing brackets without an
    opening one, and an unterminated literal hides the rest of the text. *)
Theorem exceeds_depth_exact text max_depth : (max_depth ≤ MAX_SUPPORTED_JSON_DEPTH)%N →
  (∃ d, bracketed text d) ∧ ∀ d, bracketed text d → exceeds_depth text max_depth = (max_depth <? d)%N.
Proof.
  intros Hmax. split; [apply bracketed_total|]. intros d Hd. unfold exceeds_depth. apply depth_loop_bracketed; [done|].
  unfold MAX_SUPPORTED_JSON_DEPTH, u64_max in *. lia.
Qed.

Definition sample_text : string := "[" +++ String quote ("a[\[" +++ String quote ",[1]]").

Lemma exceeds_depth_exact_witness : exceeds_depth sample_text 1 = true ∧ exceeds_depth ("]" +++ sample_text +++ "[") 2 = false.
Proof.
  assert (nested sample_text 2) as Hn.
  { apply (nested_group "["%char "]"%char (String quote ("a[\[" +++ String quote ",[1]")) "" 1 0); try done; [|constructor].
    apply (nested_string ("a[\[" +++ String quote "") ",[1]" 1); [done|].
    apply nested_char; try done. apply (nested_group "["%char "]"%char "1" "" 0 0); try done; [|constructor].
    apply nested_char; try done. constructor. }
  split.
  - destruct (exceeds_depth_exact sample_text 1) as [_ He]; [done|]. rewrite (He 2%N); [done|]. by constructor; constructor.
  - destruct (exceeds_depth_exact ("]" +++ sample_text +++ "[") 2) as [_ He]; [done|]. rewrite (He 2%N); [done|].
    apply (bracketed_closing "" "]"%char (sample_text +++ "[") 0 2); [constructor|done|]. constructor.
    apply (opened_group sample_text "["%char "" 2 0); [done|done|by constructor; constructor].
Defined.

(** ** The metadata scanner *)

Lemma take_bytes_append s t : DecimalToken.take_bytes (byte_len s) (s +++ t) = s.
Proof. induction s as [|c s IH]; [by destruct t|]. rewrite append_cons. simpl. f_equal. exact IH. Qed.

Lemma drop_bytes_append s t : DecimalToken.drop_bytes (byte_len s) (s +++ t) = t.
Proof. induction s as [|c s IH]; [by destruct t|]. rewrite append_cons. simpl. exact IH. Qed.

Lemma number_token_split bytes token rest :
  number_token bytes = Some (token, rest) → bytes = token +++ rest ∧ 1 ≤ byte_len token.
Proof.
  unfold number_token. set (unsigned := match bytes with String c r => _ | _ => _ end).
  assert (∃ sign, bytes = sign +++ unsigned) as [sign Hsign].
  { unfold unsigned. destruct bytes as [|c r]; [by exists ""|].
    case_bool_decide; [by exists (String c "")|by exists ""]. }
  clearbody unsigned. intros Hn. subst bytes.
  destruct (lex_integer unsigned) as [[i r1]|] eqn:E1; [|done]. simpl in Hn.
  destruct (lex_fraction r1) as [[f r2]|] eqn:E2; [|done]. simpl in Hn.
  destruct (lex_exponent r2) as [[[n x] r3]|] eqn:E3; [|done]. simpl in Hn. injection Hn as Htok <-.
  assert (∃ pre, sign +++ unsigned = pre +++ r3 ∧ 1 ≤ byte_len pre) as (pre & Hpre & Hlen).
  { assert (∃ p1, unsigned = p1 +++ r1 ∧ 1 ≤ byte_len p1) as (p1 & -> & Hp1).
    { unfold lex_integer in E1. destruct unsigned as [|c r]; [done|].
      case_bool_decide; [injection E1 as <- <-; subst; by exists "0"|].
      destruct (nonzero_digit c) eqn:Hc; [|done]. injection E1 as E1. simpl in E1.
      unfold nonzero_digit in Hc. apply andb_true_iff in Hc as [Hc _]. rewrite Hc in E1.
      destruct (span is_digit r) as [l r'] eqn:Hs. injection E1 as <- <-.
      apply span_spec in Hs as (-> & _). exists (String c l). split; [done|]. unfold byte_len. simpl. lia. }
    assert (∃ p2, r1 = p2 +++ r2) as [p2 ->].
    { unfold lex_fraction in E2. destruct r1 as [|c r]; [injection E2 as <- <-; by exists ""|].
      case_bool_decide; [|injection E2 as <- <-; by exists ""].
      destruct (span is_digit r) as [l r'] eqn:Hs. case_bool_decide; [done|]. injection E2 as <- <-.
      apply span_spec in Hs as (-> & _). by exists (String c l). }
    assert (∃ p3, r2 = p3 +++ r3) as [p3 ->].
    { unfold lex_exponent in E3. destruct r2 as [|c r]; [injection E3 as <- <- <-; by exists ""|].
      destruct (_ || _); [|injection E3 as <- <- <-; by exists ""].
      set (r0 := match r with String d r' => _ | _ => _ end) in E3.
      assert (∃ p, r = p +++ r0) as [p Hp].
      { unfold r0. destruct r as [|d r]; [by exists ""|]. destruct (_ || _); [by exists (String d "")|by exists ""]. }
      clearbody r0. subst r. destruct (span is_digit r0) as [l r'] eqn:Hs. case_bool_decide; [done|]. injection E3 as <- <- <-.
      apply span_spec in Hs as (-> & _). exists (String c (p +++ l)). by rewrite append_cons, append_assoc. }
    exists (sign +++ p1 +++ p2 +++ p3). rewrite !append_assoc. split; [done|].
    rewrite !byte_len_append. lia. }
  rewrite Hpre, byte_len_append in Htok. rewrite Nat.add_sub, take_bytes_append in Htok. subst token.
  by rewrite Hpre.
Qed.

Section steps.

Context (decode_string : string → option string) (number_parses : string → bool).

(** Scanner invariants, and the values of [inside_metadata] that they allow. *)
Context (inv : MetadataScanner → Prop) (allowed : bool → Prop).
Context (inv_advance : ∀ s token rest, inv s → sc_rest s = token +++ rest → inv (advance token rest s)).
Context (inv_number : ∀ inside s token rest, inv s → allowed inside →
  number_token (sc_rest s) = Some (token, rest) → inside && negb (number_parses token) = true →
  inv {| sc_rest := rest; sc_index := sc_index s + byte_len token;
         sc_replacements := sc_replacements s ++ [(sc_index s, sc_index s + byte_len token)] |}).
Context (allowed_key : ∀ inside s c body after key, inv s → allowed inside →
  sc_rest s = String c (body +++ after) → decode_string (String c body) = Some key →
  allowed (inside || bool_decide (key = "metadata"))).

(** The outcome of a step from [s]: the invariant is kept, fuel is not lacking, and
    a success reads at least [k] bytes and returns a value in [Q]. *)
Definition stepped (k : nat) {A} (Q : A → Prop) (s : MetadataScanner)
    (r : option (result unit (A * MetadataScanner))) : Prop :=
  match r with
  | None => False
  | Some (Err _) => True
  | Some (Ok (a, s')) => inv s' ∧ Q a ∧ byte_len (sc_rest s') + k ≤ byte_len (sc_rest s)
  end.

(** The same for every start with at most [n] remaining bytes. *)
Definition steps_at (n k : nat) {A} (m : Scan A) (Q : A → Prop) : Prop :=
  ∀ s, inv s → byte_len (sc_rest s) ≤ n → stepped k Q s (m s).

Lemma steps_ret n {A} (a : A) : steps_at n 0 (mret a) (λ _, True).
Proof. intros s Hs Hn. simpl. split_and!; [done|done|lia]. Qed.

Lemma steps_fail n k {A} Q : steps_at n k (scan_fail (A:=A)) Q.
Proof. intros s Hs Hn. done. Qed.

Lemma steps_bind n k1 k2 {A B} (m : Scan A) (f : A → Scan B) P Q :
  steps_at n k1 m P → (∀ a, P a → k1 ≤ n → steps_at (n - k1) k2 (f a) Q) → steps_at n (k1 + k2) (m ≫= f) Q.
Proof.
  clear. intros Hm Hf s Hs Hn. specialize (Hm s Hs Hn). unfold mbind, Scan_bind.
  destruct (m s) as [[[a s']|]|]; try done. destruct Hm as (Hs' & Ha & Hlen).
  assert (byte_len (sc_rest s') ≤ n - k1) as Hn' by lia.
  specialize (Hf a Ha ltac:(lia) s' Hs' Hn'). destruct (f a s') as [[[b s'']|]|]; try done.
  destruct Hf as (? & ? & ?). split_and!; [done|done|lia].
Qed.

Lemma steps_weaken n k k' {A} (m : Scan A) P Q :
  steps_at n k m P → k' ≤ k → (∀ a, P a → Q a) → steps_at n k' m Q.
Proof.
  clear. intros Hm Hk HPQ s Hs Hn. specialize (Hm s Hs Hn).
  destruct (m s) as [[[a s']|]|]; try done. destruct Hm as (? & ? & ?). split_and!; [done|auto|lia].
Qed.

Lemma steps_skip n : steps_at n 0 skip_whitespace (λ _, True).
Proof using inv_advance.
  intros s Hs Hn. unfold skip_whitespace. destruct (span _ (sc_rest s)) as [blank rest] eqn:E.
  apply span_spec in E as (E & _). split_and!; [by apply inv_advance|done|].
  simpl. rewrite E, byte_len_append. lia.
Qed.

Lemma steps_consume n k c {A} (f : bool → Scan A) Q :
  steps_at (n - 1) (k - 1) (f true) Q → steps_at n k (f false) Q → steps_at n k (consume c ≫= f) Q.
Proof using inv_advance.
  intros Ht Hf s Hs Hn. specialize (Hf s Hs Hn). unfold mbind, Scan_bind, consume.
  destruct (sc_rest s) as [|d rest] eqn:E; [exact Hf|]. case_bool_decide; [|exact Hf].
  assert (inv (advance (String d "") rest s)) as Hs' by (by apply inv_advance).
  specialize (Ht _ Hs'). unfold byte_len in *. simpl in *. unfold stepped in *. rewrite E.
  destruct (f true _) as [[[a s']|]|]; [|done|].
  - destruct Ht as (? & ? & ?); [lia|]. split_and!; [done|done|]. unfold byte_len in *. simpl in *. lia.
  - apply Ht. lia.
Qed.

(** An opening bracket is read. *)
Lemma steps_open n c rest k {A} (m : Scan A) Q s : steps_at (n - 1) k m Q → inv s → byte_len (sc_rest s) ≤ n →
  sc_rest s = String c rest → stepped (S k) Q s ((consume c ≫= λ _, m) s).
Proof using inv_advance.
  intros Hm Hs Hn E. unfold mbind, Scan_bind, consume. rewrite E, bool_decide_eq_true_2 by done.
  assert (inv (advance (String c "") rest s)) as Hs' by (by apply inv_advance).
  rewrite E in Hn. specialize (Hm _ Hs'). unfold byte_len in *. simpl in *. unfold stepped in *. rewrite E.
  destruct (m _) as [[[a s']|]|]; [|done|].
  - destruct Hm as (? & ? & ?); [lia|]. split_and!; [done|done|]. unfold byte_len in *. simpl in *. lia.
  - apply Hm. lia.
Qed.

(** The body of a group, after its opening bracket. *)
Lemma steps_group n close loop : steps_at n 0 loop (λ _, True) →
  steps_at n 0 (skip_whitespace ≫= λ _, consume close ≫= λ closed : bool, if closed then mret () else loop)
    (λ _, True).
Proof using inv_advance.
  intros Hl. apply (steps_bind n 0 0 _ _ _ _ (steps_skip n)). intros _ _ _. rewrite Nat.sub_0_r.
  apply steps_consume; [apply steps_ret|done].
Qed.

(** After an item: a closing bracket, or a comma and the next item. *)
Lemma steps_close n close loop : steps_at (n - 1) 0 loop (λ _, True) →
  steps_at n 0 (skip_whitespace ≫= λ _, consume close ≫= λ closed : bool,
    if closed then mret ()
    else consume ","%char ≫= λ comma : bool, if negb comma then scan_fail else loop) (λ _, True).
Proof using inv_advance.
  intros Hl. apply (steps_bind n 0 0 _ _ _ _ (steps_skip n)). intros _ _ _. rewrite Nat.sub_0_r.
  apply steps_consume; [apply steps_ret|]. apply steps_consume; [done|apply steps_fail].
Qed.

Lemma steps_string n inside : allowed inside →
  steps_at n 1 (scan_string decode_string) (λ key, allowed (inside || bool_decide (key = "metadata"))).
Proof using inv_advance allowed_key.
  intros Hin s Hs Hn. unfold scan_string. destruct (sc_rest s) as [|c rest] eqn:E; [done|].
  case_bool_decide; [|done]. destruct (string_body false rest) as [[body after]|] eqn:Eb; [|done].
  apply string_body_split in Eb as [-> _]. destruct (decode_string (String c body)) as [key|] eqn:Ed; [|done].
  split_and!; [by apply inv_advance|by eapply allowed_key|].
  cbn [sc_rest advance]. rewrite E. change (byte_len (String c (body +++ after))) with (S (byte_len (body +++ after))).
  rewrite byte_len_append. lia.
Qed.

Lemma steps_literal n literal : 1 ≤ byte_len literal → steps_at n 1 (scan_literal literal) (λ _, True).
Proof using inv_advance.
  intros Hl s Hs Hn. unfold scan_literal. destruct (strip_prefix literal (sc_rest s)) as [rest|] eqn:E; [|done].
  apply strip_prefix_Some in E. split_and!; [by apply inv_advance|done|].
  simpl. rewrite E, byte_len_append. lia.
Qed.

Lemma steps_number n inside : allowed inside → steps_at n 1 (scan_number number_parses inside) (λ _, True).
Proof using inv_advance inv_number.
  intros Hin s Hs Hn. unfold scan_number. destruct (number_token (sc_rest s)) as [[token rest]|] eqn:E; [|done].
  pose proof (number_token_split _ _ _ E) as [Hsplit Hlen].
  assert (byte_len rest + 1 ≤ byte_len (sc_rest s)) by (rewrite Hsplit, byte_len_append; lia).
  destruct (inside && negb (number_parses token)) eqn:Hb; simpl; (split_and!; [|done|done]).
  - by apply (inv_number inside).
  - by apply inv_advance.
Qed.

Lemma scan_steps fuel :
  (∀ n inside depth, allowed inside → 2 * n + 1 ≤ fuel →
     steps_at n 1 (scan_value decode_string number_parses fuel inside depth) (λ _, True)) ∧
  (∀ n inside depth, allowed inside → 2 * n + 2 ≤ fuel →
     steps_at n 1 (scan_members decode_string number_parses fuel inside depth) (λ _, True)) ∧
  (∀ n inside depth, allowed inside → 2 * n + 2 ≤ fuel →
     steps_at n 1 (scan_elements decode_string number_parses fuel inside depth) (λ _, True)).
Proof using inv_advance inv_number allowed_key.
  induction fuel as [|fuel (IHv & IHm & IHe)]; [split_and!; intros; lia|]. split_and!.
  - intros n inside depth Hin Hf. simpl. destruct (_ <? depth)%N; [apply steps_fail|].
    apply (steps_bind n 0 1 _ _ _ _ (steps_skip n)). intros _ _ _. rewrite Nat.sub_0_r. intros s Hs Hn.
    pose proof Hn as Hn'. unfold mbind at 1, Scan_bind at 1, peek.
    destruct (sc_rest s) as [|c rest] eqn:E; [done|].
    assert (1 ≤ n) by (unfold byte_len in Hn'; simpl in Hn'; lia). rewrite <-E in Hn. clear Hn'.
    repeat case_bool_decide; subst.
    + apply (steps_open n _ rest); [|done|done|done].
      apply steps_group. eapply (steps_weaken _ 1); [|lia|done]. apply IHm; [done|lia].
    + apply (steps_open n _ rest); [|done|done|done].
      apply steps_group. eapply (steps_weaken _ 1); [|lia|done]. apply IHe; [done|lia].
    + apply (steps_bind n 1 0 _ _ _ _ (steps_string n inside Hin)); [|done|done]. intros; apply steps_ret.
    + apply (steps_literal n); [vm_compute; lia|done|done].
    + apply (steps_literal n); [vm_compute; lia|done|done].
    + apply (steps_literal n); [vm_compute; lia|done|done].
    + destruct (number_start c); [by apply (steps_number n)|done].
  - intros n inside depth Hin Hf. simpl.
    apply (steps_bind n 1 0 _ _ _ _ (steps_string n inside Hin)). intros key Hkey Hn1.
    apply (steps_bind _ 0 0 _ _ _ _ (steps_skip _)). intros _ _ ?.
    apply steps_consume; simpl; [|apply steps_fail].
    eapply (steps_weaken _ 1); [|lia|done]. eapply (steps_bind _ 1 0); [apply IHv; [done|lia]|]. intros _ _ ?.
    apply steps_close. eapply (steps_bind _ 0 0); [apply steps_skip|]. intros _ _ ?.
    eapply (steps_weaken _ 1); [apply IHm; [done|lia]|lia|done].
  - intros n inside depth Hin Hf. simpl.
    eapply (steps_bind n 1 0); [apply IHv; [done|lia]|]. intros _ _ ?.
    apply steps_close. eapply (steps_weaken _ 1); [apply IHe; [done|lia]|lia|done].
Qed.

End steps.

(** A token that the scanner reads as one number. *)
Definition lexed_number (token : string) : Prop :=
  ∃ rest, number_token (token +++ rest) = Some (token, rest).

Section sanitize.

Context (decode_string : string → option string) (number_parses : string → bool).

(** Some number tokens that [serde_json] rejects are replaced by [0]. *)
Inductive rewritten : string → string → Prop :=
  | rewritten_id s : rewritten s s
  | rewritten_token kept token s s' : lexed_number token → number_parses token = false →
      rewritten s s' → rewritten (kept +++ token +++ s) (kept +++ "0" +++ s').

(** Disjoint spans in increasing order between [lo] and [hi], each a rejected number. *)
Fixpoint spans (bytes : string) (lo hi : nat) (replacements : list (nat * nat)) : Prop :=
  match replacements with
  | [] => lo ≤ hi
  | (first, last) :: replacements' =>
      lo ≤ first ∧
      (∃ pre token rest, bytes = pre +++ token +++ rest ∧ byte_len pre = first ∧
         last = first + byte_len token ∧ lexed_number token ∧ number_parses token = false) ∧
      spans bytes last hi replacements'
  end.

Lemma spans_mono bytes lo hi hi' l : spans bytes lo hi l → hi ≤ hi' → spans bytes lo hi' l.
Proof. revert lo. induction l as [|[f e] l IH]; simpl; [lia|]. intros lo (? & ? & ?) ?. eauto. Qed.

Lemma spans_snoc bytes lo hi l pre token rest :
  spans bytes lo hi l → byte_len pre = hi → bytes = pre +++ token +++ rest →
  lexed_number token → number_parses token = false →
  spans bytes lo (hi + byte_len token) (l ++ [(hi, hi + byte_len token)]).
Proof.
  intros Hl Hpre -> Htok Hp. revert lo Hl. induction l as [|[f e] l IH]; simpl; intros lo Hl.
  - split_and!; [done| |lia]. by exists pre, token, rest.
  - destruct Hl as (? & ? & ?). split_and!; auto.
Qed.

Lemma slice_split bytes pre mid post :
  bytes = pre +++ mid +++ post → slice bytes (byte_len pre) (byte_len pre + byte_len mid) = Some mid.
Proof.
  intros ->. unfold slice. rewrite !byte_len_append.
  destruct (Nat.leb_spec (byte_len pre) (byte_len pre + byte_len mid)); [|lia].
  destruct (Nat.leb_spec (byte_len pre + byte_len mid) (byte_len pre + (byte_len mid + byte_len post))); [|lia].
  simpl. rewrite drop_bytes_append.
  replace (byte_len pre + byte_len mid - byte_len pre) with (byte_len mid) by lia. by rewrite take_bytes_append.
Qed.

(** Prefixes of one string, ordered by length. *)
Lemma append_prefix s t u v : s +++ t = u +++ v → byte_len s ≤ byte_len u → ∃ w, u = s +++ w ∧ t = w +++ v.
Proof.
  revert u. induction s as [|c s IH]; intros u Heq Hlen; [by exists u|].
  destruct u as [|d u]; [unfold byte_len in Hlen; simpl in Hlen; lia|].
  rewrite !append_cons in Heq. injection Heq as <- Heq. unfold byte_len in Hlen. simpl in Hlen.
  destruct (IH u Heq) as (w & -> & ->); [unfold byte_len; lia|]. by exists w.
Qed.

Lemma splice_rewritten bytes done_ todo hi l :
  bytes = done_ +++ todo → spans bytes (byte_len done_) hi l → hi ≤ byte_len bytes →
  ∃ out, splice bytes (byte_len done_) l = Some out ∧ rewritten todo out.
Proof.
  revert done_ todo. induction l as [|[f e] l IH]; intros done_ todo Hb Hl Hhi; simpl in Hl |- *.
  - exists todo. split; [|constructor].
    rewrite Hb, byte_len_append. apply (slice_split _ done_ todo ""). by rewrite append_nil_r.
  - destruct Hl as (Hlo & (pre & token & rest & Hb2 & Hpre & -> & Htok & Hp) & Hl).
    destruct (append_prefix done_ todo pre (token +++ rest)) as (kept & Hk1 & Hk2); [congruence|lia|]. subst pre todo.
    rewrite byte_len_append in Hpre. rewrite <-Hpre.
    rewrite (slice_split bytes done_ kept (token +++ rest)) by done. simpl.
    destruct (IH (done_ +++ kept +++ token) rest) as (out & Hout & Hr).
    + by rewrite !append_assoc.
    + by rewrite !byte_len_append, Nat.add_assoc, Hpre.
    + done.
    + rewrite !byte_len_append, Nat.add_assoc in Hout. rewrite Hout. simpl.
      exists (kept +++ "0" +++ out). split; [done|]. by constructor.
Qed.

(** The scanner reads a prefix of [bytes] and has recorded rejected numbers in it. *)
Definition scanned (bytes : string) (s : MetadataScanner) : Prop :=
  ∃ pre, bytes = pre +++ sc_rest s ∧ byte_len pre = sc_index s ∧
    spans bytes 0 (sc_index s) (sc_replacements s).

Lemma scanned_advance bytes s token rest :
  scanned bytes s → sc_rest s = token +++ rest → scanned bytes (advance token rest s).
Proof.
  intros (pre & Hb & Hi & Hsp) Hr. exists (pre +++ token). simpl. rewrite byte_len_append, Hi, append_assoc, <-Hr.
  split_and!; [done|done|]. eapply spans_mono; [done|lia].
Qed.

Lemma scanned_number bytes inside s token rest :
  scanned bytes s → number_token (sc_rest s) = Some (token, rest) → inside && negb (number_parses token) = true →
  scanned bytes {| sc_rest := rest; sc_index := sc_index s + byte_len token;
    sc_replacements := sc_replacements s ++ [(sc_index s, sc_index s + byte_len token)] |}.
Proof.
  intros (pre & Hb & Hi & Hsp) Htok Hp. pose proof (number_token_split _ _ _ Htok) as [Hr _].
  exists (pre +++ token). simpl. rewrite byte_len_append, Hi, append_assoc, <-Hr. split_and!; [done|done|].
  apply andb_true_iff in Hp as [_ Hp%negb_true_iff].
  apply (spans_snoc _ _ _ _ pre token rest); [done|done|by rewrite Hb, Hr| |done].
  exists rest. by rewrite <-Hr.
Qed.

(** Quiet scans: no replacement, and no member named [metadata] ahead. *)
Definition quiet (s : MetadataScanner) : Prop :=
  sc_replacements s = [] ∧ ∀ pre token post, sc_rest s = pre +++ token +++ post → decode_string token ≠ Some "metadata".

Lemma quiet_advance s token rest : quiet s → sc_rest s = token +++ rest → quiet (advance token rest s).
Proof.
  intros [Hr Hq] Hrest. split; [done|]. intros pre t post Ht. change (rest = pre +++ t +++ post) in Ht.
  apply (Hq (token +++ pre) t post).
  by rewrite Hrest, Ht, append_assoc.
Qed.

End sanitize.

Lemma sanitize_rewrites decode_string number_parses bytes : ∃ out,
  sanitize_out_of_range_metadata_numbers decode_string number_parses bytes = Some out ∧
  rewritten number_parses bytes out.
Proof.
  unfold sanitize_out_of_range_metadata_numbers.
  set (s0 := {| sc_rest := bytes; sc_index := 0; sc_replacements := [] |}).
  destruct (scan_steps decode_string number_parses (scanned number_parses bytes) (λ _, True)
    (scanned_advance number_parses bytes) (λ i s t r H _, scanned_number number_parses bytes i s t r H)
    (λ _ _ _ _ _ _ _ _ _ _, I) (scan_fuel bytes)) as (Hv & _ & _).
  assert (scanned number_parses bytes s0) as Hs0 by (exists ""; split_and!; [done|done|simpl; lia]).
  specialize (Hv (byte_len bytes) false 0%N I (le_n _)).
  pose proof (steps_bind _ _ 1 0 _ _ _ _ Hv
    (λ _ _ _, steps_skip _ (scanned_advance number_parses bytes) _) s0 Hs0 (le_n _)) as Hrun.
  destruct ((_ : Scan _) s0) as [[[u s]|]|]; [|by eexists; split; [|constructor]|done].
  destruct Hrun as ((pre & Hb & Hi & Hsp) & _).
  destruct (_ || _) eqn:Hc; [by eexists; split; [|constructor]|].
  apply orb_false_iff in Hc as [Hc%negb_false_iff%bool_decide_eq_true _].
  apply (splice_rewritten number_parses bytes "" bytes (sc_index s)); [done|done|lia].
Qed.

(** C17: sanitizing terminates without a panic on every input, well-formed or not, and
    only ever replaces number tokens that [serde_json] cannot represent by [0]; every
    other byte is kept in place. *)
Theorem sanitize_numbers_only decode_string number_parses bytes : ∃ out,
  sanitize_out_of_range_metadata_numbers decode_string number_parses bytes = Some out ∧
  rewritten number_parses bytes out.
Proof. apply sanitize_rewrites. Qed.

(** A document without a member named [metadata] (no part of it decodes to that
    string) is passed on byte for byte, so an out-of-range number outside of metadata
    still reaches the parser and is rejected by it. *)
Theorem sanitize_outside_metadata decode_string number_parses bytes :
  (∀ pre token post, bytes = pre +++ token +++ post → decode_string token ≠ Some "metadata") →
  sanitize_out_of_range_metadata_numbers decode_string number_parses bytes = Some bytes.
Proof.
  intros Hq. unfold sanitize_out_of_range_metadata_numbers.
  set (s0 := {| sc_rest := bytes; sc_index := 0; sc_replacements := [] |}).
  destruct (scan_steps decode_string number_parses (quiet decode_string) (λ b, b = false)
    (quiet_advance decode_string)) with (fuel := scan_fuel bytes) as (Hv & _ & _).
  { intros inside s token rest _ ->. done. }
  { intros inside s c body after key [_ Hs] -> Hr Hk. simpl. apply bool_decide_eq_false_2. intros ->.
    by apply (Hs "" (String c body) after). }
  assert (quiet decode_string s0) as Hs0 by done.
  specialize (Hv (byte_len bytes) false 0%N eq_refl (le_n _)).
  pose proof (steps_bind _ _ 1 0 _ _ _ _ Hv
    (λ _ _ _, steps_skip _ (quiet_advance decode_string) _) s0 Hs0 (le_n _)) as Hrun.
  destruct ((_ : Scan _) s0) as [[[u s]|]|]; [|done|done]. destruct Hrun as ([Hr _] & _).
  rewrite (bool_decide_eq_true_2 (sc_replacements s = [])) by done. by rewrite orb_true_r.
Qed.

Lemma sanitize_outside_metadata_witness :
  sanitize_out_of_range_metadata_numbers (λ _, Some "score") (λ _, false) "[1e9999]" = Some "[1e9999]".
Proof. by apply sanitize_outside_metadata. Defined.

(** The repository's vector: the same number under a [metadata] member is replaced. *)
Definition quoted (s : string) : string := String quote (s +++ String quote "").

Example sanitize_metadata_vector :
  sanitize_out_of_range_metadata_numbers
    (λ token, if bool_decide (token = quoted "metadata") then Some "metadata" else Some "x")
    (λ token, negb (bool_decide (token = "1e9999")))
    ("{" +++ quoted "metadata" +++ ":{" +++ quoted "score" +++ ":1e9999}, " +++ quoted "n" +++ ":1e9999}") =
  Some ("{" +++ quoted "metadata" +++ ":{" +++ quoted "score" +++ ":0}, " +++ quoted "n" +++ ":1e9999}").
Proof. vm_compute. reflexivity. Qed.

(** ** The strict visitor *)

Definition is_ok {E A} (r : result E A) : bool := match r with Ok _ => true | Err _ => false end.

(** No error, no non-finite number and no object with a repeated member name. *)
Fixpoint clean_doc (doc : Doc) : bool :=
  match doc with
  | DError _ => false
  | DUnit | DBool _ | DI64 _ | DU64 _ | DStr _ => true
  | DF64 value _ => match number_from_f64 value with Some _ => true | None => false end
  | DSeq elements tail => forallb clean_doc elements && is_ok tail
  | DMap members tail _ =>
      bool_decide (NoDup members.*1) && forallb (λ kv, clean_doc kv.2) members && is_ok tail
  end.

(** The value that a clean document denotes; members are kept in key order. *)
Fixpoint doc_value (doc : Doc) : Value :=
  match doc with
  | DError _ | DUnit => Null
  | DBool value => Bool value
  | DI64 value => Num (number_from_i64 value)
  | DU64 value => Num (PosInt value)
  | DF64 value _ => Num (Float value)
  | DStr value => Str value
  | DSeq elements _ => Array (map doc_value elements)
  | DMap members _ _ =>
      Object (foldl (λ values kv, assoc_insert kv.1 (doc_value kv.2) values) [] members)
  end.

Lemma assoc_get_insert {V} k k' (v : V) l :
  assoc_get k (assoc_insert k' v l) = if bool_decide (k = k') then Some v else assoc_get k l.
Proof.
  induction l as [|[k1 v1] l IH]; simpl; [done|].
  repeat (case_bool_decide; simplify_eq/=; try done); destruct (String.leb k' k1); simpl;
    repeat (case_bool_decide; simplify_eq/=; try done).
Qed.

Lemma contains_key_insert {V} k k' (v : V) l :
  contains_key k (assoc_insert k' v l) = bool_decide (k = k') || contains_key k l.
Proof. unfold contains_key. rewrite assoc_get_insert. by case_bool_decide. Qed.

(** The loops of the visitor, and what they accept. *)
Section doc_ind.
Context (P : Doc → Prop)
  (HError : ∀ m, P (DError m)) (HUnit : P DUnit) (HBool : ∀ b, P (DBool b)) (HI64 : ∀ z, P (DI64 z))
  (HU64 : ∀ n, P (DU64 n)) (HF64 : ∀ f p, P (DF64 f p)) (HStr : ∀ s, P (DStr s))
  (HSeq : ∀ ds tail, Forall P ds → P (DSeq ds tail))
  (HMap : ∀ ms tail p, Forall (λ kv, P kv.2) ms → P (DMap ms tail p)).

Fixpoint Doc_ind' (d : Doc) : P d :=
  match d with
  | DError m => HError m
  | DUnit => HUnit
  | DBool b => HBool b
  | DI64 z => HI64 z
  | DU64 n => HU64 n
  | DF64 f p => HF64 f p
  | DStr s => HStr s
  | DSeq ds tail => HSeq ds tail
      ((fix go ds := match ds return Forall P ds with
        | [] => List.Forall_nil _
        | d :: ds' => List.Forall_cons _ _ _ (Doc_ind' d) (go ds')
        end) ds)
  | DMap ms tail p => HMap ms tail p
      ((fix go ms := match ms return Forall (λ kv, P kv.2) ms with
        | [] => List.Forall_nil _
        | (k, d) :: ms' => List.Forall_cons _ (k, d) _ (Doc_ind' d) (go ms')
        end) ms)
  end.
End doc_ind.

(** What the recursive calls of the visitor are assumed to accept. *)
Definition visits (doc : Doc) : Prop := ∀ v, visit doc = Ok v ↔ clean_doc doc = true ∧ v = doc_value doc.

Lemma visit_seq_spec tail elements : Forall visits elements → visits (DSeq elements tail).
Proof.
  intros Hel v. simpl.
  enough (∀ values, (fix visit_seq (values : list Value) (elements : list Doc) : result string Value :=
         match elements with
         | [] => match tail with Ok _ => Ok (Array values) | Err e => Err e end
         | element :: elements' =>
             match visit element with Err e => Err e | Ok value => visit_seq (values ++ [value]) elements' end
         end) values elements = Ok v ↔
       forallb clean_doc elements && is_ok tail = true ∧ v = Array (values ++ map doc_value elements)) as H
    by (by apply (H [])).
  induction Hel as [|d elements Hd _ IH]; intros values; simpl.
  - rewrite app_nil_r. destruct tail; simpl; naive_solver.
  - destruct (visit d) as [w|e] eqn:E.
    + apply Hd in E as [Hc ->]. rewrite IH, Hc, <-app_assoc. done.
    + split; [done|]. intros [Hc _]. apply andb_true_iff in Hc as [[Hc _]%andb_true_iff _].
      assert (visit d = Ok (doc_value d)) by (by apply Hd). congruence.
Qed.

Lemma visit_map_spec tail position members :
  Forall (λ kv, visits kv.2) members → visits (DMap members tail position).
Proof.
  intros Hms v. simpl.
  enough (∀ values, (fix visit_map (values : list (string * Value)) (members : list (string * Doc)) : result string Value :=
         match members with
         | [] => match tail with Ok _ => Ok (Object values) | Err e => Err e end
         | (key, member) :: members' =>
             if contains_key key values then Err (DUPLICATE_MARKER +++ key +++ position)
             else match visit member with Err e => Err e | Ok value => visit_map (assoc_insert key value values) members' end
         end) values members = Ok v ↔
       (bool_decide (NoDup members.*1) && forallb (λ kv, clean_doc kv.2) members && is_ok tail = true ∧
        (∀ k, k ∈ members.*1 → contains_key k values = false)) ∧
       v = Object (foldl (λ values kv, assoc_insert kv.1 (doc_value kv.2) values) values members)) as H.
  { rewrite (H []). naive_solver. }
  induction Hms as [|[k d] members Hd _ IH]; intros values.
  - simpl. setoid_rewrite elem_of_nil. destruct tail; simpl; naive_solver.
  - rewrite fmap_cons. cbn [fst snd forallb fold_left] in *. destruct (contains_key k values) eqn:Hk.
    { split; [done|]. intros [[_ Hks] _]. specialize (Hks k ltac:(by left)). congruence. }
    destruct (visit d) as [w|e] eqn:E.
    + apply Hd in E as [Hc ->]. rewrite IH, Hc. setoid_rewrite contains_key_insert.
      rewrite !andb_true_iff, !bool_decide_eq_true, NoDup_cons. setoid_rewrite orb_false_iff.
      setoid_rewrite bool_decide_eq_false. setoid_rewrite elem_of_cons. split.
      * intros [[[[? ?] ?] Hks] ->]. split; [|done]. split_and!; try done.
        -- intros Hin. by destruct (Hks k Hin).
        -- intros k' [->|Hin]; [done|]. by apply Hks.
      * intros [[[[[? ?] [_ ?]] ?] Hks] ->]. split; [|done]. split_and!; try done.
        intros k' Hin. split; [by intros ->|]. apply Hks. by right.
    + split; [done|]. intros [[Hc _] _]. apply andb_true_iff in Hc as [[_ Hc]%andb_true_iff _].
      apply andb_true_iff in Hc as [Hc _]. assert (visit d = Ok (doc_value d)) by (by apply Hd). congruence.
Qed.

Lemma visit_spec doc : visits doc.
Proof.
  induction doc as [m| |b|z|n|f p|s|ds tail IH|ms tail p IH] using Doc_ind';
    [..|by apply visit_seq_spec|by apply visit_map_spec]; intros v; simpl; try naive_solver.
  destruct (number_from_f64 f) eqn:E; [|naive_solver]. destruct f; simpl in E; naive_solver.
Qed.

(** ** The whole parser *)

Lemma parse_strict_json_total decode_string number_parses deserializer bytes max_depth :
  is_Some (parse_strict_json decode_string number_parses deserializer bytes max_depth).
Proof.
  unfold parse_strict_json. destruct (exceeds_depth _ _); [by eexists|].
  destruct (sanitize_rewrites decode_string number_parses bytes) as (sanitized & -> & _). by eexists.
Qed.

(** C14: [parse_strict_json] always returns (it never panics), and it accepts a byte
    string exactly when the depth limit holds and the deserializer reads, from the
    sanitized and number-normalized bytes, one complete document without a repeated
    member name at any depth; the value is then the one the document denotes. *)
Theorem parse_strict_json_exact decode_string number_parses deserializer bytes max_depth :
  is_Some (parse_strict_json decode_string number_parses deserializer bytes max_depth) ∧
  ∀ value, parse_strict_json decode_string number_parses deserializer bytes max_depth = Some (Ok value) ↔
    exceeds_depth bytes (N.min max_depth MAX_SUPPORTED_JSON_DEPTH) = false ∧
    ∃ sanitized prepared doc,
      sanitize_out_of_range_metadata_numbers decode_string number_parses bytes = Some sanitized ∧
      prepare_numbers sanitized IrIntegers = Ok prepared ∧ deserializer prepared = (doc, Ok ()) ∧
      clean_doc doc = true ∧ value = doc_value doc.
Proof.
  split; [apply parse_strict_json_total|]. intros value.
  unfold parse_strict_json. destruct (exceeds_depth _ _); [naive_solver|].
  destruct (sanitize_rewrites decode_string number_parses bytes) as (sanitized & Hs & _). rewrite Hs. simpl.
  destruct (prepare_numbers sanitized IrIntegers) as [prepared|e] eqn:Hp.
  2: { split; [done|]. intros (_ & s' & p' & d' & ? & ? & _). congruence. }
  destruct (deserializer prepared) as [doc fin] eqn:Hd.
  pose proof (visit_spec doc) as Hv. destruct (visit doc) as [w|e] eqn:Hw.
  - apply Hv in Hw as [Hc ->]. destruct fin as [[]|e].
    + split; [intros [= <-]; eauto 10|]. intros (_ & s' & p' & d' & ? & ? & ? & _ & ->). congruence.
    + split; [done|]. intros (_ & s' & p' & d' & ? & ? & ? & _). congruence.
  - split; [done|]. intros (_ & s' & p' & d' & ? & ? & ? & Hc & ->).
    assert (d' = doc) as -> by congruence.
    assert (visit doc = Ok (doc_value doc)) by (by apply Hv). congruence.
Qed.

(** The error of the first repeated member name. *)
Lemma visit_duplicate l1 key doc l2 tail position : NoDup l1.*1 → forallb (λ kv, clean_doc kv.2) l1 = true →
  key ∈ l1.*1 → visit (DMap (l1 ++ (key, doc) :: l2) tail position) = Err (DUPLICATE_MARKER +++ key +++ position).
Proof.
  intros Hnd Hc Hk. cbn [visit]. match goal with |- ?f _ _ = _ => set (go := f) end.
  enough (∀ values, (∀ k, k ∈ l1.*1 → contains_key k values = false) → key ∈ l1.*1 ∨ contains_key key values = true →
    go values (l1 ++ (key, doc) :: l2) = Err (DUPLICATE_MARKER +++ key +++ position)) as H.
  { apply H; auto. }
  clear Hk. induction l1 as [|[k d] l1 IH]; intros values Hks Hk; simpl.
  - destruct Hk as [Hk|Hk]; [by apply elem_of_nil in Hk|]. by rewrite Hk.
  - simpl in Hc. apply andb_true_iff in Hc as [Hd Hc]. rewrite fmap_cons in Hnd, Hks, Hk. simpl in Hks, Hk.
    apply NoDup_cons in Hnd as [Hnk Hnd]. rewrite (Hks k) by (by left).
    rewrite (proj2 (visit_spec d (doc_value d))) by done. apply IH; [done|done| |].
    + intros k' Hk'. rewrite contains_key_insert, (Hks k') by (by right).
      rewrite bool_decide_eq_false_2; [done|]. by intros ->.
    + rewrite contains_key_insert. rewrite elem_of_cons in Hk.
      destruct Hk as [[->|Hk]|Hk]; [right; by rewrite bool_decide_eq_true_2|by left|right].
      rewrite Hk. apply orb_true_r.
Qed.

(** The first member name that a document repeats, at any depth, with the position that the
    deserializer appends there: everything before the repetition is well-formed. *)
Inductive repeats : Doc → string → string → Prop :=
  | repeats_here l1 key doc l2 tail position : NoDup l1.*1 → forallb (λ kv, clean_doc kv.2) l1 = true → key ∈ l1.*1 →
      repeats (DMap (l1 ++ (key, doc) :: l2) tail position) key position
  | repeats_member l1 k doc l2 tail position key at_ : NoDup l1.*1 → forallb (λ kv, clean_doc kv.2) l1 = true → k ∉ l1.*1 →
      repeats doc key at_ → repeats (DMap (l1 ++ (k, doc) :: l2) tail position) key at_
  | repeats_element l1 doc l2 tail key at_ : forallb clean_doc l1 = true →
      repeats doc key at_ → repeats (DSeq (l1 ++ doc :: l2) tail) key at_.

Lemma visit_member_error l1 k doc l2 tail position e : NoDup l1.*1 → forallb (λ kv, clean_doc kv.2) l1 = true → k ∉ l1.*1 →
  visit doc = Err e → visit (DMap (l1 ++ (k, doc) :: l2) tail position) = Err e.
Proof.
  intros Hnd Hc Hk He. cbn [visit]. match goal with |- ?f _ _ = _ => set (go := f) end.
  enough (∀ values, (∀ k', k' ∈ l1.*1 ∨ k' = k → contains_key k' values = false) → go values (l1 ++ (k, doc) :: l2) = Err e) as H.
  { apply H. done. }
  induction l1 as [|[k1 d] l1 IH]; intros values Hks; simpl.
  - rewrite (Hks k) by by right. by rewrite He.
  - simpl in Hc. apply andb_true_iff in Hc as [Hd Hc]. rewrite fmap_cons in Hnd, Hks, Hk. simpl in Hks, Hk.
    apply NoDup_cons in Hnd as [Hnk Hnd]. apply not_elem_of_cons in Hk as [Hkk Hk]. rewrite (Hks k1) by by left; left.
    rewrite (proj2 (visit_spec d (doc_value d))) by done. apply IH; [done|done|done|].
    intros k' Hk'. rewrite contains_key_insert, (Hks k') by (destruct Hk'; [left; by right|by right]).
    rewrite bool_decide_eq_false_2; [done|]. intros ->. destruct Hk'; done.
Qed.

Lemma visit_element_error l1 doc l2 tail e : forallb clean_doc l1 = true → visit doc = Err e → visit (DSeq (l1 ++ doc :: l2) tail) = Err e.
Proof.
  intros Hc He. cbn [visit]. match goal with |- ?f _ _ = _ => set (go := f) end.
  enough (∀ values, go values (l1 ++ doc :: l2) = Err e) as H by apply H.
  induction l1 as [|d l1 IH]; intros values; simpl; [by rewrite He|]. simpl in Hc. apply andb_true_iff in Hc as [Hd Hc].
  rewrite (proj2 (visit_spec d (doc_value d))) by done. by apply IH.
Qed.

Lemma visit_repeats doc key position : repeats doc key position → visit doc = Err (DUPLICATE_MARKER +++ key +++ position).
Proof.
  induction 1; [by apply visit_duplicate|by apply visit_member_error|by apply visit_element_error].
Qed.

(** *** The name in the message *)

Definition POSITION_MARKER : string := " at line ".

Lemma strip_prefix_append p s r t : strip_prefix p s = Some r → strip_prefix p (s +++ t) = Some (r +++ t).
Proof. rewrite !strip_prefix_Some. intros ->. by rewrite append_assoc. Qed.

Lemma find_str_prefix p s r : strip_prefix p s = Some r → find_str p s = Some ("", r).
Proof. destruct s; cbn [find_str]; by intros ->. Qed.

Lemma find_str_length p s before rest : find_str p s = Some (before, rest) → byte_len p ≤ byte_len s.
Proof.
  revert before rest. induction s as [|c s IH]; intros before rest; cbn [find_str]; destruct (strip_prefix p _) as [r|] eqn:E.
  1,3: intros _; apply strip_prefix_Some in E; rewrite E, byte_len_append; lia.
  - done.
  - destruct (find_str p s) as [[b r]|] eqn:Hf; [|done]. intros _. specialize (IH b r eq_refl). unfold byte_len in *. cbn. lia.
Qed.

(** A prefix of a text that is no longer than its beginning is one of the beginning. *)
Lemma strip_prefix_within p s t r : byte_len p ≤ byte_len s → strip_prefix p (s +++ t) = Some r → ∃ r', strip_prefix p s = Some r'.
Proof.
  intros Hl H. apply strip_prefix_Some in H. symmetry in H. apply append_prefix in H as (w & -> & _); [|done]. exists w. by apply strip_prefix_Some.
Qed.

Lemma find_str_append p s before rest t : find_str p s = Some (before, rest) → find_str p (s +++ t) = Some (before, rest +++ t).
Proof.
  revert before rest. induction s as [|c s IH]; intros before rest; cbn [find_str]; destruct (strip_prefix p _) as [r|] eqn:E.
  1,3: intros [= <- <-]; apply find_str_prefix; by apply strip_prefix_append.
  - done.
  - destruct (find_str p s) as [[b r]|] eqn:Hf; [|done]. intros [= <- <-]. rewrite append_cons. cbn [find_str].
    destruct (strip_prefix p (String c (s +++ t))) as [r'|] eqn:E'.
    { apply find_str_length in Hf. destruct (strip_prefix_within p (String c s) t r') as [? ?]; [unfold byte_len in *; cbn; lia|done|congruence]. }
    by rewrite (IH b r eq_refl).
Qed.

(** The marker of the position overlaps itself in one space only. *)
Lemma find_position key rest : find_str POSITION_MARKER (key +++ " ") = None → find_str POSITION_MARKER (key +++ POSITION_MARKER +++ rest) = Some (key, rest).
Proof.
  induction key as [|c key IH]; [done|]. rewrite !append_cons. cbn [find_str].
  destruct (strip_prefix POSITION_MARKER (String c (key +++ " "))) as [r|] eqn:E; [done|].
  destruct (find_str POSITION_MARKER (key +++ " ")) as [[b r]|]; [done|]. intros _. rewrite (IH eq_refl).
  destruct (strip_prefix POSITION_MARKER (String c (key +++ POSITION_MARKER +++ rest))) as [r|] eqn:E'; [|done]. exfalso. clear IH.
  assert (String c (key +++ POSITION_MARKER +++ rest) = (String c key +++ " ") +++ "at line " +++ rest) as Hc by (rewrite append_assoc; done).
  rewrite Hc in E'. destruct (decide (byte_len POSITION_MARKER ≤ byte_len (String c key +++ " "))) as [Hl|Hl].
  - destruct (strip_prefix_within _ _ _ _ Hl E') as [? ?]. rewrite append_cons in *. congruence.
  - clear E. rewrite <-Hc in E'. apply strip_prefix_Some in E'. clear Hc. rewrite byte_len_append in Hl. unfold byte_len, POSITION_MARKER in *.
    do 7 (destruct key as [|? key]; [cbn in E'; simplify_eq|]). cbn in Hl. lia.
Qed.

(** C15: a repeated member name is reported as a duplicate key, at any depth of the document
    and whatever follows it, when everything before it is well-formed: the error is
    [DuplicateKey] with that name, not a syntax error.  The name is recovered from the
    message of the deserializer, which ends in the position of the error: it is cut to
    256 characters, and before a part of it that reads as the start of a position. *)
Theorem duplicate_key_reported decode_string number_parses deserializer bytes max_depth
    sanitized prepared doc fin key where_ :
  exceeds_depth bytes (N.min max_depth MAX_SUPPORTED_JSON_DEPTH) = false →
  sanitize_out_of_range_metadata_numbers decode_string number_parses bytes = Some sanitized →
  prepare_numbers sanitized IrIntegers = Ok prepared →
  deserializer prepared = (doc, fin) →
  repeats doc key (POSITION_MARKER +++ where_) →
  parse_strict_json decode_string number_parses deserializer bytes max_depth =
    Some (Err (DuplicateKey (take_chars 256
      match find_str POSITION_MARKER (key +++ " ") with None => key | Some (before, _) => before end))).
Proof.
  intros Hd Hs Hp Hde Hr. unfold parse_strict_json. rewrite Hd, Hs. cbn [mbind option_bind]. rewrite Hp, Hde.
  rewrite (visit_repeats _ _ _ Hr). unfold classify_error.
  assert (find_str DUPLICATE_MARKER (DUPLICATE_MARKER +++ key +++ POSITION_MARKER +++ where_) =
    Some ("", key +++ POSITION_MARKER +++ where_)) as -> by reflexivity.
  change " at line " with POSITION_MARKER. destruct (find_str POSITION_MARKER (key +++ " ")) as [[before rest]|] eqn:Hf.
  - assert (key +++ POSITION_MARKER +++ where_ = (key +++ " ") +++ ("at line " +++ where_)) as -> by by rewrite append_assoc.
    by rewrite (find_str_append _ _ _ _ _ Hf).
  - by rewrite (find_position _ _ Hf).
Qed.

Definition duplicate_member_text : string :=
  "{" +++ quoted "list" +++ ":[1,{" +++ quoted "a" +++ ":1," +++ quoted "a" +++ ":2}]}".

Definition duplicate_member_doc : Doc :=
  DMap [("list", DSeq [DU64 1; DMap [("a", DU64 1); ("a", DU64 2)] (Ok ()) " at line 1 column 20"] (Ok ()))] (Ok ()) "".

(** A deserializer that knows this text. *)
Definition duplicate_member_deserializer (text : string) : Doc * result string () :=
  if bool_decide (text = duplicate_member_text) then (duplicate_member_doc, Ok ()) else (DError "expected value", Ok ()).

Lemma duplicate_key_reported_witness :
  parse_strict_json Some (λ _, true) duplicate_member_deserializer duplicate_member_text 8 = Some (Err (DuplicateKey "a")).
Proof.
  apply (duplicate_key_reported Some (λ _, true) duplicate_member_deserializer duplicate_member_text 8
    duplicate_member_text duplicate_member_text duplicate_member_doc (Ok ()) "a" "1 column 20"); try (vm_compute; reflexivity).
  apply (repeats_member []); [constructor|reflexivity|by intros ?%elem_of_nil|].
  apply (repeats_element [DU64 1]); [reflexivity|].
  apply (repeats_here [("a", DU64 1)]); [apply NoDup_singleton|reflexivity|by left].
Defined.

(** The name [a at line b], repeated. *)
Definition cut_key_text : string := "{" +++ quoted "a at line b" +++ ":1," +++ quoted "a at line b" +++ ":2}".

Definition cut_key_doc : Doc :=
  DMap [("a at line b", DU64 1); ("a at line b", DU64 2)] (Ok ()) " at line 1 column 30".

(** The reported name is cut where it reads as a position: the duplicate is that of
    [a at line b], and the report names [a], which the document does not have. *)
Theorem duplicate_key_cut :
  repeats cut_key_doc "a at line b" " at line 1 column 30" ∧
  parse_strict_json Some (λ _, true) (λ _, (cut_key_doc, Ok ())) cut_key_text 8 = Some (Err (DuplicateKey "a")).
Proof.
  split; [|vm_compute; reflexivity].
  apply (repeats_here [("a at line b", DU64 1)]); [apply NoDup_singleton|reflexivity|by left].
Qed.
