(* ===== verification/Schema.v ===== *)
(** * Schema failures

    [crates/aios-ir/src/schema.rs]: the failures of the third-party [jsonschema]
    validator are classified into the closed reason-code catalog and emitted into
    the bounded collector.  The validator itself is a parameter (it maps a document
    to its failures); the failure tree is the part of
    [jsonschema::ValidationError] that the code inspects.  Recursion through the
    selected alternative of a union is bounded by fuel; running out of fuel is a
    panic of the model, and the theorems show that it never happens. *)

From S2P Require Import Prelude Json Contracts Collector.
Import DiagnosticCollector.

#[local] Set Warnings "-register-all".

(** [jsonschema::error::ValidationErrorKind]; [OtherKind] stands for the kinds that
    only the wildcard arm of the classification covers. *)
Inductive ErrorKind (E : Type) :=
  | Required (property : Value)
  | Pattern (pattern : string)
  | PropertyNames (error : E)
  | AdditionalProperties
  | UnevaluatedProperties
  | EnumKind
  | Constant (expected_value : Value)
  | OneOfNotValid (context : list (list E))
  | Minimum | Maximum | ExclusiveMinimum | ExclusiveMaximum
  | MinItems | MaxItems | MinLength | MaxLength | MinProperties | MaxProperties
  | UniqueItems | MultipleOf
  | OtherKind.
Arguments Required {_} _.
Arguments Pattern {_} _.
Arguments PropertyNames {_} _.
Arguments AdditionalProperties {_}.
Arguments UnevaluatedProperties {_}.
Arguments EnumKind {_}.
Arguments Constant {_} _.
Arguments OneOfNotValid {_} _.
Arguments Minimum {_}.
Arguments Maximum {_}.
Arguments ExclusiveMinimum {_}.
Arguments ExclusiveMaximum {_}.
Arguments MinItems {_}.
Arguments MaxItems {_}.
Arguments MinLength {_}.
Arguments MaxLength {_}.
Arguments MinProperties {_}.
Arguments MaxProperties {_}.
Arguments UniqueItems {_}.
Arguments MultipleOf {_}.
Arguments OtherKind {_}.

Inductive ValidationError := MkError {
  ve_kind : ErrorKind ValidationError;
  ve_instance : Value;
  ve_instance_path : string;
  ve_schema_path : string;
}.

Inductive JsonValueKind := KNull | KBoolean | KNumber | KString | KArray | KObject.

#[export] Instance JsonValueKind_eq_dec : EqDecision JsonValueKind.
Proof. solve_decision. Defined.

Definition json_value_kind (value : Value) : JsonValueKind :=
  match value with
  | Null => KNull
  | Bool _ => KBoolean
  | Num _ => KNumber
  | Str _ => KString
  | Array _ => KArray
  | Object _ => KObject
  end.

Inductive OneOfResolution :=
  | Missing
  | WrongType
  | Unsupported
  | Selected (branch : list ValidationError)
  | Ambiguous.

(** [Kind::Required { property } => property.as_str()] at the given path. *)
Definition required_property (parent_path : string) (child : ValidationError) : option string :=
  if bool_decide (ve_instance_path child = parent_path) then
    match ve_kind child with Required property => as_str property | _ => None end
  else None.

Definition requires (parent_path property : string) (branch : list ValidationError) : bool :=
  existsb (λ child, bool_decide (required_property parent_path child = Some property)) branch.

Definition branches_share_missing_required_property (error : ValidationError)
    (branches : list (list ValidationError)) : bool :=
  let parent_path := ve_instance_path error in
  match branches with
  | [] => false
  | first :: rest =>
      let common := omap (required_property parent_path) first in
      let common := foldl (λ common branch, filter (λ p, requires parent_path p branch = true) common)
                      common rest in
      negb (bool_decide (common = []))
  end.

Fixpoint string_contains_char (c : ascii) (s : string) : bool :=
  match s with
  | EmptyString => false
  | String d s' => bool_decide (c = d) || string_contains_char c s'
  end.

(** A member of the instance itself, not a deeper location. *)
Definition is_direct_child (direct_prefix path : string) : bool :=
  match strip_prefix direct_prefix path with
  | Some relative => negb (bool_decide (relative = "")) && negb (string_contains_char "/"%char relative)
  | None => false
  end.

(** The state of the discriminator loop: path, expected and actual kind. *)
Definition discriminator := option (string * JsonValueKind * JsonValueKind).

(** One iteration; [None] is the early [return OneOfResolution::Ambiguous]. *)
Definition discriminate (direct_prefix : string) (state : discriminator) (child : ValidationError) :
    option discriminator :=
  match ve_kind child with
  | Constant expected_value =>
      let path := ve_instance_path child in
      if is_direct_child direct_prefix path then
        let branch_expected_kind := json_value_kind expected_value in
        let branch_actual_kind := json_value_kind (ve_instance child) in
        match state with
        | None => Some (Some (path, branch_expected_kind, branch_actual_kind))
        | Some (candidate, expected_kind, actual_kind) =>
            if bool_decide (candidate ≠ path) then None
            else if bool_decide (expected_kind ≠ branch_expected_kind) ||
                    bool_decide (actual_kind ≠ branch_actual_kind) then None
            else Some (Some (path, branch_expected_kind, branch_actual_kind))
        end
      else Some state
  | _ => Some state
  end.

Fixpoint discriminate_all (direct_prefix : string) (state : discriminator) (children : list ValidationError) :
    option discriminator :=
  match children with
  | [] => Some state
  | child :: children' =>
      state' ← discriminate direct_prefix state child; discriminate_all direct_prefix state' children'
  end.

(** The branch rejects the discriminator's value. *)
Definition discriminator_mismatch (discriminator_path : string) (branch : list ValidationError) : bool :=
  existsb (λ child, match ve_kind child with
                    | Constant _ => bool_decide (ve_instance_path child = discriminator_path)
                    | _ => false
                    end) branch.

Definition resolve_discriminated_one_of (error : ValidationError) (branches : list (list ValidationError)) :
    OneOfResolution :=
  match ve_instance error with
  | Object _ =>
      if branches_share_missing_required_property error branches then Missing
      else
        match discriminate_all (ve_instance_path error +++ "/") None (concat branches) with
        | None | Some None => Ambiguous
        | Some (Some (discriminator_path, expected_kind, actual_kind)) =>
            match filter (λ branch, discriminator_mismatch discriminator_path branch = false) branches with
            | [branch] => Selected branch
            | [] => if bool_decide (expected_kind ≠ actual_kind) then WrongType else Unsupported
            | _ => Ambiguous
            end
        end
  | _ => WrongType
  end.

Fixpoint classify_schema_failure (error : ValidationError) : ValidatorReasonCode :=
  match ve_kind error with
  | Required _ => IrSchemaRequired
  | Pattern _ => IrSchemaPattern
  | PropertyNames error => classify_schema_failure error
  | AdditionalProperties | UnevaluatedProperties => IrSchemaAdditionalProperty
  | EnumKind | Constant _ => IrSchemaEnum
  | OneOfNotValid context =>
      match resolve_discriminated_one_of error context with
      | Missing => IrSchemaRequired
      | Unsupported => IrSchemaEnum
      | WrongType | Selected _ | Ambiguous => IrSchemaType
      end
  | Minimum | Maximum | ExclusiveMinimum | ExclusiveMaximum
  | MinItems | MaxItems | MinLength | MaxLength | MinProperties | MaxProperties
  | UniqueItems | MultipleOf => IrSchemaRange
  | OtherKind => IrSchemaType
  end.

Definition sanitized_schema_message (code : ValidatorReasonCode) : string :=
  match code with
  | IrSchemaRequired => "a required property is missing"
  | IrSchemaPattern => "a value does not match the required pattern"
  | IrSchemaAdditionalProperty => "an object contains an unsupported property"
  | IrSchemaEnum => "a value is outside the allowed set"
  | IrSchemaRange => "a value is outside the allowed bounds"
  | IrSchemaType => "a value has an invalid JSON type or structure"
  | _ => "the document violates the AIOS IR schema"
  end.

(** The diagnostic that [push_schema_diagnostic] builds. *)
Definition schema_diagnostic (error : ValidationError) (code : ValidatorReasonCode) : Diagnostic :=
  let d := Diagnostic_new code (sanitized_schema_message code) in
  let instance_path := ve_instance_path error in
  {| diag_severity := diag_severity d; diag_code := diag_code d; diag_message := diag_message d;
     diag_node_id := diag_node_id d; diag_port := diag_port d; diag_capability := diag_capability d;
     diag_json_pointer := Some (if bool_decide (instance_path = "") then "/" else instance_path);
     diag_related := diag_related d |}.

Definition push_schema_diagnostic (error : ValidationError) (code : ValidatorReasonCode) : Diag unit :=
  emit (schema_diagnostic error code).

(** ** Structured keys *)

Inductive StructuredErrorDetail :=
  | NoDetail
  | RequiredDetail (property : string)
  | PatternDetail (pattern : string).

Record StructuredErrorKey := {
  key_instance_path : string;
  key_reason_code : string;
  key_schema_path : string;
  key_detail : StructuredErrorDetail;
}.

(** [derive(Ord)]: variants in order, then their fields. *)
Definition detail_compare (a b : StructuredErrorDetail) : comparison :=
  match a, b with
  | NoDetail, NoDetail => Eq
  | NoDetail, _ => Lt
  | _, NoDetail => Gt
  | RequiredDetail s, RequiredDetail t => String.compare s t
  | RequiredDetail _, PatternDetail _ => Lt
  | PatternDetail _, RequiredDetail _ => Gt
  | PatternDetail s, PatternDetail t => String.compare s t
  end.

Definition lex_compare (c d : comparison) : comparison := match c with Eq => d | _ => c end.

Definition key_compare (a b : StructuredErrorKey) : comparison :=
  lex_compare (String.compare (key_instance_path a) (key_instance_path b))
    (lex_compare (String.compare (key_reason_code a) (key_reason_code b))
      (lex_compare (String.compare (key_schema_path a) (key_schema_path b))
        (detail_compare (key_detail a) (key_detail b)))).

Definition key_gt (a b : StructuredErrorKey) : bool :=
  match key_compare a b with Gt => true | _ => false end.

Definition structured_error_key (error : ValidationError) : StructuredErrorKey := {|
  key_instance_path := ve_instance_path error;
  key_reason_code := ValidatorReasonCode.as_str (classify_schema_failure error);
  key_schema_path := ve_schema_path error;
  key_detail := match ve_kind error with
                | Required property =>
                    match as_str property with Some s => RequiredDetail s | None => NoDetail end
                | Pattern pattern => PatternDetail pattern
                | _ => NoDetail
                end;
|}.

(** [Iterator::min_by] on the keys: the first of the least elements. *)
Definition min_step (best : option ValidationError) (error : ValidationError) : option ValidationError :=
  match best with
  | None => Some error
  | Some b => if key_gt (structured_error_key b) (structured_error_key error) then Some error else Some b
  end.

Definition after (previous : option StructuredErrorKey) (error : ValidationError) : bool :=
  match previous with None => true | Some p => key_gt (structured_error_key error) p end.

Definition next_failure (previous : option StructuredErrorKey) (errors : list ValidationError) :
    option ValidationError :=
  foldl min_step None (filter (λ e, after previous e = true) errors).

(** [diagnostics.is_truncated()] *)
Definition ask_truncated : Diag bool := λ c, Some (is_truncated c, c).

(** ** Emission *)

(** The loop of [emit_selected_branch_failures], over the emission of one failure. *)
Fixpoint selected_loop (emit_failure : ValidationError → Diag unit) (fuel : nat)
    (previous : option StructuredErrorKey) (errors : list ValidationError) : Diag unit :=
  match fuel with
  | 0 => panic
  | S fuel' =>
      match next_failure previous errors with
      | None => mret ()
      | Some error =>
          emit_failure error ≫= λ _,
          ask_truncated ≫= λ truncated : bool,
          if truncated then mret ()
          else selected_loop emit_failure fuel' (Some (structured_error_key error)) errors
      end
  end.

Definition emit_selected_branch_failures (emit_failure : ValidationError → Diag unit)
    (errors : list ValidationError) : Diag unit :=
  selected_loop emit_failure (S (length errors)) None errors.

Fixpoint emit_schema_failure (fuel : nat) (error : ValidationError) : Diag unit :=
  match fuel with
  | 0 => panic
  | S fuel' =>
      match ve_kind error with
      | OneOfNotValid context =>
          match resolve_discriminated_one_of error context with
          | Selected branch => emit_selected_branch_failures (emit_schema_failure fuel') branch
          | Missing => push_schema_diagnostic error IrSchemaRequired
          | WrongType | Ambiguous => push_schema_diagnostic error IrSchemaType
          | Unsupported => push_schema_diagnostic error IrSchemaEnum
          end
      | _ => push_schema_diagnostic error (classify_schema_failure error)
      end
  end.

(** The nesting of unions inside a failure: enough fuel for its emission. *)
Fixpoint error_depth (error : ValidationError) : nat :=
  match ve_kind error with
  | OneOfNotValid context => S (list_max (map (λ branch, list_max (map error_depth branch)) context))
  | _ => 1
  end.

Fixpoint emit_validator_errors (errors : list ValidationError) : Diag unit :=
  match errors with
  | [] => mret ()
  | error :: errors' =>
      emit_schema_failure (error_depth error) error ≫= λ _,
      ask_truncated ≫= λ truncated : bool,
      if truncated then mret () else emit_validator_errors errors'
  end.

Section validate_schema.

(** [serde_json::from_str(AIOS_IR_SCHEMA)] and [jsonschema::validator_for], whose
    result maps a document to its failures. *)
Context (embedded_schema : result string Value)
        (validator_for : Value → result string (Value → list ValidationError)).

(** [COMPILED_SCHEMA]: initialized once, so a constant. *)
Definition compiled_schema : result string (Value → list ValidationError) :=
  match embedded_schema with
  | Err error => Err ("embedded AIOS IR schema is invalid JSON: " +++ error)
  | Ok schema =>
      match validator_for schema with
      | Err error => Err ("embedded AIOS IR schema could not compile: " +++ error)
      | Ok validator => Ok validator
      end
  end.

Definition validate_schema (value : Value) : Diag (result string unit) :=
  match compiled_schema with
  | Err message => mret (Err message)
  | Ok validator => emit_validator_errors (validator value) ≫= λ _, mret (Ok ())
  end.

End validate_schema.

(** ** The order of the keys *)

Lemma string_compare_refl s : String.compare s s = Eq.
Proof.
  pose proof (String.compare_antisym s s) as H. by destruct (String.compare s s).
Qed.

Lemma string_compare_lt_trans a b c :
  String.compare a b = Lt → String.compare b c = Lt → String.compare a c = Lt.
Proof.
  intros Hab Hbc. destruct (String.compare a c) eqn:Hac; [| done |].
  - apply String.compare_eq_iff in Hac as ->. rewrite String.compare_antisym, Hbc in Hab. done.
  - assert (String.leb c a = true) as Hca.
    { unfold String.leb. by rewrite String.compare_antisym, Hac. }
    assert (String.leb a b = true) as Hab' by (unfold String.leb; by rewrite Hab).
    pose proof (@key_leb_trans string _ c a b Hca Hab') as Hcb. simpl in Hcb. unfold String.leb in Hcb.
    rewrite String.compare_antisym, Hbc in Hcb. done.
Qed.

(** Comparison functions that are strict orders. *)
Definition lawful {A} (cmp : A → A → comparison) : Prop :=
  (∀ a, cmp a a = Eq) ∧ (∀ a b, cmp b a = CompOpp (cmp a b)) ∧
  (∀ a b c, cmp a b = Eq → cmp b c = cmp a c) ∧
  (∀ a b c, cmp a b = Lt → cmp b c = Lt → cmp a c = Lt).

Lemma lawful_string {A} (f : A → string) : lawful (λ a b, String.compare (f a) (f b)).
Proof.
  split_and!.
  - intros a. apply string_compare_refl.
  - intros a b. apply String.compare_antisym.
  - intros a b c Hab. apply String.compare_eq_iff in Hab as ->. done.
  - intros a b c. apply string_compare_lt_trans.
Qed.

Lemma lawful_detail : lawful detail_compare.
Proof.
  destruct (lawful_string (λ s : string, s)) as (Hr & Ho & He & Ht). split_and!.
  - intros []; simpl; auto.
  - intros [] []; simpl; auto.
  - intros [] [] []; simpl; try done; eauto.
  - intros [] [] []; simpl; try done; eauto.
Qed.

Lemma lawful_lex {A} (c1 c2 : A → A → comparison) :
  lawful c1 → lawful c2 → lawful (λ a b, lex_compare (c1 a b) (c2 a b)).
Proof.
  intros (Hr1 & Ho1 & He1 & Ht1) (Hr2 & Ho2 & He2 & Ht2). split_and!.
  - intros a. by rewrite Hr1, Hr2.
  - intros a b. rewrite Ho1, Ho2. by destruct (c1 a b), (c2 a b).
  - intros a b c. simpl. destruct (c1 a b) eqn:E1; simpl; try done. intros E2.
    by rewrite (He1 _ _ c E1), (He2 _ _ c E2).
  - intros a b c. simpl. destruct (c1 a b) eqn:E1; simpl; try done.
    + rewrite (He1 _ _ c E1). destruct (c1 a c); simpl; try done. apply Ht2.
    + intros _. destruct (c1 b c) eqn:E2; simpl; try done.
      * intros _. assert (c1 a c = Lt) as ->; [|done].
        assert (c1 c b = Eq) as E2' by (rewrite Ho1, E2; done).
        pose proof (He1 _ _ a E2') as E3. rewrite Ho1, E1 in E3. rewrite Ho1, <-E3. done.
      * intros _. by rewrite (Ht1 _ _ _ E1 E2).
Qed.

Lemma lawful_key : lawful key_compare.
Proof.
  unfold key_compare. repeat apply lawful_lex; try apply lawful_string.
  destruct lawful_detail as (Hr & Ho & He & Ht). split_and!; eauto.
Qed.

Lemma key_gt_irrefl k : key_gt k k = false.
Proof. unfold key_gt. by rewrite (proj1 lawful_key). Qed.

Lemma key_gt_trans a b c : key_gt a b = true → key_gt b c = true → key_gt a c = true.
Proof.
  unfold key_gt. destruct lawful_key as (_ & Ho & _ & Ht).
  rewrite (Ho b a), (Ho c b), (Ho c a).
  destruct (key_compare b a) eqn:E1, (key_compare c b) eqn:E2; simpl; try done.
  by rewrite (Ht _ _ _ E2 E1).
Qed.

(** ** Emission reaches every failure *)

(** A truncated collector is full. *)
Definition collector_wf (c : DiagnosticCollector) : Prop :=
  col_truncated c = true → col_max c ≤ length (col_diagnostics c).

Lemma collector_wf_new max : collector_wf (new max).
Proof. done. Qed.

Lemma collector_wf_push d c : collector_wf c → collector_wf (push d c).
Proof.
  unfold collector_wf, push. intros Hwf.
  destruct (Nat.ltb_spec (length (col_diagnostics c)) (col_max c)); simpl; [|done].
  intros Ht. specialize (Hwf Ht). lia.
Qed.

Lemma collector_wf_push_all ds c : collector_wf c → collector_wf (push_all ds c).
Proof. revert c. induction ds as [|d ds IH]; intros c Hc; [done|]. apply IH, collector_wf_push, Hc. Qed.

(** Further errors do not change a truncated collector that has seen one. *)
Lemma push_all_saturated ds c : collector_wf c → col_truncated c = true → col_saw_error c = true →
  push_all ds c = c.
Proof.
  intros Hwf Ht Hs. induction ds as [|d ds IH]; [done|].
  change (push_all (d :: ds) c) with (push_all ds (push d c)).
  assert (push d c = c) as ->; [|done]. unfold push. specialize (Hwf Ht).
  destruct (Nat.ltb_spec (length (col_diagnostics c)) (col_max c)); [lia|].
  destruct c; simpl in *; by subst.
Qed.

(** [m] pushes exactly the error diagnostics [ds], whatever the early exits skip. *)
Definition pushes (m : Diag unit) (ds : list Diagnostic) : Prop :=
  Forall (λ d, is_error d = true) ds ∧ ∀ c, collector_wf c → m c = Some ((), push_all ds c).

Lemma has_errors_all_errors ds c : Forall (λ d, is_error d = true) ds → ds ≠ [] →
  col_saw_error (push_all ds c) = true.
Proof.
  intros Hds Hne. change (has_errors (push_all ds c) = true). rewrite has_errors_push_all.
  destruct Hds as [|d ds Hd _]; [done|]. simpl. rewrite Hd. by rewrite orb_true_r.
Qed.

Lemma pushes_then m k ds ds' : pushes m ds → ds ≠ [] → pushes k ds' →
  pushes (m ≫= λ _, ask_truncated ≫= λ truncated : bool, if truncated then mret () else k) (ds ++ ds').
Proof.
  intros [He Hm] Hne [He' Hk]. split; [by apply Forall_app|]. intros c Hc.
  unfold mbind, Diag_bind. rewrite (Hm c Hc). simpl. unfold ask_truncated. simpl. rewrite push_all_app.
  pose proof (collector_wf_push_all ds c Hc) as Hc'.
  destruct (is_truncated (push_all ds c)) eqn:Ht; [|by apply Hk].
  rewrite (push_all_saturated ds'); [done|done|done|]. by apply has_errors_all_errors.
Qed.

Lemma pushes_ret : pushes (mret ()) [].
Proof. split; [constructor|]. intros c _. done. Qed.

Lemma schema_code_error error : ValidatorReasonCode.severity (classify_schema_failure error) = Error.
Proof.
  revert error. fix IH 1. intros [[| |e| | | | |context| | | | | | | | | | | | |] inst path spath]; simpl;
    first [reflexivity|apply (IH e)|by destruct (resolve_discriminated_one_of _ context)].
Qed.

Lemma pushes_schema_diagnostic error code : ValidatorReasonCode.severity code = Error →
  pushes (push_schema_diagnostic error code) [schema_diagnostic error code].
Proof.
  intros Hc. split.
  - constructor; [|done]. unfold is_error. simpl. by apply bool_decide_eq_true_2.
  - intros c _. done.
Qed.

Lemma min_step_spec errors best :
  match foldl min_step best errors with
  | None => best = None ∧ errors = []
  | Some e => e ∈ errors ∨ best = Some e
  end.
Proof.
  revert best. induction errors as [|x errors IH]; intros best; simpl; [by destruct best; auto|].
  specialize (IH (min_step best x)). destruct (foldl min_step (min_step best x) errors) as [e|].
  - destruct IH as [IH|IH]; [by left; right|]. unfold min_step in IH.
    destruct best as [b|]; [destruct (key_gt _ _)|]; simplify_eq; auto; left; by left.
  - destruct IH as [IH _]. unfold min_step in IH. destruct best; [by destruct (key_gt _ _)|done].
Qed.

Lemma next_failure_Some previous errors e :
  next_failure previous errors = Some e → e ∈ errors ∧ after previous e = true.
Proof.
  unfold next_failure. intros H. pose proof (min_step_spec (filter (λ e, after previous e = true) errors) None) as Hs.
  rewrite H in Hs. destruct Hs as [Hs|]; [|done]. apply list_elem_of_filter in Hs. tauto.
Qed.

Lemma next_failure_None previous errors :
  next_failure previous errors = None → filter (λ e, after previous e = true) errors = [].
Proof.
  unfold next_failure. intros H. pose proof (min_step_spec (filter (λ e, after previous e = true) errors) None) as Hs.
  rewrite H in Hs. tauto.
Qed.

(** Each iteration leaves strictly fewer failures beyond the last key. *)
Lemma after_shrinks previous errors e : e ∈ errors → after previous e = true →
  length (filter (λ x, after (Some (structured_error_key e)) x = true) errors) <
  length (filter (λ x, after previous x = true) errors).
Proof.
  intros He Ha.
  assert (∀ x, after (Some (structured_error_key e)) x = true → after previous x = true) as Hsub.
  { intros x. simpl. destruct previous as [p|]; [|done]. simpl in *. intros Hx.
    by eapply key_gt_trans. }
  assert (∀ l, length (filter (λ x, after (Some (structured_error_key e)) x = true) l) ≤
    length (filter (λ x, after previous x = true) l)) as Hle.
  { induction l as [|x l IH]; [done|]. rewrite !filter_cons.
    destruct (decide (after (Some _) x = true)) as [H1|H1], (decide (after previous x = true)) as [H2|H2];
      rewrite ?length_cons; [lia|destruct H2; by apply Hsub|lia|lia]. }
  apply list_elem_of_split in He as (l1 & l2 & ->). rewrite !filter_app, !length_app, !filter_cons.
  destruct (decide (after (Some _) e = true)) as [H1|_]; [simpl in H1; by rewrite key_gt_irrefl in H1|].
  destruct (decide (after previous e = true)); [|done]. rewrite ?length_cons.
  pose proof (Hle l1). pose proof (Hle l2). lia.
Qed.

Lemma selected_loop_pushes emit_failure errors fuel previous :
  (∀ e, e ∈ errors → ∃ ds, pushes (emit_failure e) ds ∧ ds ≠ []) →
  length (filter (λ x, after previous x = true) errors) < fuel →
  ∃ ds, pushes (selected_loop emit_failure fuel previous errors) ds ∧
    (ds = [] → filter (λ x, after previous x = true) errors = []).
Proof.
  intros Hemit. revert previous. induction fuel as [|fuel IH]; intros previous Hf; [lia|]. simpl.
  destruct (next_failure previous errors) as [e|] eqn:Hnext.
  - apply next_failure_Some in Hnext as [He Ha]. destruct (Hemit e He) as (ds & Hds & Hne).
    destruct (IH (Some (structured_error_key e))) as (ds' & Hds' & _).
    { pose proof (after_shrinks _ _ _ He Ha). lia. }
    exists (ds ++ ds'). split; [by apply pushes_then|]. intros [? _]%app_nil. done.
  - exists []. split; [apply pushes_ret|]. intros _. by apply next_failure_None.
Qed.

(** A union failure carries the failures of every alternative: no alternative of a
    rejected union is free of failures. *)
Fixpoint well_formed (error : ValidationError) : bool :=
  match ve_kind error with
  | OneOfNotValid context =>
      forallb (λ branch, negb (bool_decide (length branch = 0)) && forallb well_formed branch) context
  | _ => true
  end.

Lemma resolve_selected error branches branch :
  resolve_discriminated_one_of error branches = Selected branch → branch ∈ branches.
Proof.
  unfold resolve_discriminated_one_of. destruct (ve_instance error); try done.
  destruct (branches_share_missing_required_property _ _); [done|].
  destruct (discriminate_all _ _ _) as [[[[path ek] ak]|]|]; try done.
  destruct (filter _ branches) as [|b [|]] eqn:Hf; [by case_bool_decide| |done].
  intros [= <-]. assert (b ∈ [b]) as Hb by (by left). rewrite <-Hf in Hb.
  by apply list_elem_of_filter in Hb as [_ ?].
Qed.

Lemma list_max_elem x l : x ∈ l → x ≤ list_max l.
Proof.
  intros Hx. pose proof (proj1 (list_max_le l (list_max l)) (le_n _)) as Hall.
  rewrite Forall_forall in Hall. by apply Hall.
Qed.

Lemma error_depth_branch context inst path spath branch e : branch ∈ context → e ∈ branch →
  error_depth e < error_depth (MkError (OneOfNotValid context) inst path spath).
Proof.
  intros Hb He. simpl. apply Nat.lt_succ_r.
  transitivity (list_max (map error_depth branch)).
  - apply list_max_elem. rewrite list_elem_of_In. apply in_map. by apply list_elem_of_In.
  - apply list_max_elem. apply list_elem_of_In.
    apply (in_map (λ branch, list_max (map error_depth branch))). by apply list_elem_of_In.
Qed.

Lemma emit_schema_failure_pushes fuel error : error_depth error ≤ fuel → well_formed error = true →
  ∃ ds, pushes (emit_schema_failure fuel error) ds ∧ ds ≠ [].
Proof.
  revert error. induction fuel as [|fuel IH]; intros error Hd Hwf.
  { destruct error as [[] ? ? ?]; simpl in Hd; lia. }
  assert (∀ code, ValidatorReasonCode.severity code = Error →
    ∃ ds, pushes (push_schema_diagnostic error code) ds ∧ ds ≠ []) as Hone.
  { intros code Hc. exists [schema_diagnostic error code]. split; [by apply pushes_schema_diagnostic|done]. }
  pose proof (schema_code_error error) as Hsev.
  destruct error as [[| | | | | | |context| | | | | | | | | | | | |] inst path spath];
    try (apply (Hone _ Hsev)).
  change (emit_schema_failure (S fuel) (MkError (OneOfNotValid context) inst path spath)) with
    (match resolve_discriminated_one_of (MkError (OneOfNotValid context) inst path spath) context with
     | Selected branch => emit_selected_branch_failures (emit_schema_failure fuel) branch
     | Missing => push_schema_diagnostic (MkError (OneOfNotValid context) inst path spath) IrSchemaRequired
     | WrongType | Ambiguous => push_schema_diagnostic (MkError (OneOfNotValid context) inst path spath) IrSchemaType
     | Unsupported => push_schema_diagnostic (MkError (OneOfNotValid context) inst path spath) IrSchemaEnum
     end).
  destruct (resolve_discriminated_one_of _ context) as [| | |branch|] eqn:Hr; try (by apply Hone).
  apply resolve_selected in Hr. simpl in Hwf. rewrite forallb_forall in Hwf.
  specialize (Hwf branch (proj1 (list_elem_of_In _ _) Hr)). apply andb_true_iff in Hwf as [Hlen Hwf].
  rewrite forallb_forall in Hwf.
  destruct (selected_loop_pushes (emit_schema_failure fuel) branch (S (length branch)) None) as (ds & Hds & Hnil).
  - intros e He. apply IH; [|apply Hwf; by apply list_elem_of_In].
    pose proof (error_depth_branch context inst path spath branch e Hr He). lia.
  - pose proof (length_filter (λ x, after None x = true) branch). lia.
  - exists ds. split; [done|]. intros ->. specialize (Hnil eq_refl).
    destruct branch as [|e branch]; [done|]. rewrite filter_cons in Hnil. by rewrite decide_True in Hnil.
Qed.

Lemma emit_validator_errors_pushes errors : forallb well_formed errors = true →
  ∃ ds, pushes (emit_validator_errors errors) ds ∧ (ds = [] ↔ errors = []).
Proof.
  induction errors as [|e errors IH]; simpl; intros Hwf.
  - exists []. split; [apply pushes_ret|done].
  - apply andb_true_iff in Hwf as [He Hwf]. destruct (IH Hwf) as (ds' & Hds' & _).
    destruct (emit_schema_failure_pushes (error_depth e) e (le_n _) He) as (ds & Hds & Hne).
    exists (ds ++ ds'). split; [by apply pushes_then|]. split; [|done]. intros [? _]%app_nil. done.
Qed.

(** ** Independence of the order of alternatives *)

(** What resolution reads of a branch member. *)
Definition same_head (e e' : ValidationError) : Prop :=
  ve_instance e = ve_instance e' ∧ ve_instance_path e = ve_instance_path e' ∧
  match ve_kind e, ve_kind e' with
  | Required p, Required p' => p = p'
  | Pattern p, Pattern p' => p = p'
  | Constant v, Constant v' => v = v'
  | PropertyNames _, PropertyNames _ => True
  | OneOfNotValid _, OneOfNotValid _ => True
  | PropertyNames _, _ | OneOfNotValid _, _ | _, PropertyNames _ | _, OneOfNotValid _ => False
  | k, k' => k = k'
  end.

(** The keys of two branches compare alike, position by position. *)
Definition same_order (b b' : list ValidationError) : Prop :=
  ∀ i j e1 e2 e1' e2', b !! i = Some e1 → b !! j = Some e2 → b' !! i = Some e1' → b' !! j = Some e2' →
    key_compare (structured_error_key e1) (structured_error_key e2) =
    key_compare (structured_error_key e1') (structured_error_key e2').

(** Two failures of one document under schemas that list the alternatives of their
    unions in different orders, at every level: schema paths may differ, as long as
    the failures inside one alternative keep their relative order. *)
Inductive reordered : ValidationError → ValidationError → Prop :=
  | reordered_leaf kind inst path spath spath' :
      match kind with PropertyNames _ | OneOfNotValid _ => False | _ => True end →
      reordered (MkError kind inst path spath) (MkError kind inst path spath')
  | reordered_property_names e e' inst path spath spath' :
      reordered e e' →
      reordered (MkError (PropertyNames e) inst path spath) (MkError (PropertyNames e') inst path spath')
  | reordered_one_of context mid context' inst path spath spath' :
      Forall2 (Forall2 reordered) context mid → Forall2 same_order context mid → mid ≡ₚ context' →
      reordered (MkError (OneOfNotValid context) inst path spath)
                (MkError (OneOfNotValid context') inst path spath').

Lemma reordered_same_head e e' : reordered e e' → same_head e e'.
Proof. destruct 1 as [[] | |]; repeat split; done. Qed.

Lemma same_head_required path e e' : same_head e e' → required_property path e = required_property path e'.
Proof.
  intros (_ & Hp & Hk). unfold required_property. rewrite <-Hp.
  destruct (ve_kind e), (ve_kind e'); cbn in Hk; try done; try discriminate Hk; by rewrite Hk.
Qed.

Lemma existsb_Forall2 {A B} (R : A → B → Prop) (f : A → bool) (g : B → bool) l l' :
  (∀ a b, R a b → f a = g b) → Forall2 R l l' → existsb f l = existsb g l'.
Proof. intros Hfg. induction 1 as [|a b l l' Hab _ IH]; simpl; [done|]. by rewrite (Hfg _ _ Hab), IH. Qed.

Lemma requires_reordered path p b b' : Forall2 reordered b b' → requires path p b = requires path p b'.
Proof.
  apply existsb_Forall2. intros e e' He%reordered_same_head. by rewrite (same_head_required path e e').
Qed.

Lemma requires_spec path p b : requires path p b = true ↔ Some p ∈ (required_property path <$> b).
Proof.
  unfold requires. rewrite existsb_exists, list_elem_of_fmap. setoid_rewrite <-list_elem_of_In.
  split; intros (e & H1 & H2); exists e; case_bool_decide || idtac; naive_solver.
Qed.

(** The properties that every alternative misses, as a set. *)
Lemma share_missing_spec error branches :
  branches_share_missing_required_property error branches = true ↔
  branches ≠ [] ∧ ∃ p, ∀ b, b ∈ branches → requires (ve_instance_path error) p b = true.
Proof.
  unfold branches_share_missing_required_property. set (path := ve_instance_path error).
  destruct branches as [|first rest]; [naive_solver|].
  assert (∀ (common : list string) (p : string), p ∈ foldl (λ common branch, filter (λ p, requires path p branch = true) common) common rest ↔
    p ∈ common ∧ ∀ b, b ∈ rest → requires path p b = true) as Hfold.
  { induction rest as [|b rest IH]; intros common p; simpl; [set_solver|].
    rewrite IH, list_elem_of_filter, forall_elem_of_cons. tauto. }
  rewrite negb_true_iff, bool_decide_eq_false. split.
  - intros Hne. split; [done|].
    destruct (foldl _ _ rest) as [|p l] eqn:E in Hne; [done|]. exists p.
    assert (p ∈ p :: l) as Hp by (by left). rewrite <-E in Hp.
    apply Hfold in Hp as [Hp Hrest]. rewrite forall_elem_of_cons. split; [|done].
    apply requires_spec. apply list_elem_of_omap in Hp as (e & He & Hp). rewrite <-Hp. by apply list_elem_of_fmap_2.
  - intros [_ [p Hp]] Hnil. rewrite forall_elem_of_cons in Hp. destruct Hp as [Hp Hrest].
    apply requires_spec, list_elem_of_fmap in Hp as (e & Hp & He).
    assert (p ∈ omap (required_property path) first) as Hp' by (apply list_elem_of_omap; eauto).
    pose proof (proj2 (Hfold _ p) (conj Hp' Hrest)) as Hin. rewrite Hnil in Hin. by apply elem_of_nil in Hin.
Qed.

(** The discriminator tag of a child, and the loop as a test that all tags agree. *)
Definition child_tag (direct_prefix : string) (child : ValidationError) :
    option (string * JsonValueKind * JsonValueKind) :=
  match ve_kind child with
  | Constant v =>
      if is_direct_child direct_prefix (ve_instance_path child)
      then Some (ve_instance_path child, json_value_kind v, json_value_kind (ve_instance child)) else None
  | _ => None
  end.

Lemma same_head_tag prefix e e' : same_head e e' → child_tag prefix e = child_tag prefix e'.
Proof.
  intros (Hi & Hp & Hk). unfold child_tag. rewrite <-Hp, <-Hi.
  destruct (ve_kind e), (ve_kind e'); cbn in Hk; try done; try discriminate Hk; by rewrite Hk.
Qed.

Definition agree (tags : list (string * JsonValueKind * JsonValueKind)) (state : discriminator) :
    option discriminator :=
  match state, tags with
  | None, [] => Some None
  | None, t :: tags' => if forallb (λ u, bool_decide (u = t)) tags' then Some (Some t) else None
  | Some t, _ => if forallb (λ u, bool_decide (u = t)) tags then Some (Some t) else None
  end.

Lemma discriminate_agree prefix state child :
  discriminate prefix state child =
  match child_tag prefix child, state with
  | None, _ => Some state
  | Some t, None => Some (Some t)
  | Some t, Some u => if bool_decide (t = u) then Some (Some u) else None
  end.
Proof.
  unfold discriminate, child_tag. destruct (ve_kind child); try done.
  destruct (is_direct_child _ _); [|done]. destruct state as [[[path ek] ak]|]; [|done].
  repeat case_bool_decide; simpl; naive_solver.
Qed.

Lemma discriminate_all_agree prefix state children :
  discriminate_all prefix state children = agree (omap (child_tag prefix) children) state.
Proof.
  revert state. induction children as [|c children IH]; intros state; simpl; [by destruct state|].
  rewrite discriminate_agree. destruct (child_tag prefix c) as [t|].
  - destruct state as [u|]; simpl.
    + case_bool_decide; simpl; [|done]. by rewrite IH.
    + by rewrite IH.
  - simpl. apply IH.
Qed.

Lemma forallb_Permutation {A} (f : A → bool) l l' : l ≡ₚ l' → forallb f l = forallb f l'.
Proof. induction 1; simpl; try congruence. destruct (f x), (f y); done. Qed.

(** Whether all tags agree does not depend on their order. *)
Lemma agree_Permutation tags tags' : tags ≡ₚ tags' → agree tags None = agree tags' None.
Proof.
  intros Hp. destruct tags as [|t tags], tags' as [|t' tags']; try done.
  - by apply Permutation_nil_cons in Hp.
  - symmetry in Hp. by apply Permutation_nil_cons in Hp.
  - simpl.
    assert (∀ (u : string * JsonValueKind * JsonValueKind) l, forallb (λ v, bool_decide (v = u)) l = true ↔ ∀ v, v ∈ l → v = u) as Hall.
    { intros u l. rewrite forallb_forall. setoid_rewrite <-list_elem_of_In. by setoid_rewrite bool_decide_eq_true. }
    destruct (forallb _ tags) eqn:E1, (forallb _ tags') eqn:E2; try done.
    + rewrite Hall in E1, E2. f_equal. f_equal.
      assert (t' ∈ t :: tags) as Ht by (rewrite Hp; by left). apply elem_of_cons in Ht as [->|Ht]; [done|].
      symmetry. by apply E1.
    + rewrite Hall in E1. apply not_true_iff_false in E2. destruct E2. apply Hall. intros v Hv.
      assert (∀ w, w ∈ t' :: tags' → w = t) as Hw.
      { intros w Hw. rewrite <-Hp in Hw. apply elem_of_cons in Hw as [->|Hw]; auto. }
      rewrite (Hw v), (Hw t'); [done|by left|by right].
    + rewrite Hall in E2. apply not_true_iff_false in E1. destruct E1. apply Hall. intros v Hv.
      assert (∀ w, w ∈ t :: tags → w = t') as Hw.
      { intros w Hw. rewrite Hp in Hw. apply elem_of_cons in Hw as [->|Hw]; auto. }
      rewrite (Hw v), (Hw t); [done|by left|by right].
Qed.

Lemma mismatch_reordered path b b' : Forall2 reordered b b' →
  discriminator_mismatch path b = discriminator_mismatch path b'.
Proof.
  apply existsb_Forall2. intros e e' (_ & Hp & Hk)%reordered_same_head. rewrite <-Hp.
  destruct (ve_kind e), (ve_kind e'); cbn in Hk; try done; try discriminate Hk; by rewrite Hk.
Qed.

(** Two branches of one alternative. *)
Definition branch_reordered (b b' : list ValidationError) : Prop := Forall2 reordered b b' ∧ same_order b b'.

Inductive resolution_reordered : OneOfResolution → OneOfResolution → Prop :=
  | rr_same r : resolution_reordered r r
  | rr_selected b b' : branch_reordered b b' → resolution_reordered (Selected b) (Selected b').

(** Related alternatives in another order, with the relation of each pair kept. *)
Lemma share_missing_reordered error error' context mid context' :
  ve_instance_path error = ve_instance_path error' →
  Forall2 (Forall2 reordered) context mid → mid ≡ₚ context' →
  branches_share_missing_required_property error context =
  branches_share_missing_required_property error' context'.
Proof.
  intros Hpath Hmid Hperm. apply eq_iff_eq_true. rewrite !share_missing_spec, <-Hpath. clear Hpath.
  split; intros [Hne [p Hp]]; (split; [intros ->|exists p]).
  - apply Permutation_sym, Permutation_nil in Hperm as ->. by apply Forall2_nil_inv_r in Hmid.
  - intros b Hb. rewrite <-Hperm in Hb. apply list_elem_of_lookup in Hb as [i Hi].
    destruct (Forall2_lookup_r _ _ _ _ _ Hmid Hi) as (b0 & Hi0 & Hb0).
    rewrite <-(requires_reordered _ _ _ _ Hb0). apply Hp. by eapply list_elem_of_lookup_2.
  - apply Forall2_nil_inv_l in Hmid as ->. by apply Permutation_nil in Hperm.
  - intros b [i Hi]%list_elem_of_lookup. destruct (Forall2_lookup_l _ _ _ _ _ Hmid Hi) as (b0 & Hi0 & Hb0).
    rewrite (requires_reordered _ _ _ _ Hb0). apply Hp. rewrite <-Hperm. by eapply list_elem_of_lookup_2.
Qed.

Lemma tags_reordered prefix context mid : Forall2 (Forall2 reordered) context mid →
  omap (child_tag prefix) (concat context) = omap (child_tag prefix) (concat mid).
Proof.
  induction 1 as [|b b' context mid Hb _ IH]; simpl; [done|]. rewrite !omap_app, IH. f_equal.
  clear -Hb. induction Hb as [|e e' b b' He _ IH]; simpl; [done|].
  rewrite (same_head_tag prefix e e') by (by apply reordered_same_head).
  destruct (child_tag prefix e'); [f_equal|]; exact IH.
Qed.

Lemma filter_reordered path context mid :
  Forall2 (Forall2 reordered) context mid → Forall2 same_order context mid →
  Forall2 branch_reordered
    (filter (λ branch, discriminator_mismatch path branch = false) context)
    (filter (λ branch, discriminator_mismatch path branch = false) mid).
Proof.
  intros Hmid Hord. induction Hmid as [|b b' context mid Hb _ IH]; [done|].
  apply Forall2_cons in Hord as [Ho Hord]. rewrite !filter_cons.
  pose proof (mismatch_reordered path b b' Hb) as Heq.
  destruct (decide (discriminator_mismatch path b = false)), (decide (discriminator_mismatch path b' = false));
    try congruence; auto. constructor; [by split|auto].
Qed.

Lemma resolve_reordered error error' context mid context' :
  ve_instance error = ve_instance error' → ve_instance_path error = ve_instance_path error' →
  Forall2 (Forall2 reordered) context mid → Forall2 same_order context mid → mid ≡ₚ context' →
  resolution_reordered (resolve_discriminated_one_of error context)
                       (resolve_discriminated_one_of error' context').
Proof.
  intros Hinst Hpath Hmid Hord Hperm. unfold resolve_discriminated_one_of.
  rewrite <-Hinst, <-(share_missing_reordered error error' context mid context') by done.
  destruct (ve_instance error); try apply rr_same.
  destruct (branches_share_missing_required_property error context); [apply rr_same|].
  rewrite <-Hpath, !discriminate_all_agree, (tags_reordered _ context mid Hmid).
  rewrite (agree_Permutation (omap _ (concat mid)) (omap (child_tag (ve_instance_path error +++ "/")) (concat context'))).
  2: { apply omap_Permutation. by rewrite Hperm. }
  destruct (agree _ None) as [[[[path ek] ak]|]|]; try apply rr_same.
  pose proof (filter_reordered path context mid Hmid Hord) as Hf.
  assert (filter (λ branch, discriminator_mismatch path branch = false) mid ≡ₚ
          filter (λ branch, discriminator_mismatch path branch = false) context') as Hp by by rewrite Hperm.
  revert Hf Hp. generalize (filter (λ branch, discriminator_mismatch path branch = false) context),
    (filter (λ branch, discriminator_mismatch path branch = false) mid),
    (filter (λ branch, discriminator_mismatch path branch = false) context').
  intros l1 l2 l3 Hf Hp. destruct Hf as [|b b' l1 l2 Hb [|b2 b2' l1' l2' Hb2 Hf]].
  - apply Permutation_nil in Hp as ->. apply rr_same.
  - apply Permutation_length_1_inv in Hp as ->. by apply rr_selected.
  - apply Permutation_length in Hp. destruct l3 as [|? [|]]; simpl in Hp; try lia. apply rr_same.
Qed.

Lemma classify_reordered e e' : reordered e e' → classify_schema_failure e = classify_schema_failure e'.
Proof.
  induction 1 as [kind inst path spath spath' Hk|e e' inst path spath spath' _ IH
                 |context mid context' inst path spath spath' Hmid Hord Hperm].
  - by destruct kind.
  - simpl. exact IH.
  - simpl.
    pose proof (resolve_reordered (MkError (OneOfNotValid context) inst path spath)
      (MkError (OneOfNotValid context') inst path spath') context mid context' eq_refl eq_refl Hmid Hord Hperm) as Hr.
    by destruct Hr as [[]|].
Qed.

Lemma same_order_elem b b' i j e1 e2 e1' e2' : same_order b b' →
  b !! i = Some e1 → b !! j = Some e2 → b' !! i = Some e1' → b' !! j = Some e2' →
  key_gt (structured_error_key e1) (structured_error_key e2) =
  key_gt (structured_error_key e1') (structured_error_key e2').
Proof. intros Ho H1 H2 H3 H4. unfold key_gt. by rewrite (Ho i j e1 e2 e1' e2'). Qed.

(** Members at one position of two related branches. *)
Definition paired (b b' : list ValidationError) (e e' : ValidationError) : Prop :=
  ∃ i, b !! i = Some e ∧ b' !! i = Some e'.

Lemma Forall2_paired b b' : Forall2 reordered b b' → Forall2 (paired b b') b b'.
Proof.
  intros Hb. apply Forall2_same_length_lookup. split; [by eapply Forall2_length|].
  intros i e e' He He'. by exists i.
Qed.

Lemma next_failure_paired b b' prev prev' :
  branch_reordered b b' →
  match prev, prev' with
  | None, None => True
  | Some e, Some e' => paired b b' e e'
  | _, _ => False
  end →
  match next_failure (structured_error_key <$> prev) b, next_failure (structured_error_key <$> prev') b' with
  | None, None => True
  | Some e, Some e' => paired b b' e e'
  | _, _ => False
  end.
Proof.
  intros [Hb Ho] Hprev. unfold next_failure.
  assert (∀ e1 e2 e1' e2', paired b b' e1 e1' → paired b b' e2 e2' →
    key_gt (structured_error_key e1) (structured_error_key e2) =
    key_gt (structured_error_key e1') (structured_error_key e2')) as Hgt.
  { intros e1 e2 e1' e2' (i & H1 & H1') (j & H2 & H2'). by eapply same_order_elem. }
  assert (Forall2 (paired b b')
    (filter (λ e, after (structured_error_key <$> prev) e = true) b)
    (filter (λ e, after (structured_error_key <$> prev') e = true) b')) as Hf.
  { pose proof (Forall2_paired b b' Hb) as Hp. revert Hp. generalize b at 2 4, b' at 2 4. clear Hb.
    intros l l'. induction 1 as [|e e' l l' He _ IH]; [constructor|]. rewrite !filter_cons.
    assert (after (structured_error_key <$> prev) e = after (structured_error_key <$> prev') e') as Ha.
    { destruct prev, prev'; simpl; try done. by apply Hgt. }
    destruct (decide (after _ e = true)), (decide (after _ e' = true)); try congruence; auto. }
  clear Hprev Hb Ho. revert Hf.
  generalize (filter (λ e, after (structured_error_key <$> prev) e = true) b),
    (filter (λ e, after (structured_error_key <$> prev') e = true) b').
  intros l l' Hl.
  assert (∀ best best', match best, best' with
    | None, None => True | Some e, Some e' => paired b b' e e' | _, _ => False end →
    match foldl min_step best l, foldl min_step best' l' with
    | None, None => True | Some e, Some e' => paired b b' e e' | _, _ => False end) as H; [|by apply H].
  induction Hl as [|e e' l l' He _ IH]; intros best best' Hbest; simpl; [done|]. apply IH.
  unfold min_step. destruct best as [x|], best' as [x'|]; try done.
  rewrite (Hgt x e x' e') by done. by destruct (key_gt _ _).
Qed.

Lemma selected_loop_reordered f f' b b' fuel prev prev' c :
  branch_reordered b b' → (∀ e e' c, e ∈ b → reordered e e' → f e c = f' e' c) →
  match prev, prev' with
  | None, None => True
  | Some e, Some e' => paired b b' e e'
  | _, _ => False
  end →
  selected_loop f fuel (structured_error_key <$> prev) b c =
  selected_loop f' fuel (structured_error_key <$> prev') b' c.
Proof.
  intros Hb Hf. revert prev prev' c. induction fuel as [|fuel IH]; intros prev prev' c Hprev; [done|]. simpl.
  pose proof (next_failure_paired b b' prev prev' Hb Hprev) as Hn.
  destruct (next_failure _ b) as [e|] eqn:E1, (next_failure _ b') as [e'|] eqn:E2; try done.
  apply next_failure_Some in E1 as [E1 _]. pose proof Hn as (i & Hi & Hi').
  destruct Hb as [Hb Ho]. destruct (Forall2_lookup_l _ _ _ _ _ Hb Hi) as (e2 & He2 & Hr).
  rewrite Hi' in He2. injection He2 as <-.
  unfold mbind, Diag_bind. rewrite (Hf e e' c E1 Hr). destruct (f' e' c) as [[u c']|]; [|done].
  unfold ask_truncated. destruct (is_truncated c'); [done|].
  exact (IH (Some e) (Some e') c' Hn).
Qed.

Lemma emit_schema_failure_reordered fuel e e' c :
  reordered e e' → emit_schema_failure fuel e c = emit_schema_failure fuel e' c.
Proof.
  revert e e' c. induction fuel as [|fuel IH]; intros e e' c He; [done|].
  pose proof (classify_reordered e e' He) as Hc. destruct He as [kind inst path spath spath' Hk|
    e e' inst path spath spath' He|context mid context' inst path spath spath' Hmid Hord Hperm].
  - destruct kind; try done.
  - simpl in Hc |- *. unfold push_schema_diagnostic, schema_diagnostic. simpl. by rewrite Hc.
  - simpl.
    pose proof (resolve_reordered (MkError (OneOfNotValid context) inst path spath)
      (MkError (OneOfNotValid context') inst path spath') context mid context' eq_refl eq_refl Hmid Hord Hperm) as Hr.
    destruct Hr as [[]|b b' Hb]; try done.
    unfold emit_selected_branch_failures. rewrite (Forall2_length _ _ _ (proj1 Hb)).
    apply (selected_loop_reordered _ _ b b' _ None None); [done| |done]. intros x x' c' _. apply IH.
Qed.

Lemma list_max_Permutation l l' : l ≡ₚ l' → list_max l = list_max l'.
Proof. induction 1; simpl; lia. Qed.

Lemma list_max_Forall2 {A B} (R : A → B → Prop) f g l l' :
  (∀ a b, a ∈ l → R a b → f a = g b) → Forall2 R l l' → list_max (map f l) = list_max (map g l').
Proof.
  intros Hfg Hl. revert Hfg. induction Hl as [|a b l l' Hab _ IH]; intros Hfg; simpl; [done|].
  rewrite (Hfg a b), IH; [done| |by left|done]. intros x y Hx. apply Hfg. by right.
Qed.

Lemma error_depth_reordered e e' : reordered e e' → error_depth e = error_depth e'.
Proof.
  remember (error_depth e) as n eqn:Hn. revert e e' Hn.
  induction (lt_wf n) as [n _ IH]. intros e e' -> He.
  destruct He as [kind inst path spath spath' Hk|e e' inst path spath spath' He
                 |context mid context' inst path spath spath' Hmid Hord Hperm]; [by destruct kind|done|].
  simpl. f_equal. trans (list_max (map (λ branch, list_max (map error_depth branch)) mid)).
  - apply (list_max_Forall2 (Forall2 reordered)); [|done]. intros b b' Hb.
    apply (list_max_Forall2 reordered). intros x x' Hx Hr.
    refine (IH (error_depth x) _ x x' eq_refl Hr). by apply (error_depth_branch _ inst path spath b).
  - apply list_max_Permutation. by apply Permutation_map.
Qed.

(** ** Claims *)

(** C18: schema validation rejects exactly the documents for which the schema
    validator reports a failure: on any collector the whole failure tree is
    processed without panic, the early exit on truncation loses nothing but
    suppressed diagnostics, every pushed diagnostic is an error, and none is pushed
    only if there is no failure.  Failures are those of [jsonschema]: a rejected
    union lists at least one failure for each of its alternatives. *)
Theorem validate_schema_rejects embedded_schema validator_for validator value :
  compiled_schema embedded_schema validator_for = Ok validator →
  forallb well_formed (validator value) = true →
  ∃ ds, Forall (λ d, is_error d = true) ds ∧ (ds = [] ↔ validator value = []) ∧
    ∀ c, collector_wf c →
      validate_schema embedded_schema validator_for value c = Some (Ok (), push_all ds c).
Proof.
  intros Hc Hwf. destruct (emit_validator_errors_pushes _ Hwf) as (ds & [Herr Hds] & Hnil).
  exists ds. split_and!; [done|exact Hnil|]. intros c Hcol. unfold validate_schema. rewrite Hc.
  unfold mbind, Diag_bind. by rewrite (Hds c Hcol).
Qed.

(** A union over a [kind] discriminator, as the value references of the IR schema
    are: the first alternative is selected and misses a pattern, the second one
    rejects the discriminator. *)
Definition sample_alternatives (first second : string) : list (list ValidationError) := [
  [MkError (Pattern "^[a-z]+$") (Str "bad/name") "/inputs/source/name" (first +++ "/properties/name/pattern");
   MkError AdditionalProperties (Object []) "/inputs/source" (first +++ "/additionalProperties")];
  [MkError (Constant (Str "node")) (Str "input") "/inputs/source/source" (second +++ "/properties/source/const")]
].

Definition sample_failure (first second : string) (flip : bool) : ValidationError :=
  MkError (OneOfNotValid ((if flip then reverse else id) (sample_alternatives first second)))
    (Object [("name", Str "bad/name"); ("source", Str "input")]) "/inputs/source" "/oneOf".

Lemma validate_schema_rejects_witness :
  ∃ ds, Forall (λ d, is_error d = true) ds ∧ (ds = [] ↔ [sample_failure "/0" "/1" false] = []) ∧
    ∀ c, collector_wf c →
      validate_schema (Ok (Object [])) (λ _, Ok (λ _, [sample_failure "/0" "/1" false])) Null c =
      Some (Ok (), push_all ds c).
Proof.
  apply (validate_schema_rejects (Ok (Object [])) (λ _, Ok (λ _, [sample_failure "/0" "/1" false]))
    (λ _, [sample_failure "/0" "/1" false]) Null); reflexivity.
Defined.

(** C19: the diagnostics do not depend on the order in which the schema lists the
    alternatives of a union, at any nesting depth: failures that differ only in the
    order of alternatives, and in the schema locations that this order determines,
    give the same collector, even when it truncates. *)
Theorem schema_alternative_order errors errors' c :
  Forall2 reordered errors errors' → emit_validator_errors errors c = emit_validator_errors errors' c.
Proof.
  intros He. revert c. induction He as [|e e' errors errors' He _ IH]; intros c; [done|]. simpl.
  rewrite (error_depth_reordered e e' He). unfold mbind, Diag_bind.
  rewrite (emit_schema_failure_reordered _ e e' c He).
  destruct (emit_schema_failure _ e' c) as [[u c']|]; [|done]. unfold ask_truncated.
  destruct (is_truncated c'); [done|]. apply IH.
Qed.

Lemma schema_alternative_order_witness :
  emit_validator_errors [sample_failure "/0" "/1" false] (new 8) =
    emit_validator_errors [sample_failure "/1" "/0" true] (new 8) ∧
  option_map (λ r, map diag_code (col_diagnostics r.2))
    (emit_validator_errors [sample_failure "/0" "/1" false] (new 8)) =
    Some [IrSchemaAdditionalProperty; IrSchemaPattern].
Proof.
  split; [|reflexivity]. apply schema_alternative_order. constructor; [|constructor].
  apply (reordered_one_of _ (sample_alternatives "/1" "/0")).
  - repeat constructor.
  - repeat constructor; intros i j e1 e2 e1' e2' H1 H2 H3 H4;
      repeat (destruct i as [|i]; simpl in *; simplify_eq); repeat (destruct j as [|j]; simpl in *; simplify_eq);
      reflexivity.
  - symmetry. apply reverse_Permutation.
Defined.
