(* ===== verification/Normalize.v ===== *)
(** * Semantic normalization

    [crates/aios-ir/src/normalize.rs]: the projection of a serialized program to its
    canonical semantic view.  [serde_json::to_value] on the program, whose code is
    derived, and the [Display] of a JSON value are parameters; a mutation through
    [get_mut] is an update of the member in place. *)

From S2P Require Import Prelude Json Contracts.

(** ** UTF-16 order *)

(** The code points of a UTF-8 string; a byte that starts no character, which no
    Rust string has, stands for itself. *)
Fixpoint code_points (s : string) : list N :=
  match s with
  | EmptyString => []
  | String a r1 =>
      let a' := Ascii.N_of_ascii a in
      let low b := N.land (Ascii.N_of_ascii b) 63 in
      if (a' <? 128)%N then a' :: code_points r1
      else
        match r1 with
        | String b r2 =>
            if (a' <? 224)%N then (N.land a' 31 * 64 + low b)%N :: code_points r2
            else
              match r2 with
              | String c r3 =>
                  if (a' <? 240)%N then (N.land a' 15 * 4096 + low b * 64 + low c)%N :: code_points r3
                  else
                    match r3 with
                    | String d r4 =>
                        (N.land a' 7 * 262144 + low b * 4096 + low c * 64 + low d)%N :: code_points r4
                    | EmptyString => [a']
                    end
              | EmptyString => [a']
              end
        | EmptyString => [a']
        end
  end.

(** [str::encode_utf16] *)
Definition utf16_units (c : N) : list N :=
  if (c <? 65536)%N then [c]
  else [55296 + (c - 65536) / 1024; 56320 + (c - 65536) mod 1024]%N.

Definition encode_utf16 (s : string) : list N := code_points s ≫= utf16_units.

(** [Iterator::cmp] *)
Fixpoint units_compare (a b : list N) : comparison :=
  match a, b with
  | [], [] => Eq
  | [], _ => Lt
  | _, [] => Gt
  | x :: a', y :: b' => match N.compare x y with Eq => units_compare a' b' | c => c end
  end.

(** ** Sorting by a comparison *)

Definition le_of {A} (cmp : A → A → comparison) (a b : A) : bool :=
  match cmp a b with Gt => false | _ => true end.

(** [Option<&str>::cmp] *)
Definition option_str_compare (a b : option string) : comparison :=
  match a, b with
  | None, None => Eq
  | None, Some _ => Lt
  | Some _, None => Gt
  | Some s, Some t => String.compare s t
  end.

Definition get_str (k : string) (v : Value) : option string := value_get k v ≫= as_str.

Definition node_compare (left right : Value) : comparison :=
  option_str_compare (get_str "id" left) (get_str "id" right).

Definition request_compare (left right : Value) : comparison :=
  match option_str_compare (get_str "action" left) (get_str "action" right) with
  | Eq => option_str_compare (get_str "resource" left) (get_str "resource" right)
  | c => c
  end.

(** [as_object_mut] and [as_array_mut] with the mutation of what they return. *)
Definition on_object (f : list (string * Value) → list (string * Value)) (v : Value) : Value :=
  match v with Object ms => Object (f ms) | _ => v end.
Definition on_array (f : list Value → list Value) (v : Value) : Value :=
  match v with Array vs => Array (f vs) | _ => v end.

(** [values_mut] *)
Definition map_values (f : Value → Value) (ms : list (string * Value)) : list (string * Value) :=
  map (λ kv, (kv.1, f kv.2)) ms.

Definition remove_empty_array (key : string) (object : list (string * Value)) : list (string * Value) :=
  match assoc_get key object with
  | Some (Array []) => assoc_remove key object
  | _ => object
  end.

Section normalize.

(** [Value::to_string] and [serde_json::to_value] of a program. *)
Context (display : Value → string) (to_value : AiosIr → result string Value).

Definition string_array_compare (left right : Value) : comparison :=
  match as_str left, as_str right with
  | Some l, Some r => units_compare (encode_utf16 l) (encode_utf16 r)
  | _, _ => String.compare (display left) (display right)
  end.

Definition sort_string_array : Value → Value := on_array (sort_by (le_of string_array_compare)).

(** Sort the named member as a set of strings and drop it when it is empty. *)
Definition normalize_set (key : string) (object : list (string * Value)) : list (string * Value) :=
  remove_empty_array key (assoc_alter sort_string_array key object).

Definition normalize_input (input : list (string * Value)) : list (string * Value) :=
  normalize_set "media_types" (assoc_remove "description" input).

Definition normalize_requests (requests : list Value) : list Value :=
  sort_by (le_of request_compare) (map (on_object (assoc_remove "reason")) requests).

(** [constraints]: dropped when the normalized object is empty. *)
Definition normalize_constraints (node : list (string * Value)) : list (string * Value) :=
  let node := assoc_alter (on_object (normalize_set "locality")) "constraints" node in
  match assoc_get "constraints" node with
  | Some (Object []) => assoc_remove "constraints" node
  | _ => node
  end.

Definition normalize_node_members (node : list (string * Value)) : list (string * Value) :=
  let node := assoc_remove "description" node in
  let node := assoc_remove "metadata" node in
  let node := assoc_alter (on_array normalize_requests) "authority_requests" node in
  let node := assoc_alter (on_object (normalize_set "destination_classes")) "egress" node in
  normalize_constraints node.

Definition normalize_node : Value → Value := on_object normalize_node_members.

Definition normalize_nodes (nodes : list Value) : list Value :=
  sort_by (le_of node_compare) (map normalize_node nodes).

Definition normalize_root (root : list (string * Value)) : list (string * Value) :=
  let root := assoc_remove "program_id" root in
  let root := assoc_remove "metadata" root in
  let root := assoc_alter (on_object (map_values (on_object normalize_input))) "inputs" root in
  assoc_alter (on_array normalize_nodes) "nodes" root.

Definition normalize_semantic_value (value : Value) : result string Value :=
  match value with
  | Object root => Ok (Object (normalize_root root))
  | _ => Err "serialized AIOS IR was not an object"
  end.

Definition normalize_semantic_program (program : AiosIr) : result string Value :=
  value ← to_value program; normalize_semantic_value value.

(** ** Idempotence *)

Definition idempotent {A} (f : A → A) : Prop := ∀ x, f (f x) = f x.

Lemma idempotent_compose {A} (f g : A → A) : idempotent f → idempotent g →
  (∀ x, f (g x) = g (f x)) → idempotent (λ x, g (f x)).
Proof. intros Hf Hg Hc x. rewrite Hc, Hf. apply Hg. Qed.

Lemma idempotent_on_object f : idempotent f → idempotent (on_object f).
Proof. intros Hf [] ; simpl; try done. by rewrite Hf. Qed.

Lemma idempotent_on_array f : idempotent f → idempotent (on_array f).
Proof. intros Hf [] ; simpl; try done. by rewrite Hf. Qed.

Lemma idempotent_map_values f : idempotent f → idempotent (map_values f).
Proof. intros Hf l. unfold map_values. rewrite map_map. apply map_ext. intros [k v]. simpl. by rewrite Hf. Qed.

Lemma idempotent_alter f k : idempotent f → idempotent (assoc_alter (V:=Value) f k).
Proof. intros Hf l. rewrite assoc_alter_compose. apply assoc_alter_ext. intros v. apply Hf. Qed.

Lemma idempotent_remove k : idempotent (assoc_remove (V:=Value) k).
Proof. intros l. apply assoc_remove_idemp. Qed.

Lemma le_of_total {A} (cmp : A → A → comparison) :
  (∀ a b, cmp b a = CompOpp (cmp a b)) → ∀ a b, le_of cmp a b = true ∨ le_of cmp b a = true.
Proof. intros Hopp a b. unfold le_of. rewrite (Hopp a b). destruct (cmp a b); simpl; auto. Qed.

Lemma string_compare_opp s t : String.compare t s = CompOpp (String.compare s t).
Proof. apply String.compare_antisym. Qed.

Lemma option_str_compare_opp a b : option_str_compare b a = CompOpp (option_str_compare a b).
Proof. destruct a, b; simpl; auto using string_compare_opp. Qed.

Lemma node_compare_opp a b : node_compare b a = CompOpp (node_compare a b).
Proof. apply option_str_compare_opp. Qed.

Lemma request_compare_opp a b : request_compare b a = CompOpp (request_compare a b).
Proof.
  unfold request_compare. rewrite (option_str_compare_opp (get_str "action" a)).
  destruct (option_str_compare (get_str "action" a) (get_str "action" b)); simpl; try done.
  apply option_str_compare_opp.
Qed.

Lemma units_compare_opp a b : units_compare b a = CompOpp (units_compare a b).
Proof.
  revert b. induction a as [|x a IH]; intros [|y b]; simpl; try done.
  rewrite (N.compare_antisym x y). destruct (N.compare x y); simpl; auto.
Qed.

Lemma string_array_compare_opp a b : string_array_compare b a = CompOpp (string_array_compare a b).
Proof.
  unfold string_array_compare. destruct (as_str a), (as_str b);
    auto using string_compare_opp, units_compare_opp.
Qed.

(** Sorting the images of an idempotent function. *)
Lemma idempotent_sort_map (cmp : Value → Value → comparison) f :
  (∀ a b, cmp b a = CompOpp (cmp a b)) → idempotent f → idempotent (λ l, sort_by (le_of cmp) (map f l)).
Proof.
  intros Hopp Hf l.
  assert (map f (sort_by (le_of cmp) (map f l)) = sort_by (le_of cmp) (map f l)) as ->.
  2: { apply sort_by_idemp, le_of_total, Hopp. }
  rewrite <-(map_id (sort_by (le_of cmp) (map f l))) at 2. apply map_ext_in. intros v Hv%list_elem_of_In.
  rewrite elem_of_sort_by in Hv. apply list_elem_of_fmap in Hv as (w & -> & _). apply Hf.
Qed.

Lemma idempotent_sort_string_array : idempotent sort_string_array.
Proof.
  apply idempotent_on_array. intros l. apply sort_by_idemp, le_of_total, string_array_compare_opp.
Qed.

Lemma idempotent_normalize_set key : idempotent (normalize_set key).
Proof.
  intros l. unfold normalize_set, remove_empty_array.
  destruct (assoc_get key (assoc_alter sort_string_array key l)) as [v|] eqn:E.
  - assert (assoc_alter sort_string_array key (assoc_alter sort_string_array key l) =
      assoc_alter sort_string_array key l) as Hid by apply idempotent_alter, idempotent_sort_string_array.
    destruct v as [| | | |[|w vs]|]; rewrite ?Hid, ?E; try done.
    rewrite (assoc_alter_id _ _ (assoc_remove _ _)).
    2: { intros v. rewrite assoc_remove_get, bool_decide_eq_true_2 by done. done. }
    by rewrite assoc_remove_get, bool_decide_eq_true_2.
  - rewrite (idempotent_alter _ key idempotent_sort_string_array l). by rewrite E.
Qed.

(** Steps on different members commute. *)
Lemma remove_normalize_set k key l : k ≠ key →
  assoc_remove k (normalize_set key l) = normalize_set key (assoc_remove k l).
Proof.
  intros Hne. unfold normalize_set, remove_empty_array. rewrite <-assoc_remove_alter by done.
  rewrite assoc_remove_get, bool_decide_eq_false_2 by done.
  destruct (assoc_get key _) as [[| | | |[|]|]|]; try done. apply assoc_remove_comm.
Qed.

Lemma normalize_constraints_remove k l : k ≠ "constraints" →
  assoc_remove k (normalize_constraints l) = normalize_constraints (assoc_remove k l).
Proof.
  intros Hne. unfold normalize_constraints. rewrite <-assoc_remove_alter by done.
  rewrite assoc_remove_get, bool_decide_eq_false_2 by done.
  destruct (assoc_get "constraints" _) as [[| | | | |[|]]|]; try done. apply assoc_remove_comm.
Qed.

Lemma normalize_constraints_alter f k l : k ≠ "constraints" →
  assoc_alter f k (normalize_constraints l) = normalize_constraints (assoc_alter f k l).
Proof.
  intros Hne. unfold normalize_constraints.
  rewrite (assoc_alter_comm _ f "constraints" k) by done. rewrite (assoc_alter_get f "constraints" k), bool_decide_eq_false_2 by done.
  destruct (assoc_get "constraints" _) as [[| | | | |[|]]|]; try done. symmetry. by apply assoc_remove_alter.
Qed.

Lemma idempotent_normalize_constraints : idempotent normalize_constraints.
Proof.
  intros l. set (f := on_object (normalize_set "locality")).
  assert (idempotent f) as Hf by apply idempotent_on_object, idempotent_normalize_set.
  unfold normalize_constraints. fold f.
  destruct (assoc_get "constraints" (assoc_alter f "constraints" l)) as [v|] eqn:E.
  - assert (assoc_alter f "constraints" (assoc_alter f "constraints" l) = assoc_alter f "constraints" l) as Hid
      by apply idempotent_alter, Hf.
    destruct v as [| | | | |[|w vs]]; rewrite ?Hid, ?E; try done.
    rewrite (assoc_alter_id _ _ (assoc_remove _ _)).
    2: { intros v. rewrite assoc_remove_get, bool_decide_eq_true_2 by done. done. }
    by rewrite assoc_remove_get, bool_decide_eq_true_2.
  - rewrite (idempotent_alter _ "constraints" Hf l). by rewrite E.
Qed.

Lemma idempotent_normalize_input : idempotent normalize_input.
Proof.
  apply (idempotent_compose (assoc_remove "description") (normalize_set "media_types")).
  - apply idempotent_remove.
  - apply idempotent_normalize_set.
  - intros l. by apply remove_normalize_set.
Qed.

Lemma idempotent_normalize_requests : idempotent normalize_requests.
Proof.
  apply idempotent_sort_map; [apply request_compare_opp|]. apply idempotent_on_object, idempotent_remove.
Qed.

Lemma idempotent_normalize_node : idempotent normalize_node.
Proof.
  apply idempotent_on_object. unfold normalize_node_members.
  apply (idempotent_compose (λ node, assoc_alter (on_object (normalize_set "destination_classes")) "egress"
    (assoc_alter (on_array normalize_requests) "authority_requests"
      (assoc_remove "metadata" (assoc_remove "description" node)))) normalize_constraints).
  - apply (idempotent_compose (λ node, assoc_alter (on_array normalize_requests) "authority_requests"
      (assoc_remove "metadata" (assoc_remove "description" node)))
      (assoc_alter (on_object (normalize_set "destination_classes")) "egress")).
    + apply (idempotent_compose (λ node, assoc_remove "metadata" (assoc_remove "description" node))).
      * apply idempotent_compose; try apply idempotent_remove. intros l. apply assoc_remove_comm.
      * apply idempotent_alter, idempotent_on_array, idempotent_normalize_requests.
      * intros l. by rewrite !assoc_remove_alter.
    + apply idempotent_alter, idempotent_on_object, idempotent_normalize_set.
    + intros l. rewrite !assoc_remove_alter by done. by rewrite assoc_alter_comm.
  - apply idempotent_normalize_constraints.
  - intros l. by rewrite !normalize_constraints_remove, !normalize_constraints_alter.
Qed.

Lemma idempotent_normalize_root : idempotent normalize_root.
Proof.
  unfold normalize_root.
  apply (idempotent_compose (λ root, assoc_alter (on_object (map_values (on_object normalize_input))) "inputs"
    (assoc_remove "metadata" (assoc_remove "program_id" root))) (assoc_alter (on_array normalize_nodes) "nodes")).
  - apply (idempotent_compose (λ root, assoc_remove "metadata" (assoc_remove "program_id" root))).
    + apply idempotent_compose; try apply idempotent_remove. intros l. apply assoc_remove_comm.
    + apply idempotent_alter, idempotent_on_object, idempotent_map_values, idempotent_on_object,
        idempotent_normalize_input.
    + intros l. by rewrite !assoc_remove_alter.
  - apply idempotent_alter, idempotent_on_array, idempotent_sort_map; [apply node_compare_opp|].
    apply idempotent_normalize_node.
  - intros l. rewrite !assoc_remove_alter by done. by rewrite assoc_alter_comm.
Qed.

(** ** What the semantic view forgets *)

(** Two objects that agree except for the named member, whose values are related. *)
Definition same_member (k : string) (R : Value → Value → Prop) (l l' : list (string * Value)) : Prop :=
  assoc_alter (λ _, Null) k l = assoc_alter (λ _, Null) k l' ∧ option_Forall2 R (assoc_get k l) (assoc_get k l').

Lemma same_member_alter k R f l l' : same_member k R l l' → (∀ v v', R v v' → f v = f v') →
  assoc_alter f k l = assoc_alter f k l'.
Proof.
  intros [Hb HR] Hf. revert l' Hb HR. induction l as [|[k1 v] l IH]; intros [|[k2 v'] l']; simpl.
  - done.
  - by case_bool_decide.
  - by case_bool_decide.
  - repeat case_bool_decide; simpl; intros Hb HR; simplify_eq.
    + inversion HR. f_equal. f_equal. auto.
    + f_equal. apply IH; [done|]. done.
Qed.

Lemma same_member_other k R k' f l l' : k ≠ k' → same_member k R l l' →
  same_member k R (assoc_alter f k' l) (assoc_alter f k' l').
Proof.
  intros Hne [Hb HR]. split.
  - by rewrite !(assoc_alter_comm _ f k k'), Hb by done.
  - by rewrite !assoc_alter_get, bool_decide_eq_false_2 by done.
Qed.

(** Elements that compare equal are equal. *)
Definition distinct_by (cmp : Value → Value → comparison) (l : list Value) : Prop :=
  ∀ a b, a ∈ l → b ∈ l → cmp a b = Eq → a = b.

Definition without_reason : Value → Value := on_object (assoc_remove "reason").

(** The same authority requests, in another order and for other reasons. *)
Definition same_requests (v v' : Value) : Prop :=
  v = v' ∨ ∃ rs rs', v = Array rs ∧ v' = Array rs' ∧
    map without_reason rs ≡ₚ map without_reason rs' ∧ distinct_by request_compare (map without_reason rs).

(** The same strings in another order; strings with the same UTF-16 encoding are equal. *)
Definition same_strings (v v' : Value) : Prop :=
  v = v' ∨ ∃ ss ss', v = Array (map Str ss) ∧ v' = Array (map Str ss') ∧ ss ≡ₚ ss' ∧
    ∀ s t, s ∈ ss → t ∈ ss → encode_utf16 s = encode_utf16 t → s = t.

(** Two objects that agree except for a set of strings; an empty set may be left out. *)
Definition same_set (key : string) (l l' : list (string * Value)) : Prop :=
  same_member key same_strings (remove_empty_array key l) (remove_empty_array key l').

Definition same_set_object (key : string) (v v' : Value) : Prop :=
  v = v' ∨ ∃ ms ms', v = Object ms ∧ v' = Object ms' ∧ same_set key ms ms'.

(** The same input, up to its description and the order of its media types. *)
Definition same_input (v v' : Value) : Prop :=
  v = v' ∨ ∃ ms ms', v = Object ms ∧ v' = Object ms' ∧
    same_set "media_types" (assoc_remove "description" ms) (assoc_remove "description" ms').

Definition same_inputs (v v' : Value) : Prop :=
  v = v' ∨ ∃ ms ms', v = Object ms ∧ v' = Object ms' ∧
    Forall2 (λ kv kv' : string * Value, kv.1 = kv'.1 ∧ same_input kv.2 kv'.2) ms ms'.

(** The members of a node without constraints that say nothing. *)
Definition drop_constraints (node : list (string * Value)) : list (string * Value) :=
  match assoc_get "constraints" node with
  | Some (Object ms) => match remove_empty_array "locality" ms with [] => assoc_remove "constraints" node | _ => node end
  | _ => node
  end.

Definition node_members (ms : list (string * Value)) : list (string * Value) :=
  assoc_remove "metadata" (assoc_remove "description" ms).

(** The same node, up to its description, its metadata, its requests as a set, the order of its
    destination classes and of its localities, and empty sets and constraints. *)
Definition same_node (n n' : Value) : Prop :=
  n = n' ∨ ∃ ms ms1 ms2 ms', n = Object ms ∧ n' = Object ms' ∧
    same_member "authority_requests" same_requests (node_members ms) ms1 ∧
    same_member "egress" (same_set_object "destination_classes") ms1 ms2 ∧
    same_member "constraints" (same_set_object "locality") (drop_constraints ms2) (drop_constraints (node_members ms')).

(** The same nodes in another order; node ids are distinct. *)
Definition same_nodes (v v' : Value) : Prop :=
  v = v' ∨ ∃ ns mid ns', v = Array ns ∧ v' = Array ns' ∧ NoDup (get_str "id" <$> ns) ∧
    ns ≡ₚ mid ∧ Forall2 same_node mid ns'.

Definition root_members (r : list (string * Value)) : list (string * Value) :=
  assoc_remove "metadata" (assoc_remove "program_id" r).

(** The same program, up to its id, its metadata, its inputs and its nodes. *)
Definition same_program (r r' : list (string * Value)) : Prop :=
  ∃ mid, same_member "inputs" same_inputs (root_members r) mid ∧ same_member "nodes" same_nodes mid (root_members r').

Lemma option_str_compare_spec a b : option_str_compare a b = Eq → a = b.
Proof. destruct a, b; simpl; try done. intros H. f_equal. by apply String.compare_eq_iff. Qed.

Lemma option_str_le_trans a b c : option_str_compare a b ≠ Gt → option_str_compare b c ≠ Gt →
  option_str_compare a c ≠ Gt.
Proof.
  destruct a as [a|], b as [b|], c as [c|]; simpl; try done. intros Hab Hbc.
  assert (String.leb a b = true) as H1 by (unfold String.leb; by destruct (String.compare a b)).
  assert (String.leb b c = true) as H2 by (unfold String.leb; by destruct (String.compare b c)).
  pose proof (@key_leb_trans string _ a b c H1 H2) as H3. simpl in H3. unfold String.leb in H3.
  by destruct (String.compare a c).
Qed.

Lemma le_of_true {A} (cmp : A → A → comparison) a b : le_of cmp a b = true ↔ cmp a b ≠ Gt.
Proof. unfold le_of. destruct (cmp a b); naive_solver. Qed.

Lemma request_le_trans a b c : request_compare a b ≠ Gt → request_compare b c ≠ Gt → request_compare a c ≠ Gt.
Proof.
  unfold request_compare. set (f := get_str "action"). set (g := get_str "resource").
  destruct (option_str_compare (f a) (f b)) eqn:E1; [| |done].
  - apply option_str_compare_spec in E1 as ->.
    destruct (option_str_compare (f b) (f c)); [|done|done]. apply option_str_le_trans.
  - intros _. destruct (option_str_compare (f b) (f c)) eqn:E2; [| |done].
    + apply option_str_compare_spec in E2 as <-. by rewrite E1.
    + intros _ H. assert (option_str_compare (f a) (f c) ≠ Gt) as Hle.
      { apply (option_str_le_trans _ (f b)); congruence. }
      destruct (option_str_compare (f a) (f c)) eqn:E3; [|done|done].
      apply option_str_compare_spec in E3. rewrite E3, option_str_compare_opp, E2 in E1. done.
Qed.

(** Sorting forgets the order of elements that the comparison tells apart. *)
Lemma sort_distinct (cmp : Value → Value → comparison) l l' :
  (∀ a b, cmp b a = CompOpp (cmp a b)) → (∀ a b c, cmp a b ≠ Gt → cmp b c ≠ Gt → cmp a c ≠ Gt) →
  distinct_by cmp l → l ≡ₚ l' → sort_by (le_of cmp) l = sort_by (le_of cmp) l'.
Proof.
  intros Hopp Htr Hd Hp. apply sort_by_perm_eq; [by apply le_of_total| | |done].
  - intros a b c. rewrite !le_of_true. apply Htr.
  - intros a b Ha Hb. rewrite !le_of_true, (Hopp a b). intros H1 H2. apply Hd; [done|done|].
    by destruct (cmp a b).
Qed.

Lemma same_requests_normal v v' : same_requests v v' → on_array normalize_requests v = on_array normalize_requests v'.
Proof.
  intros [->|(rs & rs' & -> & -> & Hp & Hd)]; [done|]. simpl. f_equal.
  apply sort_distinct; auto using request_compare_opp. apply request_le_trans.
Qed.

Lemma units_compare_eq a b : units_compare a b = Eq → a = b.
Proof.
  revert b. induction a as [|x a IH]; intros [|y b]; simpl; try done.
  destruct (N.compare_spec x y) as [->|H|H]; [|done|done]. intros H%IH. by f_equal.
Qed.

Lemma units_le_trans a b c : units_compare a b ≠ Gt → units_compare b c ≠ Gt → units_compare a c ≠ Gt.
Proof.
  revert b c. induction a as [|x a IH]; intros [|y b] [|z c]; simpl; try done.
  destruct (N.compare_spec x y), (N.compare_spec y z), (N.compare_spec x z); try done; try lia. apply IH.
Qed.

Lemma sort_strings ss : sort_by (le_of string_array_compare) (map Str ss) =
  map Str (sort_by (le_of (λ s t, units_compare (encode_utf16 s) (encode_utf16 t))) ss).
Proof.
  induction ss as [|s ss IH]; simpl; [done|]. rewrite IH. clear IH. induction (sort_by _ ss) as [|t l IH]; simpl; [done|].
  change (le_of string_array_compare (Str s) (Str t))
    with (le_of (λ s t, units_compare (encode_utf16 s) (encode_utf16 t)) s t).
  destruct (le_of _ s t); simpl; [done|]. by rewrite IH.
Qed.

Lemma same_strings_normal v v' : same_strings v v' → sort_string_array v = sort_string_array v'.
Proof.
  intros [->|(ss & ss' & -> & -> & Hp & Hd)]; [done|]. unfold sort_string_array. simpl. f_equal. rewrite !sort_strings. f_equal.
  apply sort_by_perm_eq; [| | |done].
  - apply le_of_total. intros s t. apply units_compare_opp.
  - intros s t u. rewrite !le_of_true. apply units_le_trans.
  - intros s t Hs Ht. rewrite !le_of_true, (units_compare_opp (encode_utf16 s)). intros H1 H2. apply Hd; [done|done|].
    apply units_compare_eq. by destruct (units_compare _ _).
Qed.

Lemma remove_alter_same (f : Value → Value) k l : assoc_remove k (assoc_alter f k l) = assoc_remove k l.
Proof.
  induction l as [|[k' v] l IH]; simpl; [done|]. case_bool_decide as Hk; rewrite !assoc_remove_cons.
  - by rewrite !bool_decide_eq_true_2 by done.
  - by rewrite !bool_decide_eq_false_2, IH by congruence.
Qed.

(** An empty set is the same as none. *)
Lemma normalize_set_empty key l : normalize_set key l = normalize_set key (remove_empty_array key l).
Proof.
  unfold remove_empty_array. destruct (assoc_get key l) as [[| | | |[|]|]|] eqn:E; try done.
  unfold normalize_set, remove_empty_array. rewrite assoc_alter_get, bool_decide_eq_true_2, E by done. simpl.
  rewrite (assoc_alter_id _ _ (assoc_remove key l)).
  2: { intros v. by rewrite assoc_remove_get, bool_decide_eq_true_2. }
  rewrite assoc_remove_get, bool_decide_eq_true_2 by done. apply remove_alter_same.
Qed.

Lemma same_set_normal key l l' : same_set key l l' → normalize_set key l = normalize_set key l'.
Proof.
  intros Hs. rewrite (normalize_set_empty key l), (normalize_set_empty key l'). unfold normalize_set.
  by rewrite (same_member_alter _ _ _ _ _ Hs same_strings_normal).
Qed.

Lemma same_set_object_normal key v v' : same_set_object key v v' → on_object (normalize_set key) v = on_object (normalize_set key) v'.
Proof. intros [->|(ms & ms' & -> & -> & Hs)]; [done|]. simpl. f_equal. by apply same_set_normal. Qed.

Lemma same_input_normal v v' : same_input v v' → on_object normalize_input v = on_object normalize_input v'.
Proof. intros [->|(ms & ms' & -> & -> & Hs)]; [done|]. simpl. f_equal. by apply same_set_normal. Qed.

Lemma same_inputs_normal v v' : same_inputs v v' →
  on_object (map_values (on_object normalize_input)) v = on_object (map_values (on_object normalize_input)) v'.
Proof.
  intros [->|(ms & ms' & -> & -> & Hf)]; [done|]. simpl. f_equal. unfold map_values.
  induction Hf as [|[k w] [k' w'] ms ms' [Hk Hw] _ IH]; simpl in *; [done|]. subst k'. by rewrite (same_input_normal _ _ Hw), IH.
Qed.

(** Constraints that say nothing are the same as none. *)
Lemma normalize_constraints_empty l : normalize_constraints l = normalize_constraints (drop_constraints l).
Proof.
  unfold drop_constraints. destruct (assoc_get "constraints" l) as [[| | | | |ms]|] eqn:E; try done.
  destruct (remove_empty_array "locality" ms) eqn:Hm; [|done]. unfold normalize_constraints.
  rewrite assoc_alter_get, bool_decide_eq_true_2, E by done. simpl. rewrite normalize_set_empty, Hm. simpl.
  rewrite (assoc_alter_id _ _ (assoc_remove "constraints" l)).
  2: { intros v. by rewrite assoc_remove_get, bool_decide_eq_true_2. }
  rewrite assoc_remove_get, bool_decide_eq_true_2 by done. apply remove_alter_same.
Qed.

Lemma same_constraints_normal l l' : same_member "constraints" (same_set_object "locality") (drop_constraints l) (drop_constraints l') →
  normalize_constraints l = normalize_constraints l'.
Proof.
  intros Hs. rewrite (normalize_constraints_empty l), (normalize_constraints_empty l'). unfold normalize_constraints.
  by rewrite (same_member_alter _ _ _ _ _ Hs (same_set_object_normal "locality")).
Qed.

Lemma same_node_normal n n' : same_node n n' → normalize_node n = normalize_node n'.
Proof.
  intros [->|(ms & ms1 & ms2 & ms' & -> & -> & Hr & He & Hc)]; [done|]. simpl. f_equal. unfold normalize_node_members.
  fold (node_members ms). fold (node_members ms').
  rewrite (same_member_alter _ _ (on_array normalize_requests) _ _ Hr same_requests_normal).
  rewrite (same_member_alter "egress" (same_set_object "destination_classes") _ _
    (assoc_alter (on_array normalize_requests) "authority_requests" ms2)); [| |apply same_set_object_normal].
  - rewrite <-!normalize_constraints_alter by done. by rewrite (same_constraints_normal _ _ Hc).
  - by apply same_member_other.
Qed.

Lemma get_str_normalize_node n : get_str "id" (normalize_node n) = get_str "id" n.
Proof.
  destruct n as [| | | | |ms]; try done. unfold get_str. simpl. f_equal. unfold normalize_node_members, normalize_constraints.
  set (node := assoc_alter _ "egress" _).
  assert (assoc_get "id" node = assoc_get "id" ms) as Hid.
  { unfold node. rewrite !assoc_alter_get, !assoc_remove_get. by rewrite !bool_decide_eq_false_2 by done. }
  destruct (assoc_get "constraints" (assoc_alter _ _ node)) as [[| | | | |[|]]|];
    rewrite ?assoc_remove_get, assoc_alter_get; rewrite !bool_decide_eq_false_2 by done; done.
Qed.

Lemma distinct_nodes ns : NoDup (get_str "id" <$> ns) → distinct_by node_compare (map normalize_node ns).
Proof.
  intros Hnd a b (x & -> & Hx)%list_elem_of_fmap (y & -> & Hy)%list_elem_of_fmap.
  unfold node_compare. rewrite !get_str_normalize_node. intros Heq%option_str_compare_spec.
  f_equal. by eapply NoDup_fmap_elem_inj.
Qed.

Lemma same_nodes_normal v v' : same_nodes v v' → on_array normalize_nodes v = on_array normalize_nodes v'.
Proof.
  intros [->|(ns & mid & ns' & -> & -> & Hnd & Hp & Hf)]; [done|]. simpl. f_equal. unfold normalize_nodes.
  assert (map normalize_node mid = map normalize_node ns') as Hmid.
  { clear -Hf. induction Hf; simpl; [done|]. f_equal; auto using same_node_normal. }
  rewrite <-Hmid. apply sort_distinct.
  - apply node_compare_opp.
  - intros a b c. apply option_str_le_trans.
  - by apply distinct_nodes.
  - by apply Permutation_map.
Qed.

Lemma same_program_normal r r' : same_program r r' → normalize_root r = normalize_root r'.
Proof.
  intros (mid & Hi & Hn). unfold normalize_root. fold (root_members r). fold (root_members r').
  rewrite (same_member_alter _ _ _ _ _ Hi same_inputs_normal).
  eapply same_member_alter; [|apply same_nodes_normal]. by apply same_member_other.
Qed.

End normalize.

(** ** Claims *)

(** C21: normalization is idempotent: a semantic view normalizes to itself, so a view
    read back from storage has the identity of the program it came from. *)
Theorem normalize_idempotent display value view :
  normalize_semantic_value display value = Ok view → normalize_semantic_value display view = Ok view.
Proof.
  destruct value as [| | | | |root]; simpl; try done. intros [= <-]. simpl. by rewrite idempotent_normalize_root.
Qed.

Definition sample_request (action reason : string) : Value :=
  Object [("action", Str action); ("reason", Str reason); ("resource", Str "task.output")].

Definition sample_node (id description : string) (requests : list Value) : Value :=
  Object [("authority_requests", Array requests); ("constraints", Object [("locality", Array [])]);
          ("description", Str description); ("id", Str id)].

Definition sample_root (program_id : string) (nodes : list Value) : list (string * Value) :=
  [("metadata", Str program_id); ("nodes", Array nodes); ("program_id", Str program_id)].

Lemma normalize_idempotent_witness : ∃ view,
  normalize_semantic_value (λ _, "") (Object (sample_root "p" [sample_node "b" "x" []; sample_node "a" "y" []])) =
    Ok view ∧
  normalize_semantic_value (λ _, "") view = Ok view.
Proof. eexists. split; [reflexivity|]. by apply (normalize_idempotent (λ _, "")
  (Object (sample_root "p" [sample_node "b" "x" []; sample_node "a" "y" []]))). Defined.

(** C20: programs that differ only in authoring details have the same semantic view: in
    their program id and metadata; in the descriptions of inputs and the order of their
    media types; in the order of nodes (with distinct ids), their descriptions and
    metadata, the order and the stated reasons of their authority requests, and the
    order of their destination classes and localities; and in whether an empty set or
    an empty object of constraints is written out. *)
Theorem normalize_forgets_authoring display root root' :
  same_program root root' →
  normalize_semantic_value display (Object root) = normalize_semantic_value display (Object root').
Proof. intros Hs. simpl. by rewrite (same_program_normal display root root'). Qed.

Definition authored_input (description : string) (media_types : list string) : Value :=
  Object [("description", Str description); ("media_types", Array (map Str media_types)); ("type", Str "artifact.file@1")].

Definition authored_node (id description : string) (requests : list Value) (destinations : list string) (localities : list string) : Value :=
  Object [("authority_requests", Array requests); ("constraints", Object [("locality", Array (map Str localities))]);
          ("description", Str description); ("egress", Object [("destination_classes", Array (map Str destinations)); ("mode", Str "policy")]);
          ("id", Str id)].

(** A node whose constraints are left out. *)
Definition plain_node (id : string) : Value :=
  Object [("authority_requests", Array []); ("egress", Object [("mode", Str "policy")]); ("id", Str id)].

Definition authored_root (program_id : string) (input : Value) (nodes : list Value) : list (string * Value) :=
  [("inputs", Object [("source", input)]); ("metadata", Str program_id); ("nodes", Array nodes); ("program_id", Str program_id)].

Definition first_authored : list (string * Value) :=
  authored_root "first" (authored_input "prose" ["z"; "a"])
    [authored_node "b" "one" [sample_request "w" "why"; sample_request "r" "how"] ["y"; "x"] ["remote"; "local"];
     authored_node "a" "two" [] [] []].

Definition second_authored : list (string * Value) :=
  authored_root "second" (authored_input "" ["a"; "z"])
    [plain_node "a";
     authored_node "b" "" [sample_request "r" ""; sample_request "w" "because"] ["x"; "y"] ["local"; "remote"]].

Lemma swapped_strings s t : encode_utf16 s ≠ encode_utf16 t → same_strings (Array (map Str [s; t])) (Array (map Str [t; s])).
Proof.
  intros Hne. right. exists [s; t], [t; s]. split_and!; [done|done|constructor|].
  intros x y [->|[->|[]%elem_of_nil]%elem_of_cons]%elem_of_cons [->|[->|[]%elem_of_nil]%elem_of_cons]%elem_of_cons He; congruence.
Qed.

Lemma same_member_of k (R : Value → Value → Prop) l l' v v' : assoc_alter (λ _, Null) k l = assoc_alter (λ _, Null) k l' →
  assoc_get k l = Some v → assoc_get k l' = Some v' → R v v' → same_member k R l l'.
Proof. intros Hl Hv Hv' HR. split; [done|]. rewrite Hv, Hv'. by apply Some_Forall2. Qed.

(** Empty sets and empty constraints are left out. *)
Lemma same_authored_a : same_node (authored_node "a" "two" [] [] []) (plain_node "a").
Proof.
  right. eexists _, (node_members _), _, _. split_and!; [reflexivity|reflexivity| | |].
  - eapply same_member_of; [reflexivity|reflexivity|reflexivity|by left].
  - eapply (same_member_of _ _ _ [("authority_requests", Array []); ("constraints", Object [("locality", Array [])]);
      ("egress", Object [("mode", Str "policy")]); ("id", Str "a")]); [reflexivity|reflexivity|reflexivity|].
    right. eexists _, _. split_and!; [reflexivity|reflexivity|]. split; [reflexivity|constructor].
  - split; [reflexivity|constructor].
Qed.

(** The other prose, and every set in another order. *)
Lemma same_authored_b :
  same_node (authored_node "b" "one" [sample_request "w" "why"; sample_request "r" "how"] ["y"; "x"] ["remote"; "local"])
    (authored_node "b" "" [sample_request "r" ""; sample_request "w" "because"] ["x"; "y"] ["local"; "remote"]).
Proof.
  right. eexists _,
    (node_members [("authority_requests", Array [sample_request "r" ""; sample_request "w" "because"]);
       ("constraints", Object [("locality", Array (map Str ["remote"; "local"]))]);
       ("egress", Object [("destination_classes", Array (map Str ["y"; "x"])); ("mode", Str "policy")]); ("id", Str "b")]),
    (node_members [("authority_requests", Array [sample_request "r" ""; sample_request "w" "because"]);
       ("constraints", Object [("locality", Array (map Str ["remote"; "local"]))]);
       ("egress", Object [("destination_classes", Array (map Str ["x"; "y"])); ("mode", Str "policy")]); ("id", Str "b")]), _.
  split_and!; [reflexivity|reflexivity| | |].
  - eapply same_member_of; [reflexivity|reflexivity|reflexivity|]. right. eexists _, _. split_and!; [reflexivity|reflexivity|constructor|].
    intros v w [->|[->|[]%elem_of_nil]%elem_of_cons]%elem_of_cons [->|[->|[]%elem_of_nil]%elem_of_cons]%elem_of_cons; done.
  - eapply same_member_of; [reflexivity|reflexivity|reflexivity|]. right. eexists _, _. split_and!; [reflexivity|reflexivity|].
    eapply same_member_of; [reflexivity|reflexivity|reflexivity|]. by apply swapped_strings.
  - eapply same_member_of; [reflexivity|reflexivity|reflexivity|]. right. eexists _, _. split_and!; [reflexivity|reflexivity|].
    eapply same_member_of; [reflexivity|reflexivity|reflexivity|]. by apply swapped_strings.
Qed.

Lemma normalize_forgets_authoring_witness :
  normalize_semantic_value (λ _, "") (Object first_authored) = normalize_semantic_value (λ _, "") (Object second_authored).
Proof.
  apply normalize_forgets_authoring. eexists [("inputs", _); ("nodes", _)]. split.
  - eapply (same_member_of _ _ _ [("inputs", Object [("source", authored_input "" ["a"; "z"])]); ("nodes", _)]); [reflexivity|reflexivity|reflexivity|].
    right. eexists _, _. split_and!; [reflexivity|reflexivity|]. constructor; [|constructor]. split; [reflexivity|].
    right. eexists _, _. split_and!; [reflexivity|reflexivity|]. eapply same_member_of; [reflexivity|reflexivity|reflexivity|].
    by apply swapped_strings.
  - eapply same_member_of; [reflexivity|reflexivity|reflexivity|]. right.
    eexists _, [_; _], _. split_and!; [reflexivity|reflexivity|apply NoDup_cons; split; [set_solver|apply NoDup_singleton]|apply perm_swap|].
    constructor; [exact same_authored_a|]. constructor; [exact same_authored_b|constructor].
Defined.
