(* ===== verification/Hash.v ===== *)
(** * Semantic hashing

    [crates/aios-ir/src/hash.rs]: the RFC 8785 guard against integers that binary64
    cannot represent, and the domain-separated tagged SHA-256.  The canonical
    serializer ([serde_json_canonicalizer]) and SHA-256 ([sha2]) are parameters. *)

From Stdlib Require Import ZArith.
From S2P Require Import Prelude Json Numbers.

Definition JCS_MAX_SAFE_INTEGER : N := 9007199254740991.
Definition JCS_MIN_SAFE_INTEGER : Z := -9007199254740991.

(** [b"AIOS-IR-SEMANTIC\0v0.1\0"] *)
Definition SEMANTIC_HASH_DOMAIN : string :=
  "AIOS-IR-SEMANTIC" +++ String "000"%char ("v0.1" +++ String "000"%char "").

(** [Display] of an integer [serde_json::Number]; floats never reach it here. *)
Definition number_display (number : Number) : string :=
  match number with PosInt n => pretty n | NegInt z => pretty z | Float _ => "" end.

Definition unsafe_number (number : Number) : bool :=
  match number_as_u64 number with Some integer => (JCS_MAX_SAFE_INTEGER <? integer)%N | None => false end ||
  match number_as_i64 number with Some integer => (integer <? JCS_MIN_SAFE_INTEGER)%Z | None => false end.

Fixpoint ensure_jcs_safe_numbers (value : Value) : result string unit :=
  match value with
  | Num number =>
      if unsafe_number number
      then Err ("integer " +++ number_display number +++ " exceeds the RFC 8785/I-JSON exact range")
      else Ok ()
  | Array values =>
      (fix go (values : list Value) : result string unit :=
         match values with
         | [] => Ok ()
         | value :: values' => match ensure_jcs_safe_numbers value with Ok _ => go values' | Err e => Err e end
         end) values
  | Object members =>
      (fix go (members : list (string * Value)) : result string unit :=
         match members with
         | [] => Ok ()
         | (_, value) :: members' =>
             match ensure_jcs_safe_numbers value with Ok _ => go members' | Err e => Err e end
         end) members
  | Null | Bool _ | Str _ => Ok ()
  end.

(** [write!(tagged, "{byte:02x}")] *)
Definition hex_digit (n : N) : ascii :=
  Ascii.ascii_of_N (if (n <? 10)%N then 48 + n else 87 + n).

Definition hex_byte (c : ascii) : string :=
  let n := Ascii.N_of_ascii c in String (hex_digit (n / 16)) (String (hex_digit (n mod 16)) "").

Fixpoint hex (bytes : string) : string :=
  match bytes with
  | EmptyString => ""
  | String c rest => hex_byte c +++ hex rest
  end.

Section hash.

Context (jcs : Value → result string string) (sha256 : string → string).

Definition canonicalize (value : Value) : result string string :=
  match ensure_jcs_safe_numbers value with
  | Ok _ => jcs value
  | Err e => Err e
  end.

Definition semantic_hash (value : Value) : result string string :=
  canonical ← canonicalize value;
  Ok ("sha256:" +++ hex (sha256 (SEMANTIC_HASH_DOMAIN +++ canonical))).

End hash.

(** ** Integers in the exact range *)

(** Every integer of the value, at any depth, is exactly representable. *)
Inductive contains_number : Number → Value → Prop :=
  | contains_num n : contains_number n (Num n)
  | contains_array n v vs : v ∈ vs → contains_number n v → contains_number n (Array vs)
  | contains_object n k v ms : (k, v) ∈ ms → contains_number n v → contains_number n (Object ms).

Definition exact_number (n : Number) : Prop :=
  match n with
  | PosInt n => (n ≤ 2 ^ 53 - 1)%N
  | NegInt z => (- (2 ^ 53 - 1) ≤ z)%Z
  | Float _ => True
  end.

Lemma unsafe_number_spec n : unsafe_number n = false ↔ exact_number n.
Proof.
  destruct n as [n|z|f]; unfold unsafe_number, exact_number, JCS_MAX_SAFE_INTEGER, JCS_MIN_SAFE_INTEGER; simpl.
  - change (2 ^ 53 - 1)%N with 9007199254740991%N. rewrite orb_false_iff, N.ltb_ge.
    split; [tauto|]. intros Hn. split; [done|]. destruct (_ <=? _)%N; [|done]. apply Z.ltb_ge. lia.
  - change (- (2 ^ 53 - 1))%Z with (-9007199254740991)%Z. apply Z.ltb_ge.
  - done.
Qed.

Lemma ensure_jcs_spec v : ensure_jcs_safe_numbers v = Ok () ↔ ∀ n, contains_number n v → exact_number n.
Proof.
  induction v as [|b|n|s|vs IH|ms IH] using Value_ind'.
  - split; [|done]. intros _ n Hn. inversion Hn.
  - split; [|done]. intros _ n Hn. inversion Hn.
  - simpl. pose proof (unsafe_number_spec n) as Hs.
    destruct (unsafe_number n).
    + split; [done|]. intros H. specialize (H n (contains_num n)). by apply Hs in H.
    + split; [|done]. intros _ m Hm. inversion Hm; subst. by apply Hs.
  - split; [|done]. intros _ n Hn. inversion Hn.
  - trans (∀ v, v ∈ vs → ∀ n, contains_number n v → exact_number n).
    2: { split; [intros H n Hn; inversion Hn; subst; eauto|eauto using contains_number]. }
    simpl. induction IH as [|v vs Hv _ IHvs]; [split; [by intros _ v Hv%elem_of_nil|done]|].
    rewrite forall_elem_of_cons, <-Hv, <-IHvs.
    destruct (ensure_jcs_safe_numbers v) as [[]|e]; split; tauto || done || by intros [? _].
  - trans (∀ kv, kv ∈ ms → ∀ n, contains_number n kv.2 → exact_number n).
    2: { split; [intros H n Hn; inversion Hn as [| |? k v ? Hkv]; subst; by apply (H (k, v) Hkv)|].
         intros H [k v] Hkv n Hn. eauto using contains_number. }
    simpl. induction IH as [|[k v] ms Hv _ IHms]; [split; [by intros _ v Hv%elem_of_nil|done]|].
    rewrite forall_elem_of_cons. simpl in *. rewrite <-Hv, <-IHms.
    destruct (ensure_jcs_safe_numbers v) as [[]|e]; split; tauto || done || by intros [? _].
Qed.

(** ** Hexadecimal *)

Definition lower_hex (c : ascii) : bool :=
  let n := Ascii.N_of_ascii c in ((48 <=? n) && (n <=? 57) || (97 <=? n) && (n <=? 102))%N.

Lemma hex_byte_inj c d : hex_byte c = hex_byte d → c = d.
Proof.
  intros H. rewrite <-(Ascii.ascii_N_embedding c), <-(Ascii.ascii_N_embedding d). f_equal.
  pose proof (Ascii.N_ascii_bounded c) as Hbc. pose proof (Ascii.N_ascii_bounded d) as Hbd.
  unfold hex_byte in H. cbv zeta in H. injection H as H1 H2.
  assert (∀ a b, (a < 16)%N → (b < 16)%N → hex_digit a = hex_digit b → a = b) as Hinj.
  { intros a b Ha Hb Hab. apply (f_equal Ascii.N_of_ascii) in Hab. unfold hex_digit in Hab.
    destruct (N.ltb_spec a 10), (N.ltb_spec b 10); rewrite !Ascii.N_ascii_embedding in Hab by lia; lia. }
  apply Hinj in H1; [|apply N.Div0.div_lt_upper_bound; lia|apply N.Div0.div_lt_upper_bound; lia].
  apply Hinj in H2; [|apply N.mod_lt; lia|apply N.mod_lt; lia].
  rewrite (N.div_mod (Ascii.N_of_ascii c) 16), (N.div_mod (Ascii.N_of_ascii d) 16), H1, H2 by lia. done.
Qed.

Lemma hex_inj s t : hex s = hex t → s = t.
Proof.
  revert t. induction s as [|c s IH]; intros [|d t]; try done. simpl.
  intros H. assert (hex_byte c = hex_byte d ∧ hex s = hex t) as [Hc Hs].
  { unfold hex_byte in *. simpl in H. injection H as H1 H2 H3. split; [by rewrite H1, H2|done]. }
  apply hex_byte_inj in Hc as ->. f_equal. auto.
Qed.

Lemma hex_length s : byte_len (hex s) = 2 * byte_len s.
Proof.
  induction s as [|c s IH]; [done|]. change (hex (String c s)) with (hex_byte c +++ hex s).
  rewrite byte_len_append, IH. unfold byte_len. simpl. lia.
Qed.

Lemma hex_lower s : string_forallb lower_hex (hex s) = true.
Proof.
  induction s as [|c s IH]; [done|]. change (hex (String c s)) with (hex_byte c +++ hex s).
  unfold hex_byte. cbv zeta. rewrite !append_cons. change ("" +++ hex s) with (hex s). cbn [string_forallb].
  assert (∀ a, (a < 16)%N → lower_hex (hex_digit a) = true) as Hd.
  { intros a Ha. unfold lower_hex, hex_digit. rewrite Ascii.N_ascii_embedding by (destruct (_ <? 10)%N; lia).
    destruct (N.ltb_spec a 10); apply orb_true_iff; [left|right]; apply andb_true_iff; rewrite !N.leb_le; lia. }
  pose proof (Ascii.N_ascii_bounded c).
  rewrite !Hd, IH; [done|apply N.mod_lt; lia|apply N.Div0.div_lt_upper_bound; lia].
Qed.

(** ** Claims *)

(** C23: canonicalization refuses exactly the values that contain an integer outside
    the range that binary64 represents exactly (2^53 - 1 in magnitude), at any depth;
    on all others it is the canonical serializer. *)
Theorem canonicalize_exact_integers jcs value :
  (canonicalize jcs value = jcs value ∧ ∀ n, contains_number n value → exact_number n) ∨
  (∃ error, canonicalize jcs value = Err error ∧ ∃ n, contains_number n value ∧ ¬ exact_number n).
Proof.
  unfold canonicalize. destruct (ensure_jcs_safe_numbers value) as [[]|e] eqn:E.
  - left. split; [done|]. by apply ensure_jcs_spec.
  - right. exists e. split; [done|]. revert E.
    induction value as [|b|n|s|vs IH|ms IH] using Value_ind'; simpl; try done.
    + destruct (unsafe_number n) eqn:Hn; [|done]. intros _. exists n. split; [constructor|].
      rewrite <-unsafe_number_spec. congruence.
    + intros E. enough (∃ v n, v ∈ vs ∧ contains_number n v ∧ ¬ exact_number n) as (v & n & Hv & Hn & He)
        by eauto using contains_number.
      induction IH as [|v vs Hv _ IHvs]; [done|].
      destruct (ensure_jcs_safe_numbers v) as [[]|e'].
      * destruct (IHvs E) as (w & n & Hw & Hn). exists w, n. split; [by right|done].
      * destruct (Hv E) as (n & Hn). exists v, n. split; [by left|done].
    + intros E. enough (∃ k v n, (k, v) ∈ ms ∧ contains_number n v ∧ ¬ exact_number n) as (k & v & n & Hv & Hn & He)
        by eauto using contains_number.
      induction IH as [|[k v] ms Hv _ IHms]; [done|]. simpl in Hv.
      destruct (ensure_jcs_safe_numbers v) as [[]|e'].
      * destruct (IHms E) as (k' & w & n & Hw & Hn). exists k', w, n. split; [by right|done].
      * destruct (Hv E) as (n & Hn). exists k, v, n. split; [by left|done].
Qed.

(** C22: a semantic hash is the tag [sha256:] followed by 64 lowercase hexadecimal
    digits, and two values share a hash exactly when the digests of their
    domain-separated canonical bytes are equal: the tagging loses nothing. *)
Theorem semantic_hash_form jcs sha256 value hash :
  (∀ s, byte_len (sha256 s) = 32) → semantic_hash jcs sha256 value = Ok hash →
  (∃ digits, hash = "sha256:" +++ digits ∧ byte_len digits = 64 ∧ string_forallb lower_hex digits = true) ∧
  ∀ value', semantic_hash jcs sha256 value' = Ok hash ↔
    ∃ c c', canonicalize jcs value = Ok c ∧ canonicalize jcs value' = Ok c' ∧
      sha256 (SEMANTIC_HASH_DOMAIN +++ c) = sha256 (SEMANTIC_HASH_DOMAIN +++ c').
Proof.
  intros Hlen. unfold semantic_hash. destruct (canonicalize jcs value) as [c|e] eqn:Ec; [|done].
  cbn [mbind result_bind]. intros [= <-]. split.
  - exists (hex (sha256 (SEMANTIC_HASH_DOMAIN +++ c))).
    split_and!; [done|by rewrite hex_length, Hlen|apply hex_lower].
  - intros value'. destruct (canonicalize jcs value') as [c'|e'] eqn:Ec'; cbn [mbind result_bind].
    + split.
      * intros [= H]. exists c, c'. split_and!; [done|done|]. symmetry. by apply hex_inj.
      * intros (c1 & c2 & [= <-] & [= <-] & Hsha). by rewrite Hsha.
    + split; [done|]. by intros (c1 & c2 & _ & ? & _).
Qed.

(** A stand-in digest of 32 bytes. *)
Definition sample_digest (s : string) : string :=
  String (Ascii.ascii_of_nat (byte_len s)) (DecimalToken.take_bytes 31 "0123456789abcdef0123456789abcdef").

Lemma semantic_hash_form_witness :
  (∃ digits, "sha256:1f30313233343536373839616263646566303132333435363738396162636465" = "sha256:" +++ digits ∧
     byte_len digits = 64 ∧ string_forallb lower_hex digits = true) ∧
  ∀ value', semantic_hash (λ _, Ok "canonical") sample_digest value' =
      Ok "sha256:1f30313233343536373839616263646566303132333435363738396162636465" ↔
    ∃ c c', canonicalize (λ _, Ok "canonical") Null = Ok c ∧ canonicalize (λ _, Ok "canonical") value' = Ok c' ∧
      sample_digest (SEMANTIC_HASH_DOMAIN +++ c) = sample_digest (SEMANTIC_HASH_DOMAIN +++ c').
Proof. apply (semantic_hash_form (λ _, Ok "canonical") sample_digest Null); reflexivity. Defined.
