(* ===== verification/Validator.v ===== *)
(** * The validation pipeline

    [crates/aios-ir/src/validator.rs]: the whole path from document bytes to the
    validation report, composed of the parser, the resource limits, the domain
    prechecks, schema validation, decoding, semantic analysis, normalization and
    hashing.  Third-party code is gathered in [Externals].  [None] is a panic. *)

From S2P Require Import Prelude Json Contracts Collector Version Registry References Acyclic TypeCheck Effects Worklist Fallbacks Summary Analyze Fixtures Numbers Limits Parse Schema Normalize Hash.
Import DiagnosticCollector.

(** What the pipeline calls of other crates, and the build environment. *)
Record Externals := {
  ext_decode_string : string → option string;
  ext_number_parses : string → bool;
  ext_deserializer : string → Doc * result string unit;
  ext_embedded_schema : result string Value;
  ext_validator_for : Value → result string (Value → list ValidationError);
  ext_from_value : Value → result string AiosIr;
  ext_to_value : AiosIr → result string Value;
  ext_display : Value → string;
  ext_jcs : Value → result string string;
  ext_sha256 : string → string;
  ext_build_hash : option string;
}.

Definition VALIDATOR_ID : string := "org.ainative.aios-ir-validator".
Definition HASH_PROFILE : string := "aios-ir-v0.1".

Record ValidationReport := {
  rep_output : ValidatorOutput;
  rep_normalized : option Value;
}.

Record Validator (R : Type) := {
  val_registry : R;
  val_limits : ValidationLimits;
}.
Arguments val_registry {_} _.
Arguments val_limits {_} _.

(** [Diagnostic::new] with a JSON pointer. *)
Definition pointed (code : ValidatorReasonCode) (message pointer : string) : Diagnostic :=
  contextual code message None None None (Some pointer).

(** [object.get(key).and_then(Value::as_str)] on the members of an object. *)
Definition member_str (key : string) (members : list (string * Value)) : option string :=
  assoc_get key members ≫= as_str.

Definition missing_budget (failure : list (string * Value)) : bool :=
  let on_error := member_str "on_error" failure in
  bool_decide (on_error = Some "retry") && negb (contains_key "max_attempts" failure) ||
  bool_decide (on_error = Some "replan") && negb (contains_key "max_replans" failure).

Definition names_destinations (egress : list (string * Value)) : bool :=
  is_some_and (assoc_get "destination_classes" egress ≫= as_array)
    (λ destinations, negb (bool_decide (length destinations = 0))).

Definition egress_contradiction (egress : list (string * Value)) : bool :=
  bool_decide (member_str "mode" egress = Some "deny") && names_destinations egress.

(** The body of the node loop of [domain_prechecks]. *)
Definition precheck_node (index : nat) (node : Value) : Diag unit :=
  _ ← when (is_some_and (get_object "failure" node) missing_budget)
        (emit (pointed IrFailurePolicyUnbounded
          "retry and replan failure policies require an explicit finite budget"
          ("/nodes/" +++ pretty index +++ "/failure")));
  when (is_some_and (get_object "egress" node) egress_contradiction)
    (emit (pointed IrEgressContradiction "deny egress cannot name destination classes"
      ("/nodes/" +++ pretty index +++ "/egress"))).

Definition unsupported_version (value : Value) : bool :=
  is_some_and (get_str "ir_version" value) (λ version, negb (bool_decide (version = "0.1"))).

Definition domain_prechecks (value : Value) : Diag unit :=
  if unsupported_version value then
    emit (Diagnostic_new IrVersionUnsupported "IR version is not supported; expected 0.1")
  else
    match get_array "nodes" value with
    | None => mret ()
    | Some nodes => for_each (enumerate nodes) (λ ix, precheck_node ix.1 ix.2)
    end.

Definition violation_diagnostic (violation : LimitViolation) : Diagnostic :=
  match violation with
  | NodeCount => Diagnostic_new IrLimitNodeCount "program exceeds the configured node limit"
  | PortCount => Diagnostic_new IrLimitPortCount "an interface exceeds the configured port limit"
  | AuthorityRequestCount =>
      Diagnostic_new IrLimitAuthorityRequestCount "a node exceeds the configured authority-request limit"
  | FallbackCount => Diagnostic_new IrLimitFallbackCount "a node exceeds the configured fallback limit"
  | StringLength =>
      Diagnostic_new IrLimitStringLength "a JSON member name or string exceeds the configured string limit"
  end.

(** [format_timestamp]; [Rfc3339] formatting belongs to the [time] crate. *)
Definition format_timestamp (formatted : option string) : string :=
  default "1970-01-01T00:00:00Z" formatted.

Section validator.

Context (ext : Externals).

Definition validator_identity : ValidatorIdentity := {|
  vi_id := VALIDATOR_ID;
  vi_version := cargo_pkg_version;
  vi_build_hash := ext_build_hash ext;
|}.

Definition invalid_report (ir_version program_id registry_snapshot_id : option string)
    (collector : DiagnosticCollector) (validated_at : string) : ValidationReport :=
  let '(diagnostics, diagnostics_truncated) := finish collector in
  {| rep_output := {|
       vo_schema_version := "0.1";
       vo_validation := {|
         vr_schema_version := "0.1";
         vr_valid := false;
         vr_ir_version := ir_version;
         vr_program_id := program_id;
         vr_semantic_hash := None;
         vr_semantic_hash_profile := None;
         vr_validator := validator_identity;
         vr_registry_snapshot_id := registry_snapshot_id;
         vr_diagnostics := diagnostics;
         vr_diagnostics_truncated := diagnostics_truncated;
         vr_validated_at := validated_at;
       |};
       vo_effect_summary := None;
     |};
     rep_normalized := None |}.

(** [rejected_registry_report], at the given time. *)
Definition rejected_registry_report (code : ValidatorReasonCode) (message validated_at : string) :
    ValidationReport :=
  invalid_report None None None (error code message (DiagnosticCollector.new 1)) validated_at.

Section registry.
Context {R : Type} `{ContractRegistry R}.

(** [Validator::new] *)
Definition Validator_new (registry : R) (limits : ValidationLimits) : Validator R :=
  {| val_registry := registry; val_limits := bounded_for_output limits |}.

(** [Validator::invalid_report] *)
Definition self_invalid_report (self : Validator R) (ir_version program_id : option string)
    (collector : DiagnosticCollector) (validated_at : string) : option ValidationReport :=
  Some (invalid_report ir_version program_id (Some (snapshot_id (val_registry self))) collector validated_at).

(** The summary is stamped with the hash and the time, and the report is assembled. *)
Definition valid_report (self : Validator R) (program : AiosIr) (normalized : Value) (hash : string)
    (summary : EffectSummary) (collector : DiagnosticCollector) (validated_at : string) : ValidationReport :=
  let summary := {|
    es_schema_version := es_schema_version summary;
    es_semantic_program_hash := hash;
    es_registry_snapshot_id := es_registry_snapshot_id summary;
    es_effects := es_effects summary;
    es_authority_classes := es_authority_classes summary;
    es_egress_modes := es_egress_modes summary;
    es_contains_probabilistic := es_contains_probabilistic summary;
    es_contains_opaque_external := es_contains_opaque_external summary;
    es_nodes := es_nodes summary;
    es_verification_barriers := es_verification_barriers summary;
    es_generated_by := es_generated_by summary;
    es_generated_at := Some validated_at;
  |} in
  let '(diagnostics, diagnostics_truncated) := finish collector in
  {| rep_output := {|
       vo_schema_version := "0.1";
       vo_validation := {|
         vr_schema_version := "0.1";
         vr_valid := true;
         vr_ir_version := Some (ir_version program);
         vr_program_id := Some (program_id program);
         vr_semantic_hash := Some hash;
         vr_semantic_hash_profile := Some HASH_PROFILE;
         vr_validator := validator_identity;
         vr_registry_snapshot_id := Some (snapshot_id (val_registry self));
         vr_diagnostics := diagnostics;
         vr_diagnostics_truncated := diagnostics_truncated;
         vr_validated_at := validated_at;
       |};
       vo_effect_summary := Some summary;
     |};
     rep_normalized := Some normalized |}.

(** From the decoded program on. *)
Definition validate_program (self : Validator R) (program : AiosIr) (collector : DiagnosticCollector)
    (validated_at : string) : option ValidationReport :=
  let reject collector :=
    self_invalid_report self (Some (ir_version program)) (Some (program_id program))
      collector validated_at in
  '(summary, collector) ← analyze program (val_registry self) collector;
  if has_errors collector then reject collector
  else
    match normalize_semantic_program (ext_display ext) (ext_to_value ext) program with
    | Err message => reject (error IrCanonicalizationFailed message collector)
    | Ok normalized =>
        match semantic_hash (ext_jcs ext) (ext_sha256 ext) normalized with
        | Err message => reject (error IrCanonicalizationFailed message collector)
        | Ok hash =>
            summary ← summary;
            Some (valid_report self program normalized hash summary collector validated_at)
        end
    end.

(** From the parsed value on. *)
Definition validate_value (self : Validator R) (value : Value) (collector : DiagnosticCollector)
    (validated_at : string) : option ValidationReport :=
  let collector := push_all (violation_diagnostic <$> inspect_value_limits value (val_limits self)) collector in
  if has_errors collector then self_invalid_report self None None collector validated_at
  else
    '(_, collector) ← domain_prechecks value collector;
    if has_errors collector then self_invalid_report self None None collector validated_at
    else
      '(outcome, collector) ← validate_schema (ext_embedded_schema ext) (ext_validator_for ext) value collector;
      let collector := match outcome with Err message => error IrSchemaType message collector | Ok _ => collector end in
      if has_errors collector then self_invalid_report self None None collector validated_at
      else
        let ir_version := get_str "ir_version" value in
        let program_id := get_str "program_id" value in
        match ext_from_value ext value with
        | Err message =>
            self_invalid_report self ir_version program_id
              (error IrSchemaType
                ("schema-valid document did not decode to the closed IR model: " +++ message) collector)
              validated_at
        | Ok program => validate_program self program collector validated_at
        end.

Definition validate_bytes_at_rfc3339 (self : Validator R) (bytes validated_at : string) :
    option ValidationReport :=
  let limits := val_limits self in
  let collector := DiagnosticCollector.new (N.to_nat (max_diagnostics limits)) in
  if negb (is_strictly_verified (val_registry self)) then
    Some (invalid_report None None None
      (error RegistrySnapshotHashMismatch
        "registry snapshot was not loaded with strict identity verification" collector) validated_at)
  else if (max_document_bytes limits <? N.of_nat (byte_len bytes))%N then
    self_invalid_report self None None
      (error IrLimitDocumentSize
        ("document is " +++ pretty (N.of_nat (byte_len bytes)) +++ " bytes; configured maximum is " +++
         pretty (max_document_bytes limits)) collector) validated_at
  else
    parsed ← parse_strict_json (ext_decode_string ext) (ext_number_parses ext) (ext_deserializer ext)
      bytes (max_depth limits);
    match parsed with
    | Ok value => validate_value self value collector validated_at
    | Err DepthLimit =>
        self_invalid_report self None None
          (error IrLimitDepth ("document exceeds configured JSON depth " +++ pretty (max_depth limits)) collector)
          validated_at
    | Err (DuplicateKey _) =>
        self_invalid_report self None None
          (error IrParseDuplicateKey "JSON object contains a duplicate key" collector) validated_at
    | Err (Invalid message) =>
        self_invalid_report self None None (error IrParseInvalid message collector) validated_at
    end.

(** [Validator::validate_bytes_at]; [validate_bytes] passes the current time. *)
Definition validate_bytes_at (self : Validator R) (bytes : string) (formatted : option string) :
    option ValidationReport :=
  validate_bytes_at_rfc3339 self bytes (format_timestamp formatted).

End registry.
End validator.

(** ** Specification *)

(** Retry and replan policies are bounded, and denied egress names no destination. *)
Record prechecks_ok (value : Value) : Prop := {
  pc_version : ∀ version, get_str "ir_version" value = Some version → version = "0.1";
  pc_budget : ∀ node failure, document_node value node → get_object "failure" node = Some failure →
    (member_str "on_error" failure = Some "retry" → is_Some (assoc_get "max_attempts" failure)) ∧
    (member_str "on_error" failure = Some "replan" → is_Some (assoc_get "max_replans" failure));
  pc_egress : ∀ node egress destinations, document_node value node → get_object "egress" node = Some egress →
    member_str "mode" egress = Some "deny" →
    assoc_get "destination_classes" egress ≫= as_array = Some destinations → destinations = [];
}.

Lemma missing_key_spec (P : Prop) `{Decision P} key (failure : list (string * Value)) :
  bool_decide P && negb (contains_key key failure) = false ↔ (P → is_Some (assoc_get key failure)).
Proof.
  unfold contains_key. destruct (assoc_get key failure); case_bool_decide; simpl; split; try done.
  intros Hp. by destruct Hp.
Qed.

Lemma missing_budget_spec failure : missing_budget failure = false ↔
  (member_str "on_error" failure = Some "retry" → is_Some (assoc_get "max_attempts" failure)) ∧
  (member_str "on_error" failure = Some "replan" → is_Some (assoc_get "max_replans" failure)).
Proof.
  unfold missing_budget. by rewrite orb_false_iff, !missing_key_spec.
Qed.

Lemma egress_contradiction_spec egress : egress_contradiction egress = false ↔
  (member_str "mode" egress = Some "deny" →
   ∀ destinations, assoc_get "destination_classes" egress ≫= as_array = Some destinations → destinations = []).
Proof.
  unfold egress_contradiction, names_destinations. rewrite andb_false_iff, bool_decide_eq_false.
  destruct (assoc_get "destination_classes" egress ≫= as_array) as [[|d ds]|]; simpl.
  - split; [|by right]. intros _ _ ds [= <-]. done.
  - split.
    + intros [Hm|Hm]; [|done]. by intros.
    + intros Hm. left. intros Hd. by specialize (Hm Hd (d :: ds) eq_refl).
  - split; [done|by right].
Qed.

Lemma is_some_and_false {A} (o : option A) f :
  is_some_and o f = false ↔ ∀ a, o = Some a → f a = false.
Proof. destruct o; simpl; naive_solver. Qed.

Lemma checks_precheck_node index node : checks (precheck_node index node)
  (is_some_and (get_object "failure" node) missing_budget = false ∧
   is_some_and (get_object "egress" node) egress_contradiction = false) ().
Proof. apply checks_bind with (a := ()); by apply checks_when_error. Qed.

Lemma checks_domain_prechecks value : checks (domain_prechecks value) (prechecks_ok value) ().
Proof.
  unfold domain_prechecks. destruct (unsupported_version value) eqn:Hv.
  { eapply checks_iff; [by apply checks_emit_error|]. split; [done|]. intros [Hver _ _].
    unfold unsupported_version in Hv. apply is_some_and_spec in Hv as (version & Hver' & Hne).
    apply Hver in Hver' as ->. done. }
  assert (∀ version, get_str "ir_version" value = Some version → version = "0.1") as Hver.
  { intros version Hs. unfold unsupported_version in Hv. rewrite is_some_and_false in Hv.
    specialize (Hv version Hs). by apply negb_false_iff, bool_decide_eq_true in Hv. }
  destruct (get_array "nodes" value) as [nodes|] eqn:Hn.
  - eapply checks_iff.
    { apply (checks_for_enumerate nodes _ (λ node,
        is_some_and (get_object "failure" node) missing_budget = false ∧
        is_some_and (get_object "egress" node) egress_contradiction = false)).
      intros i node _. apply checks_precheck_node. }
    setoid_rewrite is_some_and_false. setoid_rewrite missing_budget_spec. setoid_rewrite egress_contradiction_spec.
    split.
    + intros Hall. split; [done| |].
      * intros node failure (nodes' & Hn' & Hin). rewrite Hn in Hn'. injection Hn' as <-.
        apply (proj1 (Hall node Hin)).
      * intros node egress ds (nodes' & Hn' & Hin) He Hm Hd. rewrite Hn in Hn'. injection Hn' as <-.
        exact (proj2 (Hall node Hin) egress He Hm ds Hd).
    + intros [_ Hb He] node Hin. assert (document_node value node) as Hdn by (by exists nodes). split.
      * intros failure Hf. by apply (Hb node).
      * intros egress Heg Hm ds Hd. by apply (He node egress).
  - eapply checks_iff; [apply checks_ret|]. split; [|done]. intros _. unfold document_node.
    split; [done| |]; [intros node failure (nodes & ? & _)|intros node egress ds (nodes & ? & _)]; congruence.
Qed.

(** The compiled schema accepts the value. *)
Definition schema_accepts (ext : Externals) (value : Value) : Prop :=
  ∃ validator, compiled_schema (ext_embedded_schema ext) (ext_validator_for ext) = Ok validator ∧ validator value = [].

(** [jsonschema] lists failures for every alternative of a rejected union. *)
Definition schema_failures_wf (ext : Externals) : Prop :=
  ∀ validator value, compiled_schema (ext_embedded_schema ext) (ext_validator_for ext) = Ok validator →
    forallb well_formed (validator value) = true.

(** A document that the validator accepts, with what it is accepted as. *)
Record accepted (ext : Externals) {R} `{ContractRegistry R} (self : Validator R) (bytes : string)
    (value : Value) (program : AiosIr) (normalized : Value) (hash : string) : Prop := {
  acc_strict : is_strictly_verified (val_registry self) = true;
  acc_size : (N.of_nat (byte_len bytes) ≤ max_document_bytes (val_limits self))%N;
  acc_parsed : parse_strict_json (ext_decode_string ext) (ext_number_parses ext) (ext_deserializer ext)
    bytes (max_depth (val_limits self)) = Some (Ok value);
  acc_limits : within_limits value (val_limits self);
  acc_prechecks : prechecks_ok value;
  acc_schema : schema_accepts ext value;
  acc_program : ext_from_value ext value = Ok program;
  acc_semantics : program_ok program (val_registry self);
  acc_normalized : normalize_semantic_program (ext_display ext) (ext_to_value ext) program = Ok normalized;
  acc_hash : semantic_hash (ext_jcs ext) (ext_sha256 ext) normalized = Ok hash;
}.

(** ** Correctness *)

Section correctness.

Context (ext : Externals) {R : Type} `{ContractRegistry R} (self : Validator R) (validated_at : string).
Context (Hschema : schema_failures_wf ext).

Abbreviation fresh := (DiagnosticCollector.new (N.to_nat (max_diagnostics (val_limits self)))).

(** A run of the pipeline ends in a report: a valid one for an accepted program, built
    over error-free diagnostics, or an invalid one over diagnostics with an error. *)
Definition decided (run : option ValidationReport) (P : AiosIr → Value → string → Prop) : Prop :=
  (∃ program normalized hash summary ds, P program normalized hash ∧
     build_summary program (snapshot_id (val_registry self)) "" (program_effects program (val_registry self)) =
       Some summary ∧ error_free ds ∧
     run = Some (valid_report ext self program normalized hash summary (push_all ds fresh) validated_at)) ∨
  ((∀ program normalized hash, ¬ P program normalized hash) ∧
   ∃ version id snapshot ds, existsb is_error ds = true ∧
     run = Some (invalid_report ext version id snapshot (push_all ds fresh) validated_at)).

Lemma decided_iff run P Q : decided run P → (∀ p n h, P p n h ↔ Q p n h) → decided run Q.
Proof.
  clear. intros [(p & n & h & s & ds & Hp & Hrest)|[Hno Hrest]] HPQ.
  - left. exists p, n, h, s, ds. split; [by apply HPQ|done].
  - right. split; [|done]. intros p n h Hq%HPQ. by eapply Hno.
Qed.

(** A rejecting stage. *)
Lemma decided_reject version id snapshot ds P :
  existsb is_error ds = true → (∀ p n h, ¬ P p n h) →
  decided (Some (invalid_report ext version id snapshot (push_all ds fresh) validated_at)) P.
Proof. clear. intros He Hno. right. split; [done|]. by exists version, id, snapshot, ds. Qed.

Lemma decided_reject_error version id snapshot ds code message P :
  ValidatorReasonCode.severity code = Error → (∀ p n h, ¬ P p n h) →
  decided (Some (invalid_report ext version id snapshot (error code message (push_all ds fresh)) validated_at)) P.
Proof.
  clear. intros Hsev Hno. change (error code message (push_all ds fresh)) with
    (push_all [Diagnostic_new code message] (push_all ds fresh)). rewrite <-push_all_app.
  apply decided_reject; [|done]. rewrite existsb_app. simpl. unfold is_error. simpl.
  rewrite Hsev. by rewrite orb_true_r.
Qed.

Lemma has_errors_fresh ds : has_errors (push_all ds fresh) = existsb is_error ds.
Proof. clear. by rewrite has_errors_push_all. Qed.

Lemma decided_program program ds : error_free ds →
  decided (validate_program ext self program (push_all ds fresh) validated_at)
    (λ p n h, p = program ∧ program_ok program (val_registry self) ∧
       normalize_semantic_program (ext_display ext) (ext_to_value ext) program = Ok n ∧
       semantic_hash (ext_jcs ext) (ext_sha256 ext) n = Ok h).
Proof.
  clear Hschema. intros Hfree. pose proof Hfree as Hc%error_free_existsb. rewrite <-has_errors_fresh in Hc.
  destruct (decides_analyze program (val_registry self) _ Hc) as (r & c' & Hr & Hcases & ds' & ->).
  unfold validate_program, self_invalid_report. rewrite Hr. cbn [mbind option_bind]. rewrite <-push_all_app in *.
  destruct Hcases as [(Hok & (summary & -> & Hs) & Herr)|(Hno & -> & Herr)]; rewrite Herr.
  - destruct (normalize_semantic_program _ _ program) as [normalized|message] eqn:Hn.
    2: { apply decided_reject_error; [done|]. intros p n h (-> & _ & ? & _). congruence. }
    destruct (semantic_hash _ _ normalized) as [hash|message] eqn:Hh.
    2: { apply decided_reject_error; [done|]. intros p n h (-> & _ & ? & ?). congruence. }
    left. exists program, normalized, hash, summary, (ds ++ ds'). split_and!; try done.
    apply error_free_existsb. by rewrite <-has_errors_fresh.
  - apply decided_reject; [by rewrite <-has_errors_fresh|]. intros p n h (-> & ? & _). done.
Qed.

(** Checks that push diagnostics, then their gate. *)
Lemma decided_gate ds ds' version id snapshot k P (Q : Prop) :
  error_free ds → (error_free ds' ↔ Q) → (Q → error_free (ds ++ ds') → decided k P) →
  decided (if has_errors (push_all (ds ++ ds') fresh)
           then Some (invalid_report ext version id snapshot (push_all (ds ++ ds') fresh) validated_at) else k)
    (λ p n h, Q ∧ P p n h).
Proof.
  clear. intros Hfree HQ Hk. rewrite has_errors_fresh. destruct (existsb is_error (ds ++ ds')) eqn:He.
  - apply decided_reject; [done|]. intros p n h [Hq _]. apply HQ in Hq.
    assert (error_free (ds ++ ds')) as Hf%error_free_existsb by (by apply error_free_app). congruence.
  - apply error_free_existsb in He. assert (Q) as Hq by (apply HQ; by apply error_free_app in He as [_ ?]).
    eapply decided_iff; [by apply Hk|]. naive_solver.
Qed.

Lemma violations_error_free value :
  error_free (violation_diagnostic <$> inspect_value_limits value (val_limits self)) ↔
  within_limits value (val_limits self).
Proof.
  clear. rewrite <-inspect_value_limits_nil.
  destruct (inspect_value_limits value (val_limits self)) as [|w l]; [split; [done|constructor]|].
  split; [|done]. rewrite fmap_cons. unfold error_free. rewrite Forall_cons. intros [Hw _]. by destruct w.
Qed.

(** Schema validation, with the error for a schema that does not compile. *)
Lemma schema_stage value c : collector_wf c → ∃ ds outcome,
  validate_schema (ext_embedded_schema ext) (ext_validator_for ext) value c = Some (outcome, push_all ds c) ∧
  let ds' := ds ++ match outcome with Err message => [Diagnostic_new IrSchemaType message] | Ok _ => [] end in
  (error_free ds' ↔ schema_accepts ext value) ∧
  match outcome with Err message => error IrSchemaType message (push_all ds c) | Ok _ => push_all ds c end =
    push_all ds' c.
Proof using Hschema.
  intros Hc. unfold validate_schema, schema_accepts. destruct (compiled_schema _ _) as [validator|message] eqn:E.
  - destruct (emit_validator_errors_pushes (validator value)) as (ds & [Herr Hds] & Hnil); [by apply Hschema|].
    exists ds, (Ok ()). unfold mbind, Diag_bind. rewrite (Hds c Hc). split; [done|]. cbv zeta.
    rewrite app_nil_r. split; [|done]. split.
    + intros Hf. exists validator. split; [done|]. apply Hnil. destruct Herr as [|d ds Hd _]; [done|].
      unfold error_free in Hf. apply Forall_cons in Hf as [Hf _]. congruence.
    + intros (v & [= <-] & Hv). apply Hnil in Hv as ->. constructor.
  - exists [], (Err message). split; [done|]. cbv zeta. split; [|done]. split.
    + unfold error_free. rewrite app_nil_l, Forall_cons. intros [Hf _]. done.
    + intros (v & ? & _). done.
Qed.

Lemma decided_value value :
  decided (validate_value ext self value fresh validated_at)
    (λ p n h, within_limits value (val_limits self) ∧ prechecks_ok value ∧ schema_accepts ext value ∧
       ext_from_value ext value = Ok p ∧ p = p ∧ program_ok p (val_registry self) ∧
       normalize_semantic_program (ext_display ext) (ext_to_value ext) p = Ok n ∧
       semantic_hash (ext_jcs ext) (ext_sha256 ext) n = Ok h).
Proof using Hschema.
  unfold validate_value, self_invalid_report.
  apply (decided_gate [] _ None None _ _ _ _); [constructor|apply violations_error_free|].
  rewrite app_nil_l. intros _. set (ds1 := violation_diagnostic <$> _). intros Hf1.
  destruct (checks_domain_prechecks value) as (ds2 & Hm & Hds2). rewrite (Hm (push_all ds1 fresh)).
  cbn [mbind option_bind]. rewrite <-push_all_app. apply decided_gate; [done|done|]. intros _ Hf2.
  destruct (schema_stage value (push_all (ds1 ++ ds2) fresh)) as (ds3 & outcome & Hrun & Hiff & Heq).
  { by apply collector_wf_push_all, collector_wf_new. }
  rewrite Hrun. cbn [mbind option_bind]. rewrite Heq, <-push_all_app. apply decided_gate; [done|done|].
  intros _ Hf3. destruct (ext_from_value ext value) as [program|message].
  - eapply decided_iff; [by apply decided_program|]. intros p n h. split.
    + intros (-> & ? & ? & ?). done.
    + by intros ([= ->] & _ & ? & ? & ?).
  - apply decided_reject_error; [done|]. by intros p n h (? & _).
Qed.

Lemma decided_bytes bytes :
  decided (validate_bytes_at_rfc3339 ext self bytes validated_at)
    (λ p n h, ∃ value, accepted ext self bytes value p n h).
Proof using Hschema.
  unfold validate_bytes_at_rfc3339, self_invalid_report.
  destruct (is_strictly_verified (val_registry self)) eqn:Hstrict; simpl.
  2: { apply (decided_reject_error _ _ _ []); [done|]. intros p n h [value []]. congruence. }
  destruct (N.ltb_spec (max_document_bytes (val_limits self)) (N.of_nat (byte_len bytes))) as [Hsize|Hsize].
  { apply (decided_reject_error _ _ _ []); [done|]. intros p n h [value []]. lia. }
  pose proof (parse_strict_json_total (ext_decode_string ext) (ext_number_parses ext) (ext_deserializer ext)
    bytes (max_depth (val_limits self))) as [parsed Hparsed].
  rewrite Hparsed. cbn [mbind option_bind].
  assert (∀ e, parsed = Err e → ∀ p n h, ¬ ∃ value, accepted ext self bytes value p n h) as Hno.
  { intros e -> p n h [value []]. congruence. }
  destruct parsed as [value|[|key|message]];
    [|apply (decided_reject_error _ _ _ []); [done|by eapply Hno]..].
  eapply decided_iff; [apply decided_value|]. intros p n h. split.
  - intros (? & ? & ? & ? & _ & ? & ? & ?). exists value. by split.
  - intros [value' []]. assert (value' = value) as -> by congruence. done.
Qed.

End correctness.

(** ** The report *)

(** The diagnostics of a report are pushed ones, or the suppression notice. *)
Lemma elem_of_finish d ds max : d ∈ (finish (push_all ds (DiagnosticCollector.new max))).1 →
  d = notice ∨ ∃ d0, d0 ∈ ds ∧ d = bound_fields d0.
Proof.
  rewrite push_all_new. unfold finish, vec_pop. simpl.
  assert (∀ n, d ∈ take n (take max (bound_fields <$> ds)) → ∃ d0, d0 ∈ ds ∧ d = bound_fields d0) as Htake.
  { intros n Hd. apply elem_of_take in Hd as (i & Hi & _). apply lookup_take_Some in Hi as [Hi _].
    apply list_lookup_fmap_Some in Hi as (d0 & -> & Hd0). exists d0. split; [by eapply list_elem_of_lookup_2|done]. }
  assert (d ∈ take max (bound_fields <$> ds) → ∃ d0, d0 ∈ ds ∧ d = bound_fields d0) as Hall.
  { intros Hd. apply (Htake max). by rewrite take_take, Nat.min_id. }
  destruct (_ && _); simpl; [|by right; apply Hall].
  rewrite elem_of_app, list_elem_of_singleton. destruct (_ =? _); intros [Hd| ->]; eauto.
Qed.

(** An error among the pushed diagnostics is shown, or its suppression is. *)
Lemma finish_shows_error ds max : existsb is_error ds = true →
  (∃ d, d ∈ (finish (push_all ds (DiagnosticCollector.new max))).1 ∧ diag_severity d = Error) ∨
  (finish (push_all ds (DiagnosticCollector.new max))).2 = true.
Proof.
  intros He. rewrite push_all_new. unfold finish. simpl.
  case_bool_decide as Hlen; simpl; [right; by destruct (1 <? max)|]. left.
  apply existsb_exists in He as (d & Hd & He). exists (bound_fields d). split.
  - rewrite take_ge by (rewrite length_fmap; lia). apply list_elem_of_fmap_2. by apply list_elem_of_In.
  - by apply bool_decide_eq_true in He.
Qed.

Lemma finish_length ds max : length (finish (push_all ds (DiagnosticCollector.new max))).1 ≤ max.
Proof.
  rewrite push_all_new. unfold finish, vec_pop. simpl. rewrite length_take, length_fmap.
  destruct (bool_decide _); simpl; [|rewrite length_take, length_fmap; lia].
  destruct (Nat.ltb_spec 1 max); simpl; [|rewrite length_take, length_fmap; lia].
  rewrite length_app. simpl. destruct (Nat.eqb_spec (max `min` length ds) max);
    rewrite ?length_take, ?length_fmap; lia.
Qed.

Lemma build_summary_snapshot program sid hash effects s :
  build_summary program sid hash effects = Some s → es_registry_snapshot_id s = sid.
Proof. unfold build_summary. destruct (summarize_nodes _ _ _); [|done]. by intros [= <-]. Qed.

Definition validation (report : ValidationReport) : ValidationResult := vo_validation (rep_output report).
Definition effect_summary (report : ValidationReport) : option EffectSummary := vo_effect_summary (rep_output report).

(** ** Claims *)

(** C1: the validator always returns a report (it never panics, on any bytes), and the
    report is valid exactly when the registry is strictly verified and the document is
    within the size and depth limits, parses without duplicate keys, is within every
    structural limit, passes the domain prechecks and the schema, decodes to a program
    that satisfies [program_ok], and has a canonical semantic hash. *)
Theorem validate_bytes_exact (ext : Externals) {R} `{ContractRegistry R} (self : Validator R) bytes validated_at :
  schema_failures_wf ext →
  ∃ report, validate_bytes_at_rfc3339 ext self bytes validated_at = Some report ∧
    (vr_valid (validation report) = true ↔
     ∃ value program normalized hash, accepted ext self bytes value program normalized hash).
Proof.
  intros Hwf. destruct (decided_bytes ext self validated_at Hwf bytes) as
    [(p & n & h & s & ds & [value Hacc] & _ & _ & Hrun)|(Hno & v & i & sn & ds & _ & Hrun)].
  - eexists. split; [exact Hrun|]. unfold valid_report, validation. destruct (finish _). simpl.
    split; [|done]. intros _. eauto 10.
  - eexists. split; [exact Hrun|]. unfold invalid_report, validation. destruct (finish _). simpl.
    split; [done|]. intros (value & p & n & h & Hacc). destruct (Hno p n h). eauto.
Qed.

(** C8: a valid report identifies the program it accepts: its semantic hash is the hash
    of the normalized program it carries, its effect summary is stamped with that hash,
    with the registry snapshot and with the validation time, and it shows no diagnostic
    of error severity. *)
Theorem valid_report_identity (ext : Externals) {R} `{ContractRegistry R} (self : Validator R) bytes validated_at report :
  schema_failures_wf ext →
  validate_bytes_at_rfc3339 ext self bytes validated_at = Some report → vr_valid (validation report) = true →
  ∃ value program normalized hash summary, accepted ext self bytes value program normalized hash ∧
    rep_normalized report = Some normalized ∧
    vr_semantic_hash (validation report) = Some hash ∧
    vr_semantic_hash_profile (validation report) = Some HASH_PROFILE ∧
    vr_registry_snapshot_id (validation report) = Some (snapshot_id (val_registry self)) ∧
    vr_program_id (validation report) = Some (program_id program) ∧
    effect_summary report = Some summary ∧
    es_semantic_program_hash summary = hash ∧
    es_registry_snapshot_id summary = snapshot_id (val_registry self) ∧
    es_generated_at summary = Some validated_at ∧
    ∀ d, d ∈ vr_diagnostics (validation report) → diag_severity d ≠ Error.
Proof.
  intros Hwf Hrun Hvalid. destruct (decided_bytes ext self validated_at Hwf bytes) as
    [(p & n & h & s & ds & [value Hacc] & Hs & Hfree & Hrun')|(Hno & v & i & sn & ds & _ & Hrun')];
    rewrite Hrun in Hrun'; injection Hrun' as ->.
  2: { unfold invalid_report, validation in Hvalid. by destruct (finish _). }
  pose proof (λ d, elem_of_finish d ds (N.to_nat (max_diagnostics (val_limits self)))) as Hd.
  apply build_summary_snapshot in Hs. unfold valid_report, validation, effect_summary in *. destruct (finish _) as [diagnostics truncated]. simpl in *.
  exists value, p, n, h. eexists. split; [done|]. split_and!; try reflexivity.
  - exact Hs.
  - intros d [->|(d0 & Hd0 & ->)]%Hd; [done|]. unfold error_free in Hfree. rewrite Forall_forall in Hfree.
    specialize (Hfree d0 Hd0). unfold is_error in Hfree. by apply bool_decide_eq_false in Hfree.
Qed.

(** C9: an invalid report never carries identity: no semantic hash, no hash profile, no
    effect summary and no normalized program; and it explains itself: it shows a
    diagnostic of error severity, or says that diagnostics were suppressed. *)
Theorem invalid_report_closed (ext : Externals) {R} `{ContractRegistry R} (self : Validator R) bytes validated_at report :
  schema_failures_wf ext →
  validate_bytes_at_rfc3339 ext self bytes validated_at = Some report → vr_valid (validation report) = false →
  vr_semantic_hash (validation report) = None ∧ vr_semantic_hash_profile (validation report) = None ∧
  effect_summary report = None ∧ rep_normalized report = None ∧
  ((∃ d, d ∈ vr_diagnostics (validation report) ∧ diag_severity d = Error) ∨
   vr_diagnostics_truncated (validation report) = true).
Proof.
  intros Hwf Hrun Hvalid. destruct (decided_bytes ext self validated_at Hwf bytes) as
    [(p & n & h & s & ds & [value Hacc] & Hs & Hfree & Hrun')|(Hno & v & i & sn & ds & He & Hrun')];
    rewrite Hrun in Hrun'; injection Hrun' as ->.
  { unfold valid_report, validation in Hvalid. by destruct (finish _). }
  pose proof (finish_shows_error ds (N.to_nat (max_diagnostics (val_limits self))) He) as Hs.
  unfold invalid_report, validation, effect_summary in *. by destruct (finish _).
Qed.

(** C10: a validator over a registry that was not loaded with strict hash verification
    rejects every document, without a snapshot identity, with exactly the registry
    mismatch diagnostic. *)
Theorem unverified_registry_rejected (ext : Externals) {R} `{ContractRegistry R} (registry : R) limits bytes formatted :
  is_strictly_verified registry = false →
  ∃ report, validate_bytes_at ext (Validator_new registry limits) bytes formatted = Some report ∧
    vr_valid (validation report) = false ∧ vr_registry_snapshot_id (validation report) = None ∧
    vr_semantic_hash (validation report) = None ∧ effect_summary report = None ∧
    diag_code <$> vr_diagnostics (validation report) = [RegistrySnapshotHashMismatch].
Proof.
  intros Hs. unfold validate_bytes_at, validate_bytes_at_rfc3339. simpl. rewrite Hs. eexists. split; [reflexivity|].
  unfold error, push. simpl.
  destruct (Nat.ltb_spec 0 (N.to_nat (N.max 1 (N.min MAX_OUTPUT_DIAGNOSTICS (max_diagnostics limits))))); [|lia].
  unfold invalid_report, finish. by simpl.
Qed.

(** C25: whatever limits are configured, a report shows at most 256 diagnostics, the
    bound of the output format, and at most the configured number (at least one). *)
Theorem report_diagnostics_bounded (ext : Externals) {R} `{ContractRegistry R} (registry : R) limits bytes formatted report :
  schema_failures_wf ext →
  validate_bytes_at ext (Validator_new registry limits) bytes formatted = Some report →
  length (vr_diagnostics (validation report)) ≤ 256 ∧
  (N.of_nat (length (vr_diagnostics (validation report))) ≤ N.max 1 (max_diagnostics limits))%N.
Proof.
  intros Hwf Hrun. set (self := Validator_new registry limits) in *.
  assert (length (vr_diagnostics (validation report)) ≤ N.to_nat (max_diagnostics (val_limits self))) as Hlen.
  { destruct (decided_bytes ext self (format_timestamp formatted) Hwf bytes) as
      [(p & n & h & s & ds & _ & _ & _ & Hrun')|(_ & v & i & sn & ds & _ & Hrun')];
      unfold validate_bytes_at in Hrun; rewrite Hrun in Hrun'; injection Hrun' as ->;
      pose proof (finish_length ds (N.to_nat (max_diagnostics (val_limits self))));
      unfold valid_report, invalid_report, validation; by destruct (finish _). }
  unfold self in Hlen. simpl in Hlen. unfold MAX_OUTPUT_DIAGNOSTICS in Hlen. lia.
Qed.

(** ** A concrete instance

    Stand-ins for the external crates around the repository's demonstration program
    and registry. *)

Definition sample_ext : Externals := {|
  ext_decode_string := λ _, None;
  ext_number_parses := λ _, true;
  ext_deserializer := λ _, (DMap [("ir_version", DStr "0.1"); ("nodes", DSeq [] (Ok ()))] (Ok ()) "", Ok ());
  ext_embedded_schema := Ok Null;
  ext_validator_for := λ _, Ok (λ _, []);
  ext_from_value := λ _, Ok demonstration_a;
  ext_to_value := λ p, Ok (Object [("program_id", Str (program_id p)); ("ir_version", Str (ir_version p))]);
  ext_display := λ _, "";
  ext_jcs := λ _, Ok "{}";
  ext_sha256 := sample_digest;
  ext_build_hash := None;
|}.

Definition sample_validator (limits : ValidationLimits) : Validator SemanticRegistry :=
  Validator_new fixture_registry limits.

Definition sample_run (limits : ValidationLimits) : option ValidationReport :=
  validate_bytes_at sample_ext (sample_validator limits) "{}" (Some "2026-01-01T00:00:00Z").

(** No document of two bytes fits. *)
Definition tiny_limits : ValidationLimits := {|
  max_document_bytes := 1; max_depth := 64; max_nodes := 512; max_ports_per_interface := 128;
  max_authority_requests_per_node := 32; max_fallbacks_per_node := 3; max_string_chars := 16384;
  max_diagnostics := 0;
|}.

Lemma sample_wf : schema_failures_wf sample_ext.
Proof. intros validator value [= <-]. done. Qed.

Definition run_valid (run : option ValidationReport) : option bool := (λ r, vr_valid (validation r)) <$> run.

Lemma validate_bytes_exact_witness : ∃ report, sample_run default_limits = Some report ∧
  vr_valid (validation report) = true ∧
  ∃ value program normalized hash,
    accepted sample_ext (sample_validator default_limits) "{}" value program normalized hash.
Proof.
  destruct (validate_bytes_exact sample_ext (sample_validator default_limits) "{}" "2026-01-01T00:00:00Z" sample_wf)
    as (report & Hrun & Hiff).
  assert (run_valid (sample_run default_limits) = Some true) as Hv by (vm_compute; reflexivity).
  change (sample_run default_limits = Some report) in Hrun. unfold run_valid in Hv. rewrite Hrun in Hv.
  exists report. injection Hv as Hv. exact (conj Hrun (conj Hv (proj1 Hiff Hv))).
Defined.

Lemma valid_report_identity_witness : ∃ report normalized hash, sample_run default_limits = Some report ∧
  rep_normalized report = Some normalized ∧ vr_semantic_hash (validation report) = Some hash.
Proof.
  assert (run_valid (sample_run default_limits) = Some true) as Hv by (vm_compute; reflexivity).
  destruct (sample_run default_limits) as [report|] eqn:E; [|discriminate Hv]. injection Hv as Hv.
  destruct (valid_report_identity sample_ext (sample_validator default_limits) "{}" "2026-01-01T00:00:00Z" report
    sample_wf E Hv) as (value & program & normalized & hash & summary & _ & Hn & Hh & _).
  exists report, normalized, hash. exact (conj eq_refl (conj Hn Hh)).
Defined.

Lemma invalid_report_closed_witness : ∃ report, sample_run tiny_limits = Some report ∧
  vr_semantic_hash (validation report) = None ∧ effect_summary report = None.
Proof.
  assert (run_valid (sample_run tiny_limits) = Some false) as Hv by (vm_compute; reflexivity).
  destruct (sample_run tiny_limits) as [report|] eqn:E; [|discriminate Hv]. injection Hv as Hv.
  destruct (invalid_report_closed sample_ext (sample_validator tiny_limits) "{}" "2026-01-01T00:00:00Z" report
    sample_wf E Hv) as (Hh & _ & Hs & _).
  exists report. exact (conj eq_refl (conj Hh Hs)).
Defined.

(** The same registry, loaded without verifying its hashes. *)
Definition unverified_registry : SemanticRegistry := {|
  reg_snapshot := reg_snapshot fixture_registry;
  reg_snapshot_id := reg_snapshot_id fixture_registry;
  reg_hash_verification := BootstrapGenerate;
  reg_types := reg_types fixture_registry;
  reg_capabilities := reg_capabilities fixture_registry;
  reg_type_hashes := reg_type_hashes fixture_registry;
  reg_capability_hashes := reg_capability_hashes fixture_registry;
|}.

Lemma unverified_registry_rejected_witness : ∃ report,
  validate_bytes_at sample_ext (Validator_new unverified_registry default_limits) "{}" None = Some report ∧
  diag_code <$> vr_diagnostics (validation report) = [RegistrySnapshotHashMismatch].
Proof.
  assert (is_strictly_verified unverified_registry = false) as Hs by (vm_compute; reflexivity).
  destruct (unverified_registry_rejected sample_ext unverified_registry default_limits "{}" None Hs)
    as (report & Hrun & _ & _ & _ & _ & Hd).
  exists report. exact (conj Hrun Hd).
Defined.

Lemma report_diagnostics_bounded_witness : ∃ report, sample_run tiny_limits = Some report ∧
  length (vr_diagnostics (validation report)) ≤ 256 ∧
  (N.of_nat (length (vr_diagnostics (validation report))) ≤ 1)%N.
Proof.
  assert (run_valid (sample_run tiny_limits) = Some false) as Hv by (vm_compute; reflexivity).
  destruct (sample_run tiny_limits) as [report|] eqn:E; [|discriminate Hv].
  destruct (report_diagnostics_bounded sample_ext fixture_registry tiny_limits "{}" (Some "2026-01-01T00:00:00Z")
    report sample_wf E) as [H1 H2].
  exists report. exact (conj eq_refl (conj H1 H2)).
Defined.
