(* ===== verification/Details.v ===== *)
(** * Provenance detail contracts

    [crates/aios-provenance/src/lib.rs]: the errors of the crate, the external code it
    calls, the field validators ([expect_integer] to [expect_nullable_durability_state]),
    the nested detail validators and the closed vocabulary of the [details] member of a
    provenance event.

    The reference definition is a small type language: [detail_type] gives the type of
    the member [key] of the details of an event of type [event_type], and [has_type] says
    which JSON values a type admits.  The dispatch table of the code decides it
    ([validate_detail_value_typed]), and the separate table of allowed member names
    lists exactly the typed ones ([allowed_detail_key_typed]). *)

From S2P Require Import Prelude Json Contracts Numbers Limits Parse.

#[local] Set Warnings "-register-all".

(** ** Errors and external code *)

(** [rusqlite::Error], as far as the crate tells its cases apart. *)
Inductive StorageError :=
  | FromSqlConversionFailure (column : nat)
  | InvalidColumnType (column : nat)
  | IntegralValueOutOfRange (column : nat)
  | ConstraintViolation (constraint : string)
  | QueryReturnedNoRows.

Inductive Error :=
  | Storage (error : StorageError)
  | Serialization (message : string)
  | Canonicalization (message : string)
  | InvalidRecord (message : string).

Abbreviation Res := (result Error).

(** The code outside the repository: [time], [jsonschema] with the four compiled schemas,
    [serde_json], [serde_json_canonicalizer] and [sha2].  A validator is the compiled
    schema or the message of its compilation error. *)
Class ProvenanceLib := {
  rfc3339_parses : string → bool;
  event_schema : result string (Value → bool);
  projection_manifest_schema : result string (Value → bool);
  projected_record_schema : result string (Value → bool);
  projection_result_schema : result string (Value → bool);
  json_to_string : Value → result string string;
  json_from_slice : string → Doc * result string unit;
  jcs_to_vec : Value → result string string;
  sha256 : string → string;
}.

(** [Result::map_err] *)
Definition map_err {E F A} (f : E → F) (r : result E A) : result F A :=
  match r with Ok a => Ok a | Err e => Err (f e) end.

(** [for x in l { f(x)?; }] *)
Fixpoint for_each {E A} (f : A → result E unit) (l : list A) : result E unit :=
  match l with
  | [] => Ok ()
  | x :: l' => match f x with Ok _ => for_each f l' | Err e => Err e end
  end.

(** [if failing { return Err(..) }] *)
Definition ensure {E} (condition : bool) (error : E) : result E unit :=
  if condition then Ok () else Err error.

(** [matches!(value, "a" | "b" | ..)] and [allowed.contains(&value)] *)
Definition matches (value : string) (allowed : list string) : bool := bool_decide (value ∈ allowed).

(** ** Characters

    [str::chars] on the UTF-8 bytes of a [String]: a leading byte opens a scalar and each
    continuation byte adds six bits. *)

Definition lead_bits (n : N) : N :=
  (if n <? 128 then n else if n <? 224 then n - 192 else if n <? 240 then n - 224 else n - 240)%N.

Fixpoint chars_from (current : option N) (s : string) : list N :=
  match s with
  | EmptyString => option_list current
  | String c s' =>
      let n := Ascii.N_of_ascii c in
      if char_start c then option_list current ++ chars_from (Some (lead_bits n)) s'
      else chars_from (Some (default 0%N current * 64 + (n - 128))%N) s'
  end.

Definition chars (s : string) : list N := chars_from None s.

(** [char::is_whitespace]: the Unicode property White_Space. *)
Definition is_whitespace (c : N) : bool :=
  ((9 <=? c) && (c <=? 13) || (8192 <=? c) && (c <=? 8202))%N ||
  existsb (N.eqb c) [32; 133; 160; 5760; 8232; 8233; 8239; 8287; 12288]%N.

(** [char::is_control]: the general category Cc. *)
Definition is_control (c : N) : bool := ((c <=? 31) || ((127 <=? c) && (c <=? 159)))%N.

(** ** Field validators *)

Definition MAX_SAFE_JSON_INTEGER : N := 9007199254740991.

Definition invalid_details (message : string) : Error :=
  InvalidRecord ("invalid privacy-safe provenance details: " +++ message).

(** [Value::as_u64], [Value::is_null], [Value::is_boolean] *)
Definition as_u64 (value : Value) : option N :=
  match value with Num n => number_as_u64 n | _ => None end.
Definition is_null (value : Value) : bool := match value with Null => true | _ => false end.
Definition is_boolean (value : Value) : bool := match value with Bool _ => true | _ => false end.

(** [event.get(key).and_then(Value::as_str)] *)
Definition string_field (event : Value) (key : string) : option string := value_get key event ≫= as_str.

(** [usize] character counts. *)
Definition count (s : string) : N := N.of_nat (chars_count s).
Definition len {A} (l : list A) : N := N.of_nat (length l).

(** A lowercase hexadecimal digit byte: [is_ascii_digit] or [b'a'..=b'f']. *)
Definition hash_byte (c : ascii) : bool :=
  let n := Ascii.N_of_ascii c in is_digit c || ((97 <=? n) && (n <=? 102))%N.

Definition valid_hash (value : string) : bool :=
  (byte_len value =? 71) && starts_with "sha256:" value &&
  string_forallb hash_byte (DecimalToken.drop_bytes 7 value).

Definition expect_object_keys (value : Value) (keys : list string) : Res (list (string * Value)) :=
  match as_object value with
  | None => Err (invalid_details "typed detail value must be an object")
  | Some object =>
      if existsb (λ kv, negb (matches kv.1 keys)) object
      then Err (invalid_details "typed detail object has an unknown field") else Ok object
  end.

Definition expect_exact_object (value : Value) (keys : list string) : Res (list (string * Value)) :=
  object ← expect_object_keys value keys;
  if negb (length object =? length keys) || existsb (λ key, negb (contains_key key object)) keys
  then Err (invalid_details "typed detail object has missing fields") else Ok object.

(** [&object[key]] on a map whose member [key] is known to be there. *)
Definition member (object : list (string * Value)) (key : string) : Value :=
  default Null (assoc_get key object).

Definition expect_integer (value : Value) (minimum : N) (maximum : option N) : Res unit :=
  ensure (is_some_and (as_u64 value) (λ value,
            (minimum <=? value)%N && (value <=? MAX_SAFE_JSON_INTEGER)%N &&
            match maximum with Some maximum => (value <=? maximum)%N | None => true end))
         (invalid_details "detail value must be a bounded unsigned integer").

Definition expect_bool (value : Value) : Res unit :=
  ensure (is_boolean value) (invalid_details "detail value must be a boolean").

Definition expect_null (value : Value) : Res unit :=
  ensure (is_null value) (invalid_details "detail value must be null").

Definition expect_identifier (value : Value) (maximum : N) : Res unit :=
  match as_str value with
  | None => Err (invalid_details "identifier detail must be a string")
  | Some value =>
      if (count value =? 0)%N || (maximum <? count value)%N || existsb is_whitespace (chars value)
      then Err (invalid_details "identifier detail has invalid syntax") else Ok ()
  end.

(** [if value.is_null() { Ok(()) } else { .. }] *)
Definition nullable (value : Value) (rest : Res unit) : Res unit := if is_null value then Ok () else rest.

Definition expect_nullable_identifier (value : Value) (maximum : N) : Res unit :=
  nullable value (expect_identifier value maximum).

Definition expect_task_string (value : Value) (maximum : N) (nonempty : bool) : Res unit :=
  match as_str value with
  | None => Err (invalid_details "Task-origin detail must be a string")
  | Some value =>
      if (maximum <? count value)%N || (nonempty && (count value =? 0)%N)
      then Err (invalid_details "Task-origin detail exceeds its Unicode-scalar bounds") else Ok ()
  end.

Definition expect_nullable_task_string (value : Value) (maximum : N) : Res unit :=
  nullable value (expect_task_string value maximum true).

Definition expect_artifact_identifier (value : Value) : Res unit :=
  expect_task_string value 256 true ≫= λ _,
  if is_some_and (as_str value) (λ text, existsb is_control (chars text))
  then Err (invalid_details "Artifact-origin identifier contains a control character") else Ok ().

Definition expect_nullable_artifact_identifier (value : Value) : Res unit :=
  nullable value (expect_artifact_identifier value).

(** The loop of [expect_task_string_array] with its set of the strings seen. *)
Fixpoint unique_strings (maximum_chars : N) (nonempty : bool) (unique : gset string) (values : list Value) :
    Res unit :=
  match values with
  | [] => Ok ()
  | value :: values' =>
      match expect_task_string value maximum_chars nonempty, as_str value with
      | Err e, _ => Err e
      | Ok _, None => Err (invalid_details "Task-origin detail must be a string")
      | Ok _, Some text =>
          if bool_decide (text ∈ unique)
          then Err (invalid_details "Task-origin collection contains duplicate values")
          else unique_strings maximum_chars nonempty ({[ text ]} ∪ unique) values'
      end
  end.

Definition expect_task_string_array (value : Value) (maximum_items maximum_chars : N) (nonempty : bool) :
    Res unit :=
  match as_array value with
  | None => Err (invalid_details "Task-origin collection must be an array")
  | Some values =>
      if (maximum_items <? len values)%N
      then Err (invalid_details "Task-origin collection exceeds its item bound")
      else unique_strings maximum_chars nonempty ∅ values
  end.

Definition expect_token (value : Value) (maximum : N) : Res unit := expect_identifier value maximum.

Definition expect_nullable_token (value : Value) (maximum : N) : Res unit :=
  expect_nullable_identifier value maximum.

Definition expect_safe_identifier (value : Value) : Res unit := expect_identifier value 256.

Definition expect_safe_identifier_array (value : Value) (maximum_items : N) : Res unit :=
  match as_array value with
  | None => Err (invalid_details "action collection must be an array")
  | Some values =>
      if (maximum_items <? len values)%N
      then Err (invalid_details "action collection exceeds its item bound")
      else for_each expect_safe_identifier values
  end.

Definition expect_one_of (value : Value) (allowed : list string) : Res unit :=
  ensure (is_some_and (as_str value) (λ value, matches value allowed))
         (invalid_details "detail value is not an allowed enum member").

Definition is_upper (c : ascii) : bool :=
  let n := Ascii.N_of_ascii c in ((65 <=? n) && (n <=? 90))%N.

Definition reason_byte (c : ascii) : bool := is_upper c || is_digit c || bool_decide (c = "_"%char).

(** [value.bytes().enumerate().all(..)]: the first byte is uppercase, every byte a reason byte. *)
Definition reason_bytes (value : string) : bool :=
  match value with String c _ => is_upper c | EmptyString => true end && string_forallb reason_byte value.

Definition expect_reason_code (value : Value) : Res unit :=
  match as_str value with
  | None => Err (invalid_details "reason code must be a string")
  | Some value =>
      if (byte_len value =? 0) || (128 <? byte_len value) || negb (reason_bytes value)
      then Err (invalid_details "reason code has invalid syntax") else Ok ()
  end.

Definition expect_digest (value : Value) : Res unit :=
  ensure (is_some_and (as_str value) valid_hash) (invalid_details "digest detail must be lowercase sha256").

Definition expect_nullable_digest (value : Value) : Res unit := nullable value (expect_digest value).

Definition CERTAINTIES : list string :=
  ["NOT_STARTED"; "STARTED_NO_EFFECT"; "COMPLETED"; "FAILED_NO_EFFECT"; "FAILED_PARTIAL_EFFECT";
   "OUTCOME_UNKNOWN"].

Definition expect_certainty (value : Value) : Res unit := expect_one_of value CERTAINTIES.

Definition DURABILITY_STATES : list string := ["STAGED"; "DURABLE"; "ORPHANED"; "CORRUPT"; "MISSING"].

Definition expect_durability_state (value : Value) : Res unit := expect_one_of value DURABILITY_STATES.

Definition expect_nullable_durability_state (value : Value) : Res unit :=
  nullable value (expect_durability_state value).

(** Solve [NoDup] of a concrete list of names. *)
Ltac nodup := apply (bool_decide_unpack _); vm_compute; exact I.

(** Case analysis over a concrete list. *)
Ltac each_elem H :=
  repeat match type of H with
  | _ ∈ [] => by apply elem_of_nil in H
  | _ ∈ _ :: _ => apply elem_of_cons in H as [H|H]
  end.

(** ** Nested detail validators and the vocabulary *)

Section details.

Context `{!ProvenanceLib}.

Definition validate_timestamp (value : string) : Res unit :=
  ensure (rfc3339_parses value) (InvalidRecord "provenance timestamp is not RFC 3339").

Definition expect_timestamp (value : Value) : Res unit :=
  match as_str value with
  | None => Err (invalid_details "timestamp detail must be a string")
  | Some value => validate_timestamp value
  end.

Definition expect_nullable_timestamp (value : Value) : Res unit := nullable value (expect_timestamp value).

Definition validate_commitment (value : Value) (expected_field : string) (is_nullable : bool) : Res unit :=
  if is_null value then
    if is_nullable then Ok () else Err (invalid_details "required commitment is null")
  else
    object ← expect_exact_object value ["kind"; "version"; "algorithm"; "field"; "commitment"];
    if negb (bool_decide (assoc_get "kind" object ≫= as_str = Some "task-field-commitment")) ||
       negb (bool_decide (assoc_get "version" object ≫= as_str = Some "v1")) ||
       negb (bool_decide (assoc_get "algorithm" object ≫= as_str = Some "sha256-keyed-prefix")) ||
       negb (bool_decide (assoc_get "field" object ≫= as_str = Some expected_field))
    then Err (invalid_details "commitment profile or field is invalid")
    else expect_digest (member object "commitment").

Definition validate_principal (value : Value) : Res unit :=
  object ← expect_exact_object value ["kind"; "id"];
  expect_one_of (member object "kind") ["user"; "system-service"] ≫= λ _,
  expect_task_string (member object "id") 256 true.

Definition validate_task_creation_constraints (value : Value) : Res unit :=
  if is_null value then Ok () else
  fields ← expect_object_keys value ["privacy"; "max_cost_microunits"; "deadline"; "preserve_inputs"];
  for_each (λ '(key, value),
    if String.eqb key "privacy" then expect_one_of value ["local-only"; "local-first"; "remote-allowed"]
    else if String.eqb key "max_cost_microunits" then nullable value (expect_integer value 0 None)
    else if String.eqb key "deadline" then expect_nullable_timestamp value
    else (* preserve_inputs: the keys were checked *) expect_bool value) fields.

Definition validate_creation_details (value : Value) : Res unit :=
  object ← expect_exact_object value
    ["principal"; "workspace_id"; "original_intent_ref"; "normalized_intent_ref"; "constraints"; "created_at"];
  for_each (λ '(key, value),
    if String.eqb key "principal" then validate_principal value
    else if String.eqb key "workspace_id" then expect_nullable_task_string value 256
    else if String.eqb key "original_intent_ref" then validate_commitment value "original_intent" false
    else if String.eqb key "normalized_intent_ref" then validate_commitment value "normalized_intent" true
    else if String.eqb key "constraints" then validate_task_creation_constraints value
    else (* created_at: the keys were checked *) expect_timestamp value) object.

Definition validate_active_program (value : Value) : Res unit :=
  if is_null value then Ok () else
  object ← expect_exact_object value
    ["program_id"; "ir_version"; "semantic_hash"; "registry_snapshot_id"; "validation_result_id";
     "validated_at"; "validator_id"; "validator_version"; "program_content_digest"];
  expect_identifier (member object "program_id") 256 ≫= λ _,
  expect_token (member object "ir_version") 256 ≫= λ _,
  expect_digest (member object "semantic_hash") ≫= λ _,
  expect_identifier (member object "registry_snapshot_id") 256 ≫= λ _,
  expect_nullable_identifier (member object "validation_result_id") 256 ≫= λ _,
  expect_nullable_timestamp (member object "validated_at") ≫= λ _,
  expect_nullable_identifier (member object "validator_id") 256 ≫= λ _,
  expect_nullable_token (member object "validator_version") 256 ≫= λ _,
  expect_digest (member object "program_content_digest").

Definition validate_waiting_on (value : Value) (with_commitments : bool) : Res unit :=
  if is_null value && with_commitments then Ok () else
  match as_array value with
  | None => Err (invalid_details "waiting_on must be an array")
  | Some values =>
      if (64 <? len values)%N then Err (invalid_details "waiting_on exceeds its item bound")
      else
        for_each (λ value,
          object ← expect_exact_object value
            (if with_commitments then ["kind"; "id"; "message_ref"] else ["kind"; "id"]);
          expect_one_of (member object "kind") ["input"; "approval"; "resource"; "provider"; "validation"] ≫= λ _,
          expect_task_string (member object "id") 256 true ≫= λ _,
          if with_commitments then validate_commitment (member object "message_ref") "waiting_message" true
          else Ok ()) values
  end.

Definition validate_mutation_commitments (value : Value) : Res unit :=
  object ← expect_exact_object value ["waiting_on"; "failure_summary"];
  validate_waiting_on (member object "waiting_on") true ≫= λ _,
  validate_commitment (member object "failure_summary") "failure_summary" true.

Definition validate_export_reconciliation (value : Value) : Res unit :=
  object ← expect_exact_object value
    ["verifier_id"; "evidence_ref"; "proof_hash"; "challenge"; "observed_at"; "subject_hash"; "recovery_ref"];
  expect_artifact_identifier (member object "verifier_id") ≫= λ _,
  expect_artifact_identifier (member object "evidence_ref") ≫= λ _,
  expect_digest (member object "proof_hash") ≫= λ _,
  expect_identifier (member object "challenge") 256 ≫= λ _,
  expect_timestamp (member object "observed_at") ≫= λ _,
  expect_digest (member object "subject_hash") ≫= λ _,
  expect_identifier (member object "recovery_ref") 256.

Definition validate_exact_export_authority (value : Value) : Res unit :=
  object ← expect_exact_object value
    ["selector"; "service_id"; "destination_class"; "descriptor_hash"; "adapter_id"; "operation_id";
     "source_artifact_id"; "source_content_hash"; "purpose"; "sensitivity"; "max_size_bytes"];
  expect_identifier (member object "selector") 512 ≫= λ _,
  expect_identifier (member object "service_id") 512 ≫= λ _,
  if negb (is_some_and (as_str (member object "service_id")) (starts_with "service://"))
  then Err (invalid_details "export service identity is invalid") else
  expect_identifier (member object "destination_class") 128 ≫= λ _,
  expect_digest (member object "descriptor_hash") ≫= λ _,
  expect_identifier (member object "adapter_id") 256 ≫= λ _,
  expect_artifact_identifier (member object "operation_id") ≫= λ _,
  expect_artifact_identifier (member object "source_artifact_id") ≫= λ _,
  expect_digest (member object "source_content_hash") ≫= λ _,
  expect_task_string (member object "purpose") 256 true ≫= λ _,
  expect_one_of (member object "sensitivity") ["public"; "local"; "private"; "confidential"; "secret"] ≫= λ _,
  expect_integer (member object "max_size_bytes") 1 (Some (8 * 1024 * 1024)%N).

Definition SAFE_ACTIONS : list string :=
  ["CREATE_NEW_ATTEMPT"; "RECONCILE_STATE"; "MARK_ATTEMPT_FAILED"; "REQUIRE_EXTERNAL_RECONCILIATION";
   "FAIL_TASK"; "NO_ACTION"; "CLEAN_STAGING"].

Definition PHASES : list string := ["admitted"; "delivered"; "pre-destination-admission"; "effect-boundary-armed"].

Definition allowed_detail_key (event_type key : string) : bool :=
  if matches event_type ["task.created"] then
    matches key ["revision"; "creation"; "active_plan"; "active_step_ids"; "waiting_on"; "failure"; "recovery";
                 "fixture"]
  else if matches event_type ["task.transitioned"] then
    matches key ["related_ids"; "reason_message_ref"; "active_program"; "mutation_text_commitments"]
  else if matches event_type ["authorization.granted"] then matches key ["actions"; "resource"; "resources"]
  else if matches event_type ["plan.created"; "plan.revised"] then matches key ["plan_id"; "revision"]
  else if matches event_type ["provider.selected"; "placement.selected"] then
    matches key ["locality"; "isolation_class"]
  else if matches event_type ["execution.started"] then
    matches key ["attempt_id"; "binding_id"; "node_id"; "operation_id"; "phase"; "intent_hash";
                 "admission_event_id"; "admission_event_hash"; "execution_profile"]
  else if matches event_type ["execution.completed"; "execution.failed"] then
    matches key ["operation_id"; "outcome_certainty"; "effect_boundary"; "certainty"; "export_reconciliation";
                 "recovery_ref"; "inventory_id"; "safe_action"; "reason_code"; "phase"; "admission_event_id";
                 "admission_event_hash"; "attempt"; "duration_ms"]
  else if matches event_type ["artifact.imported"] then
    matches key ["content_hash"; "size_bytes"; "blob_reused"; "import_id"; "request_digest"; "source"]
  else if matches event_type ["artifact.created"] then
    matches key ["allocation_id"; "publication_id"; "content_hash"; "size_bytes"; "blob_reused"; "type"]
  else if matches event_type ["artifact.exported"] then
    matches key ["operation_id"; "size_bytes"; "export_authority"]
  else if matches event_type ["artifact.integrity-failed"] then
    matches key ["content_hash"; "observation_ordinal"; "previous_durability_state"; "durability_state";
                 "publication_id"; "allocation_id"; "request_digest"; "reason_code"; "resulted_at"]
  else if matches event_type ["verification.started"; "verification.completed"; "verification.failed"] then
    matches key ["index"; "verified_claims"; "failed_claims"]
  else if matches event_type ["task.completed"] then matches key ["revision"; "external_egress"; "verified"]
  else false.

Definition validate_detail_value (event_type key : string) (value : Value) : Res unit :=
  let arm types keys := matches event_type types && matches key keys in
  if arm ["task.created"] ["revision"] then expect_integer value 1 (Some 1%N)
  else if arm ["task.created"] ["creation"] then validate_creation_details value
  else if arm ["task.created"] ["active_plan"] then expect_null value
  else if arm ["task.created"] ["active_step_ids"] then expect_task_string_array value 512 128 true
  else if arm ["task.created"] ["waiting_on"] then validate_waiting_on value false
  else if arm ["task.created"] ["failure"; "recovery"] then expect_null value
  else if arm ["task.created"] ["fixture"] then expect_bool value
  else if arm ["task.transitioned"] ["related_ids"] then expect_task_string_array value 32 512 false
  else if arm ["task.transitioned"] ["reason_message_ref"] then validate_commitment value "reason_message" true
  else if arm ["task.transitioned"] ["active_program"] then validate_active_program value
  else if arm ["task.transitioned"] ["mutation_text_commitments"] then validate_mutation_commitments value
  else if arm ["authorization.granted"] ["actions"] then expect_safe_identifier_array value 64
  else if arm ["authorization.granted"] ["resource"] then expect_safe_identifier value
  else if arm ["authorization.granted"] ["resources"] then expect_safe_identifier_array value 64
  else if arm ["plan.created"; "plan.revised"] ["plan_id"] then expect_task_string value 256 true
  else if arm ["plan.created"; "plan.revised"] ["revision"] then expect_integer value 1 None
  else if arm ["provider.selected"; "placement.selected"] ["locality"] then
    expect_one_of value ["local"; "remote"; "peer"; "cloud"]
  else if arm ["provider.selected"; "placement.selected"] ["isolation_class"] then
    expect_one_of value ["P0"; "P1"; "P2"; "P3"]
  else if arm ["execution.started"] ["attempt_id"; "binding_id"] then expect_task_string value 256 true
  else if arm ["execution.started"] ["node_id"] then expect_task_string value 128 true
  else if arm ["execution.started"; "execution.completed"; "execution.failed"] ["operation_id"] then
    expect_artifact_identifier value
  else if arm ["execution.started"; "execution.completed"; "execution.failed"] ["phase"] then
    expect_one_of value PHASES
  else if arm ["execution.started"] ["intent_hash"] then expect_digest value
  else if arm ["execution.started"; "execution.completed"; "execution.failed"] ["admission_event_id"] then
    expect_nullable_identifier value 256
  else if arm ["execution.started"; "execution.completed"; "execution.failed"] ["admission_event_hash"] then
    expect_nullable_digest value
  else if arm ["execution.started"] ["execution_profile"] then expect_identifier value 256
  else if arm ["execution.completed"; "execution.failed"] ["outcome_certainty"] then expect_certainty value
  else if arm ["execution.completed"; "execution.failed"] ["effect_boundary"] then
    expect_one_of value ["destination-not-invoked"]
  else if arm ["execution.completed"; "execution.failed"] ["certainty"] then expect_certainty value
  else if arm ["execution.completed"; "execution.failed"] ["export_reconciliation"] then
    validate_export_reconciliation value
  else if arm ["execution.completed"; "execution.failed"] ["recovery_ref"] then expect_identifier value 256
  else if arm ["execution.completed"; "execution.failed"] ["inventory_id"] then expect_task_string value 276 true
  else if arm ["execution.completed"; "execution.failed"] ["safe_action"] then expect_one_of value SAFE_ACTIONS
  else if arm ["execution.completed"; "execution.failed"] ["reason_code"] then expect_reason_code value
  else if arm ["execution.completed"; "execution.failed"] ["attempt"] then expect_integer value 1 None
  else if arm ["execution.completed"; "execution.failed"] ["duration_ms"] then expect_integer value 0 None
  else if arm ["artifact.imported"; "artifact.created"; "artifact.integrity-failed"] ["content_hash"] then
    expect_digest value
  else if arm ["artifact.imported"; "artifact.created"; "artifact.exported"] ["size_bytes"] then
    expect_integer value 0 None
  else if arm ["artifact.imported"; "artifact.created"] ["blob_reused"] then expect_bool value
  else if arm ["artifact.imported"] ["import_id"] then expect_nullable_artifact_identifier value
  else if arm ["artifact.imported"; "artifact.integrity-failed"] ["request_digest"] then expect_digest value
  else if arm ["artifact.imported"] ["source"] then expect_one_of value ["user-selected"]
  else if arm ["artifact.created"; "artifact.integrity-failed"] ["allocation_id"] then
    expect_artifact_identifier value
  else if arm ["artifact.created"; "artifact.integrity-failed"] ["publication_id"] then
    expect_artifact_identifier value
  else if arm ["artifact.created"] ["type"] then expect_token value 256
  else if arm ["artifact.exported"] ["operation_id"] then expect_artifact_identifier value
  else if arm ["artifact.exported"] ["export_authority"] then validate_exact_export_authority value
  else if arm ["artifact.integrity-failed"] ["observation_ordinal"] then expect_integer value 1 None
  else if arm ["artifact.integrity-failed"] ["previous_durability_state"] then
    expect_nullable_durability_state value
  else if arm ["artifact.integrity-failed"] ["durability_state"] then expect_durability_state value
  else if arm ["artifact.integrity-failed"] ["reason_code"] then expect_reason_code value
  else if arm ["artifact.integrity-failed"] ["resulted_at"] then expect_timestamp value
  else if arm ["verification.started"; "verification.completed"; "verification.failed"] ["index"] then
    expect_integer value 1 None
  else if arm ["verification.started"; "verification.completed"; "verification.failed"]
              ["verified_claims"; "failed_claims"] then expect_integer value 0 None
  else if arm ["task.completed"] ["revision"] then expect_integer value 1 None
  else if arm ["task.completed"] ["external_egress"; "verified"] then expect_bool value
  else Err (invalid_details "detail field has no typed value contract").

Definition CREATION_MEMBERS : list string :=
  ["revision"; "creation"; "active_plan"; "active_step_ids"; "waiting_on"; "failure"; "recovery"].

Definition validate_details_vocabulary (event : Value) : Res unit :=
  match value_get "details" event with
  | None => Ok ()
  | Some details =>
      match as_object details with
      | None => Err (InvalidRecord "provenance details must be an object")
      | Some details =>
          let event_type := default "" (string_field event "event_type") in
          for_each (λ '(key, value),
            if negb (allowed_detail_key event_type key)
            then Err (InvalidRecord ("provenance details field `" +++ key +++
                                     "` is not in the privacy-safe vocabulary"))
            else validate_detail_value event_type key value) details ≫= λ _,
          if String.eqb event_type "task.created" &&
             existsb (λ key, negb (contains_key key details)) CREATION_MEMBERS
          then Err (invalid_details "task.created is missing its typed creation projection") else Ok ()
      end
  end.

(** ** The type language of details *)

Inductive DetailType :=
  | TInteger (minimum maximum : N)
  | TBool
  | TNull
  | TEnum (members : list string)
  | TIdentifier (maximum : N)
  | TText (minimum maximum : N)
  | TArtifactId
  | TService
  | TDigest
  | TTimestamp
  | TReasonCode
  | TOptional (t : DetailType)
  | TList (maximum : N) (t : DetailType)
  | TSet (maximum : N) (t : DetailType)
  | TRecord (fields : list (string * DetailType))
  | TPartial (fields : list (string * DetailType)).

Definition identifier (maximum : N) (s : string) : Prop :=
  (0 < count s ≤ maximum)%N ∧ ∀ c, c ∈ chars s → is_whitespace c = false.

(** [sha256:] and 64 lowercase hexadecimal digits. *)
Definition digest (s : string) : Prop :=
  ∃ d, s = "sha256:" +++ d ∧ byte_len d = 64 ∧ string_forallb hash_byte d = true.

Fixpoint has_type (t : DetailType) (v : Value) : Prop :=
  match t with
  | TInteger minimum maximum => ∃ n, v = Num (PosInt n) ∧ (minimum ≤ n ≤ maximum)%N
  | TBool => ∃ b, v = Bool b
  | TNull => v = Null
  | TEnum members => ∃ s, v = Str s ∧ s ∈ members
  | TIdentifier maximum => ∃ s, v = Str s ∧ identifier maximum s
  | TText minimum maximum => ∃ s, v = Str s ∧ (minimum ≤ count s ≤ maximum)%N
  | TArtifactId => ∃ s, v = Str s ∧ (1 ≤ count s ≤ 256)%N ∧ ∀ c, c ∈ chars s → is_control c = false
  | TService => ∃ s, v = Str s ∧ identifier 512 s ∧ ∃ r, s = "service://" +++ r
  | TDigest => ∃ s, v = Str s ∧ digest s
  | TTimestamp => ∃ s, v = Str s ∧ rfc3339_parses s = true
  | TReasonCode => ∃ c s, v = Str (String c s) ∧ is_upper c = true ∧
      string_forallb reason_byte (String c s) = true ∧ byte_len (String c s) ≤ 128
  | TOptional t => v = Null ∨ has_type t v
  | TList maximum t => ∃ vs, v = Array vs ∧ (len vs ≤ maximum)%N ∧ ∀ v, v ∈ vs → has_type t v
  | TSet maximum t => ∃ vs, v = Array vs ∧ (len vs ≤ maximum)%N ∧ NoDup vs ∧ ∀ v, v ∈ vs → has_type t v
  | TRecord fields => ∃ ms, v = Object ms ∧ ms.*1 ≡ₚ fields.*1 ∧
      foldr (λ '(k, t) P, has_type t (member ms k) ∧ P) True fields
  | TPartial fields => ∃ ms, v = Object ms ∧ (∀ k, k ∈ ms.*1 → k ∈ fields.*1) ∧
      foldr (λ '(k, t) P, (∀ v, (k, v) ∈ ms → has_type t v) ∧ P) True fields
  end.

Definition TSafeInteger (minimum : N) : DetailType := TInteger minimum MAX_SAFE_JSON_INTEGER.

Definition TCommitment (field : string) : DetailType :=
  TRecord [("kind", TEnum ["task-field-commitment"]); ("version", TEnum ["v1"]);
           ("algorithm", TEnum ["sha256-keyed-prefix"]); ("field", TEnum [field]); ("commitment", TDigest)].

Definition TPrincipal : DetailType :=
  TRecord [("kind", TEnum ["user"; "system-service"]); ("id", TText 1 256)].

Definition TConstraints : DetailType :=
  TOptional (TPartial [("privacy", TEnum ["local-only"; "local-first"; "remote-allowed"]);
                       ("max_cost_microunits", TOptional (TSafeInteger 0));
                       ("deadline", TOptional TTimestamp); ("preserve_inputs", TBool)]).

Definition TCreation : DetailType :=
  TRecord [("principal", TPrincipal); ("workspace_id", TOptional (TText 1 256));
           ("original_intent_ref", TCommitment "original_intent");
           ("normalized_intent_ref", TOptional (TCommitment "normalized_intent"));
           ("constraints", TConstraints); ("created_at", TTimestamp)].

Definition TActiveProgram : DetailType :=
  TOptional (TRecord
    [("program_id", TIdentifier 256); ("ir_version", TIdentifier 256); ("semantic_hash", TDigest);
     ("registry_snapshot_id", TIdentifier 256); ("validation_result_id", TOptional (TIdentifier 256));
     ("validated_at", TOptional TTimestamp); ("validator_id", TOptional (TIdentifier 256));
     ("validator_version", TOptional (TIdentifier 256)); ("program_content_digest", TDigest)]).

Definition TWaitingKind : DetailType := TEnum ["input"; "approval"; "resource"; "provider"; "validation"].

Definition TWaiting : DetailType := TList 64 (TRecord [("kind", TWaitingKind); ("id", TText 1 256)]).

Definition TWaitingMessages : DetailType :=
  TOptional (TList 64 (TRecord [("kind", TWaitingKind); ("id", TText 1 256);
                                ("message_ref", TOptional (TCommitment "waiting_message"))])).

Definition TMutationCommitments : DetailType :=
  TRecord [("waiting_on", TWaitingMessages); ("failure_summary", TOptional (TCommitment "failure_summary"))].

Definition TExportReconciliation : DetailType :=
  TRecord [("verifier_id", TArtifactId); ("evidence_ref", TArtifactId); ("proof_hash", TDigest);
           ("challenge", TIdentifier 256); ("observed_at", TTimestamp); ("subject_hash", TDigest);
           ("recovery_ref", TIdentifier 256)].

Definition TExportAuthority : DetailType :=
  TRecord [("selector", TIdentifier 512); ("service_id", TService); ("destination_class", TIdentifier 128);
           ("descriptor_hash", TDigest); ("adapter_id", TIdentifier 256); ("operation_id", TArtifactId);
           ("source_artifact_id", TArtifactId); ("source_content_hash", TDigest); ("purpose", TText 1 256);
           ("sensitivity", TEnum ["public"; "local"; "private"; "confidential"; "secret"]);
           ("max_size_bytes", TInteger 1 8388608)].

(** The typed members of the details of an event, by event type. *)
Definition execution_outcome_members : list (string * DetailType) :=
  [("operation_id", TArtifactId); ("outcome_certainty", TEnum CERTAINTIES);
   ("effect_boundary", TEnum ["destination-not-invoked"]); ("certainty", TEnum CERTAINTIES);
   ("export_reconciliation", TExportReconciliation); ("recovery_ref", TIdentifier 256);
   ("inventory_id", TText 1 276); ("safe_action", TEnum SAFE_ACTIONS); ("reason_code", TReasonCode);
   ("phase", TEnum PHASES); ("admission_event_id", TOptional (TIdentifier 256));
   ("admission_event_hash", TOptional TDigest); ("attempt", TSafeInteger 1); ("duration_ms", TSafeInteger 0)].

Definition verification_members : list (string * DetailType) :=
  [("index", TSafeInteger 1); ("verified_claims", TSafeInteger 0); ("failed_claims", TSafeInteger 0)].

Definition placement_members : list (string * DetailType) :=
  [("locality", TEnum ["local"; "remote"; "peer"; "cloud"]); ("isolation_class", TEnum ["P0"; "P1"; "P2"; "P3"])].

Definition plan_members : list (string * DetailType) := [("plan_id", TText 1 256); ("revision", TSafeInteger 1)].

Definition detail_members : list (string * list (string * DetailType)) :=
  [("task.created",
    [("revision", TInteger 1 1); ("creation", TCreation); ("active_plan", TNull);
     ("active_step_ids", TSet 512 (TText 1 128)); ("waiting_on", TWaiting); ("failure", TNull);
     ("recovery", TNull); ("fixture", TBool)]);
   ("task.transitioned",
    [("related_ids", TSet 32 (TText 0 512)); ("reason_message_ref", TOptional (TCommitment "reason_message"));
     ("active_program", TActiveProgram); ("mutation_text_commitments", TMutationCommitments)]);
   ("authorization.granted",
    [("actions", TList 64 (TIdentifier 256)); ("resource", TIdentifier 256);
     ("resources", TList 64 (TIdentifier 256))]);
   ("plan.created", plan_members); ("plan.revised", plan_members);
   ("provider.selected", placement_members); ("placement.selected", placement_members);
   ("execution.started",
    [("attempt_id", TText 1 256); ("binding_id", TText 1 256); ("node_id", TText 1 128);
     ("operation_id", TArtifactId); ("phase", TEnum PHASES); ("intent_hash", TDigest);
     ("admission_event_id", TOptional (TIdentifier 256)); ("admission_event_hash", TOptional TDigest);
     ("execution_profile", TIdentifier 256)]);
   ("execution.completed", execution_outcome_members); ("execution.failed", execution_outcome_members);
   ("artifact.imported",
    [("content_hash", TDigest); ("size_bytes", TSafeInteger 0); ("blob_reused", TBool);
     ("import_id", TOptional TArtifactId); ("request_digest", TDigest); ("source", TEnum ["user-selected"])]);
   ("artifact.created",
    [("allocation_id", TArtifactId); ("publication_id", TArtifactId); ("content_hash", TDigest);
     ("size_bytes", TSafeInteger 0); ("blob_reused", TBool); ("type", TIdentifier 256)]);
   ("artifact.exported",
    [("operation_id", TArtifactId); ("size_bytes", TSafeInteger 0); ("export_authority", TExportAuthority)]);
   ("artifact.integrity-failed",
    [("content_hash", TDigest); ("observation_ordinal", TSafeInteger 1);
     ("previous_durability_state", TOptional (TEnum DURABILITY_STATES));
     ("durability_state", TEnum DURABILITY_STATES); ("publication_id", TArtifactId);
     ("allocation_id", TArtifactId); ("request_digest", TDigest); ("reason_code", TReasonCode);
     ("resulted_at", TTimestamp)]);
   ("verification.started", verification_members); ("verification.completed", verification_members);
   ("verification.failed", verification_members);
   ("task.completed", [("revision", TSafeInteger 1); ("external_egress", TBool); ("verified", TBool)])].

Definition detail_type (event_type key : string) : option DetailType :=
  assoc_get event_type detail_members ≫= assoc_get key.

(** ** Lemmas on results *)

Lemma ensure_ok {E} c (e : E) : ensure c e = Ok () ↔ c = true.
Proof. destruct c; simpl; naive_solver. Qed.

Lemma for_each_ok {E A} (f : A → result E unit) l : for_each f l = Ok () ↔ ∀ x, x ∈ l → f x = Ok ().
Proof.
  induction l as [|x l IH]; simpl; [by rewrite forall_elem_of_nil|].
  rewrite forall_elem_of_cons, <-IH. destruct (f x) as [[]|]; naive_solver.
Qed.

Lemma matches_true s l : matches s l = true ↔ s ∈ l.
Proof. apply bool_decide_eq_true. Qed.

(** ** Each field validator decides its type *)

Lemma as_str_Some v s : as_str v = Some s ↔ v = Str s.
Proof. destruct v; simpl; naive_solver. Qed.

Lemma is_null_true v : is_null v = true ↔ v = Null.
Proof. destruct v; simpl; naive_solver. Qed.

Lemma valid_hash_digest s : valid_hash s = true ↔ digest s.
Proof.
  unfold valid_hash, digest, starts_with. rewrite !andb_true_iff, Nat.eqb_eq. split.
  - intros [[Hl Hp] Hd]. destruct (strip_prefix "sha256:" s) as [d|] eqn:E; [|done].
    apply strip_prefix_Some in E. subst s. exists d. split_and!; [done| |done].
    rewrite byte_len_append in Hl. change (byte_len "sha256:") with 7 in Hl. lia.
  - intros (d & -> & Hl & Hd). assert (strip_prefix "sha256:" ("sha256:" +++ d) = Some d) as ->
      by by apply strip_prefix_Some. split_and!; [|done|done].
    rewrite byte_len_append, Hl. done.
Qed.

Lemma expect_integer_safe v n : expect_integer v n None = Ok () ↔ has_type (TSafeInteger n) v.
Proof.
  unfold expect_integer. rewrite ensure_ok, is_some_and_spec. simpl. split.
  - intros (m & Hm & Hb). rewrite !andb_true_iff, !N.leb_le in Hb. destruct v as [| |[]| | |]; simplify_eq/=. eexists. split; [done|]. lia.
  - intros (m & -> & Hm). exists m. split; [done|]. rewrite !andb_true_iff, !N.leb_le. lia.
Qed.

Lemma expect_integer_bounded v n m : (m ≤ MAX_SAFE_JSON_INTEGER)%N →
  expect_integer v n (Some m) = Ok () ↔ has_type (TInteger n m) v.
Proof.
  intros Hmax. unfold expect_integer. rewrite ensure_ok, is_some_and_spec. simpl. split.
  - intros (k & Hk & Hb). rewrite !andb_true_iff, !N.leb_le in Hb. destruct v as [| |[]| | |]; simplify_eq/=. eexists. split; [done|]. lia.
  - intros (k & -> & Hk). exists k. split; [done|]. rewrite !andb_true_iff, !N.leb_le. lia.
Qed.

Lemma expect_bool_typed v : expect_bool v = Ok () ↔ has_type TBool v.
Proof. unfold expect_bool. rewrite ensure_ok. destruct v; simpl; naive_solver. Qed.

Lemma expect_null_typed v : expect_null v = Ok () ↔ has_type TNull v.
Proof. unfold expect_null. rewrite ensure_ok. destruct v; simpl; naive_solver. Qed.

Lemma expect_one_of_typed v l : expect_one_of v l = Ok () ↔ has_type (TEnum l) v.
Proof.
  unfold expect_one_of. rewrite ensure_ok, is_some_and_spec. simpl.
  setoid_rewrite as_str_Some. by setoid_rewrite matches_true.
Qed.

Lemma expect_identifier_typed v n : expect_identifier v n = Ok () ↔ has_type (TIdentifier n) v.
Proof.
  unfold expect_identifier. destruct v as [| | |s| |]; simpl; try naive_solver.
  rewrite if_err_ok, !orb_false_iff, N.eqb_neq, N.ltb_ge, existsb_false. unfold identifier. split.
  - intros [[[??]?] _]. exists s. split_and!; [done|lia|done|done].
  - intros (? & [= <-] & ? & ?). split_and!; [lia|lia|done|done].
Qed.

Lemma expect_task_string_typed v n (nonempty : bool) :
  expect_task_string v n nonempty = Ok () ↔ has_type (TText (if nonempty then 1 else 0) n) v.
Proof.
  unfold expect_task_string. destruct v as [| | |s| |]; simpl; try naive_solver.
  rewrite if_err_ok, !orb_false_iff, N.ltb_ge, andb_false_iff, N.eqb_neq. split.
  - intros [[? Hn] _]. exists s. split_and!; [done| |done]. destruct nonempty; [|lia]. destruct Hn; [done|lia].
  - intros (? & [= <-] & Hn & ?). split_and!; [done| |done]. destruct nonempty; [right; lia|by left].
Qed.

Lemma expect_artifact_identifier_typed v : expect_artifact_identifier v = Ok () ↔ has_type TArtifactId v.
Proof.
  unfold expect_artifact_identifier. rewrite result_seq_ok, if_err_ok, expect_task_string_typed. simpl. split.
  - intros [(s & -> & Hs) [Hc _]]. exists s. simpl in Hc. rewrite existsb_false in Hc. done.
  - intros (s & -> & Hs & Hc). simpl. rewrite existsb_false. eauto 10.
Qed.

Lemma expect_digest_typed v : expect_digest v = Ok () ↔ has_type TDigest v.
Proof.
  unfold expect_digest. rewrite ensure_ok, is_some_and_spec. simpl.
  setoid_rewrite as_str_Some. by setoid_rewrite valid_hash_digest.
Qed.

Lemma expect_reason_code_typed v : expect_reason_code v = Ok () ↔ has_type TReasonCode v.
Proof.
  unfold expect_reason_code. destruct v as [| | |s| |]; simpl; try naive_solver.
  rewrite if_err_ok, !orb_false_iff, Nat.eqb_neq, Nat.ltb_ge, negb_false_iff. unfold reason_bytes.
  rewrite andb_true_iff. split.
  - intros [[[Hne Hl] [Hu Hb]] _]. destruct s as [|c s]; [done|]. by exists c, s.
  - intros (c & s' & [= ->] & Hu & Hb & Hl). done.
Qed.

Lemma expect_timestamp_typed v : expect_timestamp v = Ok () ↔ has_type TTimestamp v.
Proof.
  unfold expect_timestamp, validate_timestamp. destruct v; simpl; try naive_solver.
  rewrite ensure_ok. naive_solver.
Qed.

Lemma nullable_typed v r t : (r = Ok () ↔ has_type t v) → nullable v r = Ok () ↔ has_type (TOptional t) v.
Proof. unfold nullable. intros Hr. simpl. rewrite <-Hr, <-is_null_true. destruct (is_null v); naive_solver. Qed.

(** Strings that were validated and inserted one by one are distinct. *)
Lemma unique_strings_typed n (nonempty : bool) seen vs :
  unique_strings n nonempty seen vs = Ok () ↔
  NoDup vs ∧ (∀ v, v ∈ vs → has_type (TText (if nonempty then 1 else 0) n) v) ∧
  (∀ s, Str s ∈ vs → s ∉ seen).
Proof.
  revert seen. induction vs as [|v vs IH]; intros seen.
  { simpl. split; [|done]. intros _. split_and!; [constructor| |]; by intros ? ?%elem_of_nil. }
  cbn [unique_strings]. pose proof (expect_task_string_typed v n nonempty) as Ht.
  destruct (expect_task_string v n nonempty) as [[]|e].
  2: { split; [done|]. intros (_ & Hall & _). assert (@Err Error unit e = Ok ()) by (apply Ht, Hall; left). done. }
  destruct Ht as [Ht _]. specialize (Ht eq_refl). pose proof Ht as (s & -> & _). cbn [as_str].
  case_bool_decide as Hs.
  { split; [done|]. intros (_ & _ & Hd). destruct (Hd s); [left|done]. }
  rewrite IH, NoDup_cons, forall_elem_of_cons. setoid_rewrite elem_of_cons. setoid_rewrite not_elem_of_union.
  setoid_rewrite not_elem_of_singleton. split.
  - intros (Hnd & Hall & Hd). split_and!; [|done|done|done|].
    + intros Hin. by apply (Hd s) in Hin as [? _].
    + intros t [[= ->]|Hin]; [done|]. by apply Hd.
  - intros ([Hnin Hnd] & [_ Hall] & Hd). split_and!; [done|done|]. intros t Hin. split; [|by apply Hd; right].
    intros ->. done.
Qed.

Lemma expect_task_string_array_typed v items n (nonempty : bool) :
  expect_task_string_array v items n nonempty = Ok () ↔
  has_type (TSet items (TText (if nonempty then 1 else 0) n)) v.
Proof.
  unfold expect_task_string_array. destruct v as [| | | |vs|]; simpl; try naive_solver.
  rewrite if_err_ok, N.ltb_ge, unique_strings_typed. split.
  - intros (? & ? & ? & _). exists vs. done.
  - intros (? & [= <-] & ? & ? & ?). done.
Qed.

Lemma expect_safe_identifier_array_typed v items :
  expect_safe_identifier_array v items = Ok () ↔ has_type (TList items (TIdentifier 256)) v.
Proof.
  unfold expect_safe_identifier_array. destruct v as [| | | |vs|]; simpl; try naive_solver.
  rewrite if_err_ok, N.ltb_ge, for_each_ok. unfold expect_safe_identifier.
  setoid_rewrite expect_identifier_typed. simpl. naive_solver.
Qed.

(** ** Each nested validator decides its record type *)

Lemma contains_key_true {V} k (l : list (string * V)) : contains_key k l = true ↔ k ∈ l.*1.
Proof.
  unfold contains_key. induction l as [|[k' v] l IH]; csimpl.
  - rewrite elem_of_nil. done.
  - rewrite elem_of_cons, <-IH. case_bool_decide; naive_solver.
Qed.

Lemma expect_object_keys_ok v keys ms :
  expect_object_keys v keys = Ok ms ↔ v = Object ms ∧ ∀ k, k ∈ ms.*1 → k ∈ keys.
Proof.
  unfold expect_object_keys. destruct v as [| | | | |ms']; simpl; try naive_solver.
  rewrite if_err_ok, existsb_false. setoid_rewrite negb_false_iff. setoid_rewrite matches_true. split.
  - intros [Hk [= ->]]. split; [done|]. intros k ([k' w] & -> & Hin)%list_elem_of_fmap. exact (Hk _ Hin).
  - intros [[= ->] Hk]. split; [|done]. intros kv Hkv. by apply Hk, list_elem_of_fmap_2.
Qed.

Lemma expect_exact_object_ok v keys ms : NoDup keys →
  expect_exact_object v keys = Ok ms ↔ v = Object ms ∧ ms.*1 ≡ₚ keys.
Proof.
  intros Hnd. unfold expect_exact_object. rewrite result_bind_ok. setoid_rewrite expect_object_keys_ok.
  setoid_rewrite if_err_ok. setoid_rewrite orb_false_iff. setoid_rewrite existsb_false.
  setoid_rewrite negb_false_iff. setoid_rewrite contains_key_true. setoid_rewrite Nat.eqb_eq. split.
  - intros (ms' & [-> Hsub] & [Hlen Hall] & [= ->]). split; [done|].
    symmetry. apply submseteq_length_Permutation; [|rewrite length_fmap; lia].
    apply NoDup_submseteq; [done|]. exact Hall.
  - intros [-> Hp]. exists ms. split_and!; [done| | | |done].
    + intros k. by rewrite Hp.
    + by rewrite <-Hp, length_fmap.
    + intros k Hk. by rewrite Hp.
Qed.

(** The members of an object with distinct keys are its fields. *)
Lemma forall_members (P : string → Value → Prop) ms keys : NoDup keys → ms.*1 ≡ₚ keys →
  (∀ kv, kv ∈ ms → P kv.1 kv.2) ↔ (∀ k, k ∈ keys → P k (member ms k)).
Proof.
  intros Hnd Hp. assert (NoDup ms.*1) as Hms by by rewrite Hp. unfold member. split.
  - intros HP k Hk. rewrite <-Hp in Hk. apply list_elem_of_fmap in Hk as ([k' w] & -> & Hin). simpl.
    rewrite (assoc_get_NoDup k' w ms Hms Hin). exact (HP _ Hin).
  - intros HP [k w] Hin. specialize (HP k). rewrite (assoc_get_NoDup k w ms Hms Hin) in HP.
    apply HP. rewrite <-Hp. change k with ((k, w).1). by apply list_elem_of_fmap_2.
Qed.

(** A record validator decides a record type when the checks on its members decide the
    types of the fields. *)
Lemma record_typed v keys fields (check : list (string * Value) → Res unit) :
  NoDup keys → fields.*1 = keys →
  (∀ ms, ms.*1 ≡ₚ keys →
    check ms = Ok () ↔ foldr (λ '(k, t) P, has_type t (member ms k) ∧ P) True fields) →
  expect_exact_object v keys ≫= check = Ok () ↔ has_type (TRecord fields) v.
Proof.
  intros Hnd <- Hcheck. rewrite result_bind_ok. setoid_rewrite (expect_exact_object_ok _ _ _ Hnd). simpl.
  split.
  - intros (ms & [-> Hp] & Hc). exists ms. split_and!; [done|done|]. by apply Hcheck.
  - intros (ms & -> & Hp & Hf). exists ms. split; [done|]. by apply Hcheck.
Qed.

(** The same for a validator that loops over the members. *)
Lemma record_loop_typed v keys fields (check : string * Value → Res unit) :
  NoDup keys → fields.*1 = keys →
  Forall (λ kt, ∀ w, check (kt.1, w) = Ok () ↔ has_type kt.2 w) fields →
  expect_exact_object v keys ≫= for_each check = Ok () ↔ has_type (TRecord fields) v.
Proof.
  intros Hnd <- Hcheck. apply record_typed; [done..|]. intros ms Hp. rewrite for_each_ok.
  transitivity (∀ k, k ∈ fields.*1 → check (k, member ms k) = Ok ()).
  { rewrite <-(forall_members (λ k w, check (k, w) = Ok ()) ms _ Hnd Hp). split; intros Hk kv Hkv.
    - destruct kv. by apply Hk.
    - destruct kv. by apply (Hk _ Hkv). }
  clear Hnd Hp. induction Hcheck as [|[k t] fields Hk _ IH]; csimpl; [set_solver|].
  rewrite forall_elem_of_cons, IH. simpl in Hk. by rewrite Hk.
Qed.

Create Rewrite HintDb details.
#[local] Hint Rewrite @result_seq_ok @if_err_ok expect_integer_safe expect_bool_typed expect_null_typed
  expect_one_of_typed expect_identifier_typed expect_task_string_typed expect_artifact_identifier_typed
  expect_digest_typed expect_reason_code_typed expect_timestamp_typed : details.

Lemma enum_field ms key s : assoc_get key ms ≫= as_str = Some s ↔ has_type (TEnum [s]) (member ms key).
Proof.
  unfold member. simpl. destruct (assoc_get key ms) as [w|]; simpl; [|split; [done|by intros (?&?&?)]].
  rewrite as_str_Some. setoid_rewrite list_elem_of_singleton. naive_solver.
Qed.

Lemma commitment_typed v field :
  (object ← expect_exact_object v ["kind"; "version"; "algorithm"; "field"; "commitment"];
   if negb (bool_decide (assoc_get "kind" object ≫= as_str = Some "task-field-commitment")) ||
      negb (bool_decide (assoc_get "version" object ≫= as_str = Some "v1")) ||
      negb (bool_decide (assoc_get "algorithm" object ≫= as_str = Some "sha256-keyed-prefix")) ||
      negb (bool_decide (assoc_get "field" object ≫= as_str = Some field))
   then Err (invalid_details "commitment profile or field is invalid")
   else expect_digest (member object "commitment")) = Ok () ↔ has_type (TCommitment field) v.
Proof.
  apply record_typed; [nodup|done|]. intros ms _. rewrite if_err_ok, !orb_false_iff, !negb_false_iff,
    !bool_decide_eq_true, !enum_field, expect_digest_typed. cbn [foldr]. tauto.
Qed.

Lemma validate_commitment_optional v field :
  validate_commitment v field true = Ok () ↔ has_type (TOptional (TCommitment field)) v.
Proof. exact (nullable_typed v _ _ (commitment_typed v field)). Qed.

Lemma validate_commitment_required v field :
  validate_commitment v field false = Ok () ↔ has_type (TCommitment field) v.
Proof.
  rewrite <-commitment_typed. unfold validate_commitment. destruct v; done.
Qed.

#[local] Hint Rewrite validate_commitment_optional validate_commitment_required : details.

Lemma validate_principal_typed v : validate_principal v = Ok () ↔ has_type TPrincipal v.
Proof. apply record_typed; [nodup|done|]. intros ms _. autorewrite with details. cbn [foldr]. tauto. Qed.

Lemma expect_nullable_identifier_typed v n :
  expect_nullable_identifier v n = Ok () ↔ has_type (TOptional (TIdentifier n)) v.
Proof. apply nullable_typed, expect_identifier_typed. Qed.

Lemma expect_nullable_timestamp_typed v : expect_nullable_timestamp v = Ok () ↔ has_type (TOptional TTimestamp) v.
Proof. apply nullable_typed, expect_timestamp_typed. Qed.

#[local] Hint Rewrite expect_nullable_identifier_typed expect_nullable_timestamp_typed : details.

(** A validator that loops over the members of an open record. *)
Lemma partial_typed v keys fields (check : string * Value → Res unit) :
  fields.*1 = keys → NoDup keys →
  Forall (λ kt, ∀ w, check (kt.1, w) = Ok () ↔ has_type kt.2 w) fields →
  expect_object_keys v keys ≫= for_each check = Ok () ↔ has_type (TPartial fields) v.
Proof.
  intros <- Hnd Hcheck. rewrite result_bind_ok. setoid_rewrite expect_object_keys_ok.
  setoid_rewrite for_each_ok. simpl.
  assert (∀ ms : list (string * Value), foldr (λ '(k, t) P, (∀ v, (k, v) ∈ ms → has_type t v) ∧ P) True fields ↔
    ∀ k w, k ∈ fields.*1 → (k, w) ∈ ms → check (k, w) = Ok ()) as Hfold.
  { intros ms. clear Hnd. induction Hcheck as [|[k t] fields Hk _ IH]; csimpl; [set_solver|].
    rewrite IH. simpl in Hk. setoid_rewrite <-Hk. setoid_rewrite elem_of_cons. naive_solver. }
  split.
  - intros (ms & [-> Hsub] & Hc). exists ms. split_and!; [done|done|]. apply Hfold. naive_solver.
  - intros (ms & -> & Hsub & Hf). exists ms. split; [done|]. rewrite Hfold in Hf. intros [k w] Hin.
    apply Hf; [|done]. apply Hsub. change k with ((k, w).1). by apply list_elem_of_fmap_2.
Qed.

Lemma validate_task_creation_constraints_typed v :
  validate_task_creation_constraints v = Ok () ↔ has_type TConstraints v.
Proof.
  apply (nullable_typed v), partial_typed; [done|nodup|]. rewrite !Forall_cons; split_and!; [..|constructor]; intros w; cbn [fst snd];
    [apply expect_one_of_typed|apply nullable_typed, expect_integer_safe|apply expect_nullable_timestamp_typed|
     apply expect_bool_typed].
Qed.

Lemma validate_creation_details_typed v : validate_creation_details v = Ok () ↔ has_type TCreation v.
Proof.
  apply record_loop_typed; [nodup|done|]. rewrite !Forall_cons; split_and!; [..|constructor]; intros w; cbn [fst snd];
    [apply validate_principal_typed|apply nullable_typed, (expect_task_string_typed w 256 true)|
     apply validate_commitment_required|apply validate_commitment_optional|
     apply validate_task_creation_constraints_typed|apply expect_timestamp_typed].
Qed.

Lemma validate_active_program_typed v : validate_active_program v = Ok () ↔ has_type TActiveProgram v.
Proof.
  apply (nullable_typed v), record_typed; [nodup|done|]. intros ms _. unfold expect_token, expect_nullable_token.
  autorewrite with details. cbn [foldr]. tauto.
Qed.

(** The loop of [validate_waiting_on] over records [fields]. *)
Lemma list_typed (f : Value → Res unit) t n vs e :
  (∀ v, f v = Ok () ↔ has_type t v) →
  (if (n <? len vs)%N then Err e else for_each f vs) = Ok () ↔ has_type (TList n t) (Array vs).
Proof.
  intros Hf. rewrite if_err_ok, N.ltb_ge, for_each_ok. simpl. setoid_rewrite Hf. naive_solver.
Qed.

Lemma validate_waiting_on_plain v : validate_waiting_on v false = Ok () ↔ has_type TWaiting v.
Proof.
  unfold validate_waiting_on. rewrite andb_false_r.
  destruct v as [| | | |vs|]; cbn [as_array]; try (split; [done|by intros (?&?&_)]).
  apply list_typed. intros v. apply record_typed; [nodup|done|]. intros ms _. autorewrite with details.
  cbn [foldr]. tauto.
Qed.

Lemma validate_waiting_on_messages v : validate_waiting_on v true = Ok () ↔ has_type TWaitingMessages v.
Proof.
  unfold validate_waiting_on. rewrite andb_true_r. apply (nullable_typed v).
  destruct v as [| | | |vs|]; cbn [as_array]; try (split; [done|by intros (?&?&_)]).
  apply list_typed. intros v. apply record_typed; [nodup|done|]. intros ms _. autorewrite with details.
  cbn [foldr]. tauto.
Qed.

Lemma validate_mutation_commitments_typed v :
  validate_mutation_commitments v = Ok () ↔ has_type TMutationCommitments v.
Proof.
  apply record_typed; [nodup|done|]. intros ms _. autorewrite with details.
  rewrite validate_waiting_on_messages. cbn [foldr]. tauto.
Qed.

Lemma validate_export_reconciliation_typed v :
  validate_export_reconciliation v = Ok () ↔ has_type TExportReconciliation v.
Proof. apply record_typed; [nodup|done|]. intros ms _. autorewrite with details. cbn [foldr]. tauto. Qed.

Lemma service_typed v :
  has_type TService v ↔
  has_type (TIdentifier 512) v ∧ negb (is_some_and (as_str v) (starts_with "service://")) = false.
Proof.
  simpl. rewrite negb_false_iff, is_some_and_spec. setoid_rewrite as_str_Some. unfold starts_with. split.
  - intros (s & -> & Hi & r & ->). split; [eauto|]. eexists. split; [done|].
    assert (strip_prefix "service://" ("service://" +++ r) = Some r) as -> by by apply strip_prefix_Some. done.
  - intros [(s & -> & Hi) (? & [= <-] & Hp)]. exists s. split_and!; [done|done|].
    destruct (strip_prefix "service://" s) as [r|] eqn:E; [|done]. exists r. by apply strip_prefix_Some.
Qed.

Lemma validate_exact_export_authority_typed v :
  validate_exact_export_authority v = Ok () ↔ has_type TExportAuthority v.
Proof.
  apply record_typed; [nodup|done|]. intros ms _. autorewrite with details.
  rewrite (expect_integer_bounded _ 1 (8 * 1024 * 1024)) by done. cbn [foldr]. rewrite service_typed. tauto.
Qed.

(** ** The dispatch tables *)

Lemma detail_type_elem event_type key t : detail_type event_type key = Some t →
  ∃ members, (event_type, members) ∈ detail_members ∧ (key, t) ∈ members.
Proof.
  unfold detail_type. intros (members & He & Hk)%bind_Some. exists members. split; by apply assoc_get_elem_of.
Qed.

(** Evaluate the guards of the table on concrete names, up to the field validator. *)
Ltac eval_arms :=
  lazy -[expect_integer expect_bool expect_null expect_one_of expect_identifier expect_task_string
    expect_artifact_identifier expect_nullable_artifact_identifier expect_digest expect_nullable_digest
    expect_reason_code expect_timestamp validate_creation_details expect_task_string_array
    validate_waiting_on validate_commitment validate_active_program validate_mutation_commitments
    expect_safe_identifier_array expect_safe_identifier expect_nullable_identifier expect_token
    expect_certainty expect_durability_state expect_nullable_durability_state
    validate_export_reconciliation validate_exact_export_authority has_type iff
    TSafeInteger TCreation TWaiting TCommitment TActiveProgram TMutationCommitments CERTAINTIES
    DURABILITY_STATES SAFE_ACTIONS PHASES TExportReconciliation TExportAuthority].

Lemma expect_text_typed v n : expect_task_string v n true = Ok () ↔ has_type (TText 1 n) v.
Proof. exact (expect_task_string_typed v n true). Qed.

Lemma expect_text_set_typed v items n :
  expect_task_string_array v items n true = Ok () ↔ has_type (TSet items (TText 1 n)) v.
Proof. exact (expect_task_string_array_typed v items n true). Qed.

Lemma expect_any_text_set_typed v items n :
  expect_task_string_array v items n false = Ok () ↔ has_type (TSet items (TText 0 n)) v.
Proof. exact (expect_task_string_array_typed v items n false). Qed.

Lemma expect_one_typed v : expect_integer v 1 (Some 1%N) = Ok () ↔ has_type (TInteger 1 1) v.
Proof. by apply expect_integer_bounded. Qed.

Create HintDb details.
#[local] Hint Resolve expect_one_typed expect_integer_safe expect_bool_typed expect_null_typed expect_one_of_typed
  expect_identifier_typed expect_text_typed expect_artifact_identifier_typed
  expect_digest_typed expect_reason_code_typed expect_timestamp_typed validate_creation_details_typed
  expect_text_set_typed expect_any_text_set_typed
  validate_waiting_on_plain validate_commitment_optional validate_active_program_typed
  validate_mutation_commitments_typed expect_safe_identifier_array_typed expect_nullable_identifier_typed
  validate_export_reconciliation_typed validate_exact_export_authority_typed : details.

Lemma validate_detail_value_some event_type key t v : detail_type event_type key = Some t →
  validate_detail_value event_type key v = Ok () ↔ has_type t v.
Proof.
  intros (members & He & Hk)%detail_type_elem. unfold detail_members, plan_members, placement_members,
    execution_outcome_members, verification_members in He.
  each_elem He; injection He as -> ->; each_elem Hk; injection Hk as -> ->;
    eval_arms; auto with details;
    first [apply nullable_typed|apply expect_identifier_typed|apply expect_one_of_typed]; auto with details;
    apply expect_one_of_typed.
Qed.

(** The guards of a table fail on names without a type. *)
Ltac untyped_arm Hnone :=
  match goal with
  | |- context [if ?c then _ else _] => destruct c eqn:?
  end;
  [exfalso; breflect;
   repeat match goal with
   | H : matches _ _ = true |- _ => apply matches_true in H; each_elem H
   end; subst; vm_compute in Hnone; discriminate Hnone|].

Lemma validate_detail_value_none event_type key v : detail_type event_type key = None →
  validate_detail_value event_type key v = Err (invalid_details "detail field has no typed value contract").
Proof. intros Hnone. unfold validate_detail_value. repeat untyped_arm Hnone. done. Qed.

(** The dispatch of [validate_detail_value] accepts exactly the well-typed details: a member of an
    event of some type is accepted if and only if the vocabulary gives that name a type for that event type
    and the value has it, at every nesting level. *)
Lemma validate_detail_value_typed event_type key v :
  validate_detail_value event_type key v = Ok () ↔ ∃ t, detail_type event_type key = Some t ∧ has_type t v.
Proof.
  destruct (detail_type event_type key) as [t|] eqn:Ht.
  - rewrite (validate_detail_value_some _ _ _ _ Ht). naive_solver.
  - rewrite (validate_detail_value_none _ _ _ Ht). naive_solver.
Qed.

(** The separate table of allowed names lists exactly the typed ones, so no allowed member falls through
    the dispatch. *)
Lemma allowed_detail_key_typed event_type key :
  allowed_detail_key event_type key = true ↔ is_Some (detail_type event_type key).
Proof.
  destruct (detail_type event_type key) as [t|] eqn:Ht; split; [eauto| | |by intros []].
  - intros _. apply detail_type_elem in Ht as (members & He & Hk). unfold detail_members, plan_members,
      placement_members, execution_outcome_members, verification_members in He.
    each_elem He; injection He as -> ->; each_elem Hk; injection Hk as -> ->; reflexivity.
  - unfold allowed_detail_key. intros Hc.
    repeat match type of Hc with
    | (if ?c then _ else _) = true => destruct c eqn:?; [breflect|]
    end; [..|done];
    repeat match goal with
    | H : matches _ _ = true |- _ => apply matches_true in H; each_elem H
    end; subst; vm_compute in Ht; discriminate Ht.
Qed.

(** The details of an event are well typed: each member has the type the vocabulary gives it for the type
    of the event, and a [task.created] event has its seven creation members. *)
Definition well_typed_details (event : Value) : Prop :=
  let event_type := default "" (string_field event "event_type") in
  ∀ details, value_get "details" event = Some details →
    ∃ ms, details = Object ms ∧
      (∀ key v, (key, v) ∈ ms → ∃ t, detail_type event_type key = Some t ∧ has_type t v) ∧
      (event_type = "task.created" → ∀ key, key ∈ CREATION_MEMBERS → key ∈ ms.*1).

Lemma validate_details_vocabulary_spec event :
  validate_details_vocabulary event = Ok () ↔ well_typed_details event.
Proof.
  unfold validate_details_vocabulary, well_typed_details.
  destruct (value_get "details" event) as [details|]; [|done].
  destruct details as [| | | | |ms]; cbn [as_object]; 
    try (split; [done|intros Hd; by destruct (Hd _ eq_refl) as (?&?&_)]).
  cbv zeta. set (event_type := default "" (string_field event "event_type")).
  rewrite result_seq_ok, for_each_ok, if_err_ok, andb_false_iff, existsb_false.
  setoid_rewrite negb_false_iff. setoid_rewrite contains_key_true.
  assert (∀ kv, (let '(key, value) := kv in
      if negb (allowed_detail_key event_type key)
      then Err (InvalidRecord ("provenance details field `" +++ key +++
                               "` is not in the privacy-safe vocabulary"))
      else validate_detail_value event_type key value) = Ok () ↔
    ∃ t, detail_type event_type kv.1 = Some t ∧ has_type t kv.2) as Hkv.
  { intros [key v]. rewrite if_err_ok, negb_false_iff, allowed_detail_key_typed, validate_detail_value_typed.
    unfold is_Some. naive_solver. }
  setoid_rewrite Hkv. split.
  - intros (Hall & Hc & _) details [= <-]. exists ms. split_and!; [done|intros key v; exact (Hall (key, v))|].
    intros He key Hkey. destruct Hc as [Hc|Hc]; [by rewrite He in Hc|by apply Hc].
  - intros Hd. destruct (Hd _ eq_refl) as (? & [= <-] & Hall & Hc). split_and!; [|destruct (String.eqb_spec event_type "task.created"); auto|done].
    intros [key v]. apply Hall.
Qed.

(** the privacy-safe vocabulary is a type system, and [validate_details_vocabulary] decides it: the
    details of an event are accepted if and only if every member has the type its name is given for that
    event type, at every nesting level, and a creation event carries its whole creation projection. *)
Theorem validate_details_vocabulary_typed event :
  validate_details_vocabulary event = Ok () ↔ well_typed_details event.
Proof. apply validate_details_vocabulary_spec. Qed.

End details.
