(* ===== verification/Events.v ===== *)
(** * Provenance events

    [crates/aios-provenance/src/lib.rs]: the shape bounds of JSON values (a loop over an
    explicit stack), the parser that rejects duplicate member names, stream identities,
    the event contract, the revision machine of a Task, and the journal-record hash.

    A JSON [Map] is a key-ordered association list; [json_object] builds one the way the
    [json!] macro does, member by member. *)

From Stdlib Require Import SpecFloat.
From S2P Require Import Prelude Json Contracts Numbers Limits Parse Hash Details.

#[local] Set Warnings "-register-all".

Definition SCHEMA_VERSION : string := "0.1".
Definition HASH_PROFILE : string := "aios-provenance-event-v0.1".
Definition MAX_EVENT_BYTES : N := 524288.
Definition MAX_DETAILS_BYTES : N := 458752.
Definition MAX_JSON_DEPTH : N := 32.
Definition MAX_STRING_CHARS : N := 4096.
Definition MAX_ARRAY_ITEMS : N := 512.
Definition MAX_OBJECT_FIELDS : N := 256.
Definition MAX_SAFE_JSON_INTEGER_I64 : Z := 9007199254740991.
Definition MAX_SAFE_JSON_INTEGER_F64 : spec_float := S754_finite false 9007199254740991 0.

Definition NUL : string := String "000"%char "".
Definition HASH_DOMAIN : string := "AIOS-PROVENANCE-EVENT" +++ NUL +++ "v0.1" +++ NUL.
Definition STREAM_ID_DOMAIN : string := "AIOS-TASK-PROVENANCE-STREAM-ID" +++ NUL +++ "v1" +++ NUL.

(** The number of bytes of a string, as [usize]. *)
Definition bytes (s : string) : N := N.of_nat (byte_len s).

(** [json!({..})] *)
Definition json_object (members : list (string * Value)) : Value :=
  Object (foldl (λ object '(key, value), assoc_insert key value object) [] members).

(** An optional string as JSON. *)
Definition json_option (o : option string) : Value := match o with Some s => Str s | None => Null end.

(** [&value[key]] on a [Value]: [Null] when there is no such member. *)
Definition index (value : Value) (key : string) : Value := default Null (value_get key value).

(** [Value::pointer] along member names. *)
Fixpoint pointer (path : list string) (value : Value) : option Value :=
  match path with
  | [] => Some value
  | key :: path' => value_get key value ≫= pointer path'
  end.

(** [PartialEq] of [Value]: floats compare as [f64]. *)
Definition number_eqb (a b : Number) : bool :=
  match a, b with
  | PosInt n, PosInt m => (n =? m)%N
  | NegInt x, NegInt y => (x =? y)%Z
  | Float f, Float g => SFeqb f g
  | _, _ => false
  end.

Fixpoint value_eqb (a b : Value) : bool :=
  match a, b with
  | Null, Null => true
  | Bool x, Bool y => Bool.eqb x y
  | Num n, Num m => number_eqb n m
  | Str s, Str t => String.eqb s t
  | Array vs, Array ws =>
      (fix go vs ws := match vs, ws with
       | [], [] => true
       | v :: vs', w :: ws' => value_eqb v w && go vs' ws'
       | _, _ => false
       end) vs ws
  | Object ms, Object ns =>
      (fix go ms ns := match ms, ns with
       | [], [] => true
       | (k, v) :: ms', (l, w) :: ns' => String.eqb k l && value_eqb v w && go ms' ns'
       | _, _ => false
       end) ms ns
  | _, _ => false
  end.

Definition option_value_eqb (a b : option Value) : bool :=
  match a, b with
  | Some v, Some w => value_eqb v w
  | None, None => true
  | _, _ => false
  end.

(** ** Shape bounds *)

(** [f64::fract() != 0.0] *)
Definition fract_nonzero (f : spec_float) : bool :=
  match f with
  | S754_zero _ => false
  | S754_finite _ m e => (e <? 0)%Z && negb (Z.pos m mod 2 ^ (- e) =? 0)%Z
  | S754_infinity _ | S754_nan => true
  end.

Definition safe_json_number (number : Number) : bool :=
  match number_as_i64 number with
  | Some integer => ((- MAX_SAFE_JSON_INTEGER_I64 <=? integer) && (integer <=? MAX_SAFE_JSON_INTEGER_I64))%Z
  | None =>
      match number_as_u64 number with
      | Some integer => (integer <=? MAX_SAFE_JSON_INTEGER)%N
      | None =>
          match number with
          | Float f => fract_nonzero f || SFleb (SFabs f) MAX_SAFE_JSON_INTEGER_F64
          | _ => false
          end
      end
  end.

(** The number of values in a value. *)
Fixpoint value_nodes (v : Value) : nat :=
  match v with
  | Array vs => S (foldr (λ v n, value_nodes v + n) 0 vs)
  | Object ms => S (foldr (λ kv n, value_nodes kv.2 + n) 0 ms)
  | _ => 1
  end.

(** The stack loop.  The head of the list is the top of the stack: [extend] leaves the last value on top.
    [None] is running out of fuel. *)
Fixpoint shape_loop (fuel : nat) (pending : list (Value * N)) : option bool :=
  match fuel with
  | 0 => None
  | S fuel =>
      match pending with
      | [] => Some true
      | (value, depth) :: pending =>
          if (MAX_JSON_DEPTH <? depth)%N then Some false else
          match value with
          | Str s => if (MAX_STRING_CHARS <? count s)%N then Some false else shape_loop fuel pending
          | Num n => if negb (safe_json_number n) then Some false else shape_loop fuel pending
          | Array values =>
              if (MAX_ARRAY_ITEMS <? len values)%N then Some false
              else shape_loop fuel (rev ((λ value, (value, depth + 1)%N) <$> values) ++ pending)
          | Object values =>
              if (MAX_OBJECT_FIELDS <? len values)%N || existsb (λ kv, (256 <? count kv.1)%N) values
              then Some false
              else shape_loop fuel (rev ((λ kv, (kv.2, depth + 1)%N) <$> values) ++ pending)
          | Null | Bool _ => shape_loop fuel pending
          end
      end
  end.

(** One iteration for each value, and one to find the stack empty. *)
Definition within_shape_bounds (value : Value) : bool :=
  default false (shape_loop (S (value_nodes value)) [(value, 1%N)]).

(** ** Parsing without duplicate member names *)

(** The visitor [UniqueVisitor]; [next_entry] reads a member's name and value before the check. *)
Fixpoint unique_visit (doc : Doc) : result string Value :=
  match doc with
  | DError message => Err message
  | DUnit => Ok Null
  | DBool value => Ok (Bool value)
  | DI64 value => Ok (Num (number_from_i64 value))
  | DU64 value => Ok (Num (PosInt value))
  | DF64 value position =>
      match number_from_f64 value with
      | Some number => Ok (Num number)
      | None => Err ("invalid JSON number" +++ position)
      end
  | DStr value => Ok (Str value)
  | DSeq elements tail =>
      (fix visit_seq (values : list Value) (elements : list Doc) : result string Value :=
         match elements with
         | [] => match tail with Ok _ => Ok (Array values) | Err e => Err e end
         | element :: elements' =>
             match unique_visit element with
             | Err e => Err e
             | Ok value => visit_seq (values ++ [value]) elements'
             end
         end) [] elements
  | DMap members tail position =>
      (fix visit_map (values : list (string * Value)) (members : list (string * Doc)) : result string Value :=
         match members with
         | [] => match tail with Ok _ => Ok (Object values) | Err e => Err e end
         | (key, member) :: members' =>
             match unique_visit member with
             | Err e => Err e
             | Ok value =>
                 if contains_key key values then Err ("duplicate JSON object key" +++ position)
                 else visit_map (assoc_insert key value values) members'
             end
         end) [] members
  end.

Section events.

Context `{!ProvenanceLib}.

(** [serde_json::from_slice::<UniqueJson>]: the visitor's value, then the end of the input. *)
Definition parse_unique_json_bytes (input : string) : Res Value :=
  let '(doc, ending) := json_from_slice input in
  map_err Serialization (match unique_visit doc with
                         | Err e => Err e
                         | Ok value => match ending with Ok _ => Ok value | Err e => Err e end
                         end).

Definition parse_unique_json (input : string) : Res Value := parse_unique_json_bytes input.

(** ** Identities *)

Definition validate_task_id (task_id : string) : Res unit :=
  if (count task_id =? 0)%N then Err (InvalidRecord "Task ID is empty")
  else if (256 <? count task_id)%N then Err (InvalidRecord "Task ID exceeds 256 Unicode scalars")
  else Ok ().

Definition is_ascii_alphanumeric (c : ascii) : bool :=
  let n := Ascii.N_of_ascii c in is_digit c || is_upper c || ((97 <=? n) && (n <=? 122))%N.

Definition stream_char (c : ascii) : bool :=
  is_ascii_alphanumeric c || bool_decide (c ∈ ["."%char; "_"%char; ":"%char; "-"%char]).

Definition validate_stream_id (value : string) : Res unit :=
  match strip_prefix "task:" value with
  | None => Err (InvalidRecord "invalid provenance stream ID")
  | Some EmptyString => Err (InvalidRecord "invalid provenance stream ID")
  | Some (String first rest) =>
      if (256 <? bytes value)%N || negb (is_ascii_alphanumeric first) || negb (string_forallb stream_char rest)
      then Err (InvalidRecord "invalid provenance stream ID") else Ok ()
  end.

Definition stream_id (task_id : string) : Res string :=
  validate_task_id task_id ≫= λ _, Ok ("task:v1:sha256:" +++ hex (sha256 (STREAM_ID_DOMAIN +++ task_id))).

(** ** The event contract *)

Definition event_validator : Res (Value → bool) :=
  map_err (λ error, InvalidRecord ("provenance schema unavailable: " +++ error)) event_schema.

(** [bytes.len()] of a serialized value. *)
Definition to_vec (value : Value) : Res string := map_err Serialization (json_to_string value).

(** [matches!((size, ceiling), (Some(size), Some(ceiling)) if size <= ceiling)] *)
Definition within_ceiling (size ceiling : option N) : bool :=
  match size, ceiling with Some size, Some ceiling => (size <=? ceiling)%N | _, _ => false end.

(** [items.len() != 1 || items.first() != source], negated. *)
Definition only_item (items : option (list Value)) (source : option Value) : bool :=
  match items with
  | None => false
  | Some items => (length items =? 1) && option_value_eqb (head items) source
  end.

Definition validate_export_authority_links (event : Value) : Res unit :=
  if negb (bool_decide (string_field event "event_type" = Some "artifact.exported")) then Ok () else
  match pointer ["details"; "export_authority"] event with
  | None => Ok ()
  | Some authority =>
      let operation := value_get "operation_id" authority in
      let source := value_get "source_artifact_id" authority in
      let service := value_get "service_id" authority in
      let purpose := value_get "purpose" authority in
      let size := pointer ["details"; "size_bytes"] event ≫= as_u64 in
      let ceiling := value_get "max_size_bytes" authority ≫= as_u64 in
      let transfer := index event "external_transfer" in
      if negb (within_ceiling size ceiling) ||
         negb (option_value_eqb operation (pointer ["details"; "operation_id"] event)) ||
         negb (only_item (as_array (index event "input_artifacts")) source) ||
         negb (only_item (as_array (index transfer "data_refs")) source) ||
         negb (option_value_eqb service (value_get "destination" transfer)) ||
         negb (option_value_eqb purpose (value_get "purpose" transfer))
      then Err (InvalidRecord "exact export authority conflicts with export event") else Ok ()
  end.

(** [u64::checked_add(1)] *)
Definition checked_succ (n : N) : option N := if (n <? u64_max)%N then Some (n + 1)%N else None.

Definition validate_event_contract (task_id : string) (event : Value) (source_size_bounds : bool) : Res unit :=
  validate_task_id task_id ≫= λ _,
  if negb (within_shape_bounds event)
  then Err (InvalidRecord "provenance event exceeds size or depth bounds") else
  event_bytes ← to_vec event;
  if source_size_bounds && (MAX_EVENT_BYTES <? bytes event_bytes)%N
  then Err (InvalidRecord "provenance event exceeds size or depth bounds") else
  if source_size_bounds && is_some_and (value_get "details" event) (λ value,
       match json_to_string value with Ok details => (MAX_DETAILS_BYTES <? bytes details)%N | Err _ => true end)
  then Err (InvalidRecord "provenance details exceed size bounds") else
  if is_some_and (value_get "event_hash" event) (λ _, true) ||
     is_some_and (value_get "previous_event_hash" event) (λ _, true)
  then Err (InvalidRecord "event payload must not supply journal hash fields") else
  validator ← event_validator;
  if negb (validator event)
  then Err (InvalidRecord "provenance event does not match the typed event contract") else
  if negb (bool_decide (string_field event "task_id" = Some task_id))
  then Err (InvalidRecord "provenance event Task identity mismatch") else
  for_each (λ key,
    if (256 <? count (default "" (string_field event key)))%N
    then Err (InvalidRecord ("provenance " +++ key +++ " exceeds bounds")) else Ok ()) ["event_id"; "task_id"] ≫= λ _,
  if (256 <? count (default "" (pointer ["actor"; "id"] event ≫= as_str)))%N
  then Err (InvalidRecord "provenance actor ID exceeds bounds") else
  validate_timestamp (default "" (string_field event "timestamp")) ≫= λ _,
  if bool_decide (string_field event "event_type" = Some "task.transitioned") &&
     negb (bool_decide
       ((value_get "previous_revision" (index event "task_transition") ≫= as_u64) ≫= checked_succ =
        value_get "new_revision" (index event "task_transition") ≫= as_u64))
  then Err (InvalidRecord "invalid typed Task transition provenance") else
  validate_details_vocabulary event.

Definition validate_event (task_id : string) (event : Value) : Res unit :=
  validate_event_contract task_id event true ≫= λ _, validate_export_authority_links event.

Definition validate_stored_event (event : Value) : Res unit :=
  match string_field event "task_id" with
  | None => Err (InvalidRecord "provenance event has no typed Task identity")
  | Some task_id => validate_event task_id event
  end.

(** ** Genesis and revisions *)

Definition validate_sequence_event_invariant (sequence : N) (event : Value) : Res unit :=
  if Bool.eqb (sequence =? 1)%N (bool_decide (string_field event "event_type" = Some "task.created")) then Ok ()
  else Err (InvalidRecord "task.created must occur exactly at provenance genesis").

(** The latest revision of the Task and its state. *)
Definition Revision : Type := option (N * string).

(** [latest] is the [&mut] argument: the new value is the result. *)
Definition advance_task_revision (latest : Revision) (event : Value) : Res Revision :=
  let event_type := string_field event "event_type" in
  if bool_decide (event_type = Some "task.created") then
    match latest with
    | Some _ => Err (InvalidRecord "Task creation revision is not genesis")
    | None => Ok (Some (1%N, "CREATED"))
    end
  else if bool_decide (event_type = Some "task.transitioned") then
    let previous := pointer ["task_transition"; "previous_revision"] event ≫= as_u64 in
    let next := pointer ["task_transition"; "new_revision"] event ≫= as_u64 in
    let previous_state := pointer ["task_transition"; "previous_state"] event ≫= as_str in
    let next_state := pointer ["task_transition"; "new_state"] event ≫= as_str in
    match next, next_state with
    | Some next, Some next_state =>
        if bool_decide (previous = fst <$> latest) && bool_decide (previous_state = snd <$> latest)
        then Ok (Some (next, next_state))
        else Err (InvalidRecord "Task transition revision or state is discontinuous")
    | _, _ => Err (InvalidRecord "Task transition revision or state is discontinuous")
    end
  else Ok latest.

(** ** Record hashes *)

(** The hashed view of a journal record. *)
Definition record_view (stream_id : string) (sequence : N) (previous : option string)
    (members : list (string * Value)) : Value :=
  json_object
    [("schema_version", Str SCHEMA_VERSION); ("hash_profile", Str HASH_PROFILE); ("stream_id", Str stream_id);
     ("sequence", Num (PosInt sequence)); ("previous_event_hash", json_option previous);
     ("event", Object (assoc_remove "previous_event_hash" (assoc_remove "event_hash" members)))].

Definition hash_record (stream_id : string) (sequence : N) (previous : option string) (event : Value) : Res string :=
  if (sequence =? 0)%N || (MAX_SAFE_JSON_INTEGER <? sequence)%N || negb (within_shape_bounds event)
  then Err (InvalidRecord "provenance event exceeds shape bounds") else
  match as_object event with
  | None => Err (InvalidRecord "provenance event must be an object")
  | Some members =>
      canonical ← map_err Canonicalization (jcs_to_vec (record_view stream_id sequence previous members));
      Ok ("sha256:" +++ hex (sha256 (HASH_DOMAIN +++ canonical)))
  end.

End events.

(** ** The shape bounds as a property of every subvalue *)

(** [subvalue_at v d w]: [w] occurs in [v] at depth [d]; [v] itself is at depth 1. *)
Inductive subvalue_at : Value → N → Value → Prop :=
  | subvalue_self v : subvalue_at v 1 v
  | subvalue_array vs v d w : v ∈ vs → subvalue_at v d w → subvalue_at (Array vs) (d + 1) w
  | subvalue_object ms k v d w : (k, v) ∈ ms → subvalue_at v d w → subvalue_at (Object ms) (d + 1) w.

Definition node_in_bounds (v : Value) : Prop :=
  match v with
  | Str s => (count s ≤ MAX_STRING_CHARS)%N
  | Num n => safe_json_number n = true
  | Array vs => (len vs ≤ MAX_ARRAY_ITEMS)%N
  | Object ms => (len ms ≤ MAX_OBJECT_FIELDS)%N ∧ ∀ kv, kv ∈ ms → (count kv.1 ≤ 256)%N
  | Null | Bool _ => True
  end.

(** The recursive form of the check. *)
Fixpoint shape_ok (depth : N) (v : Value) : bool :=
  (depth <=? MAX_JSON_DEPTH)%N &&
  match v with
  | Str s => (count s <=? MAX_STRING_CHARS)%N
  | Num n => safe_json_number n
  | Array vs => (len vs <=? MAX_ARRAY_ITEMS)%N && forallb (shape_ok (depth + 1)) vs
  | Object ms =>
      (len ms <=? MAX_OBJECT_FIELDS)%N && negb (existsb (λ kv, (256 <? count kv.1)%N) ms) &&
      forallb (λ kv, shape_ok (depth + 1) kv.2) ms
  | Null | Bool _ => true
  end.

Definition stack_nodes (pending : list (Value * N)) : nat := sum_list_with (λ vd, value_nodes vd.1) pending.

Lemma forallb_rev {A} (f : A → bool) l : forallb f (rev l) = forallb f l.
Proof. induction l as [|x l IH]; simpl; [done|]. rewrite forallb_app, IH. simpl. by rewrite andb_true_r, andb_comm. Qed.

Lemma forallb_fmap {A B} (f : A → B) (g : B → bool) l : forallb g (f <$> l) = forallb (g ∘ f) l.
Proof. induction l as [|x l IH]; csimpl; [done|]. by rewrite IH. Qed.

Lemma stack_nodes_rev {A} (f : A → Value * N) l pending :
  stack_nodes (rev (f <$> l) ++ pending) = foldr (λ x n, value_nodes (f x).1 + n) 0 l + stack_nodes pending.
Proof.
  unfold stack_nodes. rewrite sum_list_with_app. f_equal.
  induction l as [|x l IH]; csimpl; [done|]. rewrite sum_list_with_app, IH. simpl. lia.
Qed.

Lemma ltb_negb_leb a b : (a <? b)%N = negb (b <=? a)%N.
Proof. destruct (N.ltb_spec a b), (N.leb_spec b a); done || lia. Qed.

(** With more fuel than values on the stack, the loop returns the recursive check of each of them. *)
Lemma shape_loop_spec fuel pending : stack_nodes pending < fuel →
  shape_loop fuel pending = Some (forallb (λ vd, shape_ok vd.2 vd.1) pending).
Proof.
  revert pending. induction fuel as [|fuel IH]; intros pending Hfuel; [lia|].
  destruct pending as [|[v depth] pending]; [done|]. cbn [shape_loop forallb fst snd].
  assert (stack_nodes ((v, depth) :: pending) = value_nodes v + stack_nodes pending) as Hst by done.
  rewrite Hst in Hfuel. clear Hst.
  destruct v as [|b|n|s|vs|ms]; cbn [shape_ok value_nodes] in *; rewrite !ltb_negb_leb;
    destruct (depth <=? MAX_JSON_DEPTH)%N; cbn [negb andb]; try done; try (apply IH; lia).
  - destruct (safe_json_number n); cbn [negb andb]; [|done]. apply IH. lia.
  - destruct (count s <=? MAX_STRING_CHARS)%N; cbn [negb andb]; [|done]. apply IH. lia.
  - destruct (len vs <=? MAX_ARRAY_ITEMS)%N; cbn [negb andb]; [|done].
    rewrite IH; [by rewrite forallb_app, forallb_rev, forallb_fmap|].
    rewrite stack_nodes_rev. cbn [fst]. lia.
  - destruct (len ms <=? MAX_OBJECT_FIELDS)%N; cbn [negb andb orb]; [|done].
    destruct (existsb _ ms); cbn [negb andb]; [done|].
    rewrite IH; [by rewrite forallb_app, forallb_rev, forallb_fmap|].
    rewrite stack_nodes_rev. cbn [fst]. lia.
Qed.

Lemma within_shape_bounds_ok v : within_shape_bounds v = shape_ok 1 v.
Proof.
  unfold within_shape_bounds. rewrite shape_loop_spec; [simpl; by rewrite andb_true_r|].
  unfold stack_nodes. simpl. lia.
Qed.

Lemma subvalue_at_pos v d w : subvalue_at v d w → (1 ≤ d)%N.
Proof. induction 1; lia. Qed.

Lemma shape_ok_spec v depth :
  shape_ok depth v = true ↔
  ∀ d w, subvalue_at v d w → (depth + d ≤ MAX_JSON_DEPTH + 1)%N ∧ node_in_bounds w.
Proof.
  revert depth. induction v as [|b|n|s|vs IH|ms IH] using Value_ind'; intros depth; cbn [shape_ok];
    rewrite andb_true_iff, N.leb_le.
  1-4: split; [intros [? ?] d w Hsub; inversion Hsub; subst; simpl; rewrite <-?N.leb_le; split; [apply N.leb_le; lia|done]
              |intros Hall; destruct (Hall _ _ (subvalue_self _)) as [? Hn]; simpl in Hn; rewrite <-?N.leb_le in Hn;
               split; [apply N.leb_le; apply N.leb_le; lia|done]].
  - rewrite andb_true_iff, N.leb_le, forallb_forall. setoid_rewrite <-list_elem_of_In.
    rewrite Forall_forall in IH. split.
    + intros (Hd & Hl & Hall) d w Hsub. inversion Hsub as [|? v d' ? Hv Hs|]; subst; [split; [lia|done]|].
      apply Hall in Hv as Hok. apply (IH v Hv) with (d := d') (w := w) in Hok as [? ?]; [|done]. split; [lia|done].
    + intros Hall. destruct (Hall _ _ (subvalue_self _)) as [? Hl]. split_and!; [lia|done|].
      intros v Hv. apply (IH v Hv). intros d w Hs. destruct (Hall (d + 1)%N w) as [? ?];
        [by eapply subvalue_array|]. split; [lia|done].
  - rewrite !andb_true_iff, N.leb_le, negb_true_iff, existsb_false, forallb_forall.
    setoid_rewrite <-list_elem_of_In. setoid_rewrite N.ltb_ge. rewrite Forall_forall in IH. split.
    + intros (Hd & [Hl Hk] & Hall) d w Hsub. inversion Hsub as [| |? k v d' ? Hv Hs]; subst; [split; [lia|done]|].
      apply Hall in Hv as Hok. apply (IH _ Hv) with (d := d') (w := w) in Hok as [? ?]; [|done]. split; [lia|done].
    + intros Hall. destruct (Hall _ _ (subvalue_self _)) as [? [Hl Hk]]. split_and!; [lia|done|done|].
      intros [k v] Hv. apply (IH _ Hv). intros d w Hs. destruct (Hall (d + 1)%N w) as [? ?];
        [by eapply subvalue_object|]. split; [lia|done].
Qed.

Lemma within_shape_bounds_spec v :
  shape_loop (S (value_nodes v)) [(v, 1%N)] = Some (within_shape_bounds v) ∧
  (within_shape_bounds v = true ↔
   ∀ d w, subvalue_at v d w → (d ≤ MAX_JSON_DEPTH)%N ∧ node_in_bounds w).
Proof.
  split.
  - rewrite within_shape_bounds_ok, shape_loop_spec; [simpl; by rewrite andb_true_r|].
    unfold stack_nodes. simpl. lia.
  - rewrite within_shape_bounds_ok, shape_ok_spec. split; intros Hall d w Hs; destruct (Hall d w Hs) as [? ?];
      (split; [lia|done]).
Qed.

(** the stack loop of [within_shape_bounds] terminates on every value (its fuel, the number of values
    in it, never runs out) and accepts exactly the values all of whose parts, at any depth up to 32, are
    within the bounds: strings of 4096 characters, member names of 256, arrays of 512 items, objects of
    256 members, and numbers that binary64 holds exactly. *)
Theorem within_shape_bounds_exact v :
  shape_loop (S (value_nodes v)) [(v, 1%N)] = Some (within_shape_bounds v) ∧
  (within_shape_bounds v = true ↔
   ∀ d w, subvalue_at v d w → (d ≤ MAX_JSON_DEPTH)%N ∧ node_in_bounds w).
Proof. apply within_shape_bounds_spec. Qed.

(** ** The parser *)

(** The two visitors of the repository accept the same documents, with the same value. *)
Lemma unique_visit_ok doc : result_ok (unique_visit doc) = result_ok (visit doc).
Proof.
  induction doc as [m| |b|z|n|f p|s|ds tail IH|ms tail p IH] using Doc_ind'; simpl; try done.
  - by destruct (number_from_f64 f).
  - generalize (@nil Value) at 2 4. induction IH as [|d ds Hd _ IHds]; intros values; [done|].
    destruct (unique_visit d) as [v|e], (visit d) as [v'|e']; simplify_eq/=; [apply IHds|done].
  - generalize (@nil (string * Value)). induction IH as [|[k d] ms Hd _ IHms]; intros values; [done|]. simpl in Hd.
    destruct (unique_visit d) as [v|e], (visit d) as [v'|e']; simplify_eq/=;
      destruct (contains_key k values); done || apply IHms.
Qed.

Lemma unique_visit_spec doc v : unique_visit doc = Ok v ↔ clean_doc doc = true ∧ v = doc_value doc.
Proof.
  rewrite <-(visit_spec doc v). pose proof (unique_visit_ok doc) as Hv.
  destruct (unique_visit doc), (visit doc); simplify_eq/=; naive_solver.
Qed.
