(* ===== verification/Journal.v ===== *)
(** * The provenance journal

    [crates/aios-provenance/src/lib.rs]: appending to the journal, its head, pages of
    records and the verification of a stored stream and of records in memory, over the
    table [provenance_events] of [specs/persistence-v0.1.sql].

    A [Db] is the list of the rows of that table, in insertion order, with the predicate
    that says whether the foreign keys of a row resolve in the other tables.  A column
    holds an [SqlValue], so that a row written by other means can hold a blob or a missing
    value, as SQLite allows; the ordering column [sequence] holds an integer and text is
    UTF-8.  A query is the rows of the stream in the order of their sequence. *)

From S2P Require Import Prelude Json Contracts Numbers Limits Parse Hash Details Events.

#[local] Set Warnings "-register-all".

Definition MAX_PAGE_SIZE : N := 256.

(** ** The table *)

(** The values of a column with TEXT affinity, which stores numbers as text. *)
Inductive SqlValue :=
  | SqlNull
  | SqlText (s : string)
  | SqlBlob (s : string).

Record Row := {
  col_schema_version : SqlValue;
  col_hash_profile : SqlValue;
  col_event_id : SqlValue;
  col_task_id : SqlValue;
  col_stream_id : SqlValue;
  col_sequence : Z;
  col_timestamp : SqlValue;
  col_event_type : SqlValue;
  col_semantic_program_hash : SqlValue;
  col_ir_version : SqlValue;
  col_registry_snapshot_id : SqlValue;
  col_node_id : SqlValue;
  col_execution_binding_id : SqlValue;
  col_provider_id : SqlValue;
  col_status : SqlValue;
  col_previous_event_hash : SqlValue;
  col_event_hash : SqlValue;
  col_event_json : SqlValue;
}.

Record Db := { rows : list Row; references : Row → bool }.

(** [a = b] in SQL against a text value; [NULL] and blobs never satisfy it. *)
Definition is_text (s : string) (v : SqlValue) : bool :=
  match v with SqlText t => String.eqb s t | _ => false end.

Definition same_text (a b : SqlValue) : bool := match a with SqlText s => is_text s b | _ => false end.

Definition not_null (v : SqlValue) : bool := match v with SqlNull => false | _ => true end.

(** The constraints of the table on a new row: [NOT NULL], [CHECK], the primary key, the two [UNIQUE]
    constraints and the foreign keys. *)
Definition row_admitted (db : Db) (row : Row) : result StorageError unit :=
  if negb (forallb not_null [col_schema_version row; col_hash_profile row; col_task_id row; col_stream_id row;
                             col_timestamp row; col_event_type row; col_event_hash row; col_event_json row])
  then Err (ConstraintViolation "NOT NULL")
  else if negb (is_text SCHEMA_VERSION (col_schema_version row) && is_text HASH_PROFILE (col_hash_profile row) &&
                (1 <=? col_sequence row)%Z)
  then Err (ConstraintViolation "CHECK")
  else if existsb (λ r, same_text (col_event_id row) (col_event_id r)) (rows db)
  then Err (ConstraintViolation "event_id")
  else if existsb (λ r, same_text (col_task_id row) (col_task_id r) &&
                        (col_sequence row =? col_sequence r)%Z) (rows db)
  then Err (ConstraintViolation "task_id, sequence")
  else if existsb (λ r, same_text (col_stream_id row) (col_stream_id r) &&
                        (col_sequence row =? col_sequence r)%Z) (rows db)
  then Err (ConstraintViolation "stream_id, sequence")
  else if negb (references db row) then Err (ConstraintViolation "FOREIGN KEY")
  else Ok ().

Definition insert_row (db : Db) (row : Row) : result StorageError Db :=
  match row_admitted db row with
  | Ok _ => Ok {| rows := rows db ++ [row]; references := references db |}
  | Err e => Err e
  end.

(** [WHERE stream_id = ?1 ORDER BY sequence] *)
Definition stream_rows (db : Db) (stream_id : string) : list Row :=
  sort_by (λ a b, (col_sequence a <=? col_sequence b)%Z) (filter (λ r, is_text stream_id (col_stream_id r)) (rows db)).

(** ** Reading rows *)

(** [row.get::<_, String>]: an error for any other type than text. *)
Definition get_text (column : nat) (v : SqlValue) : result StorageError string :=
  match v with SqlText s => Ok s | _ => Err (InvalidColumnType column) end.

Definition bounded_row_text (column : nat) (v : SqlValue) : result StorageError string :=
  match v with
  | SqlText s => if (MAX_EVENT_BYTES <? bytes s)%N then Err (FromSqlConversionFailure column) else get_text column v
  | _ => get_text column v
  end.

Definition bounded_nullable_row_text (column : nat) (v : SqlValue) : result StorageError (option string) :=
  match v with
  | SqlNull => Ok None
  | SqlText _ => match bounded_row_text column v with Ok s => Ok (Some s) | Err e => Err e end
  | _ => Err (InvalidColumnType column)
  end.

Definition malformed_row_error (error : StorageError) : bool :=
  match error with
  | FromSqlConversionFailure _ | InvalidColumnType _ | IntegralValueOutOfRange _ => true
  | ConstraintViolation _ | QueryReturnedNoRows => false
  end.

(** ** Data *)

Inductive ExpectedHead :=
  | Any
  | Empty
  | Exact (sequence : N) (event_hash : string).

Record StreamHead := { head_stream_id : string; head_sequence : N; head_event_hash : string }.

Record JournalRecord := {
  schema_version : string;
  hash_profile : string;
  record_stream_id : string;
  sequence : N;
  previous_event_hash : option string;
  event : Value;
  event_hash : string;
}.

Record RecordPage := { page_records : list JournalRecord; next_cursor : option N }.

Inductive Severity := SeverityError | SeverityWarning.

Record VerificationDiagnostic := {
  vd_severity : Severity;
  vd_code : string;
  vd_message : string;
  vd_sequence : option N;
  vd_event_id : option string;
  vd_related : list string;
}.

Record VerifierIdentity := { verifier_id : string; verifier_version : string; build_hash : option string }.

Record VerificationResult := {
  vr_schema_version : string;
  vr_valid : bool;
  vr_stream_id : string;
  vr_from_sequence : N;
  vr_to_sequence : N;
  vr_expected_head_hash : option string;
  vr_computed_head_hash : option string;
  vr_checkpoint_id : option string;
  vr_verifier : VerifierIdentity;
  vr_diagnostics : list VerificationDiagnostic;
  vr_diagnostics_truncated : bool;
  vr_verified_at : string;
}.

Record CheckpointExpectation := { checkpoint_id : string; checkpoint_event_hash : string }.

Definition verifier : VerifierIdentity :=
  {| verifier_id := "aios-provenance"; verifier_version := "0.1.0"; build_hash := None |}.

Definition diagnostic_event_id (value : string) : option string :=
  if negb (bool_decide (value = "")) && (count value <=? 256)%N then Some value else None.

Definition failure (stream_id verified_at code message : string) (sequence : option N) (event_id : option string)
    (computed_head_hash : option string) (checkpoint : option CheckpointExpectation) : VerificationResult :=
  let sequence := match sequence with Some value => if (0 <? value)%N then Some value else None | None => None end in
  {| vr_schema_version := SCHEMA_VERSION;
     vr_valid := false;
     vr_stream_id := stream_id;
     vr_from_sequence := 1;
     vr_to_sequence := N.max (default 1%N sequence) 1;
     vr_expected_head_hash := checkpoint_event_hash <$> checkpoint;
     vr_computed_head_hash := computed_head_hash;
     vr_checkpoint_id := checkpoint_id <$> checkpoint;
     vr_verifier := verifier;
     vr_diagnostics :=
       [{| vd_severity := SeverityError; vd_code := code; vd_message := message; vd_sequence := sequence;
           vd_event_id := event_id ≫= diagnostic_event_id; vd_related := [] |}];
     vr_diagnostics_truncated := false;
     vr_verified_at := verified_at |}.

Definition validate_checkpoint (checkpoint : option CheckpointExpectation) : Res unit :=
  match checkpoint with
  | None => Ok ()
  | Some checkpoint =>
      if bool_decide (checkpoint_id checkpoint = "") || (256 <? count (checkpoint_id checkpoint))%N ||
         negb (valid_hash (checkpoint_event_hash checkpoint))
      then Err (InvalidRecord "invalid provenance checkpoint expectation") else Ok ()
  end.

(** [u64::saturating_add(1)] *)
Definition saturating_next (sequence : N) : N := N.min u64_max (sequence + 1).

(** [i64::MAX], the largest SQLite integer. *)
Definition SQLITE_MAX : N := 9223372036854775807.

(** The index columns of a row, as read back. *)
Record JournalIndex := {
  ix_event_id : string;
  ix_task_id : string;
  ix_timestamp : string;
  ix_event_type : string;
  ix_semantic_program_hash : option string;
  ix_ir_version : option string;
  ix_registry_snapshot_id : option string;
  ix_node_id : option string;
  ix_execution_binding_id : option string;
  ix_provider_id : option string;
  ix_status : option string;
}.

Definition index_matches (self : JournalIndex) (event : Value) : bool :=
  String.eqb (ix_event_id self) (default "" (string_field event "event_id")) &&
  String.eqb (ix_task_id self) (default "" (string_field event "task_id")) &&
  String.eqb (ix_timestamp self) (default "" (string_field event "timestamp")) &&
  String.eqb (ix_event_type self) (default "" (string_field event "event_type")) &&
  bool_decide (ix_semantic_program_hash self = string_field event "semantic_program_hash") &&
  bool_decide (ix_ir_version self = string_field event "ir_version") &&
  bool_decide (ix_registry_snapshot_id self = string_field event "registry_snapshot_id") &&
  bool_decide (ix_node_id self = string_field event "step_id") &&
  bool_decide (ix_execution_binding_id self = string_field event "execution_binding_id") &&
  bool_decide (ix_provider_id self = string_field event "provider_id") &&
  bool_decide (ix_status self = string_field event "status").

Definition row_index (row : Row) : result StorageError JournalIndex :=
  event_id ← bounded_row_text 7 (col_event_id row);
  task_id ← bounded_row_text 8 (col_task_id row);
  timestamp ← bounded_row_text 9 (col_timestamp row);
  event_type ← bounded_row_text 10 (col_event_type row);
  semantic_program_hash ← bounded_nullable_row_text 11 (col_semantic_program_hash row);
  ir_version ← bounded_nullable_row_text 12 (col_ir_version row);
  registry_snapshot_id ← bounded_nullable_row_text 13 (col_registry_snapshot_id row);
  node_id ← bounded_nullable_row_text 14 (col_node_id row);
  execution_binding_id ← bounded_nullable_row_text 15 (col_execution_binding_id row);
  provider_id ← bounded_nullable_row_text 16 (col_provider_id row);
  status ← bounded_nullable_row_text 17 (col_status row);
  Ok {| ix_event_id := event_id; ix_task_id := task_id; ix_timestamp := timestamp; ix_event_type := event_type;
        ix_semantic_program_hash := semantic_program_hash; ix_ir_version := ir_version;
        ix_registry_snapshot_id := registry_snapshot_id; ix_node_id := node_id;
        ix_execution_binding_id := execution_binding_id; ix_provider_id := provider_id; ix_status := status |}.

Section journal.

Context `{!ProvenanceLib}.

(** The error of a row becomes the error of the crate. *)
Definition storage {A} (r : result StorageError A) : Res A := map_err Storage r.

Definition row_to_record (row : Row) : result StorageError JournalRecord :=
  event_bytes ← match col_event_json row with SqlText s => Ok s | _ => Err (InvalidColumnType 5) end;
  if (MAX_EVENT_BYTES <? bytes event_bytes)%N then Err (FromSqlConversionFailure 5) else
  event ← map_err (λ _, FromSqlConversionFailure 5) (parse_unique_json_bytes event_bytes);
  schema_version ← bounded_row_text 0 (col_schema_version row);
  hash_profile ← bounded_row_text 1 (col_hash_profile row);
  stream_id ← bounded_row_text 2 (col_stream_id row);
  sequence ← if (0 <=? col_sequence row)%Z then Ok (Z.to_N (col_sequence row)) else Err (FromSqlConversionFailure 3);
  previous_event_hash ← bounded_nullable_row_text 4 (col_previous_event_hash row);
  event_hash ← bounded_row_text 6 (col_event_hash row);
  Ok {| schema_version := schema_version; hash_profile := hash_profile; record_stream_id := stream_id;
        sequence := sequence; previous_event_hash := previous_event_hash; event := event;
        event_hash := event_hash |}.

Definition get_head (db : Db) (stream_id : string) : Res (option StreamHead) :=
  validate_stream_id stream_id ≫= λ _,
  match last (stream_rows db stream_id) with
  | None => Ok None
  | Some row =>
      event_hash ← storage (bounded_row_text 1 (col_event_hash row));
      if (col_sequence row <=? 0)%Z || negb (valid_hash event_hash)
      then Err (InvalidRecord "stored provenance head is invalid")
      else Ok (Some {| head_stream_id := stream_id; head_sequence := Z.to_N (col_sequence row);
                       head_event_hash := event_hash |})
  end.

Definition list_events (db : Db) (stream_id : string) (after_sequence : option N) (limit : N) : Res RecordPage :=
  validate_stream_id stream_id ≫= λ _,
  if (limit =? 0)%N || (MAX_PAGE_SIZE <? limit)%N
  then Err (InvalidRecord "provenance page limit is out of bounds") else
  if (SQLITE_MAX <? default 0%N after_sequence)%N
  then Err (InvalidRecord "provenance cursor exceeds SQLite range") else
  let selected := filter (λ row, (Z.of_N (default 0%N after_sequence) < col_sequence row)%Z) (stream_rows db stream_id) in
  records ← storage (mapM row_to_record (take (S (N.to_nat limit)) selected));
  if (limit <? len records)%N then
    let records := take (pred (length records)) records in
    Ok {| page_records := records; next_cursor := sequence <$> last records |}
  else Ok {| page_records := records; next_cursor := None |}.

(** ** Appending *)

(** The rows that [latest_task_revision_in_tx] selects. *)
Definition revision_row (row : Row) : bool :=
  is_text "task.created" (col_event_type row) || is_text "task.transitioned" (col_event_type row).

(** The revision that a selected row records. *)
Definition stored_revision (row : Row) : Res Revision :=
  event_type ← storage (bounded_row_text 0 (col_event_type row));
  event_json ← storage (bounded_row_text 1 (col_event_json row));
  event ← parse_unique_json_bytes event_json;
  if negb (bool_decide (string_field event "event_type" = Some event_type))
  then Err (InvalidRecord "stored Task revision event conflicts with its index") else
  validate_stored_event event ≫= λ _,
  if String.eqb event_type "task.created" then Ok (Some (1%N, "CREATED")) else
  match as_u64 (index (index event "task_transition") "new_revision") with
  | None => Err (InvalidRecord "stored Task transition has no revision")
  | Some revision =>
      match as_str (index (index event "task_transition") "new_state") with
      | None => Err (InvalidRecord "stored Task transition has no state")
      | Some state => Ok (Some (revision, state))
      end
  end.

Definition latest_task_revision_in_tx (db : Db) (stream_id : string) : Res Revision :=
  match last (filter (λ row, revision_row row) (stream_rows db stream_id)) with
  | None => Ok None
  | Some row => stored_revision row
  end.

(** The guard of the [match] on the expected and the actual head. *)
Definition head_expected (expected_head : ExpectedHead) (head : option StreamHead) : bool :=
  match expected_head, head with
  | Any, _ => true
  | Empty, None => true
  | Exact sequence event_hash, Some actual =>
      (sequence =? head_sequence actual)%N && String.eqb event_hash (head_event_hash actual)
  | _, _ => false
  end.

(** [params![.., string_field(event, key), ..]] *)
Definition sql_option (o : option string) : SqlValue := match o with Some s => SqlText s | None => SqlNull end.

Definition event_row (task_id stream_id event_id event_json event_hash : string) (sequence : N)
    (previous_event_hash : option string) (event : Value) : Row := {|
  col_schema_version := SqlText SCHEMA_VERSION;
  col_hash_profile := SqlText HASH_PROFILE;
  col_event_id := SqlText event_id;
  col_task_id := SqlText task_id;
  col_stream_id := SqlText stream_id;
  col_sequence := Z.of_N sequence;
  col_timestamp := sql_option (string_field event "timestamp");
  col_event_type := sql_option (string_field event "event_type");
  col_semantic_program_hash := sql_option (string_field event "semantic_program_hash");
  col_ir_version := sql_option (string_field event "ir_version");
  col_registry_snapshot_id := sql_option (string_field event "registry_snapshot_id");
  col_node_id := sql_option (string_field event "step_id");
  col_execution_binding_id := sql_option (string_field event "execution_binding_id");
  col_provider_id := sql_option (string_field event "provider_id");
  col_status := sql_option (string_field event "status");
  col_previous_event_hash := sql_option previous_event_hash;
  col_event_hash := SqlText event_hash;
  col_event_json := SqlText event_json;
|}.

(** An export to a service without its exact authority. *)
Definition unauthorized_service_export (event : Value) : bool :=
  bool_decide (string_field event "event_type" = Some "artifact.exported") &&
  is_some_and (pointer ["external_transfer"; "destination"] event ≫= as_str) (starts_with "service://") &&
  negb (is_some_and (pointer ["details"; "export_authority"] event) (λ _, true)).

(** The transaction after the append, with the record; an error leaves the transaction as it was. *)
Definition append_in_tx (db : Db) (task_id : string) (event : Value) (expected_head : ExpectedHead) :
    Res (JournalRecord * Db) :=
  validate_event task_id event ≫= λ _,
  if unauthorized_service_export event
  then Err (InvalidRecord "exact service export requires export authority") else
  stream_id ← stream_id task_id;
  head ← get_head db stream_id;
  if negb (head_expected expected_head head) then Err (InvalidRecord "stale provenance stream head") else
  let sequence := match head with Some value => saturating_next (head_sequence value) | None => 1%N end in
  if (sequence =? u64_max)%N then Err (InvalidRecord "provenance sequence overflow") else
  validate_sequence_event_invariant sequence event ≫= λ _,
  (if bool_decide (string_field event "event_type" = Some "task.transitioned") then
     latest_revision ← latest_task_revision_in_tx db stream_id;
     advance_task_revision latest_revision event ≫= λ _, Ok ()
   else Ok ()) ≫= λ _,
  let previous_event_hash := head_event_hash <$> head in
  event_hash ← hash_record stream_id sequence previous_event_hash event;
  event_id ← match string_field event "event_id" with
             | Some event_id => Ok event_id
             | None => Err (InvalidRecord "validated event has no event ID")
             end;
  if (SQLITE_MAX <? sequence)%N then Err (InvalidRecord "provenance sequence exceeds SQLite range") else
  event_json ← to_vec event;
  db' ← storage (insert_row db
    (event_row task_id stream_id event_id event_json event_hash sequence previous_event_hash event));
  Ok ({| schema_version := SCHEMA_VERSION; hash_profile := HASH_PROFILE; record_stream_id := stream_id;
         sequence := sequence; previous_event_hash := previous_event_hash; event := event;
         event_hash := event_hash |}, db').

(** ** Verification *)

Definition verify_one_record (record : JournalRecord) (stream : string) (expected_sequence : N)
    (previous : option string) (expected_sequence_appears_later : bool)
    (checkpoint : option CheckpointExpectation) (verified_at : string) : result VerificationResult string :=
  let event_id := string_field (event record) "event_id" ≫= diagnostic_event_id in
  let invalid code message head :=
    failure stream verified_at code message (Some (sequence record)) event_id head checkpoint in
  if (sequence record <? expected_sequence)%N || expected_sequence_appears_later
  then Err (invalid "PROVENANCE_SEQUENCE_ORDER_INVALID" "records are not in strictly increasing sequence" previous)
  else if (expected_sequence <? sequence record)%N
  then Err (invalid "PROVENANCE_SEQUENCE_GAP" "provenance stream contains a sequence gap" previous)
  else if negb (String.eqb (schema_version record) SCHEMA_VERSION)
  then Err (invalid "PROVENANCE_SCHEMA_INVALID" "journal record schema version is unsupported" previous)
  else if negb (String.eqb (hash_profile record) HASH_PROFILE)
  then Err (invalid "PROVENANCE_HASH_PROFILE_UNSUPPORTED" "journal record hash profile is unsupported" previous)
  else if negb (String.eqb (record_stream_id record) stream) ||
          negb (bool_decide (string_field (event record) "task_id" ≫= (λ id, result_ok (stream_id id)) = Some stream))
  then Err (invalid "PROVENANCE_STREAM_ID_MISMATCH"
                    "journal record identity does not match the verified stream" previous)
  else if negb (bool_decide (previous_event_hash record = previous))
  then Err (invalid "PROVENANCE_PREVIOUS_HASH_MISMATCH"
                    "previous_event_hash does not match the prior computed head" previous)
  else if negb (is_ok (validate_event (default "" (string_field (event record) "task_id")) (event record))) ||
          negb (is_ok (validate_sequence_event_invariant (sequence record) (event record))) ||
          negb (valid_hash (event_hash record)) ||
          is_some_and (previous_event_hash record) (λ hash, negb (valid_hash hash))
  then Err (invalid "PROVENANCE_SCHEMA_INVALID" "journal record or event is structurally invalid" previous)
  else
    match hash_record stream (sequence record) (previous_event_hash record) (event record) with
    | Err _ => Err (invalid "PROVENANCE_SCHEMA_INVALID" "journal record cannot be canonicalized" previous)
    | Ok computed =>
        if negb (String.eqb computed (event_hash record))
        then Err (invalid "PROVENANCE_EVENT_HASH_MISMATCH"
                          "recomputed journal-record hash does not match event_hash" (Some computed))
        else Ok computed
    end.

Definition finish_verification (stream_id : string) (expected_sequence : N) (previous : option string)
    (checkpoint : option CheckpointExpectation) (verified_at : string) : VerificationResult :=
  match previous with
  | None =>
      failure stream_id verified_at "PROVENANCE_SEQUENCE_GAP" "provenance stream is empty" (Some 1%N) None None checkpoint
  | Some computed_head_hash =>
      if is_some_and checkpoint (λ checkpoint,
           negb (String.eqb (checkpoint_event_hash checkpoint) computed_head_hash))
      then failure stream_id verified_at "PROVENANCE_CHECKPOINT_HEAD_MISMATCH"
             "computed stream head does not match the supplied checkpoint" (Some (expected_sequence - 1)%N) None
             (Some computed_head_hash) checkpoint
      else
        {| vr_schema_version := SCHEMA_VERSION;
           vr_valid := true;
           vr_stream_id := stream_id;
           vr_from_sequence := 1;
           vr_to_sequence := expected_sequence - 1;
           vr_expected_head_hash := checkpoint_event_hash <$> checkpoint;
           vr_computed_head_hash := Some computed_head_hash;
           vr_checkpoint_id := checkpoint_id <$> checkpoint;
           vr_verifier := verifier;
           vr_diagnostics := [];
           vr_diagnostics_truncated := false;
           vr_verified_at := verified_at |}
  end.

(** The loop of [verify_stream] over the rows. *)
Fixpoint verify_rows (stream_id : string) (checkpoint : option CheckpointExpectation) (verified_at : string)
    (previous : option string) (expected_sequence : N) (latest_revision : Revision) (rows : list Row) :
    Res VerificationResult :=
  match rows with
  | [] => Ok (finish_verification stream_id expected_sequence previous checkpoint verified_at)
  | row :: rows' =>
      match record ← row_to_record row; index ← row_index row; Ok (record, index) with
      | Err error =>
          if malformed_row_error error
          then Ok (failure stream_id verified_at "PROVENANCE_SCHEMA_INVALID" "stored journal record is malformed"
                     None None previous checkpoint)
          else Err (Storage error)
      | Ok (record, index) =>
          match verify_one_record record stream_id expected_sequence previous false checkpoint verified_at with
          | Err result => Ok result
          | Ok computed =>
              if negb (index_matches index (event record))
              then Ok (failure stream_id verified_at "PROVENANCE_SCHEMA_INVALID"
                         "journal index columns conflict with the hashed event" (Some (sequence record))
                         (Some (ix_event_id index)) (Some computed) checkpoint)
              else
                match advance_task_revision latest_revision (event record) with
                | Err _ =>
                    Ok (failure stream_id verified_at "PROVENANCE_SCHEMA_INVALID" "Task revision is discontinuous"
                          (Some (sequence record)) (diagnostic_event_id (ix_event_id index)) previous checkpoint)
                | Ok latest_revision =>
                    verify_rows stream_id checkpoint verified_at (Some computed) (saturating_next expected_sequence)
                      latest_revision rows'
                end
          end
      end
  end.

(** [?2 IS NULL OR sequence <= ?2] *)
Definition within_prefix (through_sequence : option N) (row : Row) : bool :=
  match through_sequence with None => true | Some upper => (col_sequence row <=? Z.of_N upper)%Z end.

Definition verify_stream (db : Db) (stream_id : string) (through_sequence : option N)
    (checkpoint : option CheckpointExpectation) (verified_at : string) : Res VerificationResult :=
  validate_stream_id stream_id ≫= λ _,
  validate_timestamp verified_at ≫= λ _,
  validate_checkpoint checkpoint ≫= λ _,
  if is_some_and through_sequence (λ through, (SQLITE_MAX <? through)%N)
  then Err (InvalidRecord "verification sequence exceeds SQLite range") else
  let selected := filter (λ row, within_prefix through_sequence row) (stream_rows db stream_id) in
  result ← verify_rows stream_id checkpoint verified_at None 1 None selected;
  Ok (match through_sequence with
      | Some through =>
          if vr_valid result && negb (vr_to_sequence result =? through)%N
          then failure stream_id verified_at "PROVENANCE_SEQUENCE_GAP" "requested provenance prefix is incomplete"
                 (Some (saturating_next (vr_to_sequence result))) None (vr_computed_head_hash result) checkpoint
          else result
      | None => result
      end).

(** The loop of [verify_records], with the event identities seen. *)
Fixpoint verify_record_loop (stream_id : string) (checkpoint : option CheckpointExpectation) (verified_at : string)
    (previous : option string) (expected_sequence : N) (latest_revision : Revision) (event_ids : gset string)
    (records : list JournalRecord) : VerificationResult :=
  match records with
  | [] => finish_verification stream_id expected_sequence previous checkpoint verified_at
  | record :: records' =>
      let event_id := string_field (event record) "event_id" in
      if is_some_and event_id (λ event_id, bool_decide (event_id ∈ event_ids))
      then failure stream_id verified_at "PROVENANCE_SCHEMA_INVALID" "duplicate provenance event ID"
             (Some (sequence record)) (event_id ≫= diagnostic_event_id) previous checkpoint
      else
        let expected_later := (expected_sequence <? sequence record)%N &&
          existsb (λ candidate, (sequence candidate =? expected_sequence)%N) records in
        match verify_one_record record stream_id expected_sequence previous expected_later checkpoint verified_at with
        | Err failure => failure
        | Ok computed =>
            match advance_task_revision latest_revision (event record) with
            | Err _ =>
                failure stream_id verified_at "PROVENANCE_SCHEMA_INVALID" "Task revision is discontinuous"
                  (Some (sequence record)) (event_id ≫= diagnostic_event_id) previous checkpoint
            | Ok latest_revision =>
                verify_record_loop stream_id checkpoint verified_at (Some computed)
                  (saturating_next expected_sequence) latest_revision
                  (from_option (λ id, {[ id ]} ∪ event_ids) event_ids event_id) records'
            end
        end
  end.

Definition verify_records (records : list JournalRecord) (stream_id : string)
    (checkpoint : option CheckpointExpectation) (verified_at : string) : Res VerificationResult :=
  validate_stream_id stream_id ≫= λ _,
  validate_timestamp verified_at ≫= λ _,
  validate_checkpoint checkpoint ≫= λ _,
  Ok (verify_record_loop stream_id checkpoint verified_at None 1 None ∅ records).

End journal.
