(* ===== verification/JournalChain.v ===== *)
(** * Verified chains

    What the verifier of [crates/aios-provenance/src/lib.rs] accepts: a list of records is a
    chain when each record continues the one before it (sequence, previous hash, genesis,
    revision of the Task) and carries the hash of its own contents.  [verify_records]
    decides it ([verify_records_exact]), and a chain is determined by the hash of its last
    record up to an explicit SHA-256 collision ([chain_tamper_evident]). *)

From S2P Require Import Prelude Json Contracts Numbers Limits Parse Hash Details Events Journal.

Section chain.

Context `{!ProvenanceLib}.

(** ** The specification *)

(** The record is the one with sequence [n] of the stream, after a record with hash [previous]. *)
Record record_ok (stream : string) (n : N) (previous : option string) (r : JournalRecord) : Prop := {
  ro_sequence : sequence r = n;
  ro_schema : schema_version r = SCHEMA_VERSION;
  ro_profile : hash_profile r = HASH_PROFILE;
  ro_stream : record_stream_id r = stream;
  ro_task : ∃ task_id, string_field (event r) "task_id" = Some task_id ∧ stream_id task_id = Ok stream ∧
    validate_event task_id (event r) = Ok ();
  ro_previous : previous_event_hash r = previous;
  ro_genesis : n = 1%N ↔ string_field (event r) "event_type" = Some "task.created";
  ro_valid : valid_hash (event_hash r) = true;
  ro_previous_valid : ∀ h, previous = Some h → valid_hash h = true;
  ro_hash : hash_record stream n previous (event r) = Ok (event_hash r);
}.

(** The records continue a chain of which [n - 1] records, the hash [previous] of the last one and the
    latest revision of the Task are known; [chain_end] is the revision they lead to. *)
Fixpoint chain (stream : string) (n : N) (previous : option string) (revision : Revision)
    (records : list JournalRecord) : Prop :=
  match records with
  | [] => True
  | r :: records' =>
      record_ok stream n previous r ∧
      ∃ revision', advance_task_revision revision (event r) = Ok revision' ∧
        chain stream (n + 1) (Some (event_hash r)) revision' records'
  end.

(** The hash of the last record. *)
Definition chain_head (previous : option string) (records : list JournalRecord) : option string :=
  from_option (λ r, Some (event_hash r)) previous (last records).

(** ** One record *)

Lemma genesis_ok n event :
  validate_sequence_event_invariant n event = Ok () ↔
  (n = 1%N ↔ string_field event "event_type" = Some "task.created").
Proof.
  unfold validate_sequence_event_invariant.
  destruct (N.eqb_spec n 1), (bool_decide_reflect (string_field event "event_type" = Some "task.created"));
    simpl; naive_solver.
Qed.

Lemma is_ok_true {E A} (r : result E A) : is_ok r = true ↔ ∃ a, r = Ok a.
Proof. destruct r; simpl; naive_solver. Qed.

Lemma is_ok_unit {E} (r : result E unit) : is_ok r = true ↔ r = Ok ().
Proof. rewrite is_ok_true. split; [by intros [[] ->]|eauto]. Qed.

Lemma result_ok_Some {E A} (r : result E A) a : result_ok r = Some a ↔ r = Ok a.
Proof. destruct r; simpl; naive_solver. Qed.

Lemma previous_valid_ok (previous : option string) :
  is_some_and previous (λ hash, negb (valid_hash hash)) = false ↔ ∀ h, previous = Some h → valid_hash h = true.
Proof. destruct previous as [h|]; simpl; [|done]. rewrite negb_false_iff. naive_solver. Qed.

Lemma hash_record_bound stream n previous event h :
  hash_record stream n previous event = Ok h → (0 < n ≤ MAX_SAFE_JSON_INTEGER)%N.
Proof.
  unfold hash_record. rewrite if_err_ok, !orb_false_iff, N.eqb_neq, N.ltb_ge. intros [[[? ?] _] _]. lia.
Qed.

(** [verify_one_record] accepts exactly the records that continue the chain, and returns their hash. *)
Lemma verify_one_record_ok r stream n previous later checkpoint at' h :
  verify_one_record r stream n previous later checkpoint at' = Ok h ↔
  later = false ∧ record_ok stream n previous r ∧ h = event_hash r.
Proof.
  unfold verify_one_record. cbv zeta.
  rewrite !if_err_ok, !orb_false_iff, !negb_false_iff, !bool_decide_eq_true, !String.eqb_eq, !N.ltb_ge,
    !is_ok_unit, genesis_ok, previous_valid_ok, bind_Some. setoid_rewrite result_ok_Some.
  split.
  - intros ([Hlo Hl] & Hhi & Hsv & Hhp & [Hst (task_id & Ht & Hs)] & Hprev & [[[Hv Hg] Hh] Hp] & Hcomp).
    assert (sequence r = n) as <- by lia. rewrite Ht in Hv. simpl in Hv. rewrite Hprev in *.
    destruct (hash_record stream (sequence r) previous (event r)) as [computed|e] eqn:Hc; [|done].
    apply if_err_ok in Hcomp as [Heq%negb_false_iff%String.eqb_eq [= <-]]. subst computed.
    split_and!; [done| |done]. constructor; eauto.
  - intros (Hl & [Hn Hsv Hhp Hst (task_id & Ht & Hs & Hv) Hprev Hg Hh Hp Hhash] & ->). subst n.
    rewrite Ht, Hprev, Hhash, String.eqb_refl. simpl. split_and!; try done. by exists task_id.
Qed.

(** ** All records *)

Lemma saturating_next_small n : (n ≤ MAX_SAFE_JSON_INTEGER)%N → saturating_next n = (n + 1)%N.
Proof. unfold saturating_next, MAX_SAFE_JSON_INTEGER, u64_max. lia. Qed.

Lemma failure_invalid stream at' code message n id head checkpoint :
  vr_valid (failure stream at' code message n id head checkpoint) = false.
Proof. done. Qed.

(** The event identities of records. *)
Definition event_ids (records : list JournalRecord) : list string :=
  omap (λ r, string_field (event r) "event_id") records.

(** A result that says the [k] records up to [head] verify. *)
Definition accepted (stream : string) (k : N) (head : string) (checkpoint : option CheckpointExpectation)
    (at' : string) (result : VerificationResult) : Prop :=
  vr_valid result = true ∧ vr_stream_id result = stream ∧ vr_from_sequence result = 1%N ∧
  vr_to_sequence result = k ∧ vr_computed_head_hash result = Some head ∧ vr_diagnostics result = [] ∧
  vr_verified_at result = at' ∧ vr_checkpoint_id result = checkpoint_id <$> checkpoint.

Lemma finish_verification_valid stream n previous checkpoint at' :
  vr_valid (finish_verification stream n previous checkpoint at') = true ↔
  ∃ head, previous = Some head ∧ (∀ c, checkpoint = Some c → checkpoint_event_hash c = head).
Proof.
  unfold finish_verification. destruct previous as [head|]; [|naive_solver].
  destruct checkpoint as [c|]; simpl; [|naive_solver].
  destruct (String.eqb_spec (checkpoint_event_hash c) head); simpl; naive_solver.
Qed.

Lemma finish_verification_accepted stream n head checkpoint at' :
  vr_valid (finish_verification stream n (Some head) checkpoint at') = true →
  accepted stream (n - 1) head checkpoint at' (finish_verification stream n (Some head) checkpoint at').
Proof.
  unfold finish_verification. destruct (is_some_and checkpoint _); [done|]. intros _. done.
Qed.

(** The loop accepts exactly the chains with distinct event identities. *)
Lemma verify_record_loop_valid stream checkpoint at' previous n revision seen records :
  vr_valid (verify_record_loop stream checkpoint at' previous n revision seen records) = true ↔
  chain stream n previous revision records ∧
  NoDup (event_ids records) ∧ (∀ id, id ∈ event_ids records → id ∉ seen) ∧
  ∃ head, chain_head previous records = Some head ∧
    ∀ c, checkpoint = Some c → checkpoint_event_hash c = head.
Proof.
  revert previous n revision seen. induction records as [|r records IH]; intros previous n revision seen.
  { cbn [verify_record_loop chain]. rewrite finish_verification_valid. unfold chain_head. simpl.
    setoid_rewrite elem_of_nil. pose proof (NoDup_nil_2 (A := string)). naive_solver. }
  cbn [verify_record_loop chain]. unfold event_ids. cbn [omap list_omap]. fold (event_ids records).
  assert (chain_head previous (r :: records) = chain_head (Some (event_hash r)) records) as ->.
  { unfold chain_head. rewrite last_cons. by destruct (last records). }
  set (later := (n <? sequence r)%N && _).
  assert (record_ok stream n previous r → later = false) as Hlater.
  { intros []. unfold later. rewrite ro_sequence0, N.ltb_irrefl. done. }
  assert (∀ id, is_some_and (Some id) (λ id, bool_decide (id ∈ seen)) = true ↔ id ∈ seen) as Hseen.
  { intros id. simpl. by rewrite bool_decide_eq_true. }
  destruct (is_some_and (string_field (event r) "event_id") _) eqn:Hdup.
  { rewrite failure_invalid. split; [done|]. intros (_ & _ & Hd & _).
    destruct (string_field (event r) "event_id") as [id|]; [|done]. apply Hseen in Hdup.
    destruct (Hd id); [by left|done]. }
  destruct (verify_one_record r stream n previous later checkpoint at') as [h|f] eqn:Hone.
  2: { assert (vr_valid f = false) as ->.
       { revert Hone. unfold verify_one_record. cbv zeta. repeat case_match; by intros [= <-]. }
       split; [done|]. intros ((Hr & _) & _). exfalso.
       assert (verify_one_record r stream n previous later checkpoint at' = Ok (event_hash r)) as Hok.
       { apply verify_one_record_ok. auto. }
       congruence. }
  apply verify_one_record_ok in Hone as (_ & Hr & ->).
  destruct (advance_task_revision revision (event r)) as [revision'|e] eqn:Hadv.
  2: { rewrite failure_invalid. split; [done|]. intros ((_ & ? & ? & _) & _). congruence. }
  pose proof (hash_record_bound _ _ _ _ _ (ro_hash _ _ _ _ Hr)) as Hn.
  rewrite saturating_next_small by lia. rewrite IH.
  destruct (string_field (event r) "event_id") as [id|]; simpl.
  - assert (id ∉ seen) by (by rewrite <-Hseen, Hdup). rewrite NoDup_cons. setoid_rewrite elem_of_cons.
    setoid_rewrite elem_of_union. setoid_rewrite elem_of_singleton. split; [|naive_solver].
    intros (Hc & Hnd & Hd & Hh). split_and!; [done|eauto|naive_solver|done|naive_solver|done].
  - naive_solver.
Qed.

Lemma chain_bound stream n previous revision records : (0 < n)%N → (n ≤ MAX_SAFE_JSON_INTEGER + 1)%N →
  chain stream n previous revision records → (n + len records ≤ MAX_SAFE_JSON_INTEGER + 1)%N.
Proof.
  unfold len. revert n previous revision.
  induction records as [|r records IH]; intros n previous revision Hn Hm; simpl; [lia|].
  intros (Hr & revision' & _ & Hc). pose proof (hash_record_bound _ _ _ _ _ (ro_hash _ _ _ _ Hr)).
  apply IH in Hc; lia.
Qed.

(** On a chain the loop runs to its end. *)
Lemma verify_record_loop_chain stream checkpoint at' previous n revision seen records :
  (0 < n)%N → chain stream n previous revision records →
  NoDup (event_ids records) → (∀ id, id ∈ event_ids records → id ∉ seen) →
  verify_record_loop stream checkpoint at' previous n revision seen records =
  finish_verification stream (n + len records) (chain_head previous records) checkpoint at'.
Proof.
  revert previous n revision seen. induction records as [|r records IH]; intros previous n revision seen Hn.
  { intros _ _ _. unfold len. simpl. by rewrite N.add_0_r. }
  intros (Hr & revision' & Hadv & Hc). unfold event_ids. cbn [omap list_omap]. fold (event_ids records).
  intros Hnd Hd. cbn [verify_record_loop]. set (later := (n <? sequence r)%N && _).
  assert (later = false) as ->.
  { unfold later. rewrite (ro_sequence _ _ _ _ Hr), N.ltb_irrefl. done. }
  assert (verify_one_record r stream n previous false checkpoint at' = Ok (event_hash r)) as ->
    by by apply verify_one_record_ok.
  rewrite Hadv. pose proof (hash_record_bound _ _ _ _ _ (ro_hash _ _ _ _ Hr)).
  rewrite saturating_next_small by lia.
  replace (n + len (r :: records))%N with (n + 1 + len records)%N by (unfold len; simpl; lia).
  assert (chain_head previous (r :: records) = chain_head (Some (event_hash r)) records) as ->.
  { unfold chain_head. rewrite last_cons. by destruct (last records). }
  destruct (string_field (event r) "event_id") as [id|] eqn:Hid; simpl.
  - apply NoDup_cons in Hnd as [Hni Hnd]. rewrite bool_decide_eq_false_2 by (apply Hd; by left).
    apply IH; [lia|done|done|]. intros id' Hid'. apply not_elem_of_union. split; [|apply Hd; by right].
    apply not_elem_of_singleton. by intros ->.
  - apply IH; [lia|done|done|done].
Qed.

(** The requests that [verify_records] refuses to run. *)
Definition request_ok (stream : string) (checkpoint : option CheckpointExpectation) (at' : string) : Prop :=
  validate_stream_id stream = Ok () ∧ validate_timestamp at' = Ok () ∧ validate_checkpoint checkpoint = Ok ().

Lemma verify_records_spec records stream checkpoint at' result :
  verify_records records stream checkpoint at' = Ok result ∧ vr_valid result = true ↔
  request_ok stream checkpoint at' ∧ chain stream 1 None None records ∧ NoDup (event_ids records) ∧
  ∃ head, chain_head None records = Some head ∧
    (∀ c, checkpoint = Some c → checkpoint_event_hash c = head) ∧
    result = finish_verification stream (1 + len records) (Some head) checkpoint at' ∧
    accepted stream (len records) head checkpoint at' result.
Proof.
  unfold verify_records, request_ok. rewrite !result_seq_ok.
  assert (∀ head, (∀ c, checkpoint = Some c → checkpoint_event_hash c = head) →
    accepted stream (len records) head checkpoint at'
      (finish_verification stream (1 + len records) (Some head) checkpoint at')) as Hacc.
  { intros head Hh. replace (len records) with (1 + len records - 1)%N at 1 by lia.
    apply finish_verification_accepted, finish_verification_valid. eauto. }
  split.
  - intros [(Hs & Ht & Hc & [= <-]) Hv]. pose proof Hv as Hv'.
    apply verify_record_loop_valid in Hv' as (Hch & Hnd & _ & head & Hhead & Hcp).
    rewrite (verify_record_loop_chain _ _ _ _ _ _ _ _ N.lt_0_1 Hch Hnd), Hhead by set_solver.
    split_and!; try done. exists head. auto.
  - intros ((Hs & Ht & Hc) & Hch & Hnd & head & Hhead & Hcp & -> & Ha). split; [|apply Ha].
    split_and!; try done. by rewrite (verify_record_loop_chain _ _ _ _ _ _ _ _ N.lt_0_1 Hch Hnd), Hhead by set_solver.
Qed.

(** [verify_records] reports a valid stream exactly when the request is well-formed and the records are
    a chain from genesis: consecutive sequences from 1, each record naming the hash of the one before and
    carrying the hash of its own contents, [task.created] first and only first, Task revisions and states
    continuous, no event identity repeated, every event within its contract, and the last hash the
    checkpointed one when a checkpoint is given.  The report then counts all the records and names the
    hash of the last one. *)
Theorem verify_records_exact records stream checkpoint at' result :
  verify_records records stream checkpoint at' = Ok result ∧ vr_valid result = true ↔
  request_ok stream checkpoint at' ∧ chain stream 1 None None records ∧ NoDup (event_ids records) ∧
  ∃ head, chain_head None records = Some head ∧
    (∀ c, checkpoint = Some c → checkpoint_event_hash c = head) ∧
    result = finish_verification stream (1 + len records) (Some head) checkpoint at' ∧
    accepted stream (len records) head checkpoint at' result.
Proof. apply verify_records_spec. Qed.

(** ** Tamper evidence *)

(** Member names in strictly increasing order, as a [BTreeMap] keeps them. *)
Fixpoint keys_sorted (keys : list string) : bool :=
  match keys with
  | k :: (k' :: _) as rest => String.leb k k' && negb (String.eqb k k') && keys_sorted rest
  | _ => true
  end.

(** No scalar of the string has more than three continuation bytes, as in UTF-8. *)
Fixpoint utf8_runs (continuations : nat) (s : string) : bool :=
  match s with
  | EmptyString => true
  | String c s' =>
      if char_start c then utf8_runs 3 s'
      else match continuations with 0 => false | S continuations' => utf8_runs continuations' s' end
  end.

Definition utf8_shape (s : string) : bool := utf8_runs 0 s.

(** A value as the crate holds it, without floats: UTF-8 text, ordered members and exactly representable
    integers. *)
Fixpoint plain (v : Value) : bool :=
  match v with
  | Null | Bool _ => true
  | Str s => utf8_shape s
  | Num (PosInt n) => (n <=? MAX_SAFE_JSON_INTEGER)%N
  | Num (NegInt z) => (- MAX_SAFE_JSON_INTEGER_I64 <=? z)%Z && (z <? 0)%Z
  | Num (Float _) => false
  | Array vs => forallb plain vs
  | Object ms => keys_sorted ms.*1 && forallb (λ kv, utf8_shape kv.1 && plain kv.2) ms
  end.

(** Two plain values with the same canonical form are equal (RFC 8785). *)
Definition jcs_injective : Prop :=
  ∀ v w s, plain v = true → plain w = true → jcs_to_vec v = Ok s → jcs_to_vec w = Ok s → v = w.

Definition collision : Prop := ∃ x y, x ≠ y ∧ sha256 x = sha256 y.

Lemma utf8_runs_ascii n s : string_forallb char_start s = true → utf8_runs n s = true.
Proof.
  revert n. induction s as [|c s IH]; intros n; simpl; [done|]. rewrite andb_true_iff. intros [-> ?]. auto.
Qed.

Lemma utf8_shape_ascii s : string_forallb char_start s = true → utf8_shape s = true.
Proof. apply utf8_runs_ascii. Qed.

Lemma utf8_runs_length n s : utf8_runs n s = true → byte_len s ≤ n + 4 * chars_count s.
Proof.
  revert n. unfold byte_len. induction s as [|c s IH]; intros n; cbn [utf8_runs String.length chars_count]; [lia|].
  destruct (char_start c); [intros ?%IH; lia|]. destruct n; [done|]. intros ?%IH. lia.
Qed.

(** A scalar takes at most four bytes. *)
Lemma utf8_shape_bytes s : utf8_shape s = true → (bytes s ≤ 4 * count s)%N.
Proof. intros ?%utf8_runs_length. unfold bytes, count. lia. Qed.

Lemma string_forallb_impl (p q : ascii → bool) s :
  (∀ c, p c = true → q c = true) → string_forallb p s = true → string_forallb q s = true.
Proof. intros Hpq. induction s as [|c s IH]; simpl; [done|]. rewrite !andb_true_iff. naive_solver. Qed.

(** Decide a property of all 256 bytes. *)
Lemma byte_forall (f : ascii → bool) :
  forallb f (Ascii.ascii_of_nat <$> seq 0 256) = true → ∀ c, f c = true.
Proof.
  rewrite forallb_forall. intros Hf c. apply Hf, list_elem_of_In, list_elem_of_fmap.
  exists (Ascii.nat_of_ascii c). split; [by rewrite Ascii.ascii_nat_embedding|].
  apply elem_of_seq. pose proof (Ascii.nat_ascii_bounded c). lia.
Qed.

Lemma hash_byte_start c : hash_byte c = true → char_start c = true.
Proof.
  intros Hc. pose proof (byte_forall (λ c, implb (hash_byte c) (char_start c)) ltac:(vm_compute; reflexivity) c) as Hb.
  simpl in Hb. by rewrite Hc in Hb.
Qed.

Lemma lower_hex_start c : lower_hex c = true → char_start c = true.
Proof.
  intros Hc. pose proof (byte_forall (λ c, implb (lower_hex c) (char_start c)) ltac:(vm_compute; reflexivity) c) as Hb.
  simpl in Hb. by rewrite Hc in Hb.
Qed.

Lemma valid_hash_utf8 s : valid_hash s = true → utf8_shape s = true.
Proof.
  intros (d & -> & _ & Hd)%valid_hash_digest. apply utf8_shape_ascii. rewrite string_forallb_append.
  apply andb_true_iff. split; [done|]. by eapply string_forallb_impl; [apply hash_byte_start|].
Qed.

Lemma stream_id_ok task_id stream :
  stream_id task_id = Ok stream ↔
  validate_task_id task_id = Ok () ∧ stream = "task:v1:sha256:" +++ hex (sha256 (STREAM_ID_DOMAIN +++ task_id)).
Proof. unfold stream_id. rewrite result_seq_ok. naive_solver. Qed.

Lemma stream_id_utf8 task_id stream : stream_id task_id = Ok stream → utf8_shape stream = true.
Proof.
  intros [_ ->]%stream_id_ok. apply utf8_shape_ascii. rewrite string_forallb_append. apply andb_true_iff.
  split; [done|]. by eapply string_forallb_impl; [apply lower_hex_start|apply hex_lower].
Qed.

Lemma assoc_remove_absent {V} k (l : list (string * V)) : assoc_get k l = None → assoc_remove k l = l.
Proof.
  induction l as [|[k' v] l IH]; [done|]. rewrite assoc_remove_cons. simpl. repeat case_bool_decide; try congruence.
  intros. by rewrite IH.
Qed.

(** The event contract keeps the journal's own fields out of an event. *)
Lemma validate_event_no_hashes task_id ev : validate_event task_id ev = Ok () →
  value_get "event_hash" ev = None ∧ value_get "previous_event_hash" ev = None ∧
  string_field ev "task_id" = Some task_id ∧ within_shape_bounds ev = true ∧
  validate_task_id task_id = Ok () ∧
  ∃ s, json_to_string ev = Ok s ∧ (bytes s ≤ MAX_EVENT_BYTES)%N.
Proof.
  unfold validate_event, validate_event_contract, to_vec.
  rewrite !result_seq_ok, if_err_ok, negb_false_iff, result_bind_ok.
  setoid_rewrite if_err_ok. setoid_rewrite if_err_ok. setoid_rewrite if_err_ok.
  setoid_rewrite result_bind_ok. setoid_rewrite if_err_ok. setoid_rewrite if_err_ok.
  intros ((Htid & Hb & s & Hs & Hlen & _ & Hno & validator & _ & _ & Htask & _) & _).
  apply orb_false_iff in Hno as [He Hp]. rewrite negb_false_iff, bool_decide_eq_true in Htask.
  destruct (value_get "event_hash" ev); [done|]. destruct (value_get "previous_event_hash" ev); [done|].
  split_and!; try done; [apply Htid..|]. destruct (json_to_string ev) as [s'|]; [|done]. injection Hs as ->. exists s. split; [done|].
  by apply N.ltb_ge in Hlen.
Qed.

Lemma hash_record_ok stream n previous ev h :
  hash_record stream n previous ev = Ok h ↔
  (0 < n ≤ MAX_SAFE_JSON_INTEGER)%N ∧ within_shape_bounds ev = true ∧ ∃ members canonical,
    ev = Object members ∧ jcs_to_vec (record_view stream n previous members) = Ok canonical ∧
    h = "sha256:" +++ hex (sha256 (HASH_DOMAIN +++ canonical)).
Proof.
  unfold hash_record. rewrite if_err_ok, !orb_false_iff, N.eqb_neq, N.ltb_ge, negb_false_iff.
  destruct ev as [| | | | |members]; cbn [as_object]; try naive_solver.
  rewrite result_bind_ok. split.
  - intros [[[? ?] ?] (c & Hc & [= <-])]. split_and!; [lia..|done|]. exists members, c.
    destruct (jcs_to_vec (record_view stream n previous members)); [|done]. by injection Hc as ->.
  - intros (? & ? & ms & c & [= <-] & Hc & ->). split_and!; [lia..|done|]. exists c. by rewrite Hc.
Qed.

(** The members of the hashed view, in key order. *)
Lemma record_view_members stream n previous members :
  record_view stream n previous members =
  Object [("event", Object (assoc_remove "previous_event_hash" (assoc_remove "event_hash" members)));
          ("hash_profile", Str HASH_PROFILE); ("previous_event_hash", json_option previous);
          ("schema_version", Str SCHEMA_VERSION); ("sequence", Num (PosInt n)); ("stream_id", Str stream)].
Proof. reflexivity. Qed.

Lemma plain_object ms :
  plain (Object ms) = keys_sorted ms.*1 && forallb (λ kv, utf8_shape kv.1 && plain kv.2) ms.
Proof. reflexivity. Qed.

Lemma record_view_plain stream n previous members :
  (n ≤ MAX_SAFE_JSON_INTEGER)%N → utf8_shape stream = true →
  (∀ h, previous = Some h → valid_hash h = true) → plain (Object members) = true →
  assoc_get "event_hash" members = None → assoc_get "previous_event_hash" members = None →
  plain (record_view stream n previous members) = true.
Proof.
  intros Hn Hs Hh Hp He Hpe. rewrite record_view_members, (assoc_remove_absent _ _ He), (assoc_remove_absent _ _ Hpe).
  apply N.leb_le in Hn. rewrite plain_object. apply andb_true_iff. split; [vm_compute; reflexivity|].
  cbn [forallb fst snd]. rewrite Hp. change (plain (Num (PosInt n))) with (n <=? MAX_SAFE_JSON_INTEGER)%N.
  change (plain (Str stream)) with (utf8_shape stream). rewrite Hn, Hs.
  assert (plain (json_option previous) = true) as ->.
  { destruct previous as [h|]; [|done]. change (utf8_shape h = true). apply valid_hash_utf8. auto. }
  vm_compute. reflexivity.
Qed.

(** The bytes whose digest is the hash of a record. *)
Definition hash_input (r : JournalRecord) (x : string) : Prop :=
  ∃ members canonical, event r = Object members ∧
    jcs_to_vec (record_view (record_stream_id r) (sequence r) (previous_event_hash r) members) = Ok canonical ∧
    x = HASH_DOMAIN +++ canonical.

(** A record of each list: different bytes were hashed, to the same digest. *)
Definition records_collide (records records' : list JournalRecord) : Prop :=
  ∃ r r' x y, r ∈ records ∧ r' ∈ records' ∧ hash_input r x ∧ hash_input r' y ∧ x ≠ y ∧ sha256 x = sha256 y.

Lemma records_collide_prefix records records' r r' :
  records_collide records records' → records_collide (records ++ [r]) (records' ++ [r']).
Proof. intros (a & b & x & y & Ha & Hb & Hab). exists a, b, x, y. rewrite !elem_of_app. auto. Qed.

(** Equal hashes come from equal records, or the records collide. *)
Lemma record_hash_determines stream stream' n n' previous previous' r r' : jcs_injective →
  record_ok stream n previous r → record_ok stream' n' previous' r' →
  plain (event r) = true → plain (event r') = true → event_hash r = event_hash r' →
  records_collide [r] [r'] ∨ (stream = stream' ∧ n = n' ∧ previous = previous' ∧ r = r').
Proof.
  intros Hinj Hr Hr' Hp Hp' Heq.
  pose proof (ro_hash _ _ _ _ Hr) as (Hn & _ & ms & c & Hms & Hc & Hh)%hash_record_ok.
  pose proof (ro_hash _ _ _ _ Hr') as (Hn' & _ & ms' & c' & Hms' & Hc' & Hh')%hash_record_ok.
  destruct (ro_task _ _ _ _ Hr) as (t & _ & Hst%stream_id_utf8 & Hv).
  destruct (ro_task _ _ _ _ Hr') as (t' & _ & Hst'%stream_id_utf8 & Hv').
  apply validate_event_no_hashes in Hv as (He1 & He2 & _), Hv' as (He1' & He2' & _).
  rewrite Hms in *. rewrite Hms' in *. simpl in He1, He2, He1', He2'.
  destruct (decide (HASH_DOMAIN +++ c = HASH_DOMAIN +++ c')) as [Hcc|Hcc].
  2: { left. exists r, r', (HASH_DOMAIN +++ c), (HASH_DOMAIN +++ c'). split_and!; [by left|by left|..|done|].
       - exists ms, c. by rewrite (ro_stream _ _ _ _ Hr), (ro_sequence _ _ _ _ Hr), (ro_previous _ _ _ _ Hr).
       - exists ms', c'. by rewrite (ro_stream _ _ _ _ Hr'), (ro_sequence _ _ _ _ Hr'), (ro_previous _ _ _ _ Hr').
       - apply hex_inj. rewrite Hh, Hh' in Heq. by apply append_inj_l in Heq. }
  right. apply append_inj_l in Hcc as <-.
  assert (record_view stream n previous ms = record_view stream' n' previous' ms') as Hview.
  { eapply Hinj; [apply record_view_plain|apply record_view_plain|done|done];
      done || lia || (by eapply ro_previous_valid). }
  rewrite !record_view_members in Hview. rewrite !assoc_remove_absent in Hview; try done.
  2,3: rewrite assoc_remove_get; case_bool_decide; done.
  injection Hview as Hev Hprev Hseq Hst2.
  assert (previous = previous') as <- by (destruct previous, previous'; simplify_eq/=; done).
  split_and!; [done..|]. destruct Hr, Hr'. destruct r, r'. simpl in *. congruence.
Qed.

(** The revision after records. *)
Fixpoint revisions (revision : Revision) (records : list JournalRecord) : Res Revision :=
  match records with
  | [] => Ok revision
  | r :: records' => match advance_task_revision revision (event r) with
                     | Ok revision' => revisions revision' records'
                     | Err e => Err e
                     end
  end.

Lemma chain_snoc stream n previous revision records r :
  chain stream n previous revision (records ++ [r]) ↔
  chain stream n previous revision records ∧
  record_ok stream (n + len records) (chain_head previous records) r ∧
  ∃ revision' revision'', revisions revision records = Ok revision' ∧
    advance_task_revision revision' (event r) = Ok revision''.
Proof.
  revert n previous revision. induction records as [|r' records IH]; intros n previous revision.
  - unfold len. simpl. rewrite N.add_0_r. unfold chain_head. simpl. naive_solver.
  - cbn [app chain revisions].
    replace (n + len (r' :: records))%N with (n + 1 + len records)%N by (unfold len; simpl; lia).
    assert (chain_head previous (r' :: records) = chain_head (Some (event_hash r')) records) as ->.
    { unfold chain_head. rewrite last_cons. by destruct (last records). }
    destruct (advance_task_revision revision (event r')) as [revision'|e]; [|naive_solver].
    setoid_rewrite IH. naive_solver.
Qed.

Lemma chain_head_snoc previous records r : chain_head previous (records ++ [r]) = Some (event_hash r).
Proof. unfold chain_head. by rewrite last_snoc. Qed.

(** Chains from genesis with the same last hash are equal, up to a collision. *)
Lemma chain_determined stream stream' records records' head : jcs_injective →
  chain stream 1 None None records → chain stream' 1 None None records' →
  Forall (λ r, plain (event r) = true) records → Forall (λ r, plain (event r) = true) records' →
  chain_head None records = Some head → chain_head None records' = Some head →
  records_collide records records' ∨ (stream = stream' ∧ records = records').
Proof.
  intros Hinj. revert records' head. induction records as [|r records IH] using rev_ind; [done|].
  intros records'. destruct records' as [|r' records' _] using rev_ind; [done|].
  intros head (Hc & Hr & _)%chain_snoc (Hc' & Hr' & _)%chain_snoc.
  rewrite !Forall_app, !Forall_singleton, !chain_head_snoc. intros [Hp Hpr] [Hp' Hpr'] [= <-] [= Heq].
  destruct (record_hash_determines _ _ _ _ _ _ _ _ Hinj Hr Hr' Hpr Hpr' (eq_sym Heq))
    as [(a & b & x & y & ->%list_elem_of_singleton & ->%list_elem_of_singleton & Hcol)|(-> & Hlen & Hprev & ->)].
  { left. exists r, r', x, y. rewrite !elem_of_app, !list_elem_of_singleton. auto. }
  destruct (chain_head None records) as [h|] eqn:Hh.
  - destruct (IH records' h) as [?|[_ ->]]; auto using records_collide_prefix.
  - right. destruct records as [|r1 records _] using rev_ind; [|by rewrite chain_head_snoc in Hh].
    destruct records' as [|r1 records' _] using rev_ind; [done|by rewrite chain_head_snoc in Hprev].
Qed.

(** the journal is tamper-evident.  Two lists of records that both verify, and whose reports name the
    same head hash, are the same list of the same stream, or the hash inputs of a record of each are two
    different byte strings with the same SHA-256 digest: no record can be altered, dropped, inserted or reordered under a known head hash. *)
Theorem chain_tamper_evident records records' stream stream' checkpoint checkpoint' at' at'' result result' :
  jcs_injective →
  Forall (λ r, plain (event r) = true) records → Forall (λ r, plain (event r) = true) records' →
  verify_records records stream checkpoint at' = Ok result → vr_valid result = true →
  verify_records records' stream' checkpoint' at'' = Ok result' → vr_valid result' = true →
  vr_computed_head_hash result = vr_computed_head_hash result' →
  records_collide records records' ∨ (stream = stream' ∧ records = records').
Proof.
  intros Hinj Hp Hp' Hr Hv Hr' Hv' Hhead.
  destruct (proj1 (verify_records_spec _ _ _ _ _) (conj Hr Hv)) as (_ & Hc & _ & head & Hh & _ & _ & Ha).
  destruct (proj1 (verify_records_spec _ _ _ _ _) (conj Hr' Hv')) as (_ & Hc' & _ & head' & Hh' & _ & _ & Ha').
  destruct Ha as (_ & _ & _ & _ & Ha & _). destruct Ha' as (_ & _ & _ & _ & Ha' & _).
  assert (head' = head) as -> by congruence.
  by eapply chain_determined.
Qed.

End chain.
