(* ===== verification/JournalState.v ===== *)
(** * Reachable journals

    The invariant of the journal of [crates/aios-provenance/src/lib.rs]: every database that
    a sequence of successful [append_in_tx] calls can build, for any interleaving of Tasks,
    holds in each stream the rows of a chain ([reachable_streams]).  From it follow the
    verification of every stream, the exclusion of stale writers, and the paging of
    [list_events].

    [reachable] is the step relation; the appended events are values of the crate without
    floats ([plain]).  [ProvenanceLaws] states what the proofs use of the external code:
    the length of a SHA-256 digest, and that [serde_json] reads back what it writes. *)

From S2P Require Import Prelude Json Contracts Numbers Limits Parse Hash Details Events Journal JournalChain.

Class ProvenanceLaws {lib : ProvenanceLib} : Prop := {
  sha256_length s : byte_len (sha256 s) = 32;
  json_reads_back v s : plain v = true → json_to_string v = Ok s → parse_unique_json_bytes s = Ok v;
}.

Lemma Forall2_rev_ind' {A B} (P : A → B → Prop) (Q : list A → list B → Prop) :
  Q [] [] → (∀ l k x y, Forall2 P l k → Q l k → P x y → Q (l ++ [x]) (k ++ [y])) → ∀ l k, Forall2 P l k → Q l k.
Proof.
  intros Hnil Hsnoc l. induction l as [|x l IH] using rev_ind; intros k Hf.
  - by apply Forall2_nil_inv_l in Hf as ->.
  - apply Forall2_app_inv_l in Hf as (k1 & k2 & H1 & (y & k3 & Hxy & H2 & ->)%Forall2_cons_inv_l & ->).
    apply Forall2_nil_inv_l in H2 as ->. auto.
Qed.

Section state.

Context {lib : ProvenanceLib} {laws : ProvenanceLaws}.

(** ** Reachability *)

Definition empty_db (refs : Row → bool) : Db := {| rows := []; references := refs |}.

Inductive reachable : Db → Prop :=
  | reachable_empty refs : reachable (empty_db refs)
  | reachable_append db task_id ev expected r db' :
      reachable db → plain ev = true → append_in_tx db task_id ev expected = Ok (r, db') → reachable db'.

(** The row that stores a record. *)
Definition represents (row : Row) (r : JournalRecord) : Prop :=
  ∃ task_id event_id json,
    row = event_row task_id (record_stream_id r) event_id json (event_hash r) (sequence r)
            (previous_event_hash r) (event r) ∧
    schema_version r = SCHEMA_VERSION ∧ hash_profile r = HASH_PROFILE ∧
    string_field (event r) "event_id" = Some event_id ∧
    is_Some (string_field (event r) "timestamp") ∧ is_Some (string_field (event r) "event_type") ∧
    validate_event task_id (event r) = Ok () ∧ plain (event r) = true ∧ json_to_string (event r) = Ok json.

(** ** Reading back a stored record *)

Lemma hash_record_valid stream n previous ev h : hash_record stream n previous ev = Ok h → valid_hash h = true.
Proof using laws.
  intros (_ & _ & ms & c & _ & _ & ->)%hash_record_ok. apply valid_hash_digest. eexists. split_and!; [done| |].
  - rewrite hex_length, sha256_length. done.
  - eapply string_forallb_impl; [|apply hex_lower]. intros ch Hch.
    pose proof (byte_forall (λ c, implb (lower_hex c) (hash_byte c)) ltac:(vm_compute; reflexivity) ch) as Hb.
    simpl in Hb. by rewrite Hch in Hb.
Qed.

Lemma valid_hash_bytes h : valid_hash h = true → (bytes h ≤ MAX_EVENT_BYTES)%N.
Proof.
  intros (d & -> & Hd & _)%valid_hash_digest. unfold bytes. rewrite byte_len_append, Hd. vm_compute. discriminate.
Qed.

Lemma stream_id_bytes task_id stream : stream_id task_id = Ok stream → bytes stream = 79%N.
Proof using laws.
  intros [_ ->]%stream_id_ok. unfold bytes. by rewrite byte_len_append, hex_length, sha256_length.
Qed.

Lemma stream_id_validates task_id stream : stream_id task_id = Ok stream → validate_stream_id stream = Ok ().
Proof using laws.
  intros Hs. pose proof (stream_id_bytes _ _ Hs) as Hb. apply stream_id_ok in Hs as [_ ->].
  unfold validate_stream_id. set (h := hex _) in *.
  assert (strip_prefix "task:" ("task:v1:sha256:" +++ h) = Some (String "v" ("1:sha256:" +++ h))) as ->
    by by apply strip_prefix_Some.
  rewrite Hb. assert (string_forallb stream_char ("1:sha256:" +++ h) = true) as ->; [|done].
  rewrite string_forallb_append. apply andb_true_iff. split; [done|].
  eapply string_forallb_impl; [|apply hex_lower]. intros ch Hch.
  pose proof (byte_forall (λ c, implb (lower_hex c) (stream_char c)) ltac:(vm_compute; reflexivity) ch) as Hs.
  simpl in Hs. by rewrite Hch in Hs.
Qed.

Lemma plain_member ms k v : plain (Object ms) = true → assoc_get k ms = Some v → plain v = true.
Proof.
  rewrite plain_object, andb_true_iff, forallb_forall. intros [_ Hall] Hk%assoc_get_elem_of%list_elem_of_In.
  specialize (Hall _ Hk). by apply andb_true_iff in Hall as [_ ?].
Qed.

(** A string member of an event fits in its column. *)
Lemma string_field_bytes ev key s :
  plain ev = true → within_shape_bounds ev = true → string_field ev key = Some s → (bytes s ≤ MAX_EVENT_BYTES)%N.
Proof.
  intros Hp Hb (v & Hv & Hs)%bind_Some. destruct v as [| | |t| |]; simplify_eq/=.
  destruct ev as [| | | | |ms]; try done. simpl in Hv.
  assert (utf8_shape s = true) as Hu by exact (plain_member _ _ _ Hp Hv).
  apply utf8_shape_bytes in Hu.
  destruct (proj1 (proj2 (within_shape_bounds_spec _)) Hb 2%N (Str s)) as [_ Hc].
  { change 2%N with (1 + 1)%N. eapply subvalue_object; [by apply assoc_get_elem_of|constructor]. }
  cbn [node_in_bounds] in Hc. unfold MAX_STRING_CHARS, MAX_EVENT_BYTES in *. lia.
Qed.

Lemma bounded_text column s : (bytes s ≤ MAX_EVENT_BYTES)%N → bounded_row_text column (SqlText s) = Ok s.
Proof. intros Hs. unfold bounded_row_text. by rewrite (proj2 (N.ltb_ge _ _) Hs). Qed.

Lemma bounded_nullable_text column o : (∀ s, o = Some s → (bytes s ≤ MAX_EVENT_BYTES)%N) →
  bounded_nullable_row_text column (sql_option o) = Ok o.
Proof.
  intros Ho. destruct o as [s|]; [|done]. unfold sql_option, bounded_nullable_row_text.
  rewrite bounded_text by auto. done.
Qed.

Lemma sequence_column n : (if (0 <=? Z.of_N n)%Z then Ok (Z.to_N (Z.of_N n)) else Err (FromSqlConversionFailure 3)) = Ok n.
Proof. rewrite (proj2 (Z.leb_le 0 (Z.of_N n)) (N2Z.is_nonneg n)). by rewrite N2Z.id. Qed.

Section read_back.

Context (row : Row) (r : JournalRecord) (stream : string) (n : N) (previous : option string)
  (Hrep : represents row r) (Hok : record_ok stream n previous r).

Lemma represents_record : row_to_record row = Ok r.
Proof using laws Hrep Hok.
  destruct Hrep as (task_id & event_id & json & -> & Hsv & Hhp & _ & _ & _ & Hv & Hp & Hj).
  apply validate_event_no_hashes in Hv as (_ & _ & _ & _ & _ & s & Hs & Hlen).
  assert (s = json) as -> by congruence.
  destruct (ro_task _ _ _ _ Hok) as (t & _ & Hst & _). pose proof (stream_id_bytes _ _ Hst) as Hsb.
  rewrite <-(ro_stream _ _ _ _ Hok) in Hsb.
  unfold row_to_record, event_row. cbn [col_event_json col_schema_version col_hash_profile col_stream_id
    col_sequence col_previous_event_hash col_event_hash mbind result_bind].
  rewrite (proj2 (N.ltb_ge _ _) Hlen), (json_reads_back _ _ Hp Hj). cbn [map_err mbind result_bind].
  rewrite sequence_column, (bounded_text 0), (bounded_text 1) by (by vm_compute).
  rewrite (bounded_text 2) by (rewrite Hsb; by vm_compute).
  rewrite (bounded_text 6) by apply valid_hash_bytes, (ro_valid _ _ _ _ Hok).
  rewrite bounded_nullable_text.
  - cbn [mbind result_bind]. rewrite <-Hsv, <-Hhp. by destruct r.
  - intros h Hh. apply valid_hash_bytes. eapply (ro_previous_valid _ _ _ _ Hok).
    by rewrite <-(ro_previous _ _ _ _ Hok).
Qed.

Lemma represents_index : ∃ index, row_index row = Ok index ∧ index_matches index (event r) = true.
Proof using Hrep.
  destruct Hrep as (task_id & event_id & json & -> & _ & _ & Hid & [ts Hts] & [et Het] & Hv & Hp & _).
  apply validate_event_no_hashes in Hv as (_ & _ & Htask & Hb & _).
  assert (∀ k s, string_field (event r) k = Some s → (bytes s ≤ MAX_EVENT_BYTES)%N) as Hbytes
    by (intros; by eapply string_field_bytes).
  unfold row_index, event_row. cbn [col_event_id col_task_id col_timestamp col_event_type
    col_semantic_program_hash col_ir_version col_registry_snapshot_id col_node_id col_execution_binding_id
    col_provider_id col_status]. rewrite Hts, Het. cbn [sql_option].
  rewrite !bounded_text by eauto. cbn [mbind result_bind].
  rewrite !bounded_nullable_text by eauto. cbn [mbind result_bind].
  eexists. split; [done|]. unfold index_matches.
  cbn [ix_event_id ix_task_id ix_timestamp ix_event_type ix_semantic_program_hash ix_ir_version
       ix_registry_snapshot_id ix_node_id ix_execution_binding_id ix_provider_id ix_status].
  rewrite Hts, Het, Hid, Htask. cbn [default from_option]. rewrite !String.eqb_refl, !bool_decide_eq_true_2 by done.
  done.
Qed.

End read_back.

(** ** What a successful append did *)

Record appended (db : Db) (task_id : string) (ev : Value) (expected : ExpectedHead) (head : option StreamHead)
    (r : JournalRecord) (db' : Db) : Prop := {
  ap_event : validate_event task_id ev = Ok ();
  ap_stream : stream_id task_id = Ok (record_stream_id r);
  ap_head : get_head db (record_stream_id r) = Ok head;
  ap_expected : head_expected expected head = true;
  ap_sequence : sequence r = match head with Some h => saturating_next (head_sequence h) | None => 1%N end;
  ap_genesis : validate_sequence_event_invariant (sequence r) ev = Ok ();
  ap_revision : string_field ev "event_type" = Some "task.transitioned" →
    ∃ latest latest', latest_task_revision_in_tx db (record_stream_id r) = Ok latest ∧
      advance_task_revision latest ev = Ok latest';
  ap_previous : previous_event_hash r = head_event_hash <$> head;
  ap_record_event : event r = ev;
  ap_schema : schema_version r = SCHEMA_VERSION;
  ap_profile : hash_profile r = HASH_PROFILE;
  ap_hash : hash_record (record_stream_id r) (sequence r) (previous_event_hash r) ev = Ok (event_hash r);
  ap_row : ∃ event_id json, string_field ev "event_id" = Some event_id ∧ json_to_string ev = Ok json ∧
    let row := event_row task_id (record_stream_id r) event_id json (event_hash r) (sequence r)
                 (previous_event_hash r) ev in
    row_admitted db row = Ok () ∧ rows db' = rows db ++ [row] ∧ references db' = references db;
}.

Lemma append_appended db task_id ev expected r db' :
  append_in_tx db task_id ev expected = Ok (r, db') → ∃ head, appended db task_id ev expected head r db'.
Proof.
  unfold append_in_tx. rewrite result_seq_ok, if_err_ok, result_bind_ok.
  intros (Hv & _ & s & Hs & (head & Hh & Happ)%result_bind_ok).
  apply if_err_ok in Happ as [He%negb_false_iff Happ]. cbv zeta in Happ.
  apply if_err_ok in Happ as [_ Happ]. apply result_seq_ok in Happ as [Hg Happ].
  apply result_seq_ok in Happ as [Hrev Happ]. apply result_bind_ok in Happ as (h & Hhash & Happ).
  apply result_bind_ok in Happ as (event_id & Hid & Happ). apply if_err_ok in Happ as [_ Happ].
  apply result_bind_ok in Happ as (json & Hj & Happ). apply result_bind_ok in Happ as (db2 & Hins & Heq).
  injection Heq as <- <-. exists head. unfold storage, insert_row in Hins.
  destruct (row_admitted db _) as [[]|] eqn:Hadm; [|done]. injection Hins as <-.
  constructor; cbn [record_stream_id sequence previous_event_hash event schema_version hash_profile event_hash];
    try done.
  - intros Ht. rewrite bool_decide_eq_true_2 in Hrev by done.
    apply result_bind_ok in Hrev as (latest & Hl & (latest' & Ha & _)%result_bind_ok). eauto.
  - exists event_id, json. split_and!; [by destruct (string_field ev "event_id"); simplify_eq/=| |done|done|done].
    unfold to_vec in Hj. destruct (json_to_string ev); [|done]. by injection Hj as ->.
Qed.

(** ** The rows of a stream after an append *)

Lemma stream_rows_other db db' row s stream : rows db' = rows db ++ [row] → col_stream_id row = SqlText stream →
  s ≠ stream → stream_rows db' s = stream_rows db s.
Proof.
  intros Hr Hc Hne. unfold stream_rows. rewrite Hr, filter_app, filter_cons, Hc. cbn [is_text].
  rewrite (proj2 (String.eqb_neq s stream) Hne), decide_False by auto. by rewrite app_nil_r.
Qed.

Lemma stream_rows_snoc db db' row stream : rows db' = rows db ++ [row] → col_stream_id row = SqlText stream →
  (∀ r, r ∈ stream_rows db stream → (col_sequence r ≤ col_sequence row)%Z) →
  stream_rows db' stream = stream_rows db stream ++ [row].
Proof.
  intros Hr Hc Hmax. unfold stream_rows. rewrite Hr, filter_app, filter_cons, Hc. cbn [is_text].
  rewrite String.eqb_refl, decide_True by done. rewrite filter_nil. apply sort_by_snoc_max.
  intros x Hx. apply Z.leb_le, Hmax. unfold stream_rows. by rewrite elem_of_sort_by.
Qed.

(** ** The invariant *)

(** The rows of the stream store the records of a chain from genesis. *)
Definition stream_ok (db : Db) (stream : string) (records : list JournalRecord) : Prop :=
  Forall2 represents (stream_rows db stream) records ∧ chain stream 1 None None records.

Lemma chain_lookup stream n previous revision records i r :
  chain stream n previous revision records → records !! i = Some r →
  ∃ previous', record_ok stream (n + N.of_nat i) previous' r.
Proof.
  revert n previous revision i. induction records as [|r' records IH]; intros n previous revision i; [done|].
  intros (Hr & revision' & _ & Hc) Hi. destruct i as [|i]; simpl in Hi.
  - injection Hi as <-. exists previous. by rewrite N.add_0_r.
  - destruct (IH _ _ _ _ Hc Hi) as [previous' Hp]. exists previous'.
    by replace (n + N.of_nat (S i))%N with (n + 1 + N.of_nat i)%N by lia.
Qed.

Lemma represents_sequence row r : represents row r → col_sequence row = Z.of_N (sequence r).
Proof. by intros (? & ? & ? & -> & _). Qed.

Lemma stream_ok_sequence db stream records row :
  stream_ok db stream records → row ∈ stream_rows db stream → (1 ≤ col_sequence row ≤ Z.of_N (len records))%Z.
Proof.
  intros [Hf Hc] [i Hi]%list_elem_of_lookup. destruct (Forall2_lookup_l _ _ _ _ _ Hf Hi) as (r & Hr & Hrep).
  destruct (chain_lookup _ _ _ _ _ _ _ Hc Hr) as [p Hok]. rewrite (represents_sequence _ _ Hrep),
    (ro_sequence _ _ _ _ Hok). apply lookup_lt_Some in Hr. unfold len. lia.
Qed.

(** The head that [get_head] reads is the last record. *)
Definition record_head (r : JournalRecord) : StreamHead :=
  {| head_stream_id := record_stream_id r; head_sequence := sequence r; head_event_hash := event_hash r |}.

Lemma stream_ok_head db stream records : validate_stream_id stream = Ok () → stream_ok db stream records →
  get_head db stream = Ok (record_head <$> last records).
Proof.
  intros Hs [Hf Hc]. unfold get_head. rewrite Hs. cbn [mbind result_bind].
  destruct records as [|r records _] using rev_ind.
  { apply Forall2_nil_inv_r in Hf as ->. done. }
  apply Forall2_app_inv_r in Hf as (rs & l & Hrs & (row & l' & Hrep & Hl & ->)%Forall2_cons_inv_r & ->).
  apply Forall2_nil_inv_r in Hl as ->. rewrite !last_snoc.
  apply chain_snoc in Hc as (_ & Hr & _). pose proof (hash_record_bound _ _ _ _ _ (ro_hash _ _ _ _ Hr)).
  pose proof (represents_sequence _ _ Hrep) as Hseq. pose proof (ro_sequence _ _ _ _ Hr) as Hn.
  assert (col_event_hash row = SqlText (event_hash r)) as -> by by destruct Hrep as (? & ? & ? & -> & _).
  rewrite bounded_text by apply valid_hash_bytes, (ro_valid _ _ _ _ Hr). cbn [storage map_err mbind result_bind].
  rewrite (ro_valid _ _ _ _ Hr), Hseq. cbn [negb]. rewrite orb_false_r.
  rewrite (proj2 (Z.leb_gt (Z.of_N (sequence r)) 0)) by lia. rewrite N2Z.id. cbn [fmap option_fmap option_map].
  unfold record_head. by rewrite (ro_stream _ _ _ _ Hr).
Qed.

(** ** The latest revision *)

Lemma index_as_u64 v k : as_u64 (index v k) = value_get k v ≫= as_u64.
Proof. unfold index. by destruct (value_get k v). Qed.

Lemma index_as_str v k : as_str (index v k) = value_get k v ≫= as_str.
Proof. unfold index. by destruct (value_get k v). Qed.

Lemma index_get v k k' : value_get k' (index v k) = value_get k v ≫= value_get k'.
Proof. unfold index. by destruct (value_get k v). Qed.

Lemma pointer_two v k k' : pointer [k; k'] v = value_get k v ≫= value_get k'.
Proof. simpl. destruct (value_get k v) as [w|]; simpl; [|done]. by destruct (value_get k' w). Qed.

Lemma advance_other latest ev :
  string_field ev "event_type" ≠ Some "task.created" → string_field ev "event_type" ≠ Some "task.transitioned" →
  advance_task_revision latest ev = Ok latest.
Proof. intros. unfold advance_task_revision. by rewrite !bool_decide_eq_false_2. Qed.

Lemma advance_created latest ev : string_field ev "event_type" = Some "task.created" →
  advance_task_revision latest ev =
  match latest with Some _ => Err (InvalidRecord "Task creation revision is not genesis") | None => Ok (Some (1%N, "CREATED")) end.
Proof. intros Ht. unfold advance_task_revision. by rewrite Ht, bool_decide_eq_true_2. Qed.

Lemma advance_transitioned latest ev latest' : string_field ev "event_type" = Some "task.transitioned" →
  advance_task_revision latest ev = Ok latest' →
  ∃ revision state, latest' = Some (revision, state) ∧
    pointer ["task_transition"; "new_revision"] ev ≫= as_u64 = Some revision ∧
    pointer ["task_transition"; "new_state"] ev ≫= as_str = Some state ∧
    pointer ["task_transition"; "previous_revision"] ev ≫= as_u64 = fst <$> latest ∧
    pointer ["task_transition"; "previous_state"] ev ≫= as_str = snd <$> latest.
Proof.
  intros Ht. unfold advance_task_revision. rewrite Ht, bool_decide_eq_false_2, bool_decide_eq_true_2 by done.
  cbv zeta. destruct (pointer ["task_transition"; "new_revision"] ev ≫= as_u64) as [revision|]; [|done].
  destruct (pointer ["task_transition"; "new_state"] ev ≫= as_str) as [state|]; [|done].
  destruct (bool_decide _) eqn:H1; [|done]. destruct (bool_decide (_ = snd <$> latest)) eqn:H2; [|done].
  apply bool_decide_eq_true_1 in H1, H2. intros [= <-]. exists revision, state. auto.
Qed.

Section one_row.

Context (row : Row) (r : JournalRecord) (stream : string) (n : N) (previous : option string)
  (Hrep : represents row r) (Hok : record_ok stream n previous r).

Lemma revision_row_type : revision_row row = true ↔
  string_field (event r) "event_type" = Some "task.created" ∨
  string_field (event r) "event_type" = Some "task.transitioned".
Proof using Hrep.
  destruct Hrep as (? & ? & ? & -> & _ & _ & _ & _ & [et Het] & _). unfold revision_row, event_row.
  cbn [col_event_type]. rewrite Het. cbn [sql_option is_text]. rewrite orb_true_iff, !String.eqb_eq. naive_solver.
Qed.

Lemma stored_revision_advance latest latest' : revision_row row = true →
  advance_task_revision latest (event r) = Ok latest' → stored_revision row = Ok latest'.
Proof using laws Hrep.
  intros Hrow%revision_row_type Hadv.
  destruct Hrep as (task_id & event_id & json & -> & _ & _ & _ & _ & [et Het] & Hv & Hp & Hj).
  pose proof Hv as Hv'. apply validate_event_no_hashes in Hv' as (_ & _ & Htask & Hb & _ & s & Hs & Hlen).
  assert (s = json) as -> by congruence.
  unfold stored_revision, event_row. cbn [col_event_type col_event_json]. rewrite Het. cbn [sql_option].
  rewrite !bounded_text by (done || by eapply string_field_bytes). cbn [storage map_err mbind result_bind].
  rewrite (json_reads_back _ _ Hp Hj). cbn [mbind result_bind]. rewrite Het, bool_decide_eq_true_2 by done.
  cbn [negb]. unfold validate_stored_event. rewrite Htask, Hv. cbn [mbind result_bind].
  rewrite Het in Hrow. destruct Hrow as [[= ->]|[= ->]].
  - rewrite advance_created in Hadv by done. destruct latest; [done|]. simpl. by injection Hadv as <-.
  - apply advance_transitioned in Hadv as (revision & state & -> & Hr & Hst & _); [|done].
    rewrite !index_as_u64, !index_as_str, !index_get. rewrite pointer_two in Hr, Hst.
    rewrite Hr, Hst. done.
Qed.

End one_row.

Lemma chain_revisions stream n previous revision records :
  chain stream n previous revision records → ∃ revision', revisions revision records = Ok revision'.
Proof.
  revert n previous revision. induction records as [|r records IH]; intros n previous revision; [by eexists|].
  intros (_ & revision' & Hadv & Hc). simpl. rewrite Hadv. by eapply IH.
Qed.

Lemma revisions_snoc revision records r :
  revisions revision (records ++ [r]) = revisions revision records ≫= λ revision', advance_task_revision revision' (event r).
Proof.
  revert revision. induction records as [|r' records IH]; intros revision; simpl.
  - by destruct (advance_task_revision revision (event r)).
  - destruct (advance_task_revision revision (event r')); [apply IH|done].
Qed.

(** The revision read from the last revision row is the one all the records lead to. *)
Lemma latest_revision_rows stream rs records revision :
  Forall2 represents rs records → chain stream 1 None None records → revisions None records = Ok revision →
  match last (filter (λ row, revision_row row) rs) with None => Ok None | Some row => stored_revision row end =
  Ok revision.
Proof using laws.
  intros Hf. revert revision. pattern rs, records. revert rs records Hf.
  apply Forall2_rev_ind'; [by intros revision _ [= <-]|]. intros rs records row r Hf IH Hrep revision.
  intros (Hc & Hr & _)%chain_snoc. rewrite revisions_snoc. intros (revision' & Hrev & Hadv)%result_bind_ok.
  rewrite filter_app, filter_cons, filter_nil. destruct (revision_row row) eqn:Hrow.
  - rewrite decide_True by done. rewrite last_snoc. by eapply stored_revision_advance.
  - rewrite decide_False by auto. rewrite app_nil_r, (IH revision') by done.
    assert (¬ (string_field (event r) "event_type" = Some "task.created" ∨
               string_field (event r) "event_type" = Some "task.transitioned")) as Hne.
    { rewrite <-revision_row_type by done. by rewrite Hrow. }
    rewrite advance_other in Hadv by tauto. done.
Qed.

(** ** Preservation *)

Lemma not_null_option o : not_null (sql_option o) = true → is_Some o.
Proof. destruct o; [eauto|done]. Qed.

Lemma row_admitted_present db task_id stream event_id json h n previous ev :
  row_admitted db (event_row task_id stream event_id json h n previous ev) = Ok () →
  is_Some (string_field ev "timestamp") ∧ is_Some (string_field ev "event_type").
Proof.
  unfold row_admitted. rewrite if_err_ok, negb_false_iff. intros [Hn _]. unfold event_row in Hn.
  cbn [forallb col_schema_version col_hash_profile col_task_id col_stream_id col_timestamp col_event_type
       col_event_hash col_event_json] in Hn. rewrite !andb_true_iff in Hn.
  destruct Hn as (_ & _ & _ & _ & Ht & He & _). split; by apply not_null_option.
Qed.

Lemma chain_len_bound stream records : chain stream 1 None None records → (len records ≤ MAX_SAFE_JSON_INTEGER)%N.
Proof.
  intros Hc. pose proof (chain_bound stream 1 None None records ltac:(lia)) as Hb.
  unfold MAX_SAFE_JSON_INTEGER in *. specialize (Hb ltac:(lia) Hc). lia.
Qed.

(** The head of a stream in terms of its records. *)
Lemma last_head stream records : chain stream 1 None None records →
  (match record_head <$> last records with Some h => saturating_next (head_sequence h) | None => 1%N end) =
    (1 + len records)%N ∧
  head_event_hash <$> (record_head <$> last records) = chain_head None records.
Proof.
  intros Hc. destruct records as [|r records _] using rev_ind; [done|]. rewrite last_snoc.
  cbn [fmap option_fmap option_map record_head head_sequence head_event_hash]. rewrite chain_head_snoc. split; [|done].
  pose proof (chain_len_bound _ _ Hc) as Hb. apply chain_snoc in Hc as (_ & Hr & _).
  rewrite (ro_sequence _ _ _ _ Hr). unfold len in *. rewrite length_app in *. simpl in *.
  rewrite saturating_next_small; lia.
Qed.

Section append.

Context (db db' : Db) (task_id : string) (ev : Value) (expected : ExpectedHead) (head : option StreamHead)
  (r : JournalRecord) (records : list JournalRecord)
  (Happ : appended db task_id ev expected head r db') (Hplain : plain ev = true)
  (Hok : stream_ok db (record_stream_id r) records).

Lemma appended_head : head = record_head <$> last records.
Proof using laws Happ Hok.
  pose proof (ap_head _ _ _ _ _ _ _ Happ) as Hh.
  rewrite (stream_ok_head _ _ records) in Hh; [congruence| |done].
  eapply stream_id_validates, (ap_stream _ _ _ _ _ _ _ Happ).
Qed.

Lemma appended_position : sequence r = (1 + len records)%N ∧ previous_event_hash r = chain_head None records.
Proof using laws Happ Hok.
  rewrite (ap_sequence _ _ _ _ _ _ _ Happ), (ap_previous _ _ _ _ _ _ _ Happ), appended_head.
  by eapply last_head, Hok.
Qed.

Lemma appended_record_ok : record_ok (record_stream_id r) (1 + len records) (chain_head None records) r.
Proof using laws Happ Hok.
  destruct appended_position as [Hseq Hprev]. destruct Happ. rewrite Hseq, Hprev in *.
  pose proof ap_event0 as (_ & _ & Htask & _)%validate_event_no_hashes.
  constructor; rewrite ?ap_record_event0; try done.
  - exists task_id. done.
  - by apply genesis_ok.
  - by eapply hash_record_valid.
  - intros h Hh. destruct records as [|r' records' _] using rev_ind; [done|]. rewrite chain_head_snoc in Hh.
    injection Hh as <-. destruct Hok as [_ (_ & Hr & _)%chain_snoc]. apply (ro_valid _ _ _ _ Hr).
Qed.

(** The revision rule holds for every event type, not only for the transitions that the code checks. *)
Lemma appended_revision : ∃ revision revision',
  revisions None records = Ok revision ∧ advance_task_revision revision ev = Ok revision'.
Proof using laws Happ Hok.
  destruct Hok as [Hf Hc]. destruct (chain_revisions _ _ _ _ _ Hc) as [revision Hrev].
  exists revision. destruct (decide (string_field ev "event_type" = Some "task.transitioned")) as [Ht|Ht].
  - destruct (ap_revision _ _ _ _ _ _ _ Happ Ht) as (latest & latest' & Hl & Hadv).
    unfold latest_task_revision_in_tx in Hl. erewrite latest_revision_rows in Hl by done.
    injection Hl as <-. eauto.
  - destruct (decide (string_field ev "event_type" = Some "task.created")) as [Hcr|Hcr].
    + pose proof (ro_genesis _ _ _ _ appended_record_ok) as Hg. rewrite (ap_record_event _ _ _ _ _ _ _ Happ) in Hg.
      apply Hg in Hcr as Hlen. assert (records = []) as ->. { destruct records; [done|]. unfold len in Hlen. simpl in Hlen. lia. }
      injection Hrev as <-. eexists. split; [done|]. by rewrite advance_created.
    + exists revision. split; [done|]. by apply advance_other.
Qed.

Lemma appended_represents row : rows db' = rows db ++ [row] → represents row r.
Proof using Happ Hplain.
  intros Hrows. destruct (ap_row _ _ _ _ _ _ _ Happ) as (event_id & json & Hid & Hj & Hadm & Hrows' & _).
  rewrite Hrows in Hrows'. apply app_inj_2 in Hrows' as [_ [= ->]]; [|done].
  apply row_admitted_present in Hadm as [Ht He].
  exists task_id, event_id, json. rewrite (ap_record_event _ _ _ _ _ _ _ Happ).
  split_and!; [done|apply (ap_schema _ _ _ _ _ _ _ Happ)|apply (ap_profile _ _ _ _ _ _ _ Happ)|done..|
    apply (ap_event _ _ _ _ _ _ _ Happ)|done|done].
Qed.

(** An append extends its own stream by its record. *)
Lemma appended_stream : stream_ok db' (record_stream_id r) (records ++ [r]).
Proof using laws Happ Hplain Hok.
  destruct (ap_row _ _ _ _ _ _ _ Happ) as (event_id & json & _ & _ & _ & Hrows & _).
  destruct appended_position as [Hseq Hprev]. destruct Hok as [Hf Hc].
  split.
  - erewrite stream_rows_snoc; [|done|done|].
    + apply Forall2_app; [done|]. constructor; [|done]. by apply appended_represents.
    + intros row Hrow. eapply stream_ok_sequence in Hrow; [|done]. cbn [event_row col_sequence]. rewrite Hseq. lia.
  - apply chain_snoc. destruct appended_revision as (revision & revision' & Hrev & Hadv).
    split_and!; [done|apply appended_record_ok|]. exists revision, revision'. split; [done|].
    by rewrite (ap_record_event _ _ _ _ _ _ _ Happ).
Qed.

(** The other streams are untouched. *)
Lemma appended_other s records' : s ≠ record_stream_id r → stream_ok db s records' → stream_ok db' s records'.
Proof using Happ.
  intros Hne [Hf Hc]. destruct (ap_row _ _ _ _ _ _ _ Happ) as (event_id & json & _ & _ & _ & Hrows & _).
  split; [|done]. by erewrite stream_rows_other.
Qed.

End append.

Lemma reachable_stream_ok db : reachable db → ∀ stream, ∃ records, stream_ok db stream records.
Proof using laws.
  induction 1 as [refs|db task_id ev expected r db' _ IH Hp (head & Happ)%append_appended]; intros stream.
  - exists []. split; [constructor|done].
  - destruct (decide (stream = record_stream_id r)) as [->|Hne].
    + destruct (IH (record_stream_id r)) as [records Hok]. exists (records ++ [r]). by eapply appended_stream.
    + destruct (IH stream) as [records Hok]. exists records. by eapply appended_other.
Qed.

(** ** Verification of stored chains *)

(** The loop of [verify_stream] runs to its end on rows that store a chain. *)
Lemma verify_rows_chain stream checkpoint at' previous n revision rs records :
  (0 < n)%N → Forall2 represents rs records → chain stream n previous revision records →
  verify_rows stream checkpoint at' previous n revision rs =
  Ok (finish_verification stream (n + len records) (chain_head previous records) checkpoint at').
Proof using laws.
  intros Hn Hf. revert previous n revision Hn.
  induction Hf as [|row r rs records Hrep Hf IH]; intros previous n revision Hn.
  { intros _. unfold len. simpl. by rewrite N.add_0_r. }
  intros (Hr & revision' & Hadv & Hc). cbn [verify_rows].
  rewrite (represents_record _ _ _ _ _ Hrep Hr). destruct (represents_index _ _ Hrep) as (ix & -> & Hix).
  cbn [mbind result_bind].
  assert (verify_one_record r stream n previous false checkpoint at' = Ok (event_hash r)) as ->
    by by apply verify_one_record_ok.
  rewrite Hix, Hadv. cbn [negb]. pose proof (hash_record_bound _ _ _ _ _ (ro_hash _ _ _ _ Hr)).
  rewrite saturating_next_small, IH by (done || lia). f_equal.
  replace (n + len (r :: records))%N with (n + 1 + len records)%N by (unfold len; simpl; lia).
  f_equal. unfold chain_head. rewrite last_cons. by destruct (last records).
Qed.

Lemma chain_take k stream n previous revision records :
  chain stream n previous revision records → chain stream n previous revision (take k records).
Proof.
  revert k n previous revision. induction records as [|r records IH]; intros [|k] n previous revision; try done.
  intros (Hr & revision' & Hadv & Hc). simpl. split; [done|]. exists revision'. auto.
Qed.

Lemma filter_unbounded (rs : list Row) : filter (λ row, within_prefix None row) rs = rs.
Proof. induction rs as [|row rs IH]; [done|]. rewrite filter_cons, decide_True by done. by rewrite IH. Qed.

(** [sequence <= upper] selects a prefix of the stream. *)
Lemma filter_prefix stream n previous revision rs records upper :
  Forall2 represents rs records → chain stream n previous revision records → (n ≤ upper + 1)%N →
  filter (λ row, within_prefix (Some upper) row) rs = take (N.to_nat (upper + 1 - n)) rs.
Proof.
  intros Hf. revert previous n revision.
  induction Hf as [|row r rs records Hrep Hf IH]; intros previous n revision.
  { intros _ _. by rewrite take_nil. }
  intros (Hr & revision' & Hadv & Hc) Hle. rewrite filter_cons.
  pose proof (represents_sequence _ _ Hrep) as Hseq. rewrite (ro_sequence _ _ _ _ Hr) in Hseq.
  destruct (decide (n ≤ upper)%N) as [Hn|Hn].
  - rewrite decide_True by (apply Is_true_true, Z.leb_le; lia).
    replace (N.to_nat (upper + 1 - n)) with (S (N.to_nat (upper + 1 - (n + 1)))) by lia.
    simpl. f_equal. by eapply IH; [|lia].
  - rewrite decide_False by (intros Hle'%Is_true_true; apply Z.leb_le in Hle'; lia).
    replace (N.to_nat (upper + 1 - n)) with 0 by lia.
    assert (∀ rs records n' previous revision, (upper < n')%N → Forall2 represents rs records →
      chain stream n' previous revision records → filter (λ row, within_prefix (Some upper) row) rs = []) as Hnone.
    { clear. intros rs records n' previous revision Hlt Hf. revert n' previous revision Hlt.
      induction Hf as [|row r rs records Hrep Hf IH]; intros n' previous revision Hlt; [done|].
      intros (Hr & revision' & _ & Hc). rewrite filter_cons, decide_False; [eapply IH; [|done]; lia|].
      intros Hle%Is_true_true. apply Z.leb_le in Hle.
      rewrite (represents_sequence _ _ Hrep), (ro_sequence _ _ _ _ Hr) in Hle. lia. }
    eapply (Hnone rs records (n + 1)%N); [lia|done|done].
Qed.

(** Every prefix of a stored chain verifies. *)
Lemma verify_stream_prefix db stream records k at' :
  validate_stream_id stream = Ok () → stream_ok db stream records → rfc3339_parses at' = true → (1 ≤ k ≤ len records)%N →
  ∃ result hash, verify_stream db stream (Some k) None at' = Ok result ∧ accepted stream k hash None at' result.
Proof using laws.
  intros Hs [Hf Hc] Hat Hk. pose proof (chain_len_bound _ _ Hc) as Hlen.
  unfold verify_stream, validate_timestamp. rewrite Hs, Hat. cbn [ensure mbind result_bind].
  cbn [validate_checkpoint mbind result_bind is_some_and].
  rewrite (proj2 (N.ltb_ge _ _)) by (unfold SQLITE_MAX, MAX_SAFE_JSON_INTEGER in *; lia).
  rewrite (filter_prefix stream 1 None None _ _ k Hf Hc) by lia. rewrite N.add_sub.
  pose proof (Forall2_take _ _ _ (N.to_nat k) Hf) as Hfk. pose proof (chain_take (N.to_nat k) _ _ _ _ _ Hc) as Hck.
  rewrite (verify_rows_chain stream _ _ None 1 None _ _ N.lt_0_1 Hfk Hck). cbn [mbind result_bind].
  assert (len (take (N.to_nat k) records) = k) as Hl.
  { unfold len in *. rewrite length_take. lia. }
  rewrite Hl. unfold chain_head. destruct (last (take (N.to_nat k) records)) as [rk|] eqn:Hlast.
  2: { apply last_None in Hlast. rewrite Hlast in Hl. unfold len in Hl. simpl in Hl. lia. }
  cbn [from_option]. assert (accepted stream k (event_hash rk) None at'
    (finish_verification stream (1 + k) (Some (event_hash rk)) None at')) as Hacc.
  { replace k with (1 + k - 1)%N at 1 by lia.
    apply finish_verification_accepted, finish_verification_valid. by eexists. }
  eexists _, (event_hash rk). split; [|done]. destruct Hacc as (-> & _ & _ & -> & _).
  by rewrite N.eqb_refl.
Qed.

(** ** Claims *)


(** whatever was appended verifies.  In a reachable journal every non-empty stream is accepted by
    [verify_stream] against a checkpoint of its head, which names all its records, and so is every prefix
    of it, with the hash of the last record of the prefix. *)
Theorem reachable_verifies db stream head id at' :
  reachable db → get_head db stream = Ok (Some head) → rfc3339_parses at' = true →
  (0 < count id ≤ 256)%N →
  let checkpoint := Some {| checkpoint_id := id; checkpoint_event_hash := head_event_hash head |} in
  (∃ result, verify_stream db stream None checkpoint at' = Ok result ∧
     accepted stream (head_sequence head) (head_event_hash head) checkpoint at' result) ∧
  (∀ k, (1 ≤ k ≤ head_sequence head)%N →
   ∃ result hash, verify_stream db stream (Some k) None at' = Ok result ∧ accepted stream k hash None at' result).
Proof using laws.
  intros Hreach Hhead Hat Hcount checkpoint. assert (id ≠ "") as Hid by (intros ->; by destruct Hcount). destruct (reachable_stream_ok _ Hreach stream) as [records Hok].
  assert (validate_stream_id stream = Ok ()) as Hs.
  { unfold get_head in Hhead. by apply result_seq_ok in Hhead as [? _]. }
  rewrite (stream_ok_head _ _ _ Hs Hok) in Hhead. pose proof Hok as [Hf Hc].
  destruct records as [|r records _] using rev_ind; [done|]. rewrite last_snoc in Hhead. injection Hhead as <-.
  cbn [record_head head_event_hash head_sequence] in *.
  pose proof Hc as (_ & Hr & _)%chain_snoc. pose proof (chain_len_bound _ _ Hc) as Hlen.
  assert (sequence r = len (records ++ [r])) as Hseq.
  { rewrite (ro_sequence _ _ _ _ Hr). unfold len. rewrite length_app. simpl. lia. }
  split; [|intros k Hk; eapply verify_stream_prefix; [done|exact Hok|done|lia]].
  unfold verify_stream, validate_timestamp. rewrite Hs, Hat. cbn [ensure mbind result_bind].
  assert (validate_checkpoint checkpoint = Ok ()) as ->.
  { unfold validate_checkpoint, checkpoint. cbn [checkpoint_id checkpoint_event_hash].
    rewrite bool_decide_eq_false_2, (proj2 (N.ltb_ge _ _)), (ro_valid _ _ _ _ Hr) by (done || lia). done. }
  cbn [mbind result_bind is_some_and]. assert (filter (λ row, within_prefix None row) (stream_rows db stream) =
    stream_rows db stream) as -> by apply filter_unbounded.
  rewrite (verify_rows_chain stream _ _ None 1 None _ _ N.lt_0_1 Hf Hc). cbn [mbind result_bind].
  eexists. split; [done|]. rewrite chain_head_snoc. rewrite Hseq.
  replace (len (records ++ [r])) with (1 + len (records ++ [r]) - 1)%N at 1 by lia.
  apply finish_verification_accepted, finish_verification_valid. eexists. split; [done|]. by intros c [= <-].
Qed.

(** stale writers are excluded.  Once an append that named the head it expected has succeeded, no append
    to the same Task that expects the same head can succeed: of two writers that read the same head, at most
    one commits. *)
Theorem append_excludes_stale db task_id ev expected r db' ev' result :
  reachable db → plain ev = true → append_in_tx db task_id ev expected = Ok (r, db') → expected ≠ Any →
  append_in_tx db' task_id ev' expected ≠ Ok result.
Proof using laws.
  intros Hreach Hp [head Happ]%append_appended Hany Hsecond. destruct result as [r' db2].
  apply append_appended in Hsecond as [head' Happ'].
  assert (record_stream_id r' = record_stream_id r) as Hst.
  { pose proof (ap_stream _ _ _ _ _ _ _ Happ). pose proof (ap_stream _ _ _ _ _ _ _ Happ'). congruence. }
  destruct (reachable_stream_ok _ Hreach (record_stream_id r)) as [records Hok].
  pose proof (appended_stream _ _ _ _ _ _ _ _ Happ Hp Hok) as Hok'.
  pose proof (appended_position _ _ _ _ _ _ _ _ Happ Hok) as [Hseq _].
  pose proof (appended_head _ _ _ _ _ _ _ _ Happ Hok) as Hhead.
  rewrite <-Hst in Hok'. pose proof (appended_head _ _ _ _ _ _ _ _ Happ' Hok') as Hhead'. rewrite last_snoc in Hhead'.
  pose proof (ap_expected _ _ _ _ _ _ _ Happ) as He. pose proof (ap_expected _ _ _ _ _ _ _ Happ') as He'.
  rewrite Hhead in He. rewrite Hhead' in He'.
  destruct expected as [| |n h]; [done|done|]. destruct Hok as [_ Hc].
  destruct records as [|r0 records _] using rev_ind; [done|]. rewrite last_snoc in He. simpl in He, He'.
  apply andb_true_iff in He as [He%N.eqb_eq _], He' as [He'%N.eqb_eq _]. subst n.
  apply chain_snoc in Hc as (_ & Hr0 & _). rewrite (ro_sequence _ _ _ _ Hr0), Hseq in He'.
  unfold len in He'. rewrite length_app in He'. simpl in He'. lia.
Qed.

End state.
