(* ===== verification/JournalFixtures.v ===== *)
(** * A concrete journal

    An instance of the external code of [crates/aios-provenance/src/lib.rs] as finite tables,
    with its laws, and the journal of one Task: its creation, a verification event and a
    transition, appended in turn.  The witnesses of the journal's theorems evaluate on it. *)

From S2P Require Import Prelude Json Contracts Numbers Limits Parse Hash Details Events Journal JournalChain JournalState.

(** ** Tables of values *)

(** [PartialEq] on a plain value is equality. *)
Lemma value_eqb_plain v w : plain w = true → value_eqb v w = true → v = w.
Proof.
  revert v. induction w as [|b|n|s|ws IH|ns IH] using Value_ind'; intros v Hp; destruct v as [|b'|n'|s'|vs|ms];
    try done; cbn [value_eqb]; intros Heq.
  - by apply Bool.eqb_prop in Heq as ->.
  - destruct n, n'; try done; simpl in Heq; [by apply N.eqb_eq in Heq as ->|by apply Z.eqb_eq in Heq as ->].
  - by apply String.eqb_eq in Heq as ->.
  - f_equal. cbn [plain] in Hp. revert vs Heq.
    induction IH as [|w ws Hw _ IHws]; intros [|v vs] Heq; try done. cbn [forallb] in Hp. breflect.
    f_equal; auto.
  - f_equal. rewrite plain_object in Hp. apply andb_true_iff in Hp as [_ Hp]. revert ms Heq.
    induction IH as [|[k w] ns Hw _ IHns]; intros [|[l v] ms] Heq; try done. cbn [forallb fst snd] in *. breflect.
    match goal with H : String.eqb _ _ = true |- _ => apply String.eqb_eq in H as -> end.
    f_equal; [f_equal|]; auto.
Qed.

(** The name of a value in a table. *)
Fixpoint table_name (table : list (string * Value)) (v : Value) : option string :=
  match table with
  | [] => None
  | (name, w) :: table' => if value_eqb v w then Some name else table_name table' v
  end.

Definition table_write (table : list (string * Value)) (v : Value) : result string string :=
  match table_name table v with Some name => Ok name | None => Err "unknown value" end.

(** The document of a value. *)
Fixpoint value_doc (v : Value) : Doc :=
  match v with
  | Null => DUnit
  | Bool b => DBool b
  | Num (PosInt n) => DU64 n
  | Num (NegInt z) => DI64 z
  | Num (Float f) => DF64 f ""
  | Str s => DStr s
  | Array vs => DSeq (map value_doc vs) (Ok ())
  | Object ms => DMap (map (λ kv, (kv.1, value_doc kv.2)) ms) (Ok ()) ""
  end.

Definition table_read (table : list (string * Value)) (s : string) : Doc * result string unit :=
  (match assoc_get s table with Some v => value_doc v | None => DError "expected value" end, Ok ()).

(** Every entry of the table is plain and read back from its own document, under one name. *)
Definition table_ok (table : list (string * Value)) : bool :=
  bool_decide (NoDup table.*1) &&
  forallb (λ nv, plain nv.2 && match unique_visit (value_doc nv.2) with Ok w => value_eqb w nv.2 | Err _ => false end) table.

Lemma table_name_elem table v name : table_name table v = Some name →
  ∃ w, (name, w) ∈ table ∧ value_eqb v w = true.
Proof.
  induction table as [|[n w] table IH]; simpl; [done|]. destruct (value_eqb v w) eqn:E.
  - intros [= ->]. exists w. split; [by left|done].
  - intros (w' & Hin & Hw)%IH. exists w'. split; [by right|done].
Qed.

Lemma table_read_back table v s : table_ok table = true → table_write table v = Ok s →
  ∃ doc, table_read table s = (doc, Ok ()) ∧ unique_visit doc = Ok v.
Proof.
  unfold table_ok, table_write, table_read. rewrite andb_true_iff, bool_decide_eq_true, forallb_forall.
  intros [Hnd Hall] Hs. destruct (table_name table v) as [name|] eqn:Hn; [|done]. injection Hs as ->.
  apply table_name_elem in Hn as (w & Hin & Hw). rewrite (assoc_get_NoDup _ _ _ Hnd Hin).
  exists (value_doc w). split; [done|]. specialize (Hall _ (proj1 (list_elem_of_In _ _) Hin)).
  apply andb_true_iff in Hall as [Hp Hd]. cbn [fst snd] in *. apply value_eqb_plain in Hw as ->; [|done].
  destruct (unique_visit (value_doc w)) as [w'|]; [|done]. by apply value_eqb_plain in Hd as ->.
Qed.

Lemma table_write_inj table v w s : table_ok table = true →
  table_write table v = Ok s → table_write table w = Ok s → v = w.
Proof.
  intros Hok Hv Hw. destruct (table_read_back _ _ _ Hok Hv) as (d & Hd & Hdv).
  destruct (table_read_back _ _ _ Hok Hw) as (d' & Hd' & Hdw). congruence.
Qed.

(** ** The events *)

Definition NOW : string := "2026-07-11T00:00:00Z".
Definition sample_task : string := "T-revision-continuity".
Definition sample_hash_value : string := "sha256:aaaaaaaaaaaaaaaaaaaaaaaaaaaaaaaaaaaaaaaaaaaaaaaaaaaaaaaaaaaaaaaa".

Definition commitment (field : string) : Value :=
  json_object [("kind", Str "task-field-commitment"); ("version", Str "v1"); ("algorithm", Str "sha256-keyed-prefix");
               ("field", Str field); ("commitment", Str sample_hash_value)].

Definition service_actor : Value := json_object [("kind", Str "system-service"); ("id", Str "service:test")].

Definition creation_event (constraints : Value) : Value :=
  json_object
    [("schema_version", Str "0.1"); ("event_id", Str "event-typed-1"); ("task_id", Str sample_task);
     ("event_type", Str "task.created"); ("timestamp", Str NOW); ("actor", service_actor); ("status", Str "success");
     ("details", json_object
       [("revision", Num (PosInt 1));
        ("creation", json_object
          [("principal", json_object [("kind", Str "user"); ("id", Str "user:test")]);
           ("workspace_id", Str "workspace:test"); ("original_intent_ref", commitment "original_intent");
           ("normalized_intent_ref", Null); ("constraints", constraints); ("created_at", Str NOW)]);
        ("active_plan", Null); ("active_step_ids", Array [Str "step:test"]); ("waiting_on", Array []);
        ("failure", Null); ("recovery", Null)])].

Definition indexed_event : Value :=
  json_object
    [("schema_version", Str "0.1"); ("event_id", Str "event-2"); ("task_id", Str sample_task);
     ("event_type", Str "verification.started"); ("timestamp", Str NOW); ("actor", service_actor);
     ("status", Str "success"); ("details", json_object [("index", Num (PosInt 2))])].

Definition transition_event : Value :=
  json_object
    [("schema_version", Str "0.1"); ("event_id", Str "event-typed-transition"); ("task_id", Str sample_task);
     ("event_type", Str "task.transitioned"); ("timestamp", Str NOW); ("actor", service_actor);
     ("status", Str "success");
     ("task_transition", json_object
       [("transition_id", Str "transition:test"); ("previous_state", Str "CREATED"); ("new_state", Str "PLANNING");
        ("previous_revision", Num (PosInt 1)); ("new_revision", Num (PosInt 2));
        ("reason_code", Str "PLANNING_REQUESTED")]);
     ("committed_mutation", json_object
       [("active_plan", Null); ("active_step_ids", Null); ("waiting_on", Null); ("failure", Null); ("recovery", Null)]);
     ("details", json_object
       [("related_ids", Array []); ("reason_message_ref", commitment "reason_message"); ("active_program", Null);
        ("mutation_text_commitments", json_object [("waiting_on", Null); ("failure_summary", Null)])])].

Definition sample_events : list (string * Value) :=
  [("created", creation_event Null); ("indexed", indexed_event); ("transitioned", transition_event)].

(** Details are measured on their own. *)
Definition sample_details : list (string * Value) :=
  (λ nv, (nv.1 +++ "-details", index nv.2 "details")) <$> sample_events.

Definition sample_stream : string := "task:v1:sha256:" +++ hex (sample_digest (STREAM_ID_DOMAIN +++ sample_task)).

Definition sample_record_hash (name : string) : string := "sha256:" +++ hex (sample_digest (HASH_DOMAIN +++ name)).

Definition sample_members (v : Value) : list (string * Value) := default [] (as_object v).

(** The canonical forms of the three records. *)
Definition sample_views : list (string * Value) :=
  [("v1", record_view sample_stream 1 None (sample_members (creation_event Null)));
   ("view2", record_view sample_stream 2 (Some (sample_record_hash "v1")) (sample_members indexed_event));
   ("view-3", record_view sample_stream 3 (Some (sample_record_hash "view2")) (sample_members transition_event))].

#[export] Instance sample_lib : ProvenanceLib := {|
  rfc3339_parses := String.eqb NOW;
  event_schema := Ok (λ _, true);
  projection_manifest_schema := Ok (λ _, true);
  projected_record_schema := Ok (λ _, true);
  projection_result_schema := Ok (λ _, true);
  json_to_string := table_write (sample_events ++ sample_details);
  json_from_slice := table_read (sample_events ++ sample_details);
  jcs_to_vec := table_write sample_views;
  sha256 := sample_digest;
|}.

Lemma sample_tables : table_ok (sample_events ++ sample_details) = true ∧ table_ok sample_views = true.
Proof. split; vm_compute; reflexivity. Qed.

#[export] Instance sample_laws : ProvenanceLaws.
Proof.
  constructor; [reflexivity|]. intros v s _ Hs. unfold parse_unique_json_bytes. cbn [json_from_slice json_to_string sample_lib] in *.
  destruct (table_read_back _ _ _ (proj1 sample_tables) Hs) as (doc & -> & Hd). by rewrite Hd.
Qed.

Lemma sample_jcs_injective : jcs_injective.
Proof. intros v w s _ _ Hv Hw. exact (table_write_inj _ _ _ _ (proj2 sample_tables) Hv Hw). Qed.

(** ** The journal *)

Definition db0 : Db := empty_db (λ _, true).
Definition step (db : Db) (ev : Value) (expected : ExpectedHead) : Db :=
  match append_in_tx db sample_task ev expected with Ok (_, db') => db' | Err _ => db end.
Definition db1 : Db := step db0 (creation_event Null) Empty.
Definition db2 : Db := step db1 indexed_event (Exact 1 (sample_record_hash "v1")).
Definition db3 : Db := step db2 transition_event Any.

Example db3_rows : length (rows db3) = 3.
Proof. vm_compute. reflexivity. Qed.

Lemma step_reachable db ev expected :
  reachable db → plain ev = true → is_ok (append_in_tx db sample_task ev expected) = true →
  reachable (step db ev expected).
Proof.
  intros Hdb Hp Hok. unfold step. destruct (append_in_tx db sample_task ev expected) as [[r db']|] eqn:E; [|discriminate].
  exact (reachable_append _ _ _ _ _ _ Hdb Hp E).
Qed.

Lemma db2_reachable : reachable db2.
Proof.
  apply step_reachable; [apply step_reachable; [apply reachable_empty|..]|..]; vm_compute; reflexivity.
Qed.

Lemma db3_reachable : reachable db3.
Proof. apply step_reachable; [exact db2_reachable|..]; vm_compute; reflexivity. Qed.


Definition sample_head : StreamHead :=
  {| head_stream_id := sample_stream; head_sequence := 3; head_event_hash := sample_record_hash "view-3" |}.

Definition sample_checkpoint : option CheckpointExpectation :=
  Some {| checkpoint_id := "checkpoint-1"; checkpoint_event_hash := head_event_hash sample_head |}.

Lemma reachable_verifies_witness :
  (∃ result, verify_stream db3 sample_stream None sample_checkpoint NOW = Ok result ∧
     accepted sample_stream 3 (sample_record_hash "view-3") sample_checkpoint NOW result) ∧
  (∀ k, (1 ≤ k ≤ 3)%N →
   ∃ result hash, verify_stream db3 sample_stream (Some k) None NOW = Ok result ∧
     accepted sample_stream k hash None NOW result).
Proof.
  apply (reachable_verifies db3 sample_stream sample_head "checkpoint-1" NOW).
  - exact db3_reachable.
  - vm_compute. reflexivity.
  - reflexivity.
  - split; [reflexivity|vm_compute; discriminate].
Defined.

(** The second of two writers that saw the creation as the head. *)
Lemma append_excludes_stale_witness :
  ¬ ∃ result, append_in_tx db2 sample_task transition_event (Exact 1 (sample_record_hash "v1")) = Ok result.
Proof.
  intros [result Hresult].
  destruct (append_in_tx db1 sample_task indexed_event (Exact 1 (sample_record_hash "v1"))) as [[r db']|] eqn:E.
  - revert Hresult. assert (db2 = db') as -> by (unfold db2, step; rewrite E; reflexivity).
    apply (append_excludes_stale db1 sample_task indexed_event (Exact 1 (sample_record_hash "v1")) r db').
    + apply step_reachable; [apply reachable_empty|..]; vm_compute; reflexivity.
    + vm_compute. reflexivity.
    + exact E.
    + discriminate.
  - exfalso. vm_compute in E. discriminate E.
Defined.

Definition sample_records : list JournalRecord :=
  match mapM row_to_record (stream_rows db3 sample_stream) with Ok records => records | Err _ => [] end.

Definition sample_result : VerificationResult :=
  finish_verification sample_stream 4 (Some (sample_record_hash "view-3")) None NOW.

Lemma all_plain records : forallb (λ r, plain (event r)) records = true → Forall (λ r, plain (event r) = true) records.
Proof. rewrite forallb_forall, Forall_forall. intros Hall r Hr. by apply Hall, list_elem_of_In. Qed.

Lemma chain_tamper_evident_witness :
  records_collide sample_records sample_records ∨ (sample_stream = sample_stream ∧ sample_records = sample_records).
Proof.
  apply (chain_tamper_evident sample_records sample_records sample_stream sample_stream None None NOW NOW
           sample_result sample_result sample_jcs_injective).
  - apply all_plain. vm_compute. reflexivity.
  - apply all_plain. vm_compute. reflexivity.
  - vm_compute. reflexivity.
  - reflexivity.
  - vm_compute. reflexivity.
  - reflexivity.
  - reflexivity.
Defined.
