(* ===== verification/Projection.v ===== *)
(** * The privacy-redacted projection

    [crates/aios-provenance/src/lib.rs]: the portable export of a stream.  Each event is
    projected (strings outside a reviewed vocabulary become aliases keyed by a random secret),
    the projected records are chained by their own hashes and listed in a manifest, and a
    verifier checks such an export without the database.

    The path of a value is the list of member names that lead to it.  A derived [Serialize]
    writes the fields in their declaration order, so a serialized record is the JSON object
    with its members in that order. *)

From S2P Require Import Prelude Json Contracts Numbers Limits Parse Hash Details Events Journal.

Definition MAX_PROJECTED_EVENT_BYTES : N := 524288.
Definition MAX_PROJECTED_RECORD_BYTES : N := MAX_PROJECTED_EVENT_BYTES + 4096.
Definition MAX_PROJECTION_EXPORT_BYTES : N := 8 * 1024 * 1024.
Definition MAX_PROJECTION_RECORDS : N := 10000.
Definition MAX_PROJECTION_SOURCE_BYTES : N := 32 * 1024 * 1024.
Definition PROJECTION_HASH_PROFILE : string := "aios-provenance-redacted-projection-v1".
Definition EXPORT_PROFILE : string := "privacy-redacted-projection-v1".
Definition PROJECTION_RECORD_DOMAIN : string := "AIOS-PROVENANCE-PROJECTION-RECORD" +++ NUL +++ "v1" +++ NUL.
Definition PROJECTION_DESCRIPTOR_DOMAIN : string := "AIOS-PROVENANCE-PROJECTION-DESCRIPTOR" +++ NUL +++ "v1" +++ NUL.
Definition PROJECTION_ALIAS_DOMAIN : string := "AIOS-PROVENANCE-PROJECTION-ALIAS" +++ NUL +++ "v1" +++ NUL.

(** ** Data *)

Record ProjectionPortableExport := { manifest_json : string; records_jsonl : string }.

Record ProjectionManifest := {
  pm_schema_version : string;
  pm_export_profile : string;
  pm_projection_hash_profile : string;
  pm_bundle_id : string;
  pm_record_count : N;
  pm_head_sequence : N;
  pm_head_projection_hash : string;
  pm_descriptor_hash : string;
}.

Record ProjectedRecord := {
  pr_schema_version : string;
  pr_projection_hash_profile : string;
  pr_bundle_id : string;
  pr_sequence : N;
  pr_previous_projection_hash : option string;
  pr_projected_event : Value;
  pr_projection_hash : string;
}.

Record ProjectionVerificationResult := {
  pv_schema_version : string;
  pv_scope : string;
  pv_valid : bool;
  pv_original_chain_verified_offline : bool;
  pv_original_chain_linkage_proven : bool;
  pv_bundle_id : string;
  pv_from_sequence : N;
  pv_to_sequence : N;
  pv_computed_projection_head_hash : option string;
  pv_diagnostics : list VerificationDiagnostic;
  pv_verified_at : string;
}.

(** ** The alias vocabulary *)

(** [path.iter().any(|part| part == a || ..)] *)
Definition on_path (path : list string) (parts : list string) : bool := existsb (λ part, matches part parts) path.

(** [path.last().map(String::as_str).unwrap_or_default()] *)
Definition path_key (path : list string) : string := default "" (last path).

Definition alias_namespace (path : list string) (key : string) : string :=
  if matches key ["task_id"] then "task"
  else if matches key ["event_id"; "admission_event_id"; "provenance_event_ids"] then "event"
  else if matches key ["workspace_id"] then "workspace"
  else if matches key ["plan_id"] then "plan"
  else if matches key ["step_id"; "node_id"; "active_step_ids"] then "step"
  else if matches key ["related_ids"] then "related"
  else if matches key ["input_artifacts"; "output_artifacts"; "data_refs"; "source_artifact_id"] then "artifact"
  else if matches key ["id"] && on_path path ["actor"; "principal"] then "principal"
  else if matches key ["id"] && on_path path ["waiting_on"] then "waiting"
  else if matches key ["id"] && on_path path ["skill"] then "skill"
  else if matches key ["id"] then "identifier"
  else if matches key ["transition_id"] then "transition"
  else if matches key ["provider_id"; "validator_id"] then "provider"
  else if matches key ["execution_binding_id"; "binding_id"] then "binding"
  else if matches key ["operation_id"; "unknown_operation_ids"] then "operation"
  else if matches key ["allocation_id"] then "allocation"
  else if matches key ["publication_id"] then "publication"
  else if matches key ["import_id"] then "import"
  else if matches key ["registry_snapshot_id"] then "registry-snapshot"
  else if matches key ["validation_result_id"] then "validation-result"
  else if matches key ["authority_token_id"] then "authority-token"
  else if matches key ["policy_decision_id"] then "policy-decision"
  else if matches key ["approval_id"] then "approval"
  else "opaque-value".

Definition NAMESPACES : list string :=
  ["task"; "event"; "workspace"; "plan"; "step"; "related"; "artifact"; "principal"; "waiting"; "skill";
   "identifier"; "transition"; "provider"; "binding"; "operation"; "allocation"; "publication"; "import";
   "registry-snapshot"; "validation-result"; "authority-token"; "policy-decision"; "approval"; "opaque-value"].

Definition EVENT_TYPES : list string :=
  ["task.created"; "task.transitioned"; "task.paused"; "task.resumed"; "task.cancelled"; "task.completed";
   "task.failed"; "intent.normalized"; "plan.created"; "plan.revised"; "ir.validation.started";
   "ir.validation.completed"; "ir.validation.failed"; "registry.snapshot.selected"; "capability.resolved";
   "authorization.requested"; "authorization.granted"; "authorization.denied"; "approval.requested";
   "approval.granted"; "approval.denied"; "provider.selected"; "placement.selected"; "execution.bound";
   "execution.started"; "execution.completed"; "execution.failed"; "model.invoked"; "model.completed";
   "egress.started"; "egress.completed"; "artifact.imported"; "artifact.created"; "artifact.exported";
   "artifact.verified"; "artifact.integrity-failed"; "verification.started"; "verification.completed";
   "verification.failed"; "rollback.started"; "rollback.completed"; "skill.proposed"; "skill.created";
   "skill.validated"; "skill.compiled"; "skill.executed"; "skill.invalidated"].

Definition WAITING_KINDS : list string := ["input"; "approval"; "resource"; "provider"; "validation"].

Definition ACTOR_KINDS : list string :=
  ["user"; "agent"; "provider"; "model-provider"; "system-service"; "legacy-app"; "policy-engine"; "validator";
   "peer-node"].

Definition STATUSES : list string := ["success"; "failure"; "denied"; "partial"; "pending"; "cancelled"].

Definition TASK_STATES : list string :=
  ["CREATED"; "PLANNING"; "WAITING_FOR_INPUT"; "WAITING_FOR_AUTH"; "RUNNABLE"; "RUNNING"; "VERIFYING"; "PAUSED";
   "RECOVERING"; "ROLLING_BACK"; "COMPLETED"; "FAILED"; "CANCELLED"; "ROLLED_BACK"].

Definition LOCALITIES : list string := ["local"; "remote"; "peer"; "cloud"].
Definition ISOLATION_CLASSES : list string := ["P0"; "P1"; "P2"; "P3"].

Definition COMMITMENT_FIELDS : list string :=
  ["original_intent"; "normalized_intent"; "reason_message"; "waiting_message"; "failure_summary"].

Definition is_private_commitment (object : list (string * Value)) : bool :=
  (length object =? 5) &&
  bool_decide (assoc_get "kind" object ≫= as_str = Some "task-field-commitment") &&
  bool_decide (assoc_get "version" object ≫= as_str = Some "v1") &&
  bool_decide (assoc_get "algorithm" object ≫= as_str = Some "sha256-keyed-prefix") &&
  is_some_and (assoc_get "field" object ≫= as_str) (λ field, matches field COMMITMENT_FIELDS) &&
  is_some_and (assoc_get "commitment" object ≫= as_str) valid_hash.

Definition is_alias (object : list (string * Value)) : bool :=
  bool_decide (assoc_get "kind" object ≫= as_str = Some "bundle-local-alias").

Definition validate_alias (object : list (string * Value)) : Res unit :=
  if negb (length object =? 4) ||
     negb (bool_decide (assoc_get "version" object ≫= as_str = Some "v1")) ||
     negb (is_some_and (assoc_get "alias" object ≫= as_str) valid_hash) ||
     negb (is_some_and (assoc_get "namespace" object ≫= as_str) (λ namespace, matches namespace NAMESPACES))
  then Err (InvalidRecord "projected alias is invalid") else Ok ().

(** [to_ascii_uppercase] *)
Definition ascii_upper (c : ascii) : ascii :=
  let n := Ascii.N_of_ascii c in if ((97 <=? n) && (n <=? 122))%N then Ascii.ascii_of_N (n - 32) else c.

Fixpoint to_ascii_uppercase (s : string) : string :=
  match s with EmptyString => EmptyString | String c s' => String (ascii_upper c) (to_ascii_uppercase s') end.

(** The placeholder of an alias in the reconstructed source event; the alias was validated. *)
Definition projected_placeholder (path : list string) (key : string) (alias : list (string * Value)) : string :=
  let digest := default "" (assoc_get "alias" alias ≫= as_str) in
  let digits := DecimalToken.drop_bytes 7 digest in
  if on_path path ["export_authority"] && String.eqb key "service_id" then "service://" +++ digest
  else if on_path path ["export_authority"] && String.eqb key "sensitivity" then "private"
  else if matches key ["semantic_program_hash"; "capability_contract_hash"; "manifest_hash"; "content_hash";
                       "intent_hash"; "admission_event_hash"; "request_digest"; "proof_hash"; "subject_hash";
                       "semantic_hash"; "program_content_digest"] then digest
  else if String.eqb key "reason_code" || (String.eqb key "code" && on_path path ["failure"])
  then "PROJECTED_" +++ to_ascii_uppercase digits
  else if String.eqb key "ir_version" && on_path path ["active_program"] then digits
  else digest.

Definition valid_bundle_id (value : string) : bool :=
  (byte_len value =? 74) && starts_with "bundle:v1:" value &&
  string_forallb hash_byte (DecimalToken.drop_bytes 10 value).

(** ** Alias namespaces of a bundle *)

(** The stack loop of [collect_alias_namespaces], with the map of the digests seen; [None] is running out
    of fuel, [Some None] is [return false]. *)
Fixpoint alias_loop (fuel : nat) (pending : list Value) (seen : gmap string string) : option (option (gmap string string)) :=
  match fuel with
  | 0 => None
  | S fuel =>
      match pending with
      | [] => Some (Some seen)
      | Object object :: pending =>
          if is_alias object then
            match assoc_get "alias" object ≫= as_str, assoc_get "namespace" object ≫= as_str with
            | Some digest, Some namespace =>
                if is_some_and (seen !! digest) (λ prior, negb (String.eqb prior namespace)) then Some None
                else alias_loop fuel pending (<[digest := namespace]> seen)
            | _, _ => Some None
            end
          else alias_loop fuel (rev object.*2 ++ pending) seen
      | Array values :: pending => alias_loop fuel (rev values ++ pending) seen
      | _ :: pending => alias_loop fuel pending seen
      end
  end.

(** The new map, or [None] for [false]; the map of a failed call is not used again. *)
Definition collect_alias_namespaces (event : Value) (seen : gmap string string) : option (gmap string string) :=
  default None (alias_loop (S (value_nodes event)) [event] seen).

(** ** Lines of a text: [str::lines] *)

Definition LF : ascii := "010"%char.
Definition CR : ascii := "013"%char.

(** [strip_suffix('\r')] *)
Fixpoint strip_cr (s : string) : string :=
  match s with
  | EmptyString => EmptyString
  | String c EmptyString => if bool_decide (c = CR) then EmptyString else s
  | String c s' => String c (strip_cr s')
  end.

(** The bytes of the current line and the lines after it; [None] when no byte is left. *)
Fixpoint lines_from (line : string) (s : string) : list string :=
  match s with
  | EmptyString => if bool_decide (line = "") then [] else [line]
  | String c s' =>
      if bool_decide (c = LF) then strip_cr line :: lines_from "" s'
      else lines_from (line +++ String c "") s'
  end.

Definition lines (s : string) : list string := lines_from "" s.

Section projection.

Context `{!ProvenanceLib}.

(** ** Projecting a value *)

Definition retained_projection_string (path : list string) (key value : string) : bool :=
  if matches key ["schema_version"] then String.eqb value SCHEMA_VERSION
  else if matches key ["timestamp"; "created_at"; "validated_at"; "observed_at"; "resulted_at"] then
    is_ok (validate_timestamp value)
  else if matches key ["event_type"] then matches value EVENT_TYPES
  else if matches key ["kind"] && on_path path ["waiting_on"] then matches value WAITING_KINDS
  else if matches key ["kind"] && on_path path ["actor"; "principal"] then matches value ACTOR_KINDS
  else if matches key ["status"] then matches value STATUSES
  else if matches key ["previous_state"; "new_state"] then matches value TASK_STATES
  else if matches key ["locality"] then matches value LOCALITIES
  else if matches key ["isolation_class"] then matches value ISOLATION_CLASSES
  else if matches key ["phase"] then matches value PHASES
  else if matches key ["outcome_certainty"; "certainty"] then matches value CERTAINTIES
  else if matches key ["effect_boundary"] then String.eqb value "destination-not-invoked"
  else if matches key ["safe_action"] then matches value SAFE_ACTIONS
  else if matches key ["source"] then String.eqb value "user-selected"
  else if matches key ["previous_durability_state"; "durability_state"] then matches value DURABILITY_STATES
  else false.

Definition alias_digest (alias_key namespace value : string) : string :=
  "sha256:" +++ hex (sha256 (PROJECTION_ALIAS_DOMAIN +++ alias_key +++ namespace +++ NUL +++ value)).

Definition alias_value (alias_key namespace value : string) : Value :=
  json_object [("kind", Str "bundle-local-alias"); ("version", Str "v1"); ("namespace", Str namespace);
               ("alias", Str (alias_digest alias_key namespace value))].

(** No branch of [project_value] fails.  The members are visited in key order, so inserting them one by one
    keeps their order. *)
Fixpoint project_value (alias_key : string) (path : list string) (value : Value) : Value :=
  match value with
  | Null | Bool _ | Num _ => value
  | Str text =>
      let key := path_key path in
      if retained_projection_string path key text then value
      else alias_value alias_key (alias_namespace path key) text
  | Array values => Array (map (project_value alias_key path) values)
  | Object object =>
      if is_private_commitment object then value
      else Object (map (λ '(key, value), (key, project_value alias_key (path ++ [key]) value)) object)
  end.

Definition project_event (event : Value) (alias_key : string) : Res Value :=
  validate_stored_event event ≫= λ _, Ok (project_value alias_key [] event).

(** ** The source shape of a projected value *)

Fixpoint projected_source_shape (path : list string) (value : Value) : Res Value :=
  match value with
  | Null | Bool _ | Num _ => Ok value
  | Str text =>
      if retained_projection_string path (path_key path) text then Ok value
      else Err (InvalidRecord "raw string in projected event")
  | Array values =>
      if (MAX_ARRAY_ITEMS <? len values)%N then Err (InvalidRecord "projected array exceeds bounds")
      else
        (fix go (values : list Value) : Res (list Value) :=
           match values with
           | [] => Ok []
           | value :: values' =>
               match projected_source_shape path value with
               | Err e => Err e
               | Ok w => match go values' with Ok ws => Ok (w :: ws) | Err e => Err e end
               end
           end) values ≫= λ values, Ok (Array values)
  | Object object =>
      if is_private_commitment object then Ok value
      else if is_alias object then
        validate_alias object ≫= λ _,
        let key := path_key path in
        if negb (bool_decide (assoc_get "namespace" object ≫= as_str = Some (alias_namespace path key)))
        then Err (InvalidRecord "projected alias has the wrong path namespace")
        else Ok (Str (projected_placeholder path key object))
      else if (MAX_OBJECT_FIELDS <? len object)%N ||
              existsb (λ kv, matches kv.1 ["stream_id"; "event_hash"; "previous_event_hash"; "head_event_hash"]) object
      then Err (InvalidRecord "projected object is invalid")
      else
        (fix go (members : list (string * Value)) : Res (list (string * Value)) :=
           match members with
           | [] => Ok []
           | (key, value) :: members' =>
               match projected_source_shape (path ++ [key]) value with
               | Err e => Err e
               | Ok w => match go members' with Ok ws => Ok ((key, w) :: ws) | Err e => Err e end
               end
           end) object ≫= λ members, Ok (Object members)
  end.

Definition validate_projected_event (event : Value) : Res unit :=
  if negb (within_shape_bounds event) then Err (InvalidRecord "projected event exceeds bounds") else
  event_bytes ← to_vec event;
  if (MAX_PROJECTED_EVENT_BYTES <? bytes event_bytes)%N then Err (InvalidRecord "projected event exceeds bounds") else
  source_shape ← projected_source_shape [] event;
  let task_id := default "" (string_field source_shape "task_id") in
  validate_event_contract task_id source_shape false ≫= λ _,
  validate_export_authority_links event.

(** ** Hashes and identities of a bundle *)

Definition hash_canonical (domain : string) (value : Value) : Res string :=
  if negb (within_shape_bounds value) then Err (InvalidRecord "provenance JSON exceeds shape bounds") else
  canonical ← map_err Canonicalization (jcs_to_vec value);
  Ok ("sha256:" +++ hex (sha256 (domain +++ canonical))).

Definition projected_view (bundle_id : string) (sequence : N) (previous : option string) (event : Value) : Value :=
  json_object
    [("schema_version", Str SCHEMA_VERSION); ("projection_hash_profile", Str PROJECTION_HASH_PROFILE);
     ("bundle_id", Str bundle_id); ("sequence", Num (PosInt sequence));
     ("previous_projection_hash", json_option previous); ("projected_event", event)].

Definition hash_projected_record (bundle_id : string) (sequence : N) (previous : option string) (event : Value) :
    Res string :=
  if negb (within_shape_bounds event) then Err (InvalidRecord "projected event exceeds shape bounds") else
  hash_canonical PROJECTION_RECORD_DOMAIN (projected_view bundle_id sequence previous event).

Definition hash_projection_descriptor (manifest : ProjectionManifest) : Res string :=
  hash_canonical PROJECTION_DESCRIPTOR_DOMAIN (json_object
    [("schema_version", Str (pm_schema_version manifest)); ("export_profile", Str (pm_export_profile manifest));
     ("projection_hash_profile", Str (pm_projection_hash_profile manifest));
     ("bundle_id", Str (pm_bundle_id manifest)); ("record_count", Num (PosInt (pm_record_count manifest)));
     ("head_sequence", Num (PosInt (pm_head_sequence manifest)));
     ("head_projection_hash", Str (pm_head_projection_hash manifest))]).

Definition projection_validator (schema : result string (Value → bool)) : Res (Value → bool) :=
  map_err (λ error, InvalidRecord ("projection schema unavailable: " +++ error)) schema.

Definition projection_manifest_validator : Res (Value → bool) := projection_validator projection_manifest_schema.
Definition projected_record_validator : Res (Value → bool) := projection_validator projected_record_schema.
Definition projection_verification_result_validator : Res (Value → bool) := projection_validator projection_result_schema.

(** ** Serialized records *)

Definition manifest_members (m : ProjectionManifest) : list (string * Value) :=
  [("schema_version", Str (pm_schema_version m)); ("export_profile", Str (pm_export_profile m));
   ("projection_hash_profile", Str (pm_projection_hash_profile m)); ("bundle_id", Str (pm_bundle_id m));
   ("record_count", Num (PosInt (pm_record_count m))); ("head_sequence", Num (PosInt (pm_head_sequence m)));
   ("head_projection_hash", Str (pm_head_projection_hash m)); ("descriptor_hash", Str (pm_descriptor_hash m))].

Definition projected_record_members (r : ProjectedRecord) : list (string * Value) :=
  [("schema_version", Str (pr_schema_version r)); ("projection_hash_profile", Str (pr_projection_hash_profile r));
   ("bundle_id", Str (pr_bundle_id r)); ("sequence", Num (PosInt (pr_sequence r)));
   ("previous_projection_hash", json_option (pr_previous_projection_hash r));
   ("projected_event", pr_projected_event r); ("projection_hash", Str (pr_projection_hash r))].

(** [serde_json::from_value] into a struct with [deny_unknown_fields]. *)
Definition decode_string (key : string) (members : list (string * Value)) : Res string :=
  match assoc_get key members with
  | Some (Str s) => Ok s
  | Some _ => Err (Serialization "invalid type: expected a string")
  | None => Err (Serialization ("missing field `" +++ key +++ "`"))
  end.

Definition decode_u64 (key : string) (members : list (string * Value)) : Res N :=
  match assoc_get key members with
  | Some (Num (PosInt n)) => Ok n
  | Some _ => Err (Serialization "invalid type: expected u64")
  | None => Err (Serialization ("missing field `" +++ key +++ "`"))
  end.

Definition decode_option (key : string) (members : list (string * Value)) : Res (option string) :=
  match assoc_get key members with
  | Some (Str s) => Ok (Some s)
  | Some Null | None => Ok None
  | Some _ => Err (Serialization "invalid type: expected a string")
  end.

Definition decode_value (key : string) (members : list (string * Value)) : Res Value :=
  match assoc_get key members with
  | Some v => Ok v
  | None => Err (Serialization ("missing field `" +++ key +++ "`"))
  end.

Definition decode_struct (fields : list string) (value : Value) : Res (list (string * Value)) :=
  match value with
  | Object members =>
      if existsb (λ kv, negb (matches kv.1 fields)) members then Err (Serialization "unknown field") else Ok members
  | _ => Err (Serialization "invalid type: expected a struct")
  end.

Definition manifest_from_value (value : Value) : Res ProjectionManifest :=
  members ← decode_struct ["schema_version"; "export_profile"; "projection_hash_profile"; "bundle_id";
                           "record_count"; "head_sequence"; "head_projection_hash"; "descriptor_hash"] value;
  schema_version ← decode_string "schema_version" members;
  export_profile ← decode_string "export_profile" members;
  projection_hash_profile ← decode_string "projection_hash_profile" members;
  bundle_id ← decode_string "bundle_id" members;
  record_count ← decode_u64 "record_count" members;
  head_sequence ← decode_u64 "head_sequence" members;
  head_projection_hash ← decode_string "head_projection_hash" members;
  descriptor_hash ← decode_string "descriptor_hash" members;
  Ok {| pm_schema_version := schema_version; pm_export_profile := export_profile;
        pm_projection_hash_profile := projection_hash_profile; pm_bundle_id := bundle_id;
        pm_record_count := record_count; pm_head_sequence := head_sequence;
        pm_head_projection_hash := head_projection_hash; pm_descriptor_hash := descriptor_hash |}.

Definition record_from_value (value : Value) : Res ProjectedRecord :=
  members ← decode_struct ["schema_version"; "projection_hash_profile"; "bundle_id"; "sequence";
                           "previous_projection_hash"; "projected_event"; "projection_hash"] value;
  schema_version ← decode_string "schema_version" members;
  projection_hash_profile ← decode_string "projection_hash_profile" members;
  bundle_id ← decode_string "bundle_id" members;
  sequence ← decode_u64 "sequence" members;
  previous_projection_hash ← decode_option "previous_projection_hash" members;
  projected_event ← decode_value "projected_event" members;
  projection_hash ← decode_string "projection_hash" members;
  Ok {| pr_schema_version := schema_version; pr_projection_hash_profile := projection_hash_profile;
        pr_bundle_id := bundle_id; pr_sequence := sequence;
        pr_previous_projection_hash := previous_projection_hash; pr_projected_event := projected_event;
        pr_projection_hash := projection_hash |}.

(** [serde_json::to_value] of a verification result, through the contracts of its fields. *)
Definition diagnostic_value (d : VerificationDiagnostic) : Value :=
  json_object
    ([("severity", Str (match vd_severity d with SeverityError => "error" | SeverityWarning => "warning" end));
      ("code", Str (vd_code d)); ("message", Str (vd_message d))] ++
     from_option (λ n, [("sequence", Num (PosInt n))]) [] (vd_sequence d) ++
     from_option (λ id, [("event_id", Str id)]) [] (vd_event_id d) ++
     match vd_related d with [] => [] | related => [("related", Array (Str <$> related))] end).

Definition result_value (r : ProjectionVerificationResult) : Value :=
  json_object
    [("schema_version", Str (pv_schema_version r)); ("scope", Str (pv_scope r)); ("valid", Bool (pv_valid r));
     ("original_chain_verified_offline", Bool (pv_original_chain_verified_offline r));
     ("original_chain_linkage_proven", Bool (pv_original_chain_linkage_proven r));
     ("bundle_id", Str (pv_bundle_id r)); ("from_sequence", Num (PosInt (pv_from_sequence r)));
     ("to_sequence", Num (PosInt (pv_to_sequence r)));
     ("computed_projection_head_hash", json_option (pv_computed_projection_head_hash r));
     ("diagnostics", Array (diagnostic_value <$> pv_diagnostics r)); ("verified_at", Str (pv_verified_at r))].

(** ** Verifying a bundle *)

Definition projection_failure (manifest : ProjectionManifest) (verified_at code message : string)
    (sequence : option N) (head : option string) : ProjectionVerificationResult :=
  {| pv_schema_version := SCHEMA_VERSION;
     pv_scope := "exported-projection";
     pv_valid := false;
     pv_original_chain_verified_offline := false;
     pv_original_chain_linkage_proven := false;
     pv_bundle_id := pm_bundle_id manifest;
     pv_from_sequence := 1;
     pv_to_sequence := default 0%N sequence;
     pv_computed_projection_head_hash := head;
     pv_diagnostics :=
       [{| vd_severity := SeverityError; vd_code := code; vd_message := message; vd_sequence := sequence;
           vd_event_id := None; vd_related := [] |}];
     pv_verified_at := verified_at |}.

(** The variables of the loop of [verify_projected_records]. *)
Record BundleState := {
  bs_previous : option string;
  bs_task_alias : option string;
  bs_event_aliases : gset string;
  bs_alias_namespaces : gmap string string;
  bs_revision : Revision;
}.

Definition bundle_start : BundleState :=
  {| bs_previous := None; bs_task_alias := None; bs_event_aliases := ∅; bs_alias_namespaces := ∅; bs_revision := None |}.

(** One iteration, for the record at [position]. *)
Definition verify_projected_record (manifest : ProjectionManifest) (verified_at : string) (position : N)
    (record : ProjectedRecord) (st : BundleState) : result ProjectionVerificationResult BundleState :=
  let invalid code message head :=
    projection_failure manifest verified_at code message (Some (pr_sequence record)) head in
  let event := pr_projected_event record in
  let shape_error :=
    invalid "PROJECTION_RECORD_INVALID" "projected record shape, order, or predecessor is invalid" (bs_previous st) in
  if negb (String.eqb (pr_schema_version record) SCHEMA_VERSION) ||
     negb (String.eqb (pr_projection_hash_profile record) PROJECTION_HASH_PROFILE) ||
     negb (String.eqb (pr_bundle_id record) (pm_bundle_id manifest)) ||
     negb (pr_sequence record =? position + 1)%N ||
     negb (bool_decide (pr_previous_projection_hash record = bs_previous st)) ||
     negb (is_ok (validate_projected_event event))
  then Err shape_error else
  match collect_alias_namespaces event (bs_alias_namespaces st) with
  | None => Err shape_error
  | Some alias_namespaces =>
      let projected_task_alias := pointer ["task_id"; "alias"] event ≫= as_str in
      let projected_event_alias := pointer ["event_id"; "alias"] event ≫= as_str in
      if negb (Bool.eqb (position =? 0)%N (bool_decide (string_field event "event_type" = Some "task.created"))) ||
         bool_decide (projected_task_alias = None) ||
         bool_decide (projected_event_alias = None) ||
         is_some_and (bs_task_alias st) (λ first, negb (bool_decide (Some first = projected_task_alias))) ||
         bool_decide (default "" projected_event_alias ∈ bs_event_aliases st)
      then Err (invalid "PROJECTION_RECORD_INVALID" "projected stream genesis or event identity is invalid"
                  (bs_previous st))
      else
        match hash_projected_record (pm_bundle_id manifest) (pr_sequence record) (bs_previous st) event with
        | Err _ =>
            Err (invalid "PROJECTION_RECORD_INVALID" "projected record cannot be canonicalized" (bs_previous st))
        | Ok computed =>
            if negb (String.eqb computed (pr_projection_hash record))
            then Err (invalid "PROJECTION_HASH_MISMATCH" "projected record hash does not match its contents"
                        (Some computed))
            else
              match advance_task_revision (bs_revision st) event with
              | Err _ =>
                  Err (invalid "PROJECTION_RECORD_INVALID" "projected Task revision is discontinuous" (bs_previous st))
              | Ok revision =>
                  Ok {| bs_previous := Some computed; bs_task_alias := projected_task_alias;
                        bs_event_aliases := {[ default "" projected_event_alias ]} ∪ bs_event_aliases st;
                        bs_alias_namespaces := alias_namespaces; bs_revision := revision |}
              end
        end
  end.

Fixpoint verify_projected_loop (manifest : ProjectionManifest) (verified_at : string) (position : N)
    (records : list ProjectedRecord) (st : BundleState) : result ProjectionVerificationResult BundleState :=
  match records with
  | [] => Ok st
  | record :: records' =>
      match verify_projected_record manifest verified_at position record st with
      | Err failure => Err failure
      | Ok st' => verify_projected_loop manifest verified_at (position + 1) records' st'
      end
  end.

Definition verify_projected_records (manifest : ProjectionManifest) (records : list ProjectedRecord)
    (verified_at : string) : ProjectionVerificationResult :=
  match verify_projected_loop manifest verified_at 0 records bundle_start with
  | Err failure => failure
  | Ok st =>
      if negb (len records =? pm_record_count manifest)%N ||
         negb (bool_decide (pr_sequence <$> last records = Some (pm_head_sequence manifest))) ||
         negb (bool_decide (bs_previous st = Some (pm_head_projection_hash manifest)))
      then projection_failure manifest verified_at "PROJECTION_MANIFEST_MISMATCH"
             "projection manifest does not match its records" (pr_sequence <$> last records) (bs_previous st)
      else
        {| pv_schema_version := SCHEMA_VERSION;
           pv_scope := "exported-projection";
           pv_valid := true;
           pv_original_chain_verified_offline := false;
           pv_original_chain_linkage_proven := false;
           pv_bundle_id := pm_bundle_id manifest;
           pv_from_sequence := 1;
           pv_to_sequence := pm_head_sequence manifest;
           pv_computed_projection_head_hash := Some (pm_head_projection_hash manifest);
           pv_diagnostics := [];
           pv_verified_at := verified_at |}
  end.

(** One line of the export, parsed and checked. *)
Definition read_projected_line (line : string) : Res ProjectedRecord :=
  if bool_decide (line = "") || (MAX_PROJECTED_RECORD_BYTES <? bytes line)%N
  then Err (InvalidRecord "malformed portable provenance JSONL") else
  record_value ← parse_unique_json line;
  if negb (within_shape_bounds record_value)
  then Err (InvalidRecord "projected provenance record exceeds shape bounds") else
  validator ← projected_record_validator;
  if negb (validator record_value) then Err (InvalidRecord "malformed projected provenance record") else
  record_from_value record_value.

Definition verify_jsonl_export (manifest_json records_jsonl verified_at : string) : Res ProjectionVerificationResult :=
  if (MAX_EVENT_BYTES <? bytes manifest_json)%N || (MAX_PROJECTION_EXPORT_BYTES <? bytes records_jsonl)%N
  then Err (InvalidRecord "portable provenance export exceeds bounds") else
  validate_timestamp verified_at ≫= λ _,
  manifest_value ← parse_unique_json manifest_json;
  if negb (within_shape_bounds manifest_value)
  then Err (InvalidRecord "portable provenance manifest exceeds shape bounds") else
  validator ← projection_manifest_validator;
  if negb (validator manifest_value) then Err (InvalidRecord "unsupported portable provenance export manifest") else
  manifest ← manifest_from_value manifest_value;
  (if negb (String.eqb (pm_schema_version manifest) SCHEMA_VERSION) ||
      negb (String.eqb (pm_projection_hash_profile manifest) PROJECTION_HASH_PROFILE) ||
      negb (String.eqb (pm_export_profile manifest) EXPORT_PROFILE) ||
      negb (valid_bundle_id (pm_bundle_id manifest))
   then Err (InvalidRecord "unsupported portable provenance export manifest")
   else
     descriptor ← hash_projection_descriptor manifest;
     if negb (String.eqb descriptor (pm_descriptor_hash manifest))
     then Err (InvalidRecord "unsupported portable provenance export manifest") else Ok ()) ≫= λ _,
  records ← mapM read_projected_line (lines records_jsonl);
  let result := verify_projected_records manifest records verified_at in
  result_validator ← projection_verification_result_validator;
  if negb (result_validator (result_value result))
  then Err (InvalidRecord "projection verifier produced an invalid result") else Ok result.

(** ** Exporting a stream *)

(** The variables of the export loop. *)
Record ExportState := {
  es_jsonl : string;
  es_previous : option string;
  es_head_sequence : N;
  es_count : N;
}.

Definition export_start : ExportState :=
  {| es_jsonl := ""; es_previous := None; es_head_sequence := 0; es_count := 0 |}.

(** The body of the inner loop, for one record of a page. *)
Definition export_record (bundle_id alias_key : string) (st : ExportState) (record : JournalRecord) : Res ExportState :=
  validate_stored_event (event record) ≫= λ _,
  projected_event ← project_event (event record) alias_key;
  validate_projected_event projected_event ≫= λ _,
  projection_hash ← hash_projected_record bundle_id (sequence record) (es_previous st) projected_event;
  let projected_record :=
    {| pr_schema_version := SCHEMA_VERSION; pr_projection_hash_profile := PROJECTION_HASH_PROFILE;
       pr_bundle_id := bundle_id; pr_sequence := sequence record; pr_previous_projection_hash := es_previous st;
       pr_projected_event := projected_event; pr_projection_hash := projection_hash |} in
  validator ← projected_record_validator;
  if negb (validator (json_object (projected_record_members projected_record)))
  then Err (InvalidRecord "generated projected record is invalid") else
  line ← to_vec (Object (projected_record_members projected_record));
  if (MAX_PROJECTION_EXPORT_BYTES <? bytes (es_jsonl st) + bytes line + 1)%N
  then Err (InvalidRecord "portable provenance export exceeds bounds") else
  Ok {| es_jsonl := es_jsonl st +++ line +++ String LF "";
        es_previous := Some projection_hash;
        es_head_sequence := sequence record;
        es_count := es_count st + 1 |}.

Fixpoint export_page (bundle_id alias_key : string) (records : list JournalRecord) (st : ExportState) : Res ExportState :=
  match records with
  | [] => Ok st
  | record :: records' =>
      match export_record bundle_id alias_key st record with
      | Ok st' => export_page bundle_id alias_key records' st'
      | Err e => Err e
      end
  end.

(** The loop over pages; [None] is running out of fuel. *)
Fixpoint export_loop (fuel : nat) (db : Db) (stream_id bundle_id alias_key : string) (cursor : option N)
    (st : ExportState) : option (Res ExportState) :=
  match fuel with
  | 0 => None
  | S fuel =>
      match list_events db stream_id cursor MAX_PAGE_SIZE with
      | Err e => Some (Err e)
      | Ok page =>
          match export_page bundle_id alias_key (page_records page) st with
          | Err e => Some (Err e)
          | Ok st' =>
              match next_cursor page with
              | None => Some (Ok st')
              | Some next => export_loop fuel db stream_id bundle_id alias_key (Some next) st'
              end
          end
      end
  end.

(** [LENGTH(CAST(event_json AS BLOB))] *)
Definition blob_length (v : SqlValue) : N :=
  match v with SqlText s | SqlBlob s => bytes s | SqlNull => 0 end.

Definition set_descriptor (m : ProjectionManifest) (descriptor : string) : ProjectionManifest :=
  {| pm_schema_version := pm_schema_version m; pm_export_profile := pm_export_profile m;
     pm_projection_hash_profile := pm_projection_hash_profile m; pm_bundle_id := pm_bundle_id m;
     pm_record_count := pm_record_count m; pm_head_sequence := pm_head_sequence m;
     pm_head_projection_hash := pm_head_projection_hash m; pm_descriptor_hash := descriptor |}.

Context (json_to_string_pretty : Value → result string string).

(** [validate] is the caller's check of the private Task row, [random] the 64 bytes of the operating system or
    its failure.  Each page moves the cursor, so one iteration per row and one more suffice. *)
Definition export_jsonl_with_validation_and_random (db : Db) (stream_id verified_at : string)
    (validate : Db → Res unit) (random : option string) : option (Res ProjectionPortableExport) :=
  let finish (r : Res ExportState) (bundle_id : string) : Res ProjectionPortableExport :=
    st ← r;
    head_projection_hash ← match es_previous st with
                           | Some hash => Ok hash
                           | None => Err (InvalidRecord "cannot export an empty projected stream")
                           end;
    let manifest :=
      {| pm_schema_version := SCHEMA_VERSION; pm_export_profile := EXPORT_PROFILE;
         pm_projection_hash_profile := PROJECTION_HASH_PROFILE; pm_bundle_id := bundle_id;
         pm_record_count := es_count st; pm_head_sequence := es_head_sequence st;
         pm_head_projection_hash := head_projection_hash; pm_descriptor_hash := "" |} in
    descriptor ← hash_projection_descriptor manifest;
    let manifest_value := json_object (manifest_members (set_descriptor manifest descriptor)) in
    validator ← projection_manifest_validator;
    if negb (validator manifest_value) then Err (InvalidRecord "generated projection manifest is invalid") else
    manifest_json ← map_err Serialization (json_to_string_pretty manifest_value);
    Ok {| manifest_json := manifest_json; records_jsonl := es_jsonl st |} in
  let selected := stream_rows db stream_id in
  match
    (validate_timestamp verified_at ≫= λ _,
     validate_stream_id stream_id ≫= λ _,
     if (MAX_PROJECTION_RECORDS <? len selected)%N
     then Err (InvalidRecord "portable provenance export exceeds record-count bound") else
     if (MAX_PROJECTION_SOURCE_BYTES <? foldr (λ row n, blob_length (col_event_json row) + n)%N 0%N selected)%N
     then Err (InvalidRecord "portable provenance export exceeds source-byte bound") else
     validate db ≫= λ _,
     verification ← verify_stream db stream_id None None verified_at;
     if negb (vr_valid verification) then Err (InvalidRecord "cannot export an invalid provenance stream") else
     match random with
     | None => Err (InvalidRecord "projection OS randomness unavailable")
     | Some bytes => Ok (DecimalToken.take_bytes 32 bytes, "bundle:v1:" +++ hex (DecimalToken.drop_bytes 32 bytes))
     end)
  with
  | Err e => Some (Err e)
  | Ok (alias_key, bundle_id) =>
      (λ r, finish r bundle_id) <$>
        export_loop (S (length selected)) db stream_id bundle_id alias_key None export_start
  end.

End projection.
