(* ===== verification/Redaction.v ===== *)
(** * What a projection reveals

    Privacy of the projection of [crates/aios-provenance/src/lib.rs]: every string value of a
    projected event is a word of the reviewed vocabulary, a timestamp, an alias digest keyed by
    the bundle's secret, or the digest of a Task-field commitment ([projected_strings_public]).

    The same table of retained members also decides what survives the check of a projected
    event: a creation event whose constraints name a privacy level has no projection that the
    export accepts ([constrained_creation_unexportable]). *)

From S2P Require Import Prelude Json Contracts Numbers Limits Parse Hash Details Events Journal Projection.

(** The reviewed words: the retained vocabularies and the literals of aliases and commitments. *)
Definition PUBLIC_WORDS : list string :=
  SCHEMA_VERSION :: EVENT_TYPES ++ WAITING_KINDS ++ ACTOR_KINDS ++ STATUSES ++ TASK_STATES ++ LOCALITIES ++
  ISOLATION_CLASSES ++ PHASES ++ CERTAINTIES ++ SAFE_ACTIONS ++ DURABILITY_STATES ++ NAMESPACES ++
  COMMITMENT_FIELDS ++
  ["destination-not-invoked"; "user-selected"; "bundle-local-alias"; "v1"; "task-field-commitment";
   "sha256-keyed-prefix"].

(** [s] is a string value of the value, at any depth. *)
Inductive string_value : string → Value → Prop :=
  | string_value_str s : string_value s (Str s)
  | string_value_array s v vs : v ∈ vs → string_value s v → string_value s (Array vs)
  | string_value_member s k v ms : assoc_get k ms = Some v → string_value s v → string_value s (Object ms).

Section redaction.

Context `{!ProvenanceLib}.

(** ** Objects *)

Lemma assoc_get_map {V W} (f : string → V → W) k (l : list (string * V)) :
  assoc_get k (map (λ '(k, v), (k, f k v)) l) = f k <$> assoc_get k l.
Proof. induction l as [|[k' v] l IH]; simpl; [done|]. case_bool_decide; [by subst|done]. Qed.

Definition COMMITMENT_MEMBERS : list string := ["kind"; "version"; "algorithm"; "field"; "commitment"].

(** A member of an object that passes for a commitment is one of the five. *)
Lemma commitment_members ms k v : is_private_commitment ms = true → assoc_get k ms = Some v → k ∈ COMMITMENT_MEMBERS.
Proof.
  unfold is_private_commitment. rewrite !andb_true_iff, !bool_decide_eq_true, !is_some_and_spec, Nat.eqb_eq.
  intros (((((Hlen & Hk) & Hv) & Ha) & (f & Hf & _)) & (c & Hc & _)) Hget.
  destruct (decide (k ∈ COMMITMENT_MEMBERS)) as [|Hnot]; [done|]. exfalso.
  assert (∀ key s, assoc_get key ms ≫= as_str = Some s → key ∈ ms.*1) as Hin.
  { intros key s (w & Hw & _)%bind_Some. apply assoc_get_elem_of in Hw.
    change key with ((key, w).1). by apply list_elem_of_fmap_2. }
  assert (length (k :: COMMITMENT_MEMBERS) ≤ length ms.*1) as Hle.
  { apply submseteq_length, NoDup_submseteq.
    - apply NoDup_cons. split; [done|]. nodup.
    - intros x. unfold COMMITMENT_MEMBERS. rewrite !elem_of_cons, elem_of_nil.
      intros [->|[->|[->|[->|[->|[->|[]]]]]]]; eauto.
      apply assoc_get_elem_of in Hget. change k with ((k, v).1). by apply list_elem_of_fmap_2. }
  rewrite length_fmap, Hlen in Hle. simpl in Hle. lia.
Qed.

(** Each string of a commitment is one of its literals, or its digest. *)
Lemma commitment_strings ms s : is_private_commitment ms = true → string_value s (Object ms) →
  s ∈ PUBLIC_WORDS ∨ digest s.
Proof.
  intros Hc Hs. inversion Hs as [| |? k v ? Hget Hv]; subst.
  pose proof (commitment_members _ _ _ Hc Hget) as Hk.
  unfold is_private_commitment in Hc. rewrite !andb_true_iff, !bool_decide_eq_true, !is_some_and_spec in Hc.
  destruct Hc as (((((_ & Hkind) & Hver) & Halg) & (f & Hf & Hfield)) & (c & Hcom & Hhash)).
  assert (∀ key t, assoc_get key ms ≫= as_str = Some t → k = key → s = t) as Hstr.
  { intros key t (w & Hw & Ht)%bind_Some ->. rewrite Hget in Hw. injection Hw as <-.
    apply as_str_Some in Ht as ->. by inversion Hv. }
  unfold COMMITMENT_MEMBERS in Hk. rewrite !elem_of_cons, elem_of_nil in Hk.
  assert (∀ t, matches t PUBLIC_WORDS = true → t ∈ PUBLIC_WORDS) as Hpub by (intros; by apply matches_true).
  destruct Hk as [Hk|[Hk|[Hk|[Hk|[Hk|[]]]]]];
    [left; rewrite (Hstr _ _ Hkind Hk); by apply Hpub|left; rewrite (Hstr _ _ Hver Hk); by apply Hpub|
     left; rewrite (Hstr _ _ Halg Hk); by apply Hpub| |right; rewrite (Hstr _ _ Hcom Hk); by apply valid_hash_digest].
  left. rewrite (Hstr _ _ Hf Hk). apply matches_true in Hfield. unfold PUBLIC_WORDS. rewrite elem_of_cons, !elem_of_app.
  tauto.
Qed.

(** A retained string is a reviewed word or a timestamp. *)
Lemma retained_public path key s :
  retained_projection_string path key s = true → s ∈ PUBLIC_WORDS ∨ rfc3339_parses s = true.
Proof.
  assert (∀ word, s = word → matches word PUBLIC_WORDS = true → s ∈ PUBLIC_WORDS) as Hword.
  { intros word ->. apply matches_true. }
  unfold retained_projection_string, validate_timestamp.
  repeat case_match; rewrite ?matches_true, ?String.eqb_eq; intros Hs; try discriminate;
    first [right; by destruct (rfc3339_parses s)|left; by eapply Hword|
           left; unfold PUBLIC_WORDS; rewrite elem_of_cons, !elem_of_app; tauto].
Qed.

Lemma alias_value_members key ns text :
  alias_value key ns text =
  Object [("alias", Str (alias_digest key ns text)); ("kind", Str "bundle-local-alias"); ("namespace", Str ns);
          ("version", Str "v1")].
Proof. reflexivity. Qed.

Lemma alias_namespace_known path key : alias_namespace path key ∈ NAMESPACES.
Proof. apply matches_true. unfold alias_namespace. repeat case_match; reflexivity. Qed.

(** What a projected value may say: a word, a timestamp, the alias of a source string, or the digest of a
    commitment. *)
Definition revealed (alias_key : string) (source : Value) (s : string) : Prop :=
  s ∈ PUBLIC_WORDS ∨ rfc3339_parses s = true ∨
  (∃ namespace text, namespace ∈ NAMESPACES ∧ string_value text source ∧ s = alias_digest alias_key namespace text) ∨
  (digest s ∧ string_value s source).

Lemma revealed_array key v vs s : v ∈ vs → revealed key v s → revealed key (Array vs) s.
Proof.
  intros Hv [?|[?|[(ns & t & Hns & Ht & ->)|[Hd Hs]]]]; unfold revealed; [tauto|tauto| |].
  - right; right; left. exists ns, t. split_and!; [done|by eapply string_value_array|done].
  - right; right; right. split; [done|by eapply string_value_array].
Qed.

Lemma revealed_member key k v ms s : assoc_get k ms = Some v → revealed key v s → revealed key (Object ms) s.
Proof.
  intros Hv [?|[?|[(ns & t & Hns & Ht & ->)|[Hd Hs]]]]; unfold revealed; [tauto|tauto| |].
  - right; right; left. exists ns, t. split_and!; [done|by eapply string_value_member|done].
  - right; right; right. split; [done|by eapply string_value_member].
Qed.

(** a projection keeps no private text.  Every string value of a projected event, at any depth, is a word
    of the reviewed public vocabulary, an RFC 3339 timestamp, the keyed alias digest of a string of the source
    event, or a commitment digest that the source event already carried. *)
Theorem projected_strings_public alias_key path v s :
  string_value s (project_value alias_key path v) → revealed alias_key v s.
Proof.
  revert path. induction v as [|b|n|t|vs IH|ms IH] using Value_ind'; intros path; cbn [project_value].
  1-3: by inversion 1.
  - destruct (retained_projection_string path (path_key path) t) eqn:Hr.
    + inversion 1; subst. apply retained_public in Hr. unfold revealed. tauto.
    + rewrite alias_value_members. inversion 1 as [| |? k v ? Hget Hs]; subst.
      assert (k = "alias" ∧ s = alias_digest alias_key (alias_namespace path (path_key path)) t ∨
              s = "bundle-local-alias" ∨ s = alias_namespace path (path_key path) ∨ s = "v1") as Hcases.
      { cbn [assoc_get] in Hget. repeat case_bool_decide; simplify_eq/=; inversion Hs; auto. }
      destruct Hcases as [[_ ->]|[ ->|[ ->| ->]]].
      * right; right; left. exists (alias_namespace path (path_key path)), t.
        split_and!; [apply alias_namespace_known|constructor|done].
      * left. by apply matches_true.
      * left. pose proof (alias_namespace_known path (path_key path)). unfold PUBLIC_WORDS.
        rewrite elem_of_cons, !elem_of_app. tauto.
      * left. by apply matches_true.
  - inversion 1 as [|? w ? Hw Hs|]; subst. apply list_elem_of_In, in_map_iff in Hw as (v & <- & Hv%list_elem_of_In).
    rewrite Forall_forall in IH. eapply revealed_array; [done|]. by eapply IH.
  - destruct (is_private_commitment ms) eqn:Hc.
    + intros Hs. destruct (commitment_strings _ _ Hc Hs) as [?|?]; unfold revealed; tauto.
    + inversion 1 as [| |? k w ? Hget Hs]; subst. rewrite assoc_get_map in Hget.
      apply fmap_Some in Hget as (v & Hv & ->). rewrite Forall_forall in IH.
      eapply revealed_member; [done|]. apply assoc_get_elem_of in Hv. by eapply (IH (k, v) Hv).
Qed.

(** ** The source shape of a projected value *)

(** A string that survives the projection was retained. *)
Lemma projected_as_str key path v s : as_str (project_value key path v) = Some s →
  v = Str s ∧ retained_projection_string path (path_key path) s = true.
Proof.
  destruct v as [| | |t| |ms]; cbn [project_value]; try done.
  - destruct (retained_projection_string path (path_key path) t) eqn:Hr; [|by rewrite alias_value_members].
    intros [= ->]. done.
  - by destruct (is_private_commitment ms).
Qed.

Lemma path_key_snoc path k : path_key (path ++ [k]) = k.
Proof. unfold path_key. by rewrite last_snoc. Qed.

Lemma retained_kind path s : retained_projection_string path "kind" s = true → s ∈ WAITING_KINDS ∨ s ∈ ACTOR_KINDS.
Proof.
  unfold retained_projection_string. cbn -[on_path matches].
  repeat case_match; rewrite ?matches_true; intros; try tauto; try discriminate;
    match goal with H : matches "kind" _ = true |- _ => by vm_compute in H | H : _ && _ = true |- _ => breflect end;
    match goal with H : matches "kind" _ = true |- _ => by vm_compute in H end.
Qed.

(** The members of a projected object. *)
Definition project_members (key : string) (path : list string) (ms : list (string * Value)) : list (string * Value) :=
  map (λ '(k, v), (k, project_value key (path ++ [k]) v)) ms.

Lemma project_members_get key path ms k :
  assoc_get k (project_members key path ms) = project_value key (path ++ [k]) <$> assoc_get k ms.
Proof. apply (assoc_get_map (λ k v, project_value key (path ++ [k]) v)). Qed.

Lemma project_members_kind key path ms s :
  assoc_get "kind" (project_members key path ms) ≫= as_str = Some s → s ∈ WAITING_KINDS ∨ s ∈ ACTOR_KINDS.
Proof.
  rewrite project_members_get. destruct (assoc_get "kind" ms) as [v|]; [|done]. simpl.
  intros [_ Hr]%projected_as_str. rewrite path_key_snoc in Hr. by apply retained_kind in Hr.
Qed.

(** A projected object is never taken for an alias or for a commitment. *)
Lemma project_members_plain key path ms :
  is_alias (project_members key path ms) = false ∧ is_private_commitment (project_members key path ms) = false.
Proof.
  split; apply not_true_iff_false; unfold is_alias, is_private_commitment; rewrite ?andb_true_iff, !bool_decide_eq_true.
  - intros Hk%project_members_kind. rewrite <-!matches_true in Hk. by vm_compute in Hk; destruct Hk.
  - intros (((((_ & Hk) & _) & _) & _) & _). apply project_members_kind in Hk. rewrite <-!matches_true in Hk.
    by vm_compute in Hk; destruct Hk.
Qed.

(** The members loop of [projected_source_shape]. *)
Fixpoint shape_members (path : list string) (members : list (string * Value)) : Res (list (string * Value)) :=
  match members with
  | [] => Ok []
  | (key, value) :: members' =>
      match projected_source_shape (path ++ [key]) value with
      | Err e => Err e
      | Ok w => match shape_members path members' with Ok ws => Ok ((key, w) :: ws) | Err e => Err e end
      end
  end.

Lemma shape_members_get path ms ws k v : shape_members path ms = Ok ws → assoc_get k ms = Some v →
  ∃ w, assoc_get k ws = Some w ∧ projected_source_shape (path ++ [k]) v = Ok w.
Proof.
  revert ws. induction ms as [|[k' v'] ms IH]; intros ws; cbn [shape_members assoc_get]; [done|].
  destruct (projected_source_shape (path ++ [k']) v') as [w|] eqn:Hw; [|done].
  destruct (shape_members path ms) as [ws'|]; [|done]. intros [= <-]. cbn [assoc_get]. case_bool_decide; subst.
  - intros [= ->]. eauto.
  - intros Hk. by apply IH.
Qed.

Lemma source_shape_object path ms :
  projected_source_shape path (Object ms) =
  if is_private_commitment ms then Ok (Object ms)
  else if is_alias ms then
    validate_alias ms ≫= λ _,
    let key := path_key path in
    if negb (bool_decide (assoc_get "namespace" ms ≫= as_str = Some (alias_namespace path key)))
    then Err (InvalidRecord "projected alias has the wrong path namespace")
    else Ok (Str (projected_placeholder path key ms))
  else if (MAX_OBJECT_FIELDS <? len ms)%N ||
          existsb (λ kv, matches kv.1 ["stream_id"; "event_hash"; "previous_event_hash"; "head_event_hash"]) ms
  then Err (InvalidRecord "projected object is invalid")
  else shape_members path ms ≫= λ members, Ok (Object members).
Proof.
  cbn [projected_source_shape]. destruct (is_private_commitment ms); [done|]. destruct (is_alias ms); [done|].
  destruct (_ || _); [done|]. f_equal. induction ms as [|[k v] ms IH]; [done|]. cbn [shape_members]. by rewrite IH.
Qed.

(** A member of a projected object, in the reconstructed source. *)
Lemma shape_member key path ms k v w :
  projected_source_shape path (project_value key path (Object ms)) = Ok w →
  assoc_get k ms = Some v → k ∉ COMMITMENT_MEMBERS →
  ∃ w', value_get k w = Some w' ∧
    projected_source_shape (path ++ [k]) (project_value key (path ++ [k]) v) = Ok w'.
Proof.
  intros Hw Hk Hnot. cbn [project_value] in Hw. destruct (is_private_commitment ms) eqn:Hc.
  { by apply (commitment_members _ _ _ Hc) in Hk. }
  fold (project_members key path ms) in Hw. destruct (project_members_plain key path ms) as [Ha Hp].
  rewrite source_shape_object, Ha, Hp in Hw. apply if_err_ok in Hw as [_ Hw].
  apply result_bind_ok in Hw as (ws & Hws & [= <-]). cbn [value_get].
  eapply shape_members_get; [done|]. by rewrite project_members_get, Hk.
Qed.

(** An aliased string reappears as its placeholder. *)
Lemma shape_alias key path t w :
  retained_projection_string path (path_key path) t = false →
  projected_source_shape path (project_value key path (Str t)) = Ok w →
  w = Str (projected_placeholder path (path_key path)
    [("alias", Str (alias_digest key (alias_namespace path (path_key path)) t)); ("kind", Str "bundle-local-alias");
     ("namespace", Str (alias_namespace path (path_key path))); ("version", Str "v1")]).
Proof.
  intros Hr. cbn [project_value]. rewrite Hr, alias_value_members, source_shape_object.
  set (ms := [("alias", _); _; _; _]).
  assert (is_private_commitment ms = false) as -> by reflexivity. assert (is_alias ms = true) as -> by reflexivity.
  rewrite result_seq_ok. cbv zeta. rewrite if_err_ok. by intros (_ & _ & [= <-]).
Qed.

(** ** Constrained creation events *)

(** The event was created under a privacy constraint. *)
Definition privacy_constrained (ev : Value) (level : string) : Prop :=
  string_field ev "event_type" = Some "task.created" ∧
  pointer ["details"; "creation"; "constraints"; "privacy"] ev = Some (Str level).

Lemma pointer_cons k path v w : pointer (k :: path) v = Some w → ∃ v', value_get k v = Some v' ∧ pointer path v' = Some w.
Proof. simpl. intros (v' & ? & ?)%bind_Some. eauto. Qed.

Lemma value_get_object k v w : value_get k v = Some w → ∃ ms, v = Object ms ∧ assoc_get k ms = Some w.
Proof. destruct v; simpl; try done. eauto. Qed.

(** Follow a member of the source into the reconstructed source. *)
Ltac follow Hw Hget :=
  let ms := fresh "ms" in let H := fresh "Hm" in let w := fresh "w" in let Hg := fresh "Hget" in
  apply value_get_object in Hget as (ms & -> & H);
  eapply shape_member in Hw as (w & Hg & Hw); [|exact H|by apply (bool_decide_unpack _); vm_compute].

(** In a well-typed creation the privacy level is one of the three. *)
Lemma constrained_privacy creation constraints privacy :
  has_type TCreation creation → value_get "constraints" creation = Some constraints →
  value_get "privacy" constraints = Some privacy →
  ∃ level, privacy = Str level ∧ level ∈ ["local-only"; "local-first"; "remote-allowed"].
Proof.
  unfold TCreation. intros (ms & -> & _ & Hf) Hk Hp. cbn [foldr] in Hf. destruct Hf as (_ & _ & _ & _ & Hcon & _).
  cbn [value_get] in Hk. unfold member in Hcon. rewrite Hk in Hcon. change (default Null (Some constraints)) with constraints in Hcon.
  destruct Hcon as [->|(ks & -> & _ & Hks)]; [done|]. cbn [foldr] in Hks. destruct Hks as [Hks _].
  destruct (Hks privacy) as (level & -> & Hl); [by apply assoc_get_elem_of|]. eauto.
Qed.

Lemma privacy_unprojectable key ev level :
  privacy_constrained ev level → validate_projected_event (project_value key [] ev) ≠ Ok ().
Proof.
  intros [Htype Hpriv] Hok. unfold validate_projected_event in Hok. apply if_err_ok in Hok as [_ Hok].
  apply result_bind_ok in Hok as (? & _ & Hok). apply if_err_ok in Hok as [_ Hok].
  apply result_bind_ok in Hok as (w & Hw & Hok). cbv zeta in Hok. apply result_seq_ok in Hok as [Hcon _].
  assert (validate_details_vocabulary w = Ok ()) as Hvoc.
  { revert Hcon. unfold validate_event_contract. rewrite !result_seq_ok, if_err_ok, result_bind_ok.
    intros (_ & _ & ? & _ & Hcon). do 3 apply if_err_ok in Hcon as [_ Hcon].
    apply result_bind_ok in Hcon as (? & _ & Hcon). do 2 apply if_err_ok in Hcon as [_ Hcon].
    apply result_seq_ok in Hcon as [_ Hcon]. apply if_err_ok in Hcon as [_ Hcon].
    apply result_seq_ok in Hcon as [_ Hcon]. by apply if_err_ok in Hcon as [_ ?]. }
  apply bind_Some in Htype as (tv & Htv & Ht%as_str_Some). subst tv.
  apply pointer_cons in Hpriv as (vd & Hd & Hpriv). apply pointer_cons in Hpriv as (vc & Hc & Hpriv).
  apply pointer_cons in Hpriv as (vk & Hk & Hpriv). apply pointer_cons in Hpriv as (vp & Hp & [= ->]).
  pose proof Hw as Hw2. apply value_get_object in Htv as (ms & -> & Htm). simpl in Hd.
  eapply shape_member in Hw2 as (wt & Hwt & Hw2); [|exact Htm|by apply (bool_decide_unpack _); vm_compute].
  assert (string_field w "event_type" = Some "task.created") as Hwtype.
  { unfold string_field. rewrite Hwt. cbn in Hw2. by injection Hw2 as <-. }
  eapply shape_member in Hw as (wd & Hwd & Hw); [|exact Hd|by apply (bool_decide_unpack _); vm_compute].
  follow Hw Hc. follow Hw Hk. follow Hw Hp. cbn [app] in Hw.
  apply shape_alias in Hw; [|reflexivity].
  destruct (proj1 (validate_details_vocabulary_spec w) Hvoc _ Hwd) as (wms & -> & Hmem & _).
  rewrite Hwtype in Hmem. apply assoc_get_elem_of in Hget. destruct (Hmem _ _ Hget) as (t & Ht & Hty).
  vm_compute in Ht. injection Ht as <-. destruct (constrained_privacy _ _ _ Hty Hget0 Hget1) as (level' & -> & Hlevel).
  injection Hw as ->. rewrite !elem_of_cons, elem_of_nil in Hlevel. by destruct Hlevel as [?|[?|[?|?]]].
Qed.

(** a Task created under a privacy constraint cannot be exported: whatever the bundle's key and the state
    of the export, no list of records that contains its creation event is exported, because the aliased
    privacy level is refused by the check of the projected event. *)
Theorem constrained_creation_unexportable bundle_id alias_key records st r level :
  r ∈ records → privacy_constrained (event r) level → ∀ st', export_page bundle_id alias_key records st ≠ Ok st'.
Proof.
  intros Hr Hpriv. revert st. induction records as [|r' records IH]; intros st st'; [by apply elem_of_nil in Hr|].
  cbn [export_page]. destruct (export_record bundle_id alias_key st r') as [st1|e] eqn:He; [|done].
  apply elem_of_cons in Hr as [<-|Hr]; [|by apply IH]. exfalso. revert He. unfold export_record.
  rewrite result_seq_ok, result_bind_ok. intros (_ & pe & Hpe & He). apply result_seq_ok in He as [He _].
  unfold project_event in Hpe. apply result_seq_ok in Hpe as [_ [= <-]].
  by apply (privacy_unprojectable alias_key (event r) level) in He.
Qed.

End redaction.
