(* ===== verification/Export.v ===== *)
(** * Exporting a journal

    The export of [crates/aios-provenance/src/lib.rs] over a reachable journal: the loop over
    pages ends and visits every record of the stream once, in order ([export_loop_complete]).
    [export_stream] is the loop with the fuel that the export runs it with. *)

From S2P Require Import Prelude Json Contracts Numbers Limits Parse Hash Details Events Journal JournalChain JournalState Projection Redaction.

Section export.

Context {lib : ProvenanceLib} {laws : ProvenanceLaws}.

Definition export_stream (db : Db) (stream bundle_id key : string) : option (Res ExportState) :=
  export_loop (S (length (stream_rows db stream))) db stream bundle_id key None export_start.

(** ** Pages *)

Lemma mapM_records stream n previous revision rs records :
  Forall2 represents rs records → chain stream n previous revision records → mapM row_to_record rs = Ok records.
Proof using laws.
  intros Hf. revert n previous revision. induction Hf as [|row r rs records Hrep Hf IH]; intros n previous revision; [done|].
  intros (Hr & revision' & _ & Hc). cbn [mapM]. rewrite (represents_record _ _ _ _ _ Hrep Hr). cbn [mbind result_bind].
  by rewrite (IH _ _ _ Hc).
Qed.

(** [sequence > after] drops a prefix of the stream. *)
Lemma filter_after stream n previous revision rs records after :
  Forall2 represents rs records → chain stream n previous revision records → (0 < n)%N →
  filter (λ row, (Z.of_N after < col_sequence row)%Z) rs = drop (N.to_nat (after + 1 - n)) rs.
Proof.
  intros Hf. revert previous n revision.
  induction Hf as [|row r rs records Hrep Hf IH]; intros previous n revision.
  { intros _ _. by rewrite drop_nil. }
  intros (Hr & revision' & Hadv & Hc) Hn. rewrite filter_cons.
  pose proof (represents_sequence _ _ Hrep) as Hseq. rewrite (ro_sequence _ _ _ _ Hr) in Hseq.
  destruct (decide (n ≤ after)%N) as [Hle|Hle].
  - rewrite decide_False by lia. rewrite (IH _ _ _ Hc) by lia.
    replace (N.to_nat (after + 1 - n)) with (S (N.to_nat (after + 1 - (n + 1)))) by lia. done.
  - rewrite decide_True by lia. rewrite (IH _ _ _ Hc) by lia.
    replace (N.to_nat (after + 1 - n)) with 0 by lia. by replace (N.to_nat (after + 1 - (n + 1))) with 0 by lia.
Qed.

Lemma chain_drop stream records k : chain stream 1 None None records →
  ∃ previous revision, chain stream (1 + N.of_nat k) previous revision (drop k records) ∨ drop k records = [].
Proof.
  intros Hc. enough (∀ n previous revision, chain stream n previous revision records →
    ∃ previous' revision', chain stream (n + N.of_nat k) previous' revision' (drop k records) ∨ drop k records = []) by eauto.
  clear Hc. revert records. induction k as [|k IH]; intros records n previous revision Hc.
  - rewrite N.add_0_r. eauto.
  - destruct records as [|r records]; [exists None, None; by right|]. destruct Hc as (_ & revision' & _ & Hc).
    replace (n + N.of_nat (S k))%N with (n + 1 + N.of_nat k)%N by lia. by eapply IH.
Qed.

(** The page after [after] records. *)
Lemma list_events_page db stream records after : validate_stream_id stream = Ok () → stream_ok db stream records →
  (after ≤ SQLITE_MAX)%N → ∀ cursor, default 0%N cursor = after →
  let rest := drop (N.to_nat after) records in
  list_events db stream cursor MAX_PAGE_SIZE = Ok
    (if (MAX_PAGE_SIZE <? len rest)%N
     then {| page_records := take 256 rest; next_cursor := Some (after + 256)%N |}
     else {| page_records := rest; next_cursor := None |}).
Proof using laws.
  intros Hs [Hf Hc] Hmax cursor Hcur rest. unfold list_events. rewrite Hs, Hcur. cbn [mbind result_bind].
  change ((MAX_PAGE_SIZE =? 0)%N || (MAX_PAGE_SIZE <? MAX_PAGE_SIZE)%N) with false. cbv iota.
  rewrite (proj2 (N.ltb_ge _ _)) by done. cbv zeta.
  rewrite (filter_after stream 1 None None _ _ after Hf Hc) by lia. rewrite N.add_sub.
  change (S (N.to_nat MAX_PAGE_SIZE)) with 257.
  assert (mapM row_to_record (take 257 (drop (N.to_nat after) (stream_rows db stream))) = Ok (take 257 rest)) as ->.
  { destruct (chain_drop _ _ (N.to_nat after) Hc) as (p & rev & [Hd|Hd]).
    - eapply mapM_records; [|by apply chain_take]. by apply Forall2_take, Forall2_drop.
    - unfold rest. rewrite Hd. apply (Forall2_drop _ _ _ (N.to_nat after)) in Hf. rewrite Hd in Hf.
      by apply Forall2_nil_inv_r in Hf as ->. }
  cbn [storage map_err mbind result_bind].
  assert (len (take 257 rest) = N.min 257 (len rest)) as Hlen. { unfold len. rewrite length_take. lia. }
  rewrite Hlen. unfold MAX_PAGE_SIZE. destruct (N.ltb_spec 256 (len rest)) as [Hlt|Hge].
  - rewrite (proj2 (N.ltb_lt _ _)) by lia. assert (length (take 257 rest) = 257) as -> by (unfold len in *; lia).
    cbn [pred]. rewrite take_take. cbn [Nat.min]. f_equal. f_equal.
    assert (256 < length rest) as Hl by (unfold len in *; lia).
    destruct (rest !! 255) as [r|] eqn:Hr; [|apply lookup_ge_None in Hr; lia].
    assert (last (take 256 rest) = Some r) as ->.
    { rewrite last_lookup, length_take. replace (pred (256 `min` length rest)) with 255 by lia.
      by rewrite lookup_take_lt by lia. }
    cbn [fmap option_fmap option_map]. f_equal. unfold rest in Hr. rewrite lookup_drop in Hr.
    destruct (chain_lookup _ _ _ _ _ _ _ Hc Hr) as [p Hok]. rewrite (ro_sequence _ _ _ _ Hok). lia.
  - rewrite (proj2 (N.ltb_ge _ _)) by lia. f_equal. f_equal. apply take_ge. unfold len in *. lia.
Qed.

Lemma export_page_app bundle_id key l1 l2 st :
  export_page bundle_id key (l1 ++ l2) st =
  match export_page bundle_id key l1 st with Ok st' => export_page bundle_id key l2 st' | Err e => Err e end.
Proof.
  revert st. induction l1 as [|r l1 IH]; intros st; [done|]. cbn [export_page app].
  destruct (export_record bundle_id key st r); [apply IH|done].
Qed.

Lemma export_loop_rest db stream records bundle_id key fuel after cursor st :
  validate_stream_id stream = Ok () → stream_ok db stream records →
  default 0%N cursor = after → (after ≤ len records)%N → length records - N.to_nat after < fuel →
  export_loop fuel db stream bundle_id key cursor st =
  Some (export_page bundle_id key (drop (N.to_nat after) records) st).
Proof using laws.
  intros Hs Hok. pose proof (chain_len_bound _ _ (proj2 Hok)) as Hb.
  revert after cursor st. induction fuel as [|fuel IH]; intros after cursor st Hcur Hle Hfuel; [lia|].
  cbn [export_loop].
  rewrite (list_events_page db stream records after Hs Hok ltac:(unfold SQLITE_MAX, MAX_SAFE_JSON_INTEGER in *; lia) cursor Hcur).
  set (rest := drop (N.to_nat after) records). destruct (N.ltb_spec MAX_PAGE_SIZE (len rest)) as [Hlt|Hge]; cbn [page_records next_cursor].
  - rewrite <-(take_drop 256 rest) at 2. rewrite export_page_app.
    destruct (export_page bundle_id key (take 256 rest) st) as [st'|e]; [|done].
    assert (len rest = len records - after)%N as Hlr. { unfold rest, len. rewrite length_drop. lia. }
    unfold MAX_PAGE_SIZE in Hlt.
    rewrite (IH (after + 256)%N (Some (after + 256)%N)); [|done|lia|unfold len in *; lia].
    unfold rest. rewrite drop_drop. do 3 f_equal. lia.
  - by destruct (export_page bundle_id key rest st).
Qed.

Lemma export_stream_page db stream records bundle_id key :
  validate_stream_id stream = Ok () → stream_ok db stream records →
  export_stream db stream bundle_id key = Some (export_page bundle_id key records export_start).
Proof using laws.
  intros Hs Hok. unfold export_stream.
  rewrite (export_loop_rest db stream records bundle_id key _ 0 None export_start Hs Hok); [done|done|lia|].
  destruct Hok as [Hf _]. rewrite (Forall2_length _ _ _ Hf). lia.
Qed.

(** the export loop terminates and is complete: on every reachable journal the loop over pages of 256 ends
    before one iteration per row, and what it does is to project every record of the stream exactly once, in
    order, whatever the size of the stream. *)
Theorem export_loop_complete db stream bundle_id key :
  reachable db → validate_stream_id stream = Ok () →
  ∃ records, stream_ok db stream records ∧
    export_stream db stream bundle_id key = Some (export_page bundle_id key records export_start).
Proof using laws.
  intros Hreach Hs. destruct (reachable_stream_ok _ Hreach stream) as [records Hok]. exists records. split; [done|].
  by apply export_stream_page.
Qed.

End export.
