(* ===== verification/Bundle.v ===== *)
(** * Exported bundles verify

    The round trip of the projection of [crates/aios-provenance/src/lib.rs]: the records that
    the export of a reachable stream writes are accepted by the offline verifier, unless two
    different inputs with the same SHA-256 digest have been met ([exported_bundle_verifies]).

    [bundle] is what an export means without its bytes: the list of projected records.
    [states_known] is the enumeration of the Task states in
    [specs/provenance-event.schema.json], which the compiled schema checks. *)

From S2P Require Import Prelude Json Contracts Numbers Limits Parse Hash Details Events Journal JournalChain JournalState Projection Redaction Export.

Section bundle.

Context {lib : ProvenanceLib} {laws : ProvenanceLaws}.

(** ** The specification *)

Definition states_known : Prop := ∀ validator v, event_schema = Ok validator → validator v = true →
  ∀ k s, k ∈ ["previous_state"; "new_state"] → pointer ["task_transition"; k] v ≫= as_str = Some s → s ∈ TASK_STATES.

(** The projected records of records, after a projected record with hash [previous]. *)
Fixpoint bundle (bundle_id key : string) (previous : option string) (records : list JournalRecord)
    (prs : list ProjectedRecord) : Prop :=
  match records, prs with
  | [], [] => True
  | r :: records', pr :: prs' =>
      pr = {| pr_schema_version := SCHEMA_VERSION; pr_projection_hash_profile := PROJECTION_HASH_PROFILE;
              pr_bundle_id := bundle_id; pr_sequence := sequence r; pr_previous_projection_hash := previous;
              pr_projected_event := project_value key [] (event r);
              pr_projection_hash := pr_projection_hash pr |} ∧
      validate_projected_event (pr_projected_event pr) = Ok () ∧
      hash_projected_record bundle_id (sequence r) previous (pr_projected_event pr) = Ok (pr_projection_hash pr) ∧
      bundle bundle_id key (Some (pr_projection_hash pr)) records' prs'
  | _, _ => False
  end.

(** The text of projected records: one compact JSON document to a line. *)
Fixpoint jsonl (prs : list ProjectedRecord) (text : string) : Prop :=
  match prs with
  | [] => text = ""
  | pr :: prs' => ∃ line rest, to_vec (Object (projected_record_members pr)) = Ok line ∧ jsonl prs' rest ∧
      text = line +++ String LF "" +++ rest
  end.

Definition bundle_head (previous : option string) (prs : list ProjectedRecord) : option string :=
  from_option (λ pr, Some (pr_projection_hash pr)) previous (last prs).

(** The manifest that the export writes for a state of its loop. *)
Definition manifest_of (bundle_id descriptor head : string) (st : ExportState) : ProjectionManifest :=
  {| pm_schema_version := SCHEMA_VERSION; pm_export_profile := EXPORT_PROFILE;
     pm_projection_hash_profile := PROJECTION_HASH_PROFILE; pm_bundle_id := bundle_id;
     pm_record_count := es_count st; pm_head_sequence := es_head_sequence st;
     pm_head_projection_hash := head; pm_descriptor_hash := descriptor |}.

Lemma bundle_head_cons previous pr prs : bundle_head previous (pr :: prs) = bundle_head (Some (pr_projection_hash pr)) prs.
Proof. unfold bundle_head. rewrite last_cons. by destruct (last prs). Qed.

(** ** What the export writes *)

Lemma export_record_bundle bundle_id key st r st' : export_record bundle_id key st r = Ok st' →
  ∃ pr line, bundle bundle_id key (es_previous st) [r] [pr] ∧
    to_vec (Object (projected_record_members pr)) = Ok line ∧
    es_jsonl st' = es_jsonl st +++ line +++ String LF "" ∧ es_previous st' = Some (pr_projection_hash pr) ∧
    es_head_sequence st' = sequence r ∧ es_count st' = (es_count st + 1)%N.
Proof.
  unfold export_record. rewrite result_seq_ok, result_bind_ok. intros (_ & pe & Hpe & Hok).
  unfold project_event in Hpe. apply result_seq_ok in Hpe as [_ [= <-]].
  apply result_seq_ok in Hok as [Hv Hok]. apply result_bind_ok in Hok as (h & Hh & Hok). cbv zeta in Hok.
  apply result_bind_ok in Hok as (validator & _ & Hok). apply if_err_ok in Hok as [_ Hok].
  apply result_bind_ok in Hok as (line & Hline & Hok). apply if_err_ok in Hok as [_ [= <-]].
  eexists _, line. split_and!; [|exact Hline|done..]. by cbn.
Qed.

Lemma export_page_bundle bundle_id key records st st' : export_page bundle_id key records st = Ok st' →
  ∃ prs text, bundle bundle_id key (es_previous st) records prs ∧ jsonl prs text ∧
    es_jsonl st' = es_jsonl st +++ text ∧ es_previous st' = bundle_head (es_previous st) prs ∧
    es_head_sequence st' = from_option sequence (es_head_sequence st) (last records) ∧
    es_count st' = (es_count st + len records)%N.
Proof.
  revert st. induction records as [|r records IH]; intros st; cbn [export_page].
  - intros [= <-]. exists [], "". rewrite append_nil_r. split_and!; try done. unfold len. simpl. lia.
  - destruct (export_record bundle_id key st r) as [st1|] eqn:Hr; [|done].
    apply export_record_bundle in Hr as (pr & line & Hb & Hline & Hj & Hp & Hs & Hc).
    intros (prs & text & Hbs & Htext & Hj' & Hp' & Hs' & Hc')%IH.
    exists (pr :: prs), (line +++ String LF "" +++ text). destruct Hb as (Hpr & Hv & Hh & _). rewrite Hp in *.
    split_and!.
    + by cbn.
    + by exists line, text.
    + rewrite Hj', Hj. by rewrite !append_assoc.
    + by rewrite Hp', bundle_head_cons.
    + rewrite Hs', Hs, last_cons. by destruct (last records).
    + rewrite Hc', Hc. unfold len. simpl. lia.
Qed.

Lemma bundle_length bundle_id key previous records prs : bundle bundle_id key previous records prs →
  length records = length prs ∧ pr_sequence <$> last prs = sequence <$> last records.
Proof.
  revert previous prs. induction records as [|r records IH]; intros previous [|pr prs]; try done.
  intros (-> & _ & _ & Hb). apply IH in Hb as [Hl Hs]. split; [simpl; lia|].
  rewrite !last_cons. destruct (last prs), (last records); done.
Qed.

(** ** Aliases *)

Definition nul_free (s : string) : bool := string_forallb (λ c, negb (bool_decide (c = "000"%char))) s.

Lemma nul_split a b s t : nul_free a = true → nul_free b = true → a +++ NUL +++ s = b +++ NUL +++ t → a = b ∧ s = t.
Proof.
  unfold nul_free. revert b. induction a as [|c a IH]; intros [|d b] Ha Hb.
  - intros H. cbn in H. injection H as H. done.
  - intros H. cbn in H. injection H as <- _. cbn in Hb. discriminate.
  - intros H. cbn in H. injection H as -> _. cbn in Ha. discriminate.
  - rewrite !append_cons. intros [= <- H]. cbn [string_forallb] in Ha, Hb.
    apply andb_true_iff in Ha as [_ Ha], Hb as [_ Hb]. destruct (IH b Ha Hb H) as [-> ->]. done.
Qed.

Lemma namespace_nul_free ns : ns ∈ NAMESPACES → nul_free ns = true.
Proof.
  revert ns. assert (forallb nul_free NAMESPACES = true) as H by reflexivity. rewrite forallb_forall in H.
  intros ns Hns. by apply H, list_elem_of_In.
Qed.

Lemma sha256_collision x y : sha256 x = sha256 y → collision ∨ x = y.
Proof. intros H. destruct (decide (x = y)); [by right|left; by exists x, y]. Qed.

(** Under one key, a digest determines the namespace and the text. *)
Lemma alias_digest_inj key ns ns' t t' : ns ∈ NAMESPACES → ns' ∈ NAMESPACES →
  alias_digest key ns t = alias_digest key ns' t' → collision ∨ (ns = ns' ∧ t = t').
Proof.
  intros Hns Hns'. unfold alias_digest. intros [|Heq]%append_inj_l%hex_inj%sha256_collision; [by left|right].
  apply append_inj_l, append_inj_l in Heq. apply nul_split in Heq; eauto using namespace_nul_free.
Qed.

(** Every alias in the value, where the collector looks for one, is an alias under the key. *)
Inductive aliased (key : string) : Value → Prop :=
  | aliased_atom v : as_array v = None → as_object v = None → aliased key v
  | aliased_array vs : (∀ v, v ∈ vs → aliased key v) → aliased key (Array vs)
  | aliased_object ms : is_alias ms = false → (∀ v, v ∈ ms.*2 → aliased key v) → aliased key (Object ms)
  | aliased_alias ns text : ns ∈ NAMESPACES → aliased key (alias_value key ns text).

Lemma keys_sorted_NoDup keys : keys_sorted keys = true → NoDup keys.
Proof.
  assert (∀ k rest, keys_sorted (k :: rest) = true →
    keys_sorted rest = true ∧ ∀ k', k' ∈ rest → String.leb k k' = true ∧ k ≠ k') as Hcons.
  { intros k rest. revert k. induction rest as [|k' rest IH]; intros k.
    - intros _. split; [done|]. intros k' Hk. by apply elem_of_nil in Hk.
    - change (keys_sorted (k :: k' :: rest)) with (String.leb k k' && negb (String.eqb k k') && keys_sorted (k' :: rest)).
      rewrite !andb_true_iff, negb_true_iff, String.eqb_neq. intros [[Hle Hne] Hs]. split; [done|].
      intros k'' [->|Hk]%elem_of_cons; [done|]. destruct (IH _ Hs) as [_ Hall]. destruct (Hall _ Hk) as [Hle' Hne'].
      pose proof (@key_leb_trans string string_ord_key k k' k'' Hle Hle') as Htr.
      split; [exact Htr|]. intros <-. apply Hne. exact (@key_leb_antisym string string_ord_key k k' Hle Hle'). }
  induction keys as [|k keys IH]; [constructor|]. intros [Hs Hall]%Hcons. apply NoDup_cons. split; [|auto].
  intros Hk. by destruct (Hall _ Hk).
Qed.

Lemma plain_keys ms : plain (Object ms) = true → NoDup ms.*1.
Proof. rewrite plain_object, andb_true_iff. intros [? _]. by apply keys_sorted_NoDup. Qed.

Lemma commitment_aliased key ms : plain (Object ms) = true → is_private_commitment ms = true → aliased key (Object ms).
Proof.
  intros Hp Hc. apply aliased_object.
  - unfold is_private_commitment in Hc. rewrite !andb_true_iff, !bool_decide_eq_true in Hc.
    destruct Hc as (((((_ & Hk) & _) & _) & _) & _). apply bool_decide_eq_false. rewrite Hk. discriminate.
  - intros v Hv. apply list_elem_of_fmap in Hv as ([k w] & -> & Hin).
    pose proof (assoc_get_NoDup _ _ _ (plain_keys _ Hp) Hin) as Hget.
    pose proof (commitment_members _ _ _ Hc Hget) as Hk.
    unfold is_private_commitment in Hc. rewrite !andb_true_iff, !bool_decide_eq_true, !is_some_and_spec in Hc.
    destruct Hc as (((((_ & Hkind) & Hver) & Halg) & (f & Hf & _)) & (c & Hcom & _)).
    assert (∀ key' t, assoc_get key' ms ≫= as_str = Some t → k = key' → aliased key w) as Hstr.
    { intros key' t (u & Hu & Ht)%bind_Some ->. rewrite Hget in Hu. injection Hu as <-.
      apply as_str_Some in Ht as ->. by constructor. }
    unfold COMMITMENT_MEMBERS in Hk. rewrite !elem_of_cons, elem_of_nil in Hk.
    destruct Hk as [Hk|[Hk|[Hk|[Hk|[Hk|[]]]]]]; eauto.
Qed.

Lemma project_aliased key path v : plain v = true → aliased key (project_value key path v).
Proof.
  revert path. induction v as [|b|n|t|vs IH|ms IH] using Value_ind'; intros path Hp; cbn [project_value].
  1-3: by constructor.
  - destruct (retained_projection_string _ _ _); [by constructor|]. apply aliased_alias, alias_namespace_known.
  - cbn [plain] in Hp. rewrite forallb_forall in Hp. rewrite Forall_forall in IH. apply aliased_array.
    intros w Hw. apply list_elem_of_In, in_map_iff in Hw as (v & <- & Hv). apply IH; [by apply list_elem_of_In|auto].
  - destruct (is_private_commitment ms) eqn:Hc; [by apply commitment_aliased|].
    apply aliased_object; [apply (project_members_plain key path ms)|].
    intros w Hw. apply list_elem_of_fmap in Hw as ([k u] & -> & Hu).
    apply list_elem_of_In, in_map_iff in Hu as ([k' v] & [= <- <-] & Hv%list_elem_of_In).
    rewrite Forall_forall in IH. apply (IH _ Hv). rewrite plain_object, andb_true_iff, forallb_forall in Hp.
    destruct Hp as [_ Hall]. specialize (Hall _ (proj1 (list_elem_of_In _ _) Hv)). by apply andb_true_iff in Hall as [_ ?].
Qed.

(** The digests seen so far are aliases under the key. *)
Definition seen_ok (key : string) (seen : gmap string string) : Prop :=
  ∀ digest ns, seen !! digest = Some ns → ns ∈ NAMESPACES ∧ ∃ text, digest = alias_digest key ns text.

Definition pending_nodes (pending : list Value) : nat := sum_list_with value_nodes pending.

Lemma pending_nodes_rev l pending : pending_nodes (rev l ++ pending) = foldr (λ v n, value_nodes v + n) 0 l + pending_nodes pending.
Proof.
  unfold pending_nodes. rewrite sum_list_with_app. f_equal. induction l as [|x l IH]; [done|]. cbn [rev foldr].
  rewrite sum_list_with_app, IH. simpl. lia.
Qed.

Lemma foldr_members (ms : list (string * Value)) :
  foldr (λ v n, value_nodes v + n) 0 ms.*2 = foldr (λ kv n, value_nodes kv.2 + n) 0 ms.
Proof. induction ms as [|x ms IH]; [done|]. csimpl. by rewrite IH. Qed.

Lemma alias_loop_alias key ns text fuel pending seen :
  alias_loop (S fuel) (alias_value key ns text :: pending) seen =
  if is_some_and (seen !! alias_digest key ns text) (λ prior, negb (String.eqb prior ns)) then Some None
  else alias_loop fuel pending (<[alias_digest key ns text := ns]> seen).
Proof. reflexivity. Qed.

Lemma alias_loop_ok key fuel pending seen :
  pending_nodes pending < fuel → Forall (aliased key) pending → seen_ok key seen →
  collision ∨ ∃ seen', alias_loop fuel pending seen = Some (Some seen') ∧ seen_ok key seen'.
Proof.
  revert pending seen. induction fuel as [|fuel IH]; intros pending seen Hfuel Hall Hseen; [lia|].
  destruct Hall as [|v pending Hv Hall]; [right; by exists seen|].
  unfold pending_nodes in Hfuel. cbn [sum_list_with] in Hfuel. fold (pending_nodes pending) in Hfuel.
  assert (∀ vs, (∀ v, v ∈ vs → aliased key v) → Forall (aliased key) (rev vs ++ pending)) as Hrev.
  { intros vs Hvs. apply Forall_app. split; [|done]. apply Forall_forall. intros w Hw. apply Hvs.
    by apply list_elem_of_In, in_rev, list_elem_of_In in Hw. }
  destruct Hv as [v Ha Ho|vs Hvs|ms Hal Hms|ns text Hns].
  - destruct v; try done; cbn [alias_loop]; simpl in Hfuel; apply IH; done || lia.
  - cbn [alias_loop]. apply IH; [|auto|done]. rewrite pending_nodes_rev. cbn [value_nodes] in Hfuel. lia.
  - cbn [alias_loop]. rewrite Hal. apply IH; [|auto|done]. rewrite pending_nodes_rev, foldr_members. cbn [value_nodes] in Hfuel. lia.
  - rewrite alias_loop_alias. assert (seen_ok key (<[alias_digest key ns text := ns]> seen)) as Hseen'.
    { intros digest ns0 [[<- <-]|[_ H]]%lookup_insert_Some; [eauto|by apply Hseen]. }
    rewrite alias_value_members in Hfuel. cbn [value_nodes] in Hfuel.
    destruct (is_some_and _ _) eqn:Hd; [|apply IH; [lia|done..]].
    left. apply is_some_and_spec in Hd as (ns' & Hd & Hne%negb_true_iff%String.eqb_neq).
    destruct (Hseen _ _ Hd) as [Hns' [text' Heq]]. by apply alias_digest_inj in Heq as [|[<- _]].
Qed.

Lemma collect_ok key v seen : aliased key v → seen_ok key seen →
  collision ∨ ∃ seen', collect_alias_namespaces v seen = Some seen' ∧ seen_ok key seen'.
Proof.
  intros Hv Hseen. destruct (alias_loop_ok key (S (value_nodes v)) [v] seen) as [|(seen' & Hl & Hs)];
    [unfold pending_nodes; simpl; lia|by constructor|done|by left|].
  right. exists seen'. unfold collect_alias_namespaces. by rewrite Hl.
Qed.

(** ** Members of a projected event *)

(** Members that neither a commitment nor an alias has. *)
Definition RESERVED_MEMBERS : list string := "alias" :: "namespace" :: COMMITMENT_MEMBERS.

Lemma project_get key path v k : k ∉ RESERVED_MEMBERS →
  value_get k (project_value key path v) = project_value key (path ++ [k]) <$> value_get k v.
Proof.
  intros Hk. destruct v as [| | |t| |ms]; try done; cbn [project_value].
  - destruct (retained_projection_string _ _ _); [done|]. rewrite alias_value_members. cbn [value_get assoc_get fmap option_fmap option_map].
    unfold RESERVED_MEMBERS, COMMITMENT_MEMBERS in Hk. rewrite !not_elem_of_cons in Hk.
    destruct Hk as (? & ? & ? & ? & _). rewrite !bool_decide_eq_false_2 by congruence. done.
  - destruct (is_private_commitment ms) eqn:Hc; [|exact (project_members_get key path ms k)].
    cbn [value_get]. destruct (assoc_get k ms) as [w|] eqn:Hget; [|done]. exfalso. apply Hk.
    do 2 right. by eapply commitment_members.
Qed.

Lemma project_as_u64 key path v : as_u64 (project_value key path v) = as_u64 v.
Proof.
  destruct v as [| | |t| |ms]; try done; cbn [project_value];
    [by destruct (retained_projection_string _ _ _)|by destruct (is_private_commitment ms)].
Qed.

Lemma project_as_str key path v :
  as_str (project_value key path v) =
  as_str v ≫= λ s, if retained_projection_string path (path_key path) s then Some s else None.
Proof.
  destruct v as [| | |t| |ms]; try done; cbn [project_value as_str mbind option_bind];
    [by destruct (retained_projection_string _ _ _)|by destruct (is_private_commitment ms)].
Qed.

Lemma reserved k : matches k RESERVED_MEMBERS = false → k ∉ RESERVED_MEMBERS.
Proof. intros Hk Hin. apply matches_true in Hin. congruence. Qed.

Lemma project_string_field key ev k : matches k RESERVED_MEMBERS = false →
  string_field (project_value key [] ev) k =
  string_field ev k ≫= λ s, if retained_projection_string [k] k s then Some s else None.
Proof.
  intros Hk%reserved. unfold string_field. rewrite (project_get _ _ _ _ Hk).
  destruct (value_get k ev) as [v|]; [|done]. exact (project_as_str key [k] v).
Qed.

Lemma project_event_type key ev t : matches t EVENT_TYPES = true →
  string_field (project_value key [] ev) "event_type" = Some t ↔ string_field ev "event_type" = Some t.
Proof.
  intros Ht. rewrite project_string_field by done. destruct (string_field ev "event_type") as [u|]; [|done].
  cbn [mbind option_bind]. change (retained_projection_string ["event_type"] "event_type" u) with (matches u EVENT_TYPES).
  destruct (matches u EVENT_TYPES) eqn:Hu; [done|]. split; [done|]. intros [= ->]. congruence.
Qed.

(** The aliases of the event's identities. *)
Lemma project_identity key ev k ns s : matches k RESERVED_MEMBERS = false →
  retained_projection_string [k] k s = false → alias_namespace [k] k = ns →
  string_field ev k = Some s → pointer [k; "alias"] (project_value key [] ev) ≫= as_str = Some (alias_digest key ns s).
Proof.
  intros Hk%reserved Hr <- (v & Hv & ->%as_str_Some)%bind_Some. cbn [pointer]. rewrite (project_get _ _ _ _ Hk), Hv.
  cbn [fmap option_fmap option_map mbind option_bind project_value].
  change (path_key ([] ++ [k])) with k. change ([] ++ [k]) with [k]. rewrite Hr. reflexivity.
Qed.

Lemma project_pointer_two key ev k k' : matches k RESERVED_MEMBERS = false → matches k' RESERVED_MEMBERS = false →
  pointer [k; k'] (project_value key [] ev) = project_value key [k; k'] <$> pointer [k; k'] ev.
Proof.
  intros Hk%reserved Hk'%reserved. rewrite !pointer_two, (project_get _ _ _ _ Hk).
  destruct (value_get k ev) as [v|]; [|done]. exact (project_get key [k] v k' Hk').
Qed.

Lemma project_pointer_u64 key ev k k' : matches k RESERVED_MEMBERS = false → matches k' RESERVED_MEMBERS = false →
  pointer [k; k'] (project_value key [] ev) ≫= as_u64 = pointer [k; k'] ev ≫= as_u64.
Proof.
  intros Hk Hk'. rewrite project_pointer_two by done. destruct (pointer [k; k'] ev); [|done]. apply project_as_u64.
Qed.

(** A Task state is retained. *)
Lemma project_state key ev k : k ∈ ["previous_state"; "new_state"] →
  (∀ s, pointer ["task_transition"; k] ev ≫= as_str = Some s → s ∈ TASK_STATES) →
  pointer ["task_transition"; k] (project_value key [] ev) ≫= as_str = pointer ["task_transition"; k] ev ≫= as_str.
Proof.
  intros Hk Hstates. assert (matches k RESERVED_MEMBERS = false ∧
    ∀ s, retained_projection_string ["task_transition"; k] k s = matches s TASK_STATES) as [Hr Hret].
  { rewrite !elem_of_cons, elem_of_nil in Hk. by destruct Hk as [->|[->|[]]]. }
  rewrite project_pointer_two by done. destruct (pointer ["task_transition"; k] ev) as [v|]; [|done].
  cbn [fmap option_fmap option_map mbind option_bind] in *. rewrite project_as_str.
  destruct (as_str v) as [s|]; [|done]. cbn [mbind option_bind]. change (path_key ["task_transition"; k]) with k.
  rewrite Hret, (proj2 (matches_true _ _) (Hstates s eq_refl)). done.
Qed.

(** The projection of an event moves the revision of the Task as the event does. *)
Lemma project_advance key latest ev :
  (∀ k s, k ∈ ["previous_state"; "new_state"] → pointer ["task_transition"; k] ev ≫= as_str = Some s → s ∈ TASK_STATES) →
  advance_task_revision latest (project_value key [] ev) = advance_task_revision latest ev.
Proof.
  intros Hstates. unfold advance_task_revision. cbv zeta.
  rewrite (bool_decide_ext _ _ (project_event_type key ev "task.created" eq_refl)).
  rewrite (bool_decide_ext _ _ (project_event_type key ev "task.transitioned" eq_refl)).
  rewrite !project_pointer_u64 by done.
  assert (∀ k, matches k ["previous_state"; "new_state"] = true →
    pointer ["task_transition"; k] (project_value key [] ev) ≫= as_str = pointer ["task_transition"; k] ev ≫= as_str) as Hp.
  { intros k Hk%matches_true. apply project_state; eauto. }
  by rewrite (Hp "previous_state" eq_refl), (Hp "new_state" eq_refl).
Qed.

(** ** Event identities *)

Lemma row_admitted_fresh db row : row_admitted db row = Ok () →
  ∀ r, r ∈ rows db → same_text (col_event_id row) (col_event_id r) = false.
Proof.
  unfold row_admitted. intros H r Hr. do 2 apply if_err_ok in H as [_ H]. apply if_err_ok in H as [H _].
  rewrite existsb_false in H. by apply H.
Qed.

Lemma reachable_event_ids db : reachable db → NoDup (col_event_id <$> rows db).
Proof.
  induction 1 as [refs|db task_id ev expected r db' _ IH Hp (head & Happ)%append_appended]; [constructor|].
  destruct (ap_row _ _ _ _ _ _ _ Happ) as (event_id & json & _ & _ & Hadm & -> & _).
  rewrite fmap_app. apply NoDup_app. split_and!; [done| |by apply NoDup_singleton].
  intros c (row & -> & Hrow)%list_elem_of_fmap Hin. apply list_elem_of_singleton in Hin.
  apply (row_admitted_fresh _ _ Hadm) in Hrow. rewrite Hin in Hrow. cbn [col_event_id event_row same_text is_text] in Hrow.
  by rewrite String.eqb_refl in Hrow.
Qed.

Lemma represented_ids rs records : Forall2 represents rs records → (SqlText <$> event_ids records) = col_event_id <$> rs.
Proof.
  induction 1 as [|row r rs records Hrep _ IH]; [done|]. destruct Hrep as (task_id & event_id & json & -> & _ & _ & Hid & _).
  unfold event_ids in *. csimpl. rewrite Hid. csimpl. by rewrite IH.
Qed.

Lemma stream_event_ids db stream records : reachable db → stream_ok db stream records → NoDup (event_ids records).
Proof.
  intros Hreach [Hf _]. apply (NoDup_fmap_1 SqlText). rewrite (represented_ids _ _ Hf).
  unfold stream_rows. rewrite sort_by_perm. apply reachable_event_ids in Hreach.
  eapply sublist_NoDup; [exact Hreach|]. apply fmap_sublist, sublist_filter.
Qed.

Lemma stream_plain db stream records : stream_ok db stream records → Forall (λ r, plain (event r) = true) records.
Proof.
  intros [Hf _]. induction Hf as [|row r rs records Hrep _ IH]; constructor; [|done].
  by destruct Hrep as (? & ? & ? & _ & _ & _ & _ & _ & _ & _ & ? & _).
Qed.

Lemma stream_ids_present db stream records :
  stream_ok db stream records → Forall (λ r, is_Some (string_field (event r) "event_id")) records.
Proof.
  intros [Hf _]. induction Hf as [|row r rs records Hrep _ IH]; constructor; [|done].
  destruct Hrep as (? & ? & ? & _ & _ & _ & ? & _). by eexists.
Qed.

(** ** The verifier on a bundle *)

Lemma record_states r task : states_known → validate_event task (event r) = Ok () →
  ∀ k s, k ∈ ["previous_state"; "new_state"] → pointer ["task_transition"; k] (event r) ≫= as_str = Some s → s ∈ TASK_STATES.
Proof.
  intros Hstates. unfold validate_event, validate_event_contract. rewrite !result_seq_ok, if_err_ok, result_bind_ok.
  intros ((_ & _ & ? & _ & H) & _). do 3 apply if_err_ok in H as [_ H]. apply result_bind_ok in H as (validator & Hv & H).
  apply if_err_ok in H as [Hok%negb_false_iff _]. unfold event_validator in Hv.
  destruct event_schema as [f|] eqn:Hf; [|done]. injection Hv as ->. by apply (Hstates validator (event r)).
Qed.

Lemma genesis_position stream n previous r : record_ok stream (n + 1) previous r →
  Bool.eqb (n =? 0)%N (bool_decide (string_field (event r) "event_type" = Some "task.created")) = true.
Proof.
  intros Hok. pose proof (ro_genesis _ _ _ _ Hok) as Hg.
  destruct (N.eqb_spec n 0) as [Hn|Hn],
    (bool_decide_reflect (string_field (event r) "event_type" = Some "task.created")) as [Ht|Ht]; try done.
  - exfalso. apply Ht, Hg. lia.
  - exfalso. apply Hg in Ht. lia.
Qed.

Section one_stream.

Context (bundle_id key stream task : string) (Hstates : states_known) (Htask : stream_id task = Ok stream).

(** What the verifier knows after the records with the given identities. *)
Record bundle_inv (previous : option string) (revision : Revision) (ids : list string) (st : BundleState) : Prop := {
  bi_previous : bs_previous st = previous;
  bi_revision : bs_revision st = revision;
  bi_task : ∀ a, bs_task_alias st = Some a → a = alias_digest key "task" task;
  bi_events : ∀ a, a ∈ bs_event_aliases st → ∃ id, id ∈ ids ∧ a = alias_digest key "event" id;
  bi_seen : seen_ok key (bs_alias_namespaces st);
}.

Lemma stream_task task' : stream_id task' = Ok stream → collision ∨ task' = task.
Proof using Htask.
  pose proof Htask as H. apply stream_id_ok in H as [_ ->]. intros [_ Heq]%stream_id_ok.
  apply append_inj_l, hex_inj, sha256_collision in Heq as [|Heq]; [by left|right].
  by apply append_inj_l in Heq.
Qed.

Lemma bundle_step manifest at' previous revision revision' ids st r pr prs n previous' :
  pm_bundle_id manifest = bundle_id → bundle bundle_id key previous (r :: []) (pr :: prs) →
  record_ok stream (n + 1) previous' r → plain (event r) = true →
  advance_task_revision revision (event r) = Ok revision' →
  (∀ id, string_field (event r) "event_id" = Some id → id ∉ ids) → is_Some (string_field (event r) "event_id") →
  bundle_inv previous revision ids st →
  collision ∨ ∃ st' id, string_field (event r) "event_id" = Some id ∧
    verify_projected_record manifest at' n pr st = Ok st' ∧
    bundle_inv (Some (pr_projection_hash pr)) revision' (id :: ids) st'.
Proof using Hstates Htask.
  intros Hid (Hpr & Hv & Hh & _) Hok Hplain Hadv Hfresh [id Hevent] [Hprev Hrev Hta Hev Hseen].
  destruct (ro_task _ _ _ _ Hok) as (task' & Htid & Hstream & Hvalid).
  apply stream_task in Hstream as [| ->]; [by left|].
  pose proof (project_identity key (event r) "task_id" "task" task eq_refl eq_refl eq_refl Htid) as Htalias.
  pose proof (project_identity key (event r) "event_id" "event" id eq_refl eq_refl eq_refl Hevent) as Healias.
  destruct (collect_ok key (project_value key [] (event r)) _ (project_aliased key [] _ Hplain) Hseen)
    as [|(seen' & Hcollect & Hseen')]; [by left|].
  destruct (decide (alias_digest key "event" id ∈ bs_event_aliases st)) as [Hin|Hnotin].
  { destruct (Hev _ Hin) as (id' & Hid' & Heq). left.
    apply alias_digest_inj in Heq as [|[_ <-]]; [done| |by apply matches_true..]. by destruct (Hfresh id). }
  right. revert Hpr Hv Hh. generalize (pr_projection_hash pr) as h. intros h -> Hv Hh.
  cbn [pr_projected_event pr_projection_hash] in Hv, Hh |- *.
  eexists {| bs_previous := _; bs_task_alias := Some (alias_digest key "task" task); bs_event_aliases := _;
             bs_alias_namespaces := seen'; bs_revision := revision' |}, id. split; [done|]. split.
  - unfold verify_projected_record. cbv zeta.
    cbn [pr_schema_version pr_projection_hash_profile pr_bundle_id pr_sequence pr_previous_projection_hash
         pr_projected_event pr_projection_hash].
    rewrite !String.eqb_refl, Hid, String.eqb_refl, (ro_sequence _ _ _ _ Hok), N.eqb_refl, Hprev, Hrev,
      bool_decide_eq_true_2, Hv, Hcollect, Htalias, Healias by done. cbn [negb orb is_ok].
    change (default "" (Some (alias_digest key "event" id))) with (alias_digest key "event" id).
    rewrite <-(ro_sequence _ _ _ _ Hok), Hh, (project_advance _ _ _ (record_states _ _ Hstates Hvalid)), Hadv, String.eqb_refl.
    rewrite (bool_decide_ext _ _ (project_event_type key (event r) "task.created" eq_refl)).
    rewrite (genesis_position _ _ _ _ Hok), (bool_decide_eq_false_2 (_ ∈ _)) by done.
    rewrite (bool_decide_eq_false_2 (Some (alias_digest key "task" task) = None)),
      (bool_decide_eq_false_2 (Some (alias_digest key "event" id) = None)) by done.
    destruct (is_some_and _ _) eqn:Hfirst; [|reflexivity]. exfalso.
    apply is_some_and_spec in Hfirst as (first & Hf%Hta & Hne). rewrite negb_true_iff, bool_decide_eq_false in Hne. congruence.
  - constructor; cbn [bs_previous bs_revision bs_task_alias bs_event_aliases bs_alias_namespaces]; try done.
    + intros a. by intros [= <-].
    + intros a [->%elem_of_singleton|Ha]%elem_of_union; [exists id; split; [by left|done]|].
      destruct (Hev _ Ha) as (id' & Hin & ->). exists id'. split; [by right|done].
Qed.

(** The verifier accepts the projections of a chain. *)
Lemma bundle_loop manifest at' previous revision ids st records prs n previous' :
  pm_bundle_id manifest = bundle_id → bundle bundle_id key previous records prs →
  chain stream (n + 1) previous' revision records → Forall (λ r, plain (event r) = true) records →
  Forall (λ r, is_Some (string_field (event r) "event_id")) records →
  NoDup (event_ids records) → (∀ id, id ∈ event_ids records → id ∉ ids) → bundle_inv previous revision ids st →
  collision ∨ ∃ st', verify_projected_loop manifest at' n prs st = Ok st' ∧ bs_previous st' = bundle_head previous prs.
Proof using Hstates Htask.
  intros Hid. revert previous revision ids st prs n previous'.
  induction records as [|r records IH]; intros previous revision ids st [|pr prs] n previous'; try done.
  { intros _ _ _ _ _ _ Hinv. right. exists st. split; [done|]. apply (bi_previous _ _ _ _ Hinv). }
  intros (Hpr & Hv & Hh & Hb) (Hr & revision' & Hadv & Hc) [Hp Hps]%Forall_cons [He Hes]%Forall_cons Hnd Hfresh Hinv.
  destruct He as [id He]. unfold event_ids in Hnd, Hfresh. cbn [omap list_omap] in Hnd, Hfresh. rewrite He in Hnd, Hfresh.
  fold (event_ids records) in Hnd, Hfresh. apply NoDup_cons in Hnd as [Hnot Hnd].
  destruct (bundle_step manifest at' previous revision revision' ids st r pr [] n previous')
    as [|(st' & id' & Hid' & Hver & Hinv')]; [done|done|done|done|done| |by eexists|done|by left|].
  { intros i Hi. assert (i = id) as -> by congruence. apply Hfresh. by left. }
  cbn [verify_projected_loop]. rewrite Hver, bundle_head_cons. assert (id' = id) as -> by congruence.
  eapply IH; [exact Hb|exact Hc|done|done|done| |exact Hinv'].
  intros i Hi [->|Hi']%elem_of_cons; [done|]. by apply (Hfresh i); [right|].
Qed.

End one_stream.

(** an exported bundle verifies.  Whatever the reachable journal, the stream, the bundle identity and the
    key, if the export loop succeeds then the text it has written is the JSON Lines form of a list of projected
    records, and the offline verifier accepts those records against the manifest of the export (valid, without
    diagnostics, and with the exported head), unless two different inputs of SHA-256 with the same digest
    exist. *)
Theorem exported_bundle_verifies db stream bundle_id key descriptor head st at' :
  states_known → reachable db → validate_stream_id stream = Ok () →
  export_stream db stream bundle_id key = Some (Ok st) →
  es_previous st = Some head →
  collision ∨ ∃ prs,
    jsonl prs (es_jsonl st) ∧ length prs = length (stream_rows db stream) ∧
    let result := verify_projected_records (manifest_of bundle_id descriptor head st) prs at' in
    pv_valid result = true ∧ pv_diagnostics result = [] ∧
    pv_to_sequence result = es_head_sequence st ∧ pv_computed_projection_head_hash result = Some head.
Proof using laws.
  intros Hstates Hreach Hs Hexport Hhead. destruct (reachable_stream_ok _ Hreach stream) as [records Hok].
  rewrite (export_stream_page _ _ _ bundle_id key Hs Hok) in Hexport. injection Hexport as Hexport.
  apply export_page_bundle in Hexport as (prs & text & Hb & Htext & Hj & Hprev & Hseq & Hcount).
  cbn [es_jsonl es_previous es_head_sequence es_count export_start] in *. change ("" +++ text) with text in Hj.
  destruct (bundle_length _ _ _ _ _ Hb) as [Hlen Hlast].
  assert (∃ task, stream_id task = Ok stream) as [task Htask].
  { destruct records as [|r records]; [destruct prs; [rewrite Hprev in Hhead|]; done|].
    destruct Hok as [_ [Hr _]]. destruct (ro_task _ _ _ _ Hr) as (task & _ & Ht & _). eauto. }
  destruct (bundle_loop bundle_id key stream task Hstates Htask (manifest_of bundle_id descriptor head st) at'
    None None [] bundle_start records prs 0 None) as [|(st' & Hloop & Hst')]; [done|exact Hb|exact (proj2 Hok)|..].
  - by eapply stream_plain.
  - by eapply stream_ids_present.
  - by eapply stream_event_ids.
  - intros ? _ []%elem_of_nil.
  - by constructor.
  - by left.
  - right. exists prs. rewrite Hj. split; [done|]. split; [rewrite <-Hlen; by rewrite (Forall2_length _ _ _ (proj1 Hok))|].
    cbv zeta. unfold verify_projected_records. rewrite Hloop, Hst', <-Hprev, Hhead.
    cbn [manifest_of pm_record_count pm_head_sequence pm_head_projection_hash].
    rewrite Hcount, Hseq, Hlast. unfold len. rewrite Hlen, N.eqb_refl.
    destruct records as [|r records _] using rev_ind; [destruct prs; [rewrite Hprev in Hhead|]; done|].
    rewrite last_snoc. cbn [from_option fmap option_fmap option_map]. rewrite !bool_decide_eq_true_2 by done. done.
Qed.

End bundle.
