(* ===== verification/ExportFixtures.v ===== *)
(** * A concrete export

    The journal of [JournalFixtures] again, with an instance of the external code that also
    writes the projected events and records, so that the export of the stream succeeds and its
    bundle is verified.  The instance holds the same finite tables, extended. *)

From S2P Require Import Prelude Json Contracts Numbers Limits Parse Hash Details Events Journal JournalChain JournalState JournalFixtures Projection Redaction Export Bundle.

Definition sample_bundle : string := "bundle:v1:" +++ "aaaaaaaaaaaaaaaaaaaaaaaaaaaaaaaaaaaaaaaaaaaaaaaaaaaaaaaaaaaaaaaa".
Definition sample_key : string := "0123456789abcdef0123456789abcdef".

(** ** Tables *)

(** The projections of the three events; [project_value] uses the clock and the digest of the instance, which
    are those of [sample_lib]. *)
Definition projections : list (string * Value) :=
  Eval vm_compute in (λ nv, (nv.1 +++ "-projected", @project_value sample_lib sample_key [] nv.2)) <$> sample_events.

(** The source shapes that the verifier reconstructs from them. *)
Definition shapes : list (string * Value) :=
  Eval vm_compute in
    (λ nv, (nv.1 +++ "-shape", match @projected_source_shape sample_lib [] nv.2 with Ok v => v | Err _ => Null end)) <$> projections.

Definition projection_hash (name : string) : string := "sha256:" +++ hex (sample_digest (PROJECTION_RECORD_DOMAIN +++ name)).

Definition previous_of (n : N) : option string :=
  match n with 2%N => Some (projection_hash "p1") | 3%N => Some (projection_hash "proj2") | _ => None end.

Definition name_of (n : N) : string := match n with 1%N => "p1" | 2%N => "proj2" | _ => "projec3" end.

Definition projected_at (n : N) : Value := default Null (snd <$> projections !! N.to_nat (n - 1)).

Definition projected_views : list (string * Value) :=
  (λ n, (name_of n, projected_view sample_bundle n (previous_of n) (projected_at n))) <$> [1; 2; 3]%N.

Definition projected_records : list ProjectedRecord :=
  (λ n, {| pr_schema_version := SCHEMA_VERSION; pr_projection_hash_profile := PROJECTION_HASH_PROFILE;
           pr_bundle_id := sample_bundle; pr_sequence := n; pr_previous_projection_hash := previous_of n;
           pr_projected_event := projected_at n; pr_projection_hash := projection_hash (name_of n) |}) <$> [1; 2; 3]%N.

(** The lines of the export.  Their members are in declaration order, which is not a map's order. *)
Definition sample_lines : list (string * Value) :=
  (λ r, ("line" +++ pretty (pr_sequence r), Object (projected_record_members r))) <$> projected_records.

Definition export_texts : list (string * Value) := sample_events ++ sample_details ++ projections ++ shapes.

(** The enumeration of the Task states in the event schema. *)
Definition known_states (v : Value) : bool :=
  forallb (λ k, match pointer ["task_transition"; k] v ≫= as_str with Some s => matches s TASK_STATES | None => true end)
    ["previous_state"; "new_state"].

Definition export_lib : ProvenanceLib := {|
  rfc3339_parses := String.eqb NOW;
  event_schema := Ok known_states;
  projection_manifest_schema := Ok (λ _, true);
  projected_record_schema := Ok (λ _, true);
  projection_result_schema := Ok (λ _, true);
  json_to_string := λ v, if plain v then table_write export_texts v else table_write sample_lines v;
  json_from_slice := table_read export_texts;
  jcs_to_vec := table_write (sample_views ++ projected_views);
  sha256 := sample_digest;
|}.

Lemma export_tables : table_ok export_texts = true.
Proof. vm_compute. reflexivity. Qed.

Lemma export_laws : @ProvenanceLaws export_lib.
Proof.
  constructor; [reflexivity|]. intros v s Hp Hs. unfold parse_unique_json_bytes. cbn [json_from_slice json_to_string export_lib] in *.
  rewrite Hp in Hs. destruct (table_read_back _ _ _ export_tables Hs) as (doc & -> & Hd). by rewrite Hd.
Qed.

Lemma export_states_known : @states_known export_lib.
Proof.
  intros validator v [= <-] Hv k s Hk Hs. unfold known_states in Hv. rewrite forallb_forall in Hv.
  specialize (Hv k (proj1 (list_elem_of_In _ _) Hk)). rewrite Hs in Hv. by apply matches_true.
Qed.

#[local] Existing Instance export_lib.
#[local] Existing Instance export_laws.

(** ** The export *)

Definition journal_step (db : Db) (ev : Value) (expected : ExpectedHead) : Db :=
  match append_in_tx db sample_task ev expected with Ok (_, db') => db' | Err _ => db end.
Definition journal : Db :=
  journal_step (journal_step (journal_step db0 (creation_event Null) Empty) indexed_event Any) transition_event Any.

Lemma journal_step_reachable db ev expected :
  reachable db → plain ev = true → is_ok (append_in_tx db sample_task ev expected) = true →
  reachable (journal_step db ev expected).
Proof.
  intros Hdb Hp Hok. unfold journal_step.
  destruct (append_in_tx db sample_task ev expected) as [[r db']|] eqn:E; [|discriminate].
  exact (reachable_append _ _ _ _ _ _ Hdb Hp E).
Qed.

Lemma journal_reachable : reachable journal.
Proof.
  unfold journal. apply journal_step_reachable; [apply journal_step_reachable; [apply journal_step_reachable;
    [apply reachable_empty|..]|..]|..]; vm_compute; reflexivity.
Qed.

Definition exported : ExportState :=
  {| es_jsonl := "line1" +++ String LF "" +++ "line2" +++ String LF "" +++ "line3" +++ String LF "";
     es_previous := Some (projection_hash "projec3"); es_head_sequence := 3; es_count := 3 |}.

Lemma export_loop_complete_witness : ∃ records, stream_ok journal sample_stream records ∧
  export_stream journal sample_stream sample_bundle sample_key =
  Some (export_page sample_bundle sample_key records export_start).
Proof. apply (export_loop_complete journal sample_stream sample_bundle sample_key journal_reachable). vm_compute. reflexivity. Defined.

Lemma exported_bundle_verifies_witness :
  collision ∨ ∃ prs,
    jsonl prs (es_jsonl exported) ∧ length prs = length (stream_rows journal sample_stream) ∧
    let result := verify_projected_records (manifest_of sample_bundle "" (projection_hash "projec3") exported) prs NOW in
    pv_valid result = true ∧ pv_diagnostics result = [] ∧
    pv_to_sequence result = es_head_sequence exported ∧
    pv_computed_projection_head_hash result = Some (projection_hash "projec3").
Proof.
  apply (exported_bundle_verifies journal sample_stream sample_bundle sample_key "" (projection_hash "projec3") exported NOW).
  - exact export_states_known.
  - exact journal_reachable.
  - vm_compute. reflexivity.
  - vm_compute. reflexivity.
  - reflexivity.
Defined.

(** ** What the projection reveals *)

Lemma projected_strings_public_witness :
  revealed sample_key transition_event (alias_digest sample_key "transition" "transition:test").
Proof.
  apply (projected_strings_public sample_key [] transition_event).
  assert (project_value sample_key [] transition_event = projected_at 3) as -> by (vm_compute; reflexivity).
  eapply string_value_member with (k := "task_transition"); [vm_compute; reflexivity|].
  eapply string_value_member with (k := "transition_id"); [vm_compute; reflexivity|].
  eapply string_value_member with (k := "alias"); [vm_compute; reflexivity|].
  apply string_value_str.
Defined.

(** The creation event of a Task under the constraint of the coordinator. *)
Definition private_record : JournalRecord :=
  {| schema_version := SCHEMA_VERSION; hash_profile := HASH_PROFILE; record_stream_id := sample_stream; sequence := 1;
     previous_event_hash := None; event_hash := sample_record_hash "v1";
     event := creation_event (json_object [("privacy", Str "local-first")]) |}.

Lemma constrained_creation_unexportable_witness :
  validate_details_vocabulary (event private_record) = Ok () ∧
  ¬ ∃ st', export_page sample_bundle sample_key [private_record] export_start = Ok st'.
Proof.
  split; [vm_compute; reflexivity|]. intros [st' Hst'].
  apply (constrained_creation_unexportable sample_bundle sample_key [private_record] export_start private_record "local-first")
    in Hst'; [exact Hst'|left|split; vm_compute; reflexivity].
Defined.
