(* ===== verification/TrustedTime.v ===== *)
(** * Trusted time

    [crates/aios-task-manager/src/trusted_time.rs] over the tables of
    [specs/persistence-v0.1-0018-trusted-time.sql] and
    [specs/persistence-v0.1-0019-inflight-time.sql]: the durable high-water mark of the wall
    clock, the confidence in it, the markers of effects outside the database, and the
    transactions that protect an operation with a clock sample.

    The state is the database ([Db]), whose other tables are a parameter [B], and the clock:
    the list of the samples it will give.  A nanosecond count is an [i64], kept as [Z].  A SQL
    statement is a function on the tables that fails when one of their [CHECK] constraints,
    keys or triggers does.  A transaction is a function of the database it starts from; an
    error discards the database it returns. *)

From S2P Require Import Prelude Numbers Details.

(** ** Errors and external code *)

Inductive StorageFailure :=
  | ConstraintFailed (constraint : string)
  | NoRows
  | InvalidType (column : nat)
  | CommitFailed.

(** The variants that the modelled operations return. *)
Inductive TaskManagerError :=
  | Storage (error : StorageFailure)
  | Serialization (message : string)
  | Canonicalization (message : string)
  | Provenance (error : Error)
  | AuthorityDenied (stage reason : string)
  | InvalidRecord (reason : string).

Abbreviation Res := (result TaskManagerError).

(** The [time] crate: the Unix time of an RFC 3339 text in nanoseconds, and back. *)
Class TimeLib := {
  rfc3339_nanos : string → option Z;
  rfc3339_format : Z → option string;
}.

Definition ROLLBACK_TOLERANCE_NANOS : Z := 2000000000.

Definition TIME_UNCERTAIN : TaskManagerError := InvalidRecord "TIME_UNCERTAIN".
Definition TIME_STATE_INVALID : TaskManagerError := InvalidRecord "TIME_STATE_INVALID".

(** [i64::try_from] *)
Definition i64_try_from (z : Z) : option Z := if ((i64_min <=? z) && (z <=? i64_max))%Z then Some z else None.

(** [i64::saturating_sub] and [i64::checked_add] *)
Definition saturating_sub (a b : Z) : Z := saturate_i64 (a - b).
Definition checked_add (a b : Z) : option Z := i64_try_from (a + b).

(** [Option::max] of the two arms [(Some(a), Some(b)) => Some(a.max(b)), (a, b) => a.or(b)] *)
Definition later (a b : option Z) : option Z :=
  match a, b with
  | Some a, Some b => Some (Z.max a b)
  | Some a, None => Some a
  | None, b => b
  end.

(** ** SQL truth values: [None] is [NULL] *)

Definition sql_and (a b : option bool) : option bool :=
  match a, b with
  | Some false, _ | _, Some false => Some false
  | Some true, Some true => Some true
  | _, _ => None
  end.

Definition sql_or (a b : option bool) : option bool :=
  match a, b with
  | Some true, _ | _, Some true => Some true
  | Some false, Some false => Some false
  | _, _ => None
  end.

Definition sql_ge (a b : option Z) : option bool :=
  match a, b with Some a, Some b => Some (b <=? a)%Z | _, _ => None end.

Definition is_null {A} (a : option A) : bool := match a with None => true | Some _ => false end.

(** A [CHECK] fails when its condition is false, not when it is unknown. *)
Definition check_holds (condition : option bool) : bool := match condition with Some false => false | _ => true end.

(** ** Samples and evidence *)

Inductive TimeSource := SystemClock | InjectedClock.

Definition TimeSource_as_str (self : TimeSource) : string :=
  match self with SystemClock => "SYSTEM_CLOCK" | InjectedClock => "INJECTED_CLOCK" end.

Record SecurityClockSample := { wall : string; monotonic : N; source : TimeSource }.

Record TimeAssessment := { ta_confidence : string; ta_effective_nanos : option Z }.

Record LockedTimeObservation := { lo_sample : option SecurityClockSample; lo_effective_nanos : option Z }.

Record ProtectedTimeContext := {
  now : string;
  state_revision : Z;
  observed_unix_nanos : Z;
  effective_unix_nanos : Z;
  monotonic_nanos : Z;
}.

Inductive ExternalEffectKind :=
  | Read | StagingWrite | StagingSeal | Publication | ExportConstruction | ExportCopy | ExportFinalize.

Definition ExternalEffectKind_as_str (self : ExternalEffectKind) : string :=
  match self with
  | Read => "ARTIFACT_READ"
  | StagingWrite => "ARTIFACT_STAGING_WRITE"
  | StagingSeal => "ARTIFACT_STAGING_SEAL"
  | Publication => "ARTIFACT_PUBLICATION"
  | ExportConstruction => "ARTIFACT_EXPORT_CONSTRUCTION"
  | ExportCopy => "ARTIFACT_EXPORT_COPY"
  | ExportFinalize => "ARTIFACT_EXPORT_FINALIZE"
  end.

Inductive ExternalResolutionKind := EffectInvoked | NoEffect.

Definition ExternalResolutionKind_as_str (self : ExternalResolutionKind) : string :=
  match self with EffectInvoked => "EFFECT_INVOKED" | NoEffect => "NO_EFFECT" end.

#[export] Instance ExternalResolutionKind_eq_dec : EqDecision ExternalResolutionKind.
Proof. solve_decision. Defined.

Record ExternalTimePermit := {
  permit_marker_id : string;
  permit_task_id : string;
  permit_subject_kind : ExternalEffectKind;
  permit_subject_id : string;
  permit_owner_id : string;
  permit_owner_epoch : Z;
  permit_state_revision : Z;
}.

(** The entry sample; its transaction is the database that is passed along. *)
Record ExternalEntrySample := {
  entry_marker_id : string;
  entry_observation : LockedTimeObservation;
  entry_committed_revision : option Z;
}.

(** ** Tables *)

Record StateRow := {
  ts_confidence : string;
  ts_high : option Z;
  ts_floor : option Z;
  ts_reason : string;
  ts_revision : Z;
}.

Record Observation := {
  ob_revision : Z;
  ob_observed : option Z;
  ob_monotonic : option Z;
  ob_high : option Z;
  ob_floor : option Z;
  ob_confidence : string;
  ob_reason : string;
  ob_source : string;
}.

Record Preparation := {
  p_marker_id : string;
  p_task_id : string;
  p_subject_kind : string;
  p_subject_id : string;
  p_owner_id : string;
  p_owner_epoch : Z;
  p_state_revision : Z;
  p_observed : Z;
}.

Record Resolution := { r_marker_id : string; r_state_revision : Z; r_observed : option Z; r_kind : string }.

(** The tables of trusted time, the lease, the identities of the Tasks, and the other tables. *)
Record Db (B : Type) := {
  time_state : option StateRow;
  observations : list Observation;
  preparations : list Preparation;
  resolutions : list Resolution;
  pending : list string;
  lease : option (string * Z);
  tasks : gset string;
  business : B;
}.
Arguments time_state {_} _.
Arguments observations {_} _.
Arguments preparations {_} _.
Arguments resolutions {_} _.
Arguments pending {_} _.
Arguments lease {_} _.
Arguments tasks {_} _.
Arguments business {_} _.
Arguments Build_Db {_} _ _ _ _ _ _ _ _.

Section tables.

Context {B : Type}.
Implicit Types db : Db B.

Definition set_time db (row : StateRow) (os : list Observation) : Db B :=
  Build_Db (Some row) os (preparations db) (resolutions db) (pending db) (lease db) (tasks db) (business db).

Definition set_business db (b : B) : Db B :=
  Build_Db (time_state db) (observations db) (preparations db) (resolutions db) (pending db) (lease db) (tasks db) b.

Definition set_markers db (ps : list Preparation) (rs : list Resolution) (pend : list string) : Db B :=
  Build_Db (time_state db) (observations db) ps rs pend (lease db) (tasks db) (business db).

(** The [CHECK] of [trusted_time_state]. *)
Definition state_check (row : StateRow) : bool :=
  (0 <=? ts_revision row)%Z &&
  existsb (String.eqb (ts_confidence row)) ["UNASSESSED"; "TRUSTED_LOCAL"; "TIME_UNCERTAIN"] &&
  check_holds
    (sql_or (Some (String.eqb (ts_confidence row) "UNASSESSED" && is_null (ts_high row) && is_null (ts_floor row) &&
                   (ts_revision row =? 0)%Z))
    (sql_or (sql_and (Some (String.eqb (ts_confidence row) "TRUSTED_LOCAL" && (0 <? ts_revision row)%Z &&
                            negb (is_null (ts_high row))))
                     (sql_ge (ts_floor row) (ts_high row)))
            (sql_and (Some (String.eqb (ts_confidence row) "TIME_UNCERTAIN" && (0 <? ts_revision row)%Z))
                     (sql_or (Some (is_null (ts_high row))) (sql_ge (ts_floor row) (ts_high row)))))).

(** [OLD IS NOT NULL AND (NEW IS NULL OR NEW < OLD)] *)
Definition moved_back (old new : option Z) : bool :=
  match old, new with
  | Some old, Some new => (new <? old)%Z
  | Some _, None => true
  | None, _ => false
  end.

(** The trigger [trusted_time_state_monotone]. *)
Definition state_monotone (old new : StateRow) : bool :=
  negb (negb (ts_revision new =? ts_revision old + 1)%Z || moved_back (ts_high old) (ts_high new) ||
        moved_back (ts_floor old) (ts_floor new) ||
        (String.eqb (ts_confidence old) "TIME_UNCERTAIN" && negb (String.eqb (ts_confidence new) "TIME_UNCERTAIN"))).

(** [UPDATE trusted_time_state SET .. WHERE singleton_id=1 AND revision=?]: the number of rows changed. *)
Definition update_state db (new : StateRow) (revision : Z) : Res (nat * Db B) :=
  match time_state db with
  | None => Ok (0, db)
  | Some old =>
      if negb (ts_revision old =? revision)%Z then Ok (0, db)
      else if negb (state_monotone old new)
      then Err (Storage (ConstraintFailed "trusted time cannot move backward or auto-clear"))
      else if negb (state_check new) then Err (Storage (ConstraintFailed "trusted_time_state"))
      else Ok (1, set_time db new (observations db))
  end.

(** [INSERT INTO trusted_time_observations] *)
Definition insert_observation db (o : Observation) : Res (Db B) :=
  if existsb (λ o', ob_revision o' =? ob_revision o)%Z (observations db)
  then Err (Storage (ConstraintFailed "trusted time observation already exists"))
  else if negb (existsb (String.eqb (ob_confidence o)) ["TRUSTED_LOCAL"; "TIME_UNCERTAIN"] &&
                existsb (String.eqb (ob_source o)) ["SYSTEM_CLOCK"; "INJECTED_CLOCK"; "UNAVAILABLE"])
  then Err (Storage (ConstraintFailed "trusted_time_observations"))
  else Ok (Build_Db (time_state db) (observations db ++ [o]) (preparations db) (resolutions db) (pending db)
             (lease db) (tasks db) (business db)).

(** [ORDER BY state_revision DESC LIMIT 1] *)
Definition latest_observation db : option Observation :=
  last (sort_by (λ a b, ob_revision a <=? ob_revision b)%Z (observations db)).

(** [WHERE state_revision=?] *)
Definition observation_at db (revision : Z) : option Observation :=
  list_find (λ o, ob_revision o = revision) (observations db) ≫= λ io, Some io.2.

(** [.. trusted_time_state s JOIN trusted_time_observations o ON o.state_revision=s.revision] *)
Definition current_observation db : option (StateRow * Observation) :=
  row ← time_state db; o ← observation_at db (ts_revision row); Some (row, o).

Definition pending_marker_exists db : bool := match pending db with [] => false | _ :: _ => true end.

Definition min_revision (os : list Observation) : option Z :=
  foldr (λ o m, match m with None => Some (ob_revision o) | Some m => Some (Z.min (ob_revision o) m) end) None os.
Definition max_revision (os : list Observation) : option Z :=
  foldr (λ o m, match m with None => Some (ob_revision o) | Some m => Some (Z.max (ob_revision o) m) end) None os.

Definition state_matches_audit db : bool :=
  match time_state db with
  | None => false
  | Some row =>
      if (ts_revision row <? 0)%Z then false else
      let count := Z.of_nat (length (observations db)) in
      if (ts_revision row =? 0)%Z
      then String.eqb (ts_confidence row) "UNASSESSED" && is_null (ts_high row) && is_null (ts_floor row) &&
           (count =? 0)%Z
      else
        (count =? ts_revision row)%Z &&
        bool_decide (min_revision (observations db) = Some 1%Z) &&
        bool_decide (max_revision (observations db) = Some (ts_revision row)) &&
        bool_decide ((latest_observation db ≫= ob_high) = ts_high row) &&
        bool_decide ((ob_confidence <$> latest_observation db) = Some (ts_confidence row)) &&
        bool_decide (((λ o, (ob_floor o, ob_confidence o)) <$> observation_at db (ts_revision row)) =
                     Some (ts_floor row, ts_confidence row))
  end.

Definition state_matches_audit_tail db : bool :=
  match time_state db with
  | None => false
  | Some row =>
      if (ts_revision row =? 0)%Z
      then String.eqb (ts_confidence row) "UNASSESSED" && is_null (ts_high row) && is_null (ts_floor row) &&
           is_null (latest_observation db)
      else bool_decide (((λ o, (ob_revision o, ob_high o, ob_floor o, ob_confidence o)) <$> latest_observation db) =
                        Some (ts_revision row, ts_high row, ts_floor row, ts_confidence row))
  end.

End tables.

Section operations.

Context `{TL : TimeLib} {B : Type}.
Implicit Types db : Db B.

(** ** Reading a clock sample *)

Definition format_nanos (nanos : Z) : Res string :=
  match rfc3339_format nanos with Some s => Ok s | None => Err TIME_UNCERTAIN end.

(** The wall time of a sample as an [i64]. *)
Definition wall_nanos (sample : SecurityClockSample) : option Z := rfc3339_nanos (wall sample) ≫= i64_try_from.

Definition LockedTimeObservation_require_trusted_time (self : LockedTimeObservation) : Res string :=
  match lo_effective_nanos self with Some nanos => format_nanos nanos | None => Err TIME_UNCERTAIN end.

Definition TimeAssessment_require_trusted_time (self : TimeAssessment) : Res string :=
  if negb (String.eqb (ta_confidence self) "TRUSTED_LOCAL") then Err TIME_UNCERTAIN
  else match ta_effective_nanos self with Some nanos => format_nanos nanos | None => Err TIME_UNCERTAIN end.

(** ** Recording a sample *)

(** The new state and its observation. *)
Definition next_state (old : StateRow) (sample : option SecurityClockSample) (unresolved : bool) (revision : Z) :
    StateRow * Observation :=
  let parsed := sample ≫= λ sample, (λ nanos, (nanos, sample)) <$> wall_nanos sample in
  let observed := fst <$> parsed in
  let monotonic := parsed ≫= λ p, i64_try_from (Z.of_N (monotonic p.2)) in
  let source := match parsed with Some (_, sample) => TimeSource_as_str (source sample) | None => "UNAVAILABLE" end in
  let rolled_back :=
    match observed, ts_high old with
    | Some wall, Some high => (wall <? saturating_sub high ROLLBACK_TOLERANCE_NANOS)%Z
    | _, _ => false
    end in
  let uncertain := String.eqb (ts_confidence old) "TIME_UNCERTAIN" in
  let confidence :=
    if uncertain || unresolved || is_null observed || rolled_back then "TIME_UNCERTAIN" else "TRUSTED_LOCAL" in
  let reason :=
    if uncertain then "TIME_UNCERTAIN"
    else if unresolved then "TIME_EFFECT_UNRESOLVED"
    else if is_null observed then "TIME_SOURCE_UNAVAILABLE"
    else if rolled_back then "TIME_ROLLBACK_DETECTED"
    else "TIME_OK" in
  let high := later (ts_high old) observed in
  let floor := later (ts_floor old) high in
  ({| ts_confidence := confidence; ts_high := high; ts_floor := floor; ts_reason := reason; ts_revision := revision |},
   {| ob_revision := revision; ob_observed := observed; ob_monotonic := monotonic; ob_high := high; ob_floor := floor;
      ob_confidence := confidence; ob_reason := reason; ob_source := source |}).

Definition apply_sample_in_transaction_with_unresolved db (sample : option SecurityClockSample) (unresolved : bool) :
    Res (TimeAssessment * Db B) :=
  if negb (state_matches_audit_tail db) then Err TIME_STATE_INVALID else
  match time_state db with
  | None => Err (InvalidRecord "TIME_STATE_MISSING")
  | Some old =>
      if negb (existsb (String.eqb (ts_confidence old)) ["UNASSESSED"; "TRUSTED_LOCAL"; "TIME_UNCERTAIN"]) ||
         (ts_revision old <? 0)%Z ||
         match ts_floor old, ts_high old with Some floor, Some high => (floor <? high)%Z | _, _ => false end
      then Err TIME_STATE_INVALID
      else
        match checked_add (ts_revision old) 1 with
        | None => Err TIME_STATE_INVALID
        | Some revision =>
            let '(row, observation) := next_state old sample unresolved revision in
            '(changed, db1) ← update_state db row (ts_revision old);
            if negb (changed =? 1)%nat then Err TIME_STATE_INVALID else
            db2 ← insert_observation db1 observation;
            Ok ({| ta_confidence := ts_confidence row; ta_effective_nanos := ts_floor row |}, db2)
        end
  end.

Definition apply_sample_in_transaction db (sample : option SecurityClockSample) : Res (TimeAssessment * Db B) :=
  apply_sample_in_transaction_with_unresolved db sample false.

Inductive PendingPolicy := Deny | Latch | RecordOnly.

(** The clock is the list of the samples it will give; a clock that gives none is unavailable. *)
Definition Clock : Type := list (option SecurityClockSample).
Definition security_sample (clock : Clock) : option SecurityClockSample * Clock := (default None (head clock), tail clock).

(** [BEGIN IMMEDIATE; ..; COMMIT], or [ROLLBACK] on an error. *)
Definition assess_sample_with_pending_policy db (clock : Clock) (pending_policy : PendingPolicy) :
    Res TimeAssessment * Db B * Clock :=
  let pending := pending_marker_exists db in
  if match pending_policy with Deny => true | _ => false end && pending then (Err TIME_UNCERTAIN, db, clock) else
  let '(sample, clock) := security_sample clock in
  match apply_sample_in_transaction_with_unresolved db sample
          (match pending_policy with Latch => true | _ => false end && pending) with
  | Ok (assessment, db') => (Ok assessment, db', clock)
  | Err error => (Err error, db, clock)
  end.

Definition assess db (clock : Clock) : Res TimeAssessment * Db B * Clock :=
  if pending_marker_exists db then (Err TIME_UNCERTAIN, db, clock)
  else assess_sample_with_pending_policy db clock Deny.

Definition startup_assess db (clock : Clock) : Res TimeAssessment * Db B * Clock :=
  assess_sample_with_pending_policy db clock Latch.

(** [assess_sample]: the sample is at hand. *)
Definition assess_sample db (sample : option SecurityClockSample) : Res TimeAssessment * Db B :=
  let '(r, db', _) := assess_sample_with_pending_policy db [sample] RecordOnly in (r, db').

Definition protected_now db (clock : Clock) : Res string * Db B * Clock :=
  let '(r, db', clock') := assess db clock in
  (r ≫= TimeAssessment_require_trusted_time, db', clock').

(** ** A sample under the lock *)

(** [db] is not changed; the clock is. *)
Definition capture_locked_with_permit db (clock : Clock) (permitted_marker : option string) :
    Res LockedTimeObservation * Clock :=
  if negb (state_matches_audit_tail db) then (Err TIME_STATE_INVALID, clock) else
  match
    match permitted_marker, head (pending db) with
    | None, None => Ok ()
    | Some expected, Some actual =>
        if String.eqb expected actual then
          if negb (length (pending db) =? 1)%nat then Err TIME_UNCERTAIN else Ok ()
        else Err TIME_UNCERTAIN
    | _, _ => Err TIME_UNCERTAIN
    end
  with
  | Err error => (Err error, clock)
  | Ok _ =>
      let '(sample, clock) := security_sample clock in
      match time_state db with
      | None => (Err (Storage NoRows), clock)
      | Some row =>
          let observed := sample ≫= wall_nanos in
          let effective_nanos :=
            if String.eqb (ts_confidence row) "TRUSTED_LOCAL" then
              match ts_floor row, observed with
              | Some floor, Some now =>
                  if (saturating_sub floor ROLLBACK_TOLERANCE_NANOS <=? now)%Z then Some (Z.max floor now) else None
              | _, _ => None
              end
            else None in
          (Ok {| lo_sample := sample; lo_effective_nanos := effective_nanos |}, clock)
      end
  end.

Definition capture_locked db (clock : Clock) : Res LockedTimeObservation * Clock :=
  capture_locked_with_permit db clock None.

Definition commit (self : LockedTimeObservation) db : Res TimeAssessment * Db B := assess_sample db (lo_sample self).

Definition commit_in (self : LockedTimeObservation) db : Res (TimeAssessment * Db B) :=
  apply_sample_in_transaction db (lo_sample self).

Definition commit_context_in (self : LockedTimeObservation) db : Res (ProtectedTimeContext * Db B) :=
  '(assessment, db) ← commit_in self db;
  now ← TimeAssessment_require_trusted_time assessment;
  match current_observation db with
  | Some (row, o) =>
      if negb (String.eqb (ts_confidence row) "TRUSTED_LOCAL" && String.eqb (ob_confidence o) "TRUSTED_LOCAL")
      then Err (Storage NoRows)
      else
        match ob_observed o, ob_floor o, ob_monotonic o with
        | Some observed, Some effective, Some monotonic =>
            Ok ({| now := now; state_revision := ob_revision o; observed_unix_nanos := observed;
                   effective_unix_nanos := effective; monotonic_nanos := monotonic |}, db)
        | _, _, _ => Err TIME_UNCERTAIN
        end
  | None => Err (Storage NoRows)
  end.

(** ** Protected transactions *)

(** After a failure the sample is recorded in a transaction of its own; its own error replaces the first. *)
Definition denied {A} (fresh : LockedTimeObservation) db (error : TaskManagerError) : Res A * Db B :=
  match commit fresh db with
  | (Ok _, db') => (Err error, db')
  | (Err error', db') => (Err error', db')
  end.

(** The transaction of [with_protected_immediate].  The operation reads the database and returns the other
    tables as it leaves them; [committed] is the answer of the database to the final [COMMIT]. *)
Definition protected_transaction {A} db (clock : Clock) (operation : Db B → string → Res (A * B)) (committed : bool) :
    Res A * Db B * Clock :=
  match capture_locked db clock with
  | (Err error, clock) => (Err error, db, clock)
  | (Ok fresh, clock) =>
      let result :=
        now ← LockedTimeObservation_require_trusted_time fresh;
        '(value, b) ← operation db now;
        '(observation, db') ← commit_in fresh (set_business db b);
        TimeAssessment_require_trusted_time observation ≫= λ _,
        if committed then Ok (value, db') else Err (Storage CommitFailed) in
      match result with
      | Ok (value, db') => (Ok value, db', clock)
      | Err error => (denied fresh db error, clock)
      end
  end.

Definition with_protected_immediate {A} db (clock : Clock) (operation : Db B → string → Res (A * B)) (committed : bool) :
    Res A * Db B * Clock :=
  match protected_now db clock with
  | (Err error, db, clock) => (Err error, db, clock)
  | (Ok _, db, clock) => protected_transaction db clock operation committed
  end.

(** The transaction of [with_protected_observation]: the sample is recorded before the operation. *)
Definition observed_transaction {A} db (clock : Clock) (operation : Db B → ProtectedTimeContext → Res (A * B))
    (committed : bool) : Res A * Db B * Clock :=
  match capture_locked db clock with
  | (Err error, clock) => (Err error, db, clock)
  | (Ok fresh, clock) =>
      let result :=
        LockedTimeObservation_require_trusted_time fresh ≫= λ _,
        '(context, db') ← commit_context_in fresh db;
        '(value, b) ← operation db' context;
        if committed then Ok (value, set_business db' b) else Err (Storage CommitFailed) in
      match result with
      | Ok (value, db') => (Ok value, db', clock)
      | Err error => (denied fresh db error, clock)
      end
  end.

Definition with_protected_observation {A} db (clock : Clock) (operation : Db B → ProtectedTimeContext → Res (A * B))
    (committed : bool) : Res A * Db B * Clock :=
  match protected_now db clock with
  | (Err error, db, clock) => (Err error, db, clock)
  | (Ok _, db, clock) => observed_transaction db clock operation committed
  end.

(** ** Effects outside the database *)

Definition assert_manager_lease db (owner : string) (epoch : Z) : Res unit :=
  if bool_decide (lease db = Some (owner, epoch)) then Ok ()
  else Err (InvalidRecord "Task Manager write rejected by stale ownership fence").

Definition lower_hex_byte (c : ascii) : bool :=
  let n := Ascii.N_of_ascii c in (((48 <=? n) && (n <=? 57)) || ((97 <=? n) && (n <=? 102)))%N.

(** [length(..)=32 AND .. NOT GLOB '*[^0-9a-f]*'] *)
Definition marker_check (marker_id : string) : bool :=
  (chars_count marker_id =? 32)%nat && string_forallb lower_hex_byte marker_id.

Definition NUL_free (s : string) : bool := string_forallb (λ c, negb (bool_decide (c = "000"%char))) s.

(** [INSERT INTO trusted_time_effect_preparations], its triggers, and the projection into the pending table. *)
Definition insert_preparation db (p : Preparation) : Res (Db B) :=
  if existsb (λ q, String.eqb (p_marker_id q) (p_marker_id p)) (preparations db)
  then Err (Storage (ConstraintFailed "in-flight time marker already exists"))
  else if negb match current_observation db with
               | Some (row, o) =>
                   String.eqb (ts_confidence row) "TRUSTED_LOCAL" && String.eqb (ob_confidence o) "TRUSTED_LOCAL" &&
                   bool_decide (ob_observed o = Some (p_observed p)) && (ts_revision row =? p_state_revision p)%Z &&
                   bool_decide (lease db = Some (p_owner_id p, p_owner_epoch p))
               | None => false
               end
  then Err (Storage (ConstraintFailed "in-flight time preparation lacks exact clock and owner"))
  else if negb (marker_check (p_marker_id p) && bool_decide (p_task_id p ∈ tasks db) &&
                existsb (String.eqb (p_subject_kind p))
                  ["ARTIFACT_READ"; "ARTIFACT_STAGING_WRITE"; "ARTIFACT_STAGING_SEAL"; "ARTIFACT_PUBLICATION";
                   "ARTIFACT_EXPORT_CONSTRUCTION"; "ARTIFACT_EXPORT_COPY"; "ARTIFACT_EXPORT_FINALIZE"] &&
                (1 <=? chars_count (p_subject_id p))%nat && (chars_count (p_subject_id p) <=? 256)%nat &&
                NUL_free (p_subject_id p) && (1 <=? p_owner_epoch p)%Z &&
                existsb (λ o, ob_revision o =? p_state_revision p)%Z (observations db))
  then Err (Storage (ConstraintFailed "trusted_time_effect_preparations"))
  else if bool_decide (p_marker_id p ∈ pending db)
  then Err (Storage (ConstraintFailed "in-flight time marker is already pending"))
  else if existsb (λ r, String.eqb (r_marker_id r) (p_marker_id p)) (resolutions db)
  then Err (Storage (ConstraintFailed "in-flight time pending projection is invalid"))
  else Ok (set_markers db (preparations db ++ [p]) (resolutions db) (pending db ++ [p_marker_id p])).

(** The transaction of [prepare_external_effect]; [marker_id] is the random identity that SQLite draws. *)
Definition prepare_transaction db (clock : Clock) (owner_id : string) (owner_epoch : Z) (task_id : string)
    (subject_kind : ExternalEffectKind) (subject_id marker_id : string) (committed : bool) :
    Res ExternalTimePermit * Db B * Clock :=
  match assert_manager_lease db owner_id owner_epoch with
  | Err error => (Err error, db, clock)
  | Ok _ =>
      match capture_locked db clock with
      | (Err error, clock) => (Err error, db, clock)
      | (Ok fresh, clock) =>
          let result :=
            LockedTimeObservation_require_trusted_time fresh ≫= λ _,
            '(assessment, db1) ← commit_in fresh db;
            TimeAssessment_require_trusted_time assessment ≫= λ _,
            '(revision, observed) ← match current_observation db1 with
                                    | Some (row, o) =>
                                        match ob_observed o with
                                        | Some observed => Ok (ts_revision row, observed)
                                        | None => Err (Storage (InvalidType 1))
                                        end
                                    | None => Err (Storage NoRows)
                                    end;
            db2 ← insert_preparation db1
                    {| p_marker_id := marker_id; p_task_id := task_id;
                       p_subject_kind := ExternalEffectKind_as_str subject_kind; p_subject_id := subject_id;
                       p_owner_id := owner_id; p_owner_epoch := owner_epoch; p_state_revision := revision;
                       p_observed := observed |};
            if committed then
              Ok ({| permit_marker_id := marker_id; permit_task_id := task_id; permit_subject_kind := subject_kind;
                     permit_subject_id := subject_id; permit_owner_id := owner_id; permit_owner_epoch := owner_epoch;
                     permit_state_revision := revision |}, db2)
            else Err (Storage CommitFailed) in
          match result with
          | Ok (permit, db') => (Ok permit, db', clock)
          | Err error => (denied fresh db error, clock)
          end
      end
  end.

Definition prepare_external_effect db (clock : Clock) (owner_id : string) (owner_epoch : Z) (task_id : string)
    (subject_kind : ExternalEffectKind) (subject_id marker_id : string) (committed : bool) :
    Res ExternalTimePermit * Db B * Clock :=
  if (owner_epoch <? 1)%Z || bool_decide (task_id = "") || (256 <? chars_count task_id)%nat ||
     bool_decide (subject_id = "") || (256 <? chars_count subject_id)%nat ||
     negb (NUL_free task_id) || negb (NUL_free subject_id)
  then (Err (InvalidRecord "invalid in-flight time subject"), db, clock) else
  match assess db clock with
  | (Err error, db, clock) => (Err error, db, clock)
  | (Ok assessment, db, clock) =>
      match TimeAssessment_require_trusted_time assessment with
      | Err error => (Err error, db, clock)
      | Ok _ => prepare_transaction db clock owner_id owner_epoch task_id subject_kind subject_id marker_id committed
      end
  end.

Definition permit_matches_locked db (permit : ExternalTimePermit) : Res unit :=
  assert_manager_lease db (permit_owner_id permit) (permit_owner_epoch permit) ≫= λ _,
  if existsb (λ p,
       String.eqb (p_marker_id p) (permit_marker_id permit) && String.eqb (p_task_id p) (permit_task_id permit) &&
       String.eqb (p_subject_kind p) (ExternalEffectKind_as_str (permit_subject_kind permit)) &&
       String.eqb (p_subject_id p) (permit_subject_id permit) && String.eqb (p_owner_id p) (permit_owner_id permit) &&
       (p_owner_epoch p =? permit_owner_epoch permit)%Z && (p_state_revision p =? permit_state_revision permit)%Z &&
       bool_decide (p_marker_id p ∈ pending db) &&
       negb (existsb (λ r, String.eqb (r_marker_id r) (p_marker_id p)) (resolutions db))) (preparations db)
  then Ok () else Err TIME_UNCERTAIN.

Definition capture_external_entry db (clock : Clock) (permit : ExternalTimePermit) : Res ExternalEntrySample * Clock :=
  match permit_matches_locked db permit with
  | Err error => (Err error, clock)
  | Ok _ =>
      match capture_locked_with_permit db clock (Some (permit_marker_id permit)) with
      | (Err error, clock) => (Err error, clock)
      | (Ok observation, clock) =>
          (Ok {| entry_marker_id := permit_marker_id permit; entry_observation := observation;
                 entry_committed_revision := None |}, clock)
      end
  end.

(** [ExternalEntrySample::commit_context_in], with the cell it sets. *)
Definition entry_commit_context_in (self : ExternalEntrySample) db :
    Res (ProtectedTimeContext * ExternalEntrySample * Db B) :=
  match entry_committed_revision self with
  | Some _ => Err TIME_UNCERTAIN
  | None =>
      '(context, db) ← commit_context_in (entry_observation self) db;
      Ok (context, {| entry_marker_id := entry_marker_id self; entry_observation := entry_observation self;
                      entry_committed_revision := Some (state_revision context) |}, db)
  end.

(** [INSERT INTO trusted_time_effect_resolutions], its triggers, and the deletion of the pending marker. *)
Definition insert_resolution db (r : Resolution) : Res (Db B) :=
  if existsb (λ q, String.eqb (r_marker_id q) (r_marker_id r) || (r_state_revision q =? r_state_revision r)%Z)
       (resolutions db)
  then Err (Storage (ConstraintFailed "in-flight time resolution already exists"))
  else if negb match current_observation db with
               | Some (row, o) =>
                   existsb (λ p,
                     String.eqb (p_marker_id p) (r_marker_id r) && bool_decide (p_marker_id p ∈ pending db) &&
                     (p_state_revision p <? ts_revision row)%Z &&
                     bool_decide (lease db = Some (p_owner_id p, p_owner_epoch p))) (preparations db) &&
                   (ts_revision row =? r_state_revision r)%Z &&
                   String.eqb (ob_confidence o) (ts_confidence row) &&
                   bool_decide (ob_observed o = r_observed r) &&
                   ((String.eqb (r_kind r) "EFFECT_INVOKED" && String.eqb (ts_confidence row) "TRUSTED_LOCAL" &&
                     negb (is_null (r_observed r))) ||
                    (String.eqb (r_kind r) "NO_EFFECT" &&
                     existsb (String.eqb (ts_confidence row)) ["TRUSTED_LOCAL"; "TIME_UNCERTAIN"])) &&
                   (length (pending db) =? 1)%nat
               | None => false
               end
  then Err (Storage (ConstraintFailed "in-flight time resolution lacks exact entry clock and owner"))
  else Ok (set_markers db (preparations db) (resolutions db ++ [r])
             (filter (λ marker, marker ≠ r_marker_id r) (pending db))).

Definition resolve_external_entry_in_kind db (permit : ExternalTimePermit) (entry : ExternalEntrySample)
    (resolution_kind : ExternalResolutionKind) : Res (TimeAssessment * Db B) :=
  if negb (String.eqb (entry_marker_id entry) (permit_marker_id permit)) then Err TIME_UNCERTAIN else
  permit_matches_locked db permit ≫= λ _,
  (if bool_decide (resolution_kind = EffectInvoked)
   then LockedTimeObservation_require_trusted_time (entry_observation entry) ≫= λ _, Ok () else Ok ()) ≫= λ _,
  '(assessment, db) ←
    match entry_committed_revision entry with
    | Some committed_revision =>
        match time_state db with
        | None => Err (Storage NoRows)
        | Some row =>
            if negb (ts_revision row =? committed_revision)%Z || negb (String.eqb (ts_confidence row) "TRUSTED_LOCAL")
            then Err TIME_UNCERTAIN
            else Ok ({| ta_confidence := ts_confidence row; ta_effective_nanos := ts_floor row |}, db)
        end
    | None => commit_in (entry_observation entry) db
    end;
  (if bool_decide (resolution_kind = EffectInvoked)
   then TimeAssessment_require_trusted_time assessment ≫= λ _, Ok () else Ok ()) ≫= λ _,
  match current_observation db with
  | None => Err (Storage NoRows)
  | Some (row, o) =>
      db ← insert_resolution db
             {| r_marker_id := permit_marker_id permit; r_state_revision := ts_revision row; r_observed := ob_observed o;
                r_kind := ExternalResolutionKind_as_str resolution_kind |};
      Ok (assessment, db)
  end.

Definition resolve_external_entry_in db (permit : ExternalTimePermit) (entry : ExternalEntrySample) :
    Res (TimeAssessment * Db B) :=
  resolve_external_entry_in_kind db permit entry EffectInvoked.

Definition resolve_external_no_effect_in db (permit : ExternalTimePermit) (entry : ExternalEntrySample) :
    Res (TimeAssessment * Db B) :=
  resolve_external_entry_in_kind db permit entry NoEffect.

(** The query of [inflight_rows_coherent], negated. *)
Definition inflight_rows_coherent db : bool :=
  forallb (λ p,
    bool_decide (p_task_id p ∈ tasks db) &&
    match observation_at db (p_state_revision p) with
    | Some o => String.eqb (ob_confidence o) "TRUSTED_LOCAL" && bool_decide (ob_observed o = Some (p_observed p))
    | None => false
    end &&
    negb (bool_decide (p_owner_id p = "")) && (1 <=? p_owner_epoch p)%Z &&
    xorb (existsb (λ r, String.eqb (r_marker_id r) (p_marker_id p)) (resolutions db))
         (bool_decide (p_marker_id p ∈ pending db))) (preparations db) &&
  forallb (λ r,
    match find (λ p, String.eqb (p_marker_id p) (r_marker_id r)) (preparations db),
          observation_at db (r_state_revision r) with
    | Some p, Some o =>
        (p_state_revision p <? r_state_revision r)%Z && bool_decide (ob_observed o = r_observed r) &&
        negb (String.eqb (r_kind r) "EFFECT_INVOKED" &&
              (negb (String.eqb (ob_confidence o) "TRUSTED_LOCAL") || is_null (ob_observed o))) &&
        negb (String.eqb (r_kind r) "NO_EFFECT" &&
              negb (existsb (String.eqb (ob_confidence o)) ["TRUSTED_LOCAL"; "TIME_UNCERTAIN"]))
    | _, _ => false
    end) (resolutions db) &&
  forallb (λ marker, existsb (λ p, String.eqb (p_marker_id p) marker) (preparations db)) (pending db).

End operations.
