(* ===== verification/TimeState.v ===== *)
(** * The history of trusted time

    What [crates/aios-task-manager/src/trusted_time.rs] guarantees over every interleaving of
    its transactions.  [recorded] relates the observations to the state row: it is the
    abstract machine, one transition per clock sample.  Every reachable database is a recorded
    history ([trusted_time_exact]); time and distrust only grow ([time_never_backwards]); at
    most one outside effect is in flight, and it blocks protected work
    ([one_effect_in_flight]). *)

From S2P Require Import Prelude Numbers TrustedTime.

Section history.

Context `{TL : TimeLib}.

(** ** The abstract machine *)

Definition unassessed : StateRow :=
  {| ts_confidence := "UNASSESSED"; ts_high := None; ts_floor := None; ts_reason := "TIME_UNASSESSED"; ts_revision := 0 |}.

(** The state row after the samples of the observations. *)
Inductive recorded : list Observation → StateRow → Prop :=
  | recorded_none : recorded [] unassessed
  | recorded_sample os row sample unresolved :
      recorded os row → (ts_revision row < i64_max)%Z →
      recorded (os ++ [(next_state row sample unresolved (ts_revision row + 1)).2])
               (next_state row sample unresolved (ts_revision row + 1)).1.

(** The latest wall time observed. *)
Definition max_observed (os : list Observation) : option Z := foldl later None (ob_observed <$> os).

(** Every sample was available, outside no unresolved effect, and at most the tolerance behind the latest. *)
Definition steady (os : list Observation) : Prop :=
  ∀ i o, os !! i = Some o →
    ob_reason o ≠ "TIME_EFFECT_UNRESOLVED" ∧
    ∃ wall, ob_observed o = Some wall ∧
      ∀ h, max_observed (take i os) = Some h → (h - ROLLBACK_TOLERANCE_NANOS ≤ wall)%Z.

Lemma max_observed_snoc os o : max_observed (os ++ [o]) = later (max_observed os) (ob_observed o).
Proof. unfold max_observed. by rewrite fmap_app, foldl_app. Qed.

Lemma steady_snoc os o :
  steady (os ++ [o]) ↔ steady os ∧ ob_reason o ≠ "TIME_EFFECT_UNRESOLVED" ∧
    ∃ wall, ob_observed o = Some wall ∧
      ∀ h, max_observed os = Some h → (h - ROLLBACK_TOLERANCE_NANOS ≤ wall)%Z.
Proof.
  split.
  - intros H. split.
    + intros i o' Hi. assert (i < length os) by by eapply lookup_lt_Some.
      destruct (H i o') as [? Hw]; [by rewrite lookup_app_l|]. rewrite take_app_le in Hw by lia. done.
    + destruct (H (length os) o) as [? Hw]; [by rewrite list_lookup_middle|]. rewrite take_app_length in Hw. done.
  - intros (Hs & Hr & Hw) i o' [Hi|[Hlt Hi]]%lookup_app_Some.
    + assert (i < length os) by by eapply lookup_lt_Some. rewrite take_app_le by lia. by apply Hs.
    + apply list_lookup_singleton_Some in Hi as [Hi <-]. replace i with (length os) by lia. by rewrite take_app_length.
Qed.

Lemma i64_try_from_Some z n : i64_try_from z = Some n ↔ z = n ∧ (i64_min ≤ z ≤ i64_max)%Z.
Proof. unfold i64_try_from. destruct (Z.leb_spec i64_min z), (Z.leb_spec z i64_max); simpl; naive_solver lia. Qed.

Lemma wall_nanos_range sample n : wall_nanos sample = Some n → (i64_min ≤ n ≤ i64_max)%Z.
Proof. unfold wall_nanos. intros (z & _ & [-> ?]%i64_try_from_Some)%bind_Some. done. Qed.

(** For times that fit, the saturating test is the exact one. *)
Lemma tolerance_exact h wall : (i64_min ≤ wall)%Z → (h ≤ i64_max)%Z →
  (wall <? saturating_sub h ROLLBACK_TOLERANCE_NANOS)%Z = false ↔ (h - ROLLBACK_TOLERANCE_NANOS ≤ wall)%Z.
Proof.
  intros Hw Hh. rewrite Z.ltb_ge. unfold saturating_sub, saturate_i64, ROLLBACK_TOLERANCE_NANOS, i64_min, i64_max in *. lia.
Qed.

Lemma later_cases a b : later a b = a ∨ later a b = b.
Proof.
  destruct a as [a|], b as [b|]; simpl; auto. destruct (Z.max_spec a b) as [[_ ->]|[_ ->]]; auto.
Qed.

Lemma later_idemp_l a b : later a (later a b) = later a b.
Proof. destruct a, b; simpl; try done; f_equal; lia. Qed.

(** ** What a history says *)

Record history_ok (os : list Observation) (row : StateRow) : Prop := {
  h_revision : ts_revision row = Z.of_nat (length os);
  h_bound : (ts_revision row ≤ i64_max)%Z;
  h_numbered : ∀ i o, os !! i = Some o → ob_revision o = Z.of_nat (S i);
  h_high : ts_high row = max_observed os;
  h_floor : ts_floor row = ts_high row;
  h_range : ∀ h, ts_high row = Some h → (i64_min ≤ h ≤ i64_max)%Z;
  h_last : ∀ o, last os = Some o →
    ob_high o = ts_high row ∧ ob_floor o = ts_floor row ∧ ob_confidence o = ts_confidence row ∧
    ob_reason o = ts_reason row;
  h_unassessed : os = [] → row = unassessed;
  h_confidence : os ≠ [] → ts_confidence row = "TRUSTED_LOCAL" ∨ ts_confidence row = "TIME_UNCERTAIN";
  h_trusted : ts_confidence row = "TRUSTED_LOCAL" ↔ os ≠ [] ∧ steady os;
}.

Section next_state.

Context (old : StateRow) (sample : option SecurityClockSample) (unresolved : bool) (revision : Z).

Let row := (next_state old sample unresolved revision).1.
Let o := (next_state old sample unresolved revision).2.

Lemma next_observed : ob_observed o = sample ≫= wall_nanos.
Proof. unfold o, next_state. destruct sample as [s|]; [|done]. cbn. by destruct (wall_nanos s). Qed.

(** The state and the observation agree. *)
Lemma next_fields :
  ob_revision o = revision ∧ ts_revision row = revision ∧ ob_high o = ts_high row ∧ ob_floor o = ts_floor row ∧
  ob_confidence o = ts_confidence row ∧ ob_reason o = ts_reason row ∧
  ts_high row = later (ts_high old) (ob_observed o) ∧ ts_floor row = later (ts_floor old) (ts_high row).
Proof. done. Qed.

Lemma next_confidence : ts_confidence row = "TRUSTED_LOCAL" ∨ ts_confidence row = "TIME_UNCERTAIN".
Proof. unfold row, next_state. cbn [fst ts_confidence]. destruct (_ || _); auto. Qed.

Lemma next_trusted : (∀ h, ts_high old = Some h → (h ≤ i64_max)%Z) →
  ts_confidence row = "TRUSTED_LOCAL" ↔
  ts_confidence old ≠ "TIME_UNCERTAIN" ∧ unresolved = false ∧ ∃ wall, ob_observed o = Some wall ∧
    ∀ h, ts_high old = Some h → (h - ROLLBACK_TOLERANCE_NANOS ≤ wall)%Z.
Proof.
  intros Hold. pose proof next_observed as Hobs. unfold row, o, next_state in *. cbv zeta in *.
  set (observed := fst <$> _) in *. cbn [fst snd ts_confidence ob_observed] in *.
  destruct (String.eqb_spec (ts_confidence old) "TIME_UNCERTAIN"); cbn [orb]; [naive_solver|].
  destruct unresolved; cbn [orb]; [naive_solver|].
  destruct observed as [w|]; cbn [is_null orb]; [|naive_solver].
  assert (i64_min ≤ w)%Z as Hw.
  { destruct sample as [s|]; [|done]. cbn in Hobs. symmetry in Hobs. apply wall_nanos_range in Hobs. lia. }
  destruct (ts_high old) as [h|]; [|naive_solver].
  pose proof (tolerance_exact h w Hw (Hold h eq_refl)) as Ht.
  destruct (w <? saturating_sub h ROLLBACK_TOLERANCE_NANOS)%Z; naive_solver.
Qed.

Lemma next_reason : ts_confidence old ≠ "TIME_UNCERTAIN" → (ob_reason o = "TIME_EFFECT_UNRESOLVED" ↔ unresolved = true).
Proof.
  intros Hold. unfold o, next_state. cbn [snd ob_reason]. rewrite (proj2 (String.eqb_neq _ _) Hold).
  destruct unresolved; [done|]. destruct (is_null _); [done|]. split; [|done].
  by repeat match goal with |- context [if ?b then _ else _] => destruct b end.
Qed.

End next_state.

Lemma recorded_ok os row : recorded os row → history_ok os row.
Proof.
  induction 1 as [|os row sample unresolved _ IH Hlt].
  { constructor; try done. split; [done|]. naive_solver. }
  pose proof (next_fields row sample unresolved (ts_revision row + 1)) as (Hr & Hr' & Hh & Hf & Hc & Hrs & Hhigh & Hfloor).
  pose proof (next_confidence row sample unresolved (ts_revision row + 1)) as Hconf.
  pose proof (next_trusted row sample unresolved (ts_revision row + 1)) as Htr.
  pose proof (next_reason row sample unresolved (ts_revision row + 1)) as Hreason.
  pose proof (next_observed row sample unresolved (ts_revision row + 1)) as Hobs.
  set (row' := (next_state _ _ _ _).1) in *. set (o := (next_state _ _ _ _).2) in *.
  specialize (Htr (λ h H, proj2 (h_range _ _ IH h H))).
  constructor.
  - rewrite Hr', (h_revision _ _ IH), length_app. simpl. lia.
  - rewrite Hr'. lia.
  - intros i o' [Hi|[Hge Hi]]%lookup_app_Some; [by apply (h_numbered _ _ IH)|].
    apply list_lookup_singleton_Some in Hi as [Hi <-]. rewrite Hr, (h_revision _ _ IH). lia.
  - rewrite max_observed_snoc, Hhigh. by rewrite (h_high _ _ IH).
  - rewrite Hfloor, (h_floor _ _ IH), Hhigh. apply later_idemp_l.
  - intros h. rewrite Hhigh. destruct (later_cases (ts_high row) (ob_observed o)) as [-> | ->]; [apply (h_range _ _ IH)|].
    rewrite Hobs. destruct sample as [s|]; [|done]. apply wall_nanos_range.
  - intros o'. rewrite last_snoc. by intros [= <-].
  - intros []%app_nil. done.
  - by intros _.
  - rewrite steady_snoc, Htr, <-(h_high _ _ IH). split.
    + intros (Hu & Hun & Hw). split; [by intros []%app_nil|]. split_and!; [|by rewrite Hreason, Hun|done].
      destruct (decide (os = [])) as [->|Hne]; [intros ? ?; done|].
      destruct (h_confidence _ _ IH Hne) as [Ht|]; [|done]. by apply (h_trusted _ _ IH).
    + intros (_ & Hs & Hr0 & Hw). assert (ts_confidence row ≠ "TIME_UNCERTAIN") as Hu.
      { destruct (decide (os = [])) as [->|Hne]; [by rewrite (h_unassessed _ _ IH eq_refl)|].
        by rewrite (proj2 (h_trusted _ _ IH) (conj Hne Hs)). }
      split_and!; [done| |done]. rewrite Hreason in Hr0 by done. by destruct unresolved.
Qed.

End history.

Section database.

Context `{TL : TimeLib} {B : Type}.
Implicit Types db : Db B.

(** ** The database of a history *)

Definition time_inv db : Prop := ∃ row, time_state db = Some row ∧ recorded (observations db) row.

Lemma numbered_sort (os : list Observation) : (∀ i o, os !! i = Some o → ob_revision o = Z.of_nat (S i)) →
  sort_by (λ a b, ob_revision a <=? ob_revision b)%Z os = os.
Proof.
  induction os as [|o os IH] using rev_ind; intros Hn; [done|].
  rewrite sort_by_snoc_max.
  - rewrite IH; [done|]. intros i o' Hi. apply Hn. by apply lookup_app_l_Some.
  - intros o' [i Hi]%list_elem_of_lookup. apply Z.leb_le.
    rewrite (Hn i o') by by apply lookup_app_l_Some. rewrite (Hn (length os) o) by by apply list_lookup_middle.
    apply lookup_lt_Some in Hi. lia.
Qed.

Section one_database.

Context (db : Db B) (row : StateRow) (Hrow : time_state db = Some row) (Hrec : recorded (observations db) row).

Lemma inv_history : history_ok (observations db) row.
Proof using Hrec. by apply recorded_ok. Qed.

Lemma inv_latest : latest_observation db = last (observations db).
Proof using Hrec. unfold latest_observation. rewrite numbered_sort; [done|]. apply (h_numbered _ _ inv_history). Qed.

Lemma inv_observation_at i : observation_at db (Z.of_nat (S i)) = observations db !! i.
Proof using Hrec.
  pose proof (h_numbered _ _ inv_history) as Hn. unfold observation_at.
  destruct (list_find (λ o, ob_revision o = Z.of_nat (S i)) (observations db)) as [[j o]|] eqn:Hf; cbn [mbind option_bind].
  - apply list_find_Some in Hf as (Hj & Ho & _). rewrite (Hn _ _ Hj) in Ho. assert (j = i) as -> by lia. done.
  - destruct (observations db !! i) as [o|] eqn:Hi; [|done]. apply list_find_None in Hf.
    rewrite Forall_forall in Hf. exfalso. apply (Hf o); [by eapply list_elem_of_lookup_2|by apply Hn].
Qed.

Lemma inv_current : observations db ≠ [] → ∃ o, last (observations db) = Some o ∧ current_observation db = Some (row, o).
Proof using Hrow Hrec.
  intros Hne. destruct (last (observations db)) as [o|] eqn:Hl; [|by apply last_None in Hl].
  exists o. split; [done|]. unfold current_observation. rewrite Hrow. cbn [mbind option_bind].
  rewrite last_lookup in Hl. rewrite (h_revision _ _ inv_history).
  destruct (length (observations db)) as [|n] eqn:Hlen; [by apply nil_length_inv in Hlen|].
  rewrite inv_observation_at. simpl in Hl. by rewrite Hl.
Qed.

Lemma inv_tail : state_matches_audit_tail db = true.
Proof using Hrow Hrec.
  pose proof inv_history as Hh. unfold state_matches_audit_tail. rewrite Hrow, inv_latest.
  destruct (decide (observations db = [])) as [He|Hne].
  - rewrite (h_unassessed _ _ Hh He), He. done.
  - rewrite (proj2 (Z.eqb_neq _ _)).
    + destruct (last (observations db)) as [o|] eqn:Hl; [|by apply last_None in Hl].
      apply bool_decide_eq_true_2. cbn [fmap option_fmap option_map].
      destruct (h_last _ _ Hh o Hl) as (-> & -> & -> & _). do 4 f_equal.
      rewrite last_lookup in Hl. rewrite (h_numbered _ _ Hh _ _ Hl), (h_revision _ _ Hh).
      destruct (observations db); [done|]. done.
    + rewrite (h_revision _ _ Hh). destruct (observations db); [done|]. simpl. lia.
Qed.

Lemma inv_fresh o : ob_revision o = (ts_revision row + 1)%Z →
  existsb (λ o', ob_revision o' =? ob_revision o)%Z (observations db) = false.
Proof using Hrec.
  intros Ho. apply existsb_false. intros o' [i Hi]%list_elem_of_lookup. apply Z.eqb_neq.
  rewrite (h_numbered _ _ inv_history _ _ Hi), Ho, (h_revision _ _ inv_history). apply lookup_lt_Some in Hi. lia.
Qed.

Lemma inv_row_valid : existsb (String.eqb (ts_confidence row)) ["UNASSESSED"; "TRUSTED_LOCAL"; "TIME_UNCERTAIN"] = true ∧
  (ts_revision row <? 0)%Z = false ∧
  match ts_floor row, ts_high row with Some floor, Some high => (floor <? high)%Z | _, _ => false end = false.
Proof using Hrec.
  pose proof inv_history as Hh. split_and!.
  - destruct (decide (observations db = [])) as [He|Hne]; [by rewrite (h_unassessed _ _ Hh He)|].
    by destruct (h_confidence _ _ Hh Hne) as [-> | ->].
  - rewrite (h_revision _ _ Hh). apply Z.ltb_ge. lia.
  - rewrite (h_floor _ _ Hh). destruct (ts_high row); [|done]. apply Z.ltb_irrefl.
Qed.

End one_database.

Lemma moved_back_later a b : moved_back a (later a b) = false.
Proof. destruct a as [a|], b as [b|]; simpl; try done; apply Z.ltb_ge; lia. Qed.

Lemma sql_ge_self z : sql_ge (Some z) (Some z) = Some true.
Proof. simpl. by rewrite Z.leb_refl. Qed.

(** The update that a sample makes passes the guards of the table. *)
Lemma next_state_admitted os row sample unresolved : history_ok os row → 
  let row' := (next_state row sample unresolved (ts_revision row + 1)).1 in
  state_monotone row row' = true ∧ state_check row' = true.
Proof.
  intros Hh row'. pose proof (next_fields row sample unresolved (ts_revision row + 1)) as (_ & Hr' & _ & _ & _ & _ & Hhigh & Hfloor).
  pose proof (next_confidence row sample unresolved (ts_revision row + 1)) as Hconf.
  pose proof (next_trusted row sample unresolved (ts_revision row + 1) (λ h H, proj2 (h_range _ _ Hh h H))) as Htr.
  fold row' in Hr', Hhigh, Hfloor, Hconf, Htr. set (o := (next_state _ _ _ _).2) in *.
  assert (ts_floor row' = ts_high row') as Hfh. { rewrite Hfloor, (h_floor _ _ Hh), Hhigh. apply later_idemp_l. }
  split.
  - unfold state_monotone. rewrite Hr', Z.eqb_refl, Hfh, (h_floor _ _ Hh), Hhigh, moved_back_later. cbn [negb orb].
    apply negb_true_iff. destruct (String.eqb_spec (ts_confidence row) "TIME_UNCERTAIN") as [Hu|]; [|done].
    destruct Hconf as [Ht| ->]; [|done]. by apply Htr in Ht as [? _].
  - unfold state_check. rewrite Hfh, Hr', (h_revision _ _ Hh).
    assert ((0 <=? Z.of_nat (length os) + 1)%Z = true ∧ (0 <? Z.of_nat (length os) + 1)%Z = true) as [-> ->]
      by (split; [apply Z.leb_le|apply Z.ltb_lt]; lia).
    destruct Hconf as [Ht|Hu].
    + rewrite Ht. apply Htr in Ht as (_ & _ & wall & Hw & _). rewrite Hhigh, Hw.
      destruct (later (ts_high row) (Some wall)) as [h|] eqn:Hl; [by rewrite sql_ge_self|].
      by destruct (ts_high row).
    + rewrite Hu. destruct (ts_high row') as [h|]; [by rewrite sql_ge_self|done].
Qed.

(** Recording a sample: it fails only when the revision is exhausted. *)
Lemma apply_recorded db row sample unresolved :
  time_state db = Some row → recorded (observations db) row →
  apply_sample_in_transaction_with_unresolved db sample unresolved =
  if (ts_revision row <? i64_max)%Z then
    let next := next_state row sample unresolved (ts_revision row + 1) in
    Ok ({| ta_confidence := ts_confidence next.1; ta_effective_nanos := ts_floor next.1 |},
        set_time db next.1 (observations db ++ [next.2]))
  else Err TIME_STATE_INVALID.
Proof.
  intros Hrow Hrec. unfold apply_sample_in_transaction_with_unresolved.
  rewrite (inv_tail _ _ Hrow Hrec), Hrow. destruct (inv_row_valid _ _ Hrec) as (-> & -> & ->). cbn [negb orb].
  pose proof (recorded_ok _ _ Hrec) as Hh. pose proof (h_bound _ _ Hh) as Hb. pose proof (h_revision _ _ Hh) as Hr.
  unfold checked_add, i64_try_from.
  assert ((i64_min <=? ts_revision row + 1)%Z = true) as -> by (apply Z.leb_le; unfold i64_min; lia). cbn [andb].
  destruct (Z.ltb_spec (ts_revision row) i64_max) as [Hlt|Hge].
  2: { by rewrite (proj2 (Z.leb_gt _ _)) by lia. }
  rewrite (proj2 (Z.leb_le _ _)) by lia.
  destruct (next_state_admitted _ _ sample unresolved Hh) as [Hm Hc].
  pose proof (next_fields row sample unresolved (ts_revision row + 1)) as (Hrev & _ & _ & _ & Hconf & _).
  pose proof (next_confidence row sample unresolved (ts_revision row + 1)) as Hcases.
  assert (existsb (String.eqb (ob_source (next_state row sample unresolved (ts_revision row + 1)).2))
    ["SYSTEM_CLOCK"; "INJECTED_CLOCK"; "UNAVAILABLE"] = true) as Hsrc.
  { unfold next_state. cbn [snd ob_source]. destruct (sample ≫= _) as [[? smp]|]; [|done]. by destruct (source smp). }
  destruct (next_state row sample unresolved (ts_revision row + 1)) as [row' o]. cbn [fst snd] in *.
  unfold update_state. rewrite Hrow, Z.eqb_refl, Hm, Hc. cbn [negb mbind result_bind Nat.eqb].
  unfold insert_observation. rewrite (inv_fresh (set_time db row' (observations db)) row Hrec o Hrev), Hsrc.
  rewrite Hconf. destruct Hcases as [-> | ->]; reflexivity.
Qed.

(** ** Steps *)

(** The lease is held by a named owner under a positive epoch. *)
Definition lease_ok (l : option (string * Z)) : Prop := ∀ owner epoch, l = Some (owner, epoch) → owner ≠ "" ∧ (1 ≤ epoch)%Z.

(** The transactions of the crate on the tables of trusted time, and the rest of the system on the others. *)
Inductive time_step : Db B → Db B → Prop :=
  | step_assess db clock policy r db' clock' :
      assess_sample_with_pending_policy db clock policy = (r, db', clock') → time_step db db'
  | step_protected A db clock (operation : Db B → string → Res (A * B)) committed r db' clock' :
      protected_transaction db clock operation committed = (r, db', clock') → time_step db db'
  | step_observed A db clock (operation : Db B → ProtectedTimeContext → Res (A * B)) committed r db' clock' :
      observed_transaction db clock operation committed = (r, db', clock') → time_step db db'
  | step_prepare db clock owner epoch task kind subject marker committed r db' clock' :
      prepare_transaction db clock owner epoch task kind subject marker committed = (r, db', clock') → time_step db db'
  | step_external db clock permit entry clock' db1 entry' b kind a db' :
      capture_external_entry db clock permit = (Ok entry, clock') →
      (db1 = db ∧ entry' = entry) ∨ (∃ context, entry_commit_context_in entry db = Ok (context, entry', db1)) →
      resolve_external_entry_in_kind (set_business db1 b) permit entry' kind = Ok (a, db') → time_step db db'
  | step_other db l t b :
      lease_ok l → tasks db ⊆ t →
      time_step db (Build_Db (time_state db) (observations db) (preparations db) (resolutions db) (pending db) l t b).

(** The database of the migrations. *)
Definition initial_db (l : option (string * Z)) (t : gset string) (b : B) : Db B :=
  Build_Db (Some unassessed) [] [] [] [] l t b.

Inductive time_reachable : Db B → Prop :=
  | time_initial l t b : lease_ok l → time_reachable (initial_db l t b)
  | time_continue db db' : time_reachable db → time_step db db' → time_reachable db'.

(** ** Growth *)

Record grows (row row' : StateRow) : Prop := {
  g_revision : (ts_revision row ≤ ts_revision row')%Z;
  g_high : moved_back (ts_high row) (ts_high row') = false;
  g_floor : moved_back (ts_floor row) (ts_floor row') = false;
  g_uncertain : ts_confidence row = "TIME_UNCERTAIN" → ts_confidence row' = "TIME_UNCERTAIN";
}.

Lemma moved_back_refl a : moved_back a a = false.
Proof. destruct a; [apply Z.ltb_irrefl|done]. Qed.

Lemma moved_back_trans a b c : moved_back a b = false → moved_back b c = false → moved_back a c = false.
Proof. destruct a, b, c; simpl; try done. rewrite !Z.ltb_ge. lia. Qed.

#[local] Instance grows_refl : Reflexive grows.
Proof. intros row. constructor; auto using moved_back_refl. lia. Qed.

#[local] Instance grows_trans : Transitive grows.
Proof. intros a b c [] []. constructor; eauto using moved_back_trans. lia. Qed.

Lemma next_grows os row sample unresolved : history_ok os row →
  grows row (next_state row sample unresolved (ts_revision row + 1)).1.
Proof.
  intros Hh. destruct (next_state_admitted _ _ sample unresolved Hh) as [Hm _].
  unfold state_monotone in Hm. rewrite negb_true_iff, !orb_false_iff in Hm.
  destruct Hm as [[[Hr Hhigh] Hfloor] Hu]. rewrite negb_false_iff, Z.eqb_eq in Hr. constructor; [lia|done|done|].
  intros Hc. rewrite Hc in Hu. simpl in Hu. by rewrite negb_false_iff, String.eqb_eq in Hu.
Qed.

(** A transaction that only records samples: a history stays a history and grows. *)
Definition advances (db db' : Db B) : Prop :=
  ∀ row, time_state db = Some row → recorded (observations db) row →
  ∃ row' extra, time_state db' = Some row' ∧ recorded (observations db') row' ∧ grows row row' ∧
    observations db' = observations db ++ extra.

#[local] Instance advances_refl : Reflexive advances.
Proof. intros db row Hrow Hrec. exists row, []. rewrite app_nil_r. done. Qed.

#[local] Instance advances_trans : Transitive advances.
Proof.
  intros a b c Hab Hbc row Hrow Hrec. destruct (Hab _ Hrow Hrec) as (row1 & e1 & Hrow1 & Hrec1 & Hg1 & He1).
  destruct (Hbc _ Hrow1 Hrec1) as (row2 & e2 & Hrow2 & Hrec2 & Hg2 & He2). exists row2, (e1 ++ e2).
  split_and!; [done|done|by etrans|]. by rewrite He2, He1, app_assoc.
Qed.

(** The tables of markers, the lease and the Tasks are as before. *)
Definition same_markers (db db' : Db B) : Prop :=
  preparations db' = preparations db ∧ resolutions db' = resolutions db ∧ pending db' = pending db ∧
  lease db' = lease db ∧ tasks db' = tasks db.

#[local] Instance same_markers_refl : Reflexive same_markers.
Proof. by intros db. Qed.

#[local] Instance same_markers_trans : Transitive same_markers.
Proof. intros a b c (?&?&?&?&?) (?&?&?&?&?). repeat split; congruence. Qed.

Definition records (db db' : Db B) : Prop := time_inv db → advances db db' ∧ same_markers db db'.

#[local] Instance records_refl : Reflexive records.
Proof. by intros db _. Qed.

Lemma advances_inv db db' : time_inv db → advances db db' → time_inv db'.
Proof. intros (row & Hrow & Hrec) Ha. destruct (Ha _ Hrow Hrec) as (row' & e & ? & ? & _). by exists row'. Qed.

#[local] Instance records_trans : Transitive records.
Proof.
  intros a b c Hab Hbc Hinv. destruct (Hab Hinv) as [Ha Hm].
  destruct (Hbc (advances_inv _ _ Hinv Ha)) as [Ha' Hm']. split; by etrans.
Qed.

Lemma records_business db b : records db (set_business db b).
Proof. intros _. split; [|done]. intros row Hrow Hrec. exists row, []. rewrite app_nil_r. done. Qed.

Lemma records_apply db sample unresolved a db' :
  apply_sample_in_transaction_with_unresolved db sample unresolved = Ok (a, db') → records db db'.
Proof.
  intros Happ (row & Hrow & Hrec). rewrite (apply_recorded _ _ _ _ Hrow Hrec) in Happ.
  destruct (Z.ltb_spec (ts_revision row) i64_max); [|done]. injection Happ as _ <-. split; [|done].
  intros row0 Hrow0 _. assert (row0 = row) as -> by congruence. eexists _, _. split; [done|].
  split; [by constructor|]. split; [|done]. eapply next_grows. by apply recorded_ok.
Qed.

Lemma records_assess db clock policy r db' clock' :
  assess_sample_with_pending_policy db clock policy = (r, db', clock') → records db db'.
Proof.
  unfold assess_sample_with_pending_policy. intros H.
  destruct (match policy with Deny => true | _ => false end && pending_marker_exists db); [by injection H as <- <- <-|].
  destruct (security_sample clock) as [sample c].
  destruct (apply_sample_in_transaction_with_unresolved _ _ _) as [[a d]|e] eqn:Happ; injection H as <- <- <-; [|done].
  by eapply records_apply.
Qed.

Lemma records_denied {A} fresh db error (r : Res A) db' : denied fresh db error = (r, db') → records db db'.
Proof.
  unfold denied, commit, assess_sample. destruct (assess_sample_with_pending_policy db [lo_sample fresh] RecordOnly) as [[r0 d] c] eqn:H.
  apply records_assess in H. by destruct r0; intros [= <- <-].
Qed.

Lemma records_context fresh db context db' : commit_context_in fresh db = Ok (context, db') → records db db'.
Proof.
  unfold commit_context_in. intros ([a d] & Hin & H)%result_bind_ok. apply result_bind_ok in H as (nw & _ & H).
  apply records_apply in Hin. destruct (current_observation d) as [[row o]|]; [|done]. apply if_err_ok in H as [_ H].
  destruct (ob_observed o), (ob_floor o), (ob_monotonic o); try done. by injection H as _ <-.
Qed.

Lemma records_protected {A} db clock (operation : Db B → string → Res (A * B)) committed r db' clock' :
  protected_transaction db clock operation committed = (r, db', clock') → records db db'.
Proof.
  unfold protected_transaction. destruct (capture_locked db clock) as [[fresh|e] c]; [|by intros [= <- <- <-]].
  destruct (LockedTimeObservation_require_trusted_time fresh ≫= _) as [[v d]|e] eqn:H.
  - intros [= <- <- <-]. apply result_bind_ok in H as (nw & _ & H). apply result_bind_ok in H as ([v' b] & _ & H).
    apply result_bind_ok in H as ([a d'] & Hin & H). apply result_bind_ok in H as (? & _ & H).
    destruct committed; [|done]. injection H as <- <-.
    etrans; [apply (records_business db b)|]. by eapply records_apply.
  - destruct (denied fresh db e) as [r0 d] eqn:Hd. intros [= <- <- <-]. by eapply records_denied.
Qed.

Lemma records_observed {A} db clock (operation : Db B → ProtectedTimeContext → Res (A * B)) committed r db' clock' :
  observed_transaction db clock operation committed = (r, db', clock') → records db db'.
Proof.
  unfold observed_transaction. destruct (capture_locked db clock) as [[fresh|e] c]; [|by intros [= <- <- <-]].
  destruct (LockedTimeObservation_require_trusted_time fresh ≫= _) as [[v d]|e] eqn:H.
  - intros [= <- <- <-]. apply result_bind_ok in H as (nw & _ & H). apply result_bind_ok in H as ([context d'] & Hin & H).
    apply result_bind_ok in H as ([v' b] & _ & H). destruct committed; [|done]. injection H as <- <-.
    etrans; [by eapply records_context|apply records_business].
  - destruct (denied fresh db e) as [r0 d] eqn:Hd. intros [= <- <- <-]. by eapply records_denied.
Qed.

(** ** Markers *)

(** Read the comparisons of a successful query. *)
Ltac zreflect :=
  breflect;
  repeat match goal with
  | H : (_ =? _)%Z = true |- _ => apply Z.eqb_eq in H
  | H : (_ <? _)%Z = true |- _ => apply Z.ltb_lt in H
  | H : (_ <=? _)%Z = true |- _ => apply Z.leb_le in H
  | H : String.eqb _ _ = true |- _ => apply String.eqb_eq in H
  end.

(** The observation that the marker was prepared with. *)
Definition prepared_at (os : list Observation) (p : Preparation) : Prop :=
  ∃ o, o ∈ os ∧ ob_revision o = p_state_revision p ∧ ob_confidence o = "TRUSTED_LOCAL" ∧ ob_observed o = Some (p_observed p).

Definition resolved_at (os : list Observation) (ps : list Preparation) (r : Resolution) : Prop :=
  ∃ p o, p ∈ ps ∧ p_marker_id p = r_marker_id r ∧ o ∈ os ∧ ob_revision o = r_state_revision r ∧
    (p_state_revision p < r_state_revision r)%Z ∧ ob_observed o = r_observed r ∧
    (r_kind r = "EFFECT_INVOKED" → ob_confidence o = "TRUSTED_LOCAL" ∧ is_Some (ob_observed o)) ∧
    (r_kind r = "NO_EFFECT" → ob_confidence o = "TRUSTED_LOCAL" ∨ ob_confidence o = "TIME_UNCERTAIN").

Record marker_inv (db : Db B) : Prop := {
  m_lease : lease_ok (lease db);
  m_one : length (pending db) ≤ 1;
  m_distinct : NoDup (p_marker_id <$> preparations db);
  m_prepared : ∀ p, p ∈ preparations db →
    p_task_id p ∈ tasks db ∧ prepared_at (observations db) p ∧ p_owner_id p ≠ "" ∧ (1 ≤ p_owner_epoch p)%Z ∧
    (p_marker_id p ∈ pending db ↔ p_marker_id p ∉ r_marker_id <$> resolutions db);
  m_resolved : ∀ r, r ∈ resolutions db → resolved_at (observations db) (preparations db) r;
  m_pending : ∀ m, m ∈ pending db → m ∈ p_marker_id <$> preparations db;
}.

Lemma prepared_at_app os extra p : prepared_at os p → prepared_at (os ++ extra) p.
Proof. intros (o & Ho & ?). exists o. split; [apply elem_of_app; by left|done]. Qed.

Lemma resolved_at_app os extra ps ps' r : resolved_at os ps r → resolved_at (os ++ extra) (ps ++ ps') r.
Proof.
  intros (p & o & Hp & ? & Ho & ?). exists p, o. split; [apply elem_of_app; by left|]. split; [done|].
  split; [apply elem_of_app; by left|done].
Qed.

Lemma marker_records db db' : time_inv db → marker_inv db → records db db' → marker_inv db'.
Proof.
  intros Hinv Hm Hrec. destruct (Hrec Hinv) as [Ha (Hp & Hr & Hpe & Hl & Ht)]. destruct Hinv as (row & Hrow & Hr0).
  destruct (Ha _ Hrow Hr0) as (row' & extra & _ & _ & _ & Hos). destruct Hm as [Hlease Hone Hd Hprep Hres Hpend].
  constructor; rewrite ?Hl, ?Hp, ?Hr, ?Hpe, ?Ht, ?Hos; try done.
  - intros p Hin. destruct (Hprep p Hin) as (? & ? & ? & ? & ?). split_and!; auto using prepared_at_app.
  - intros r Hin. rewrite <-(app_nil_r (preparations db)). by apply resolved_at_app, Hres.
Qed.

Lemma existsb_marker {A} (f : A → string) (l : list A) m : existsb (λ x, String.eqb (f x) m) l = bool_decide (m ∈ f <$> l).
Proof.
  induction l as [|x l IH]; csimpl; [done|]. rewrite IH. destruct (String.eqb_spec (f x) m) as [<-|Hne]; simpl.
  - symmetry. apply bool_decide_eq_true_2. by left.
  - apply bool_decide_ext. rewrite elem_of_cons. naive_solver.
Qed.

Lemma current_observation_elem db row o : current_observation db = Some (row, o) →
  time_state db = Some row ∧ o ∈ observations db ∧ ob_revision o = ts_revision row.
Proof.
  unfold current_observation, observation_at. intros (r & Hr & H)%bind_Some.
  apply bind_Some in H as (o' & Ho & [= -> ->]). apply bind_Some in Ho as ([i o''] & Hf & [= <-]).
  apply list_find_Some in Hf as (Hi & Hrev & _). split_and!; [done|by eapply list_elem_of_lookup_2|done].
Qed.

Lemma marker_prepare db p db' : marker_inv db → pending db = [] → insert_preparation db p = Ok db' →
  p_owner_id p ≠ "" → marker_inv db' ∧ advances db db' ∧ pending db' = [p_marker_id p].
Proof.
  intros Hm Hpend. unfold insert_preparation. rewrite !if_err_ok.
  rewrite (existsb_marker p_marker_id), (existsb_marker r_marker_id), !bool_decide_eq_false, !negb_false_iff.
  intros (Hfresh & Hcur & Hchk & Hnp & Hnr & [= <-]) Howner. destruct Hm as [Hlease Hone Hd Hprep Hres Hpe].
  destruct (current_observation db) as [[row o]|] eqn:Hc; [|done]. zreflect.
  apply current_observation_elem in Hc as (Hrow & Ho & Hrev).
  split; [|split; [|by cbn; rewrite Hpend]].
  - constructor; cbn [lease pending preparations resolutions tasks observations set_markers]; rewrite ?Hpend; try done.
    + rewrite fmap_app. apply NoDup_app. split_and!; [done| |by apply NoDup_singleton].
      intros m Hm Hin. by apply list_elem_of_singleton in Hin as ->.
    + intros q [Hq|Hq]%elem_of_app.
      * destruct (Hprep q Hq) as (? & ? & ? & ? & Hiff). split_and!; try done. rewrite Hpend in Hiff.
        split; [|intros Hnot; apply Hiff in Hnot; by apply elem_of_nil in Hnot].
        intros Hin. apply list_elem_of_singleton in Hin as Heq. exfalso. apply Hfresh. rewrite <-Heq.
        by apply list_elem_of_fmap_2.
      * apply list_elem_of_singleton in Hq as ->. split_and!; try done.
        -- exists o. split_and!; [done|congruence|done|done].
        -- split; [done|]. intros _. by apply list_elem_of_singleton.
    + intros r Hr. rewrite <-(app_nil_r (observations db)). by apply resolved_at_app, Hres.
    + intros m ->%list_elem_of_singleton. rewrite fmap_app. apply elem_of_app. right. by apply list_elem_of_singleton.
  - intros row0 Hrow0 Hrec. exists row0, []. rewrite app_nil_r. done.
Qed.

Lemma marker_resolve db r db' : marker_inv db → insert_resolution db r = Ok db' →
  marker_inv db' ∧ advances db db' ∧ pending db' = [].
Proof.
  intros Hm. unfold insert_resolution. rewrite !if_err_ok, negb_false_iff. intros (Hfresh & Hcur & [= <-]).
  destruct Hm as [Hlease Hone Hd Hprep Hres Hpe].
  destruct (current_observation db) as [[row o]|] eqn:Hc; [|done]. zreflect.
  apply current_observation_elem in Hc as (Hrow & Ho & Hrev).
  match goal with H : existsb _ (preparations db) = true |- _ => apply existsb_exists in H as (p & Hp%list_elem_of_In & Hpx) end.
  zreflect.
  assert (pending db = [r_marker_id r]) as Hpend.
  { destruct (pending db) as [|m [|m' pend]]; try done. f_equal.
    match goal with H : p_marker_id p ∈ [m] |- _ => apply list_elem_of_singleton in H end. congruence. }
  assert (filter (λ marker, marker ≠ r_marker_id r) (pending db) = []) as Hgone.
  { rewrite Hpend, filter_cons_False, filter_nil by naive_solver. done. }
  assert (∀ q, q ∈ preparations db → p_marker_id q = r_marker_id r → q = p) as Hsame.
  { intros q Hq Heq. eapply (NoDup_fmap_elem_inj p_marker_id); [done|done|done|congruence]. }
  split; [|split; [|done]].
  - constructor; cbn [lease pending preparations resolutions tasks observations set_markers]; rewrite ?Hgone; try done.
    + simpl. lia.
    + intros q Hq. destruct (Hprep q Hq) as (? & ? & ? & ? & Hiff). split_and!; try done.
      rewrite fmap_app, not_elem_of_app, elem_of_nil. split; [done|]. intros [Hnr Hnot].
      rewrite Hpend in Hiff. apply Hiff, list_elem_of_singleton in Hnr. apply Hnot. by apply list_elem_of_singleton.
    + intros r' [Hr'|Hr']%elem_of_app.
      * destruct (Hres r' Hr') as (p' & o' & ?). by exists p', o'.
      * apply list_elem_of_singleton in Hr' as ->. exists p, o. split_and!; try done; try congruence.
        -- intros Hk. match goal with H : _ || _ = true |- _ => apply orb_true_iff in H as [H|H] end; zreflect; [|congruence].
           split; [congruence|]. replace (ob_observed o) with (r_observed r) by congruence. by destruct (r_observed r).
        -- intros Hk. match goal with H : _ || _ = true |- _ => apply orb_true_iff in H as [H|H] end; zreflect; [congruence|].
           match goal with H : existsb _ _ = true |- _ => cbn [existsb] in H end.
           match goal with H : _ || _ = true |- _ => rewrite !orb_true_iff, !String.eqb_eq in H; destruct H as [H|[H|H]] end;
             [left; congruence|right; congruence|done].
    + intros m Hin. by apply elem_of_nil in Hin.
  - intros row0 Hrow0 Hrec. exists row0, []. rewrite app_nil_r. done.
Qed.

(** Without a permit, a sample is only taken when no effect is in flight. *)
Lemma capture_locked_ok db clock fresh clock' : capture_locked db clock = (Ok fresh, clock') → pending db = [].
Proof.
  unfold capture_locked, capture_locked_with_permit. destruct (negb _); [done|].
  destruct (pending db); [done|]. cbn [head]. done.
Qed.

Definition safe (db : Db B) : Prop := time_inv db ∧ marker_inv db.

Lemma safe_records db db' : safe db → records db db' → safe db' ∧ advances db db'.
Proof.
  intros [Ht Hm] Hr. destruct (Hr Ht) as [Ha _]. split; [|done]. split; [by eapply advances_inv|by eapply marker_records].
Qed.

Lemma safe_prepare db clock owner epoch task kind subject marker committed r db' clock' :
  prepare_transaction db clock owner epoch task kind subject marker committed = (r, db', clock') →
  safe db → safe db' ∧ advances db db'.
Proof.
  unfold prepare_transaction, assert_manager_lease. case_bool_decide as Hl; [|by intros [= <- <- <-]].
  destruct (capture_locked db clock) as [[fresh|e] c] eqn:Hcap; [|by intros [= <- <- <-]].
  apply capture_locked_ok in Hcap as Hpend. destruct (LockedTimeObservation_require_trusted_time fresh ≫= _) as [[v d]|e] eqn:H.
  - intros [= <- <- <-] Hsafe. apply result_bind_ok in H as (? & _ & H). apply result_bind_ok in H as ([a d1] & Hin & H).
    apply result_bind_ok in H as (? & _ & H). apply result_bind_ok in H as ([rev obs] & _ & H).
    apply result_bind_ok in H as (d2 & Hins & H). destruct committed; [|done]. injection H as _ <-.
    apply records_apply in Hin. destruct (Hin (proj1 Hsafe)) as [_ (_ & _ & Hp1 & Hl1 & _)].
    destruct (safe_records _ _ Hsafe Hin) as [[Ht1 Hm1] Ha1].
    apply marker_prepare in Hins as (Hm2 & Ha2 & _); [|done|congruence|].
    + split; [|by etrans]. split; [by eapply advances_inv|done].
    + cbn [p_owner_id]. by apply (m_lease _ (proj2 Hsafe) owner epoch).
  - destruct (denied fresh db e) as [r0 d] eqn:Hd. intros [= <- <- <-] Hsafe. apply safe_records; [done|]. by eapply records_denied.
Qed.

Lemma safe_resolve db permit entry kind a db' :
  resolve_external_entry_in_kind db permit entry kind = Ok (a, db') → safe db → safe db' ∧ advances db db'.
Proof.
  unfold resolve_external_entry_in_kind. rewrite if_err_ok, result_seq_ok. intros (_ & _ & H) Hsafe.
  apply result_seq_ok in H as [_ H]. apply result_bind_ok in H as ([a0 d] & Hd & H). apply result_seq_ok in H as [_ H].
  destruct (current_observation d) as [[row o]|]; [|done]. apply result_bind_ok in H as (d' & Hins & [= <- <-]).
  assert (records db d) as Hrec.
  { destruct (entry_committed_revision entry); [|by eapply records_apply]. destruct (time_state db) as [row0|]; [|done].
    apply if_err_ok in Hd as [_ [= _ <-]]. done. }
  destruct (safe_records _ _ Hsafe Hrec) as [[Ht Hm] Ha]. apply marker_resolve in Hins as (Hm' & Ha' & _); [|done].
  split; [|by etrans]. split; [by eapply advances_inv|done].
Qed.

Lemma step_safe db db' : time_step db db' → safe db → safe db' ∧ advances db db'.
Proof.
  intros Hstep Hsafe. destruct Hstep as
    [db clock policy r db' clock' H|A db clock op committed r db' clock' H|A db clock op committed r db' clock' H
    |db clock owner epoch task kind subject marker committed r db' clock' H
    |db clock permit entry clock' db1 entry' b kind a db' Hcap Hctx Hres|db l t b Hl Ht].
  - apply safe_records; [done|]. by eapply records_assess.
  - apply safe_records; [done|]. by eapply records_protected.
  - apply safe_records; [done|]. by eapply records_observed.
  - by eapply safe_prepare.
  - assert (records db (set_business db1 b)) as Hrec.
    { etrans; [|apply records_business]. destruct Hctx as [[-> _]|[context Hc]]; [done|].
      unfold entry_commit_context_in in Hc. destruct (entry_committed_revision entry); [done|].
      apply result_bind_ok in Hc as ([c d] & Hc & [= _ _ <-]). by eapply records_context. }
    destruct (safe_records _ _ Hsafe Hrec) as [Hsafe1 Ha]. apply safe_resolve in Hres as [Hs Ha']; [|done].
    split; [done|by etrans].
  - destruct Hsafe as [Hti [Hlease Hone Hd Hprep Hre Hpe]]. split; [split|].
    + destruct Hti as (row & ? & ?). by exists row.
    + constructor; try done. intros p Hp. destruct (Hprep p Hp) as (? & ? & ? & ? & ?). split_and!; try done. cbn. set_solver.
    + intros row Hrow Hrec. exists row, []. rewrite app_nil_r. done.
Qed.

Lemma reachable_safe db : time_reachable db → safe db.
Proof.
  induction 1 as [l t b Hl|db db' _ IH Hstep]; [|by apply (step_safe _ _ Hstep)]. split.
  - exists unassessed. split; [done|constructor].
  - constructor; cbn; try done; [lia|constructor|..]; intros ? ?%elem_of_nil; done.
Qed.

(** ** The audit *)

Lemma revision_bounds os : (∀ i o, os !! i = Some o → ob_revision o = Z.of_nat (S i)) → os ≠ [] →
  min_revision os = Some 1%Z ∧ max_revision os = Some (Z.of_nat (length os)).
Proof.
  enough (∀ k, (∀ i o, os !! i = Some o → ob_revision o = Z.of_nat (k + S i)) → os ≠ [] →
    min_revision os = Some (Z.of_nat (k + 1)) ∧ max_revision os = Some (Z.of_nat (k + length os))) as H by apply (H 0).
  induction os as [|o os IH]; intros k Hn Hne; [done|]. unfold min_revision, max_revision in *. cbn [foldr].
  rewrite (Hn 0 o eq_refl). destruct (decide (os = [])) as [->|Hne'].
  { cbn. split; do 2 f_equal; lia. }
  destruct (IH (S k)) as [-> ->]; [|done|].
  - intros i o' Hi. rewrite (Hn (S i) o' Hi). f_equal. lia.
  - split; f_equal; cbn [length]; lia.
Qed.

Lemma inv_audit db row : time_state db = Some row → recorded (observations db) row → state_matches_audit db = true.
Proof.
  intros Hrow Hrec. pose proof (recorded_ok _ _ Hrec) as Hh. unfold state_matches_audit.
  rewrite Hrow, (inv_latest _ _ Hrec). pose proof (h_revision _ _ Hh) as Hr.
  rewrite (proj2 (Z.ltb_ge _ _)) by lia. destruct (decide (observations db = [])) as [He|Hne].
  - rewrite (h_unassessed _ _ Hh He), He. done.
  - destruct (last (observations db)) as [o|] eqn:Hl; [|by apply last_None in Hl].
    destruct (revision_bounds _ (h_numbered _ _ Hh) Hne) as [-> ->]. destruct (h_last _ _ Hh o Hl) as (Hhi & Hfl & Hco & _).
    destruct (inv_current _ _ Hrow Hrec Hne) as (o' & Ho' & Hcur). assert (o' = o) as -> by congruence.
    unfold current_observation in Hcur. rewrite Hrow in Hcur. cbn [mbind option_bind] in Hcur.
    apply bind_Some in Hcur as (o' & Hat & [= ->]). rewrite Hat, Hr. cbn [mbind option_bind fmap option_fmap option_map].
    rewrite Hhi, Hfl, Hco, Z.eqb_refl, !bool_decide_eq_true_2 by done.
    rewrite (proj2 (Z.eqb_neq _ _)); [done|]. destruct (observations db); [done|]. simpl. lia.
Qed.

(** trusted time is exactly the history of its samples.  In every database that the transactions can reach,
    in any interleaving and with any clock, the state row passes the full audit against the observations, its
    high-water mark and its expiry floor are the latest wall time ever observed, and it is trusted exactly when
    there is an observation and every one of them was available, taken with no unresolved outside effect, and at
    most two seconds behind the latest time observed before it. *)
Theorem trusted_time_exact db : time_reachable db →
  ∃ row, time_state db = Some row ∧ state_matches_audit db = true ∧
    ts_revision row = Z.of_nat (length (observations db)) ∧
    ts_high row = max_observed (observations db) ∧ ts_floor row = max_observed (observations db) ∧
    (ts_confidence row = "TRUSTED_LOCAL" ↔ observations db ≠ [] ∧ steady (observations db)).
Proof.
  intros Hdb. destruct (reachable_safe _ Hdb) as [(row & Hrow & Hrec) _]. pose proof (recorded_ok _ _ Hrec) as Hh.
  exists row. split_and!; [done|by eapply inv_audit|apply (h_revision _ _ Hh)|apply (h_high _ _ Hh)| |apply (h_trusted _ _ Hh)].
  by rewrite (h_floor _ _ Hh), (h_high _ _ Hh).
Qed.

(** ** Time never goes back *)

Lemma steps_advance db db' : rtc time_step db db' → safe db → safe db' ∧ advances db db'.
Proof.
  induction 1 as [db|db db1 db' Hstep _ IH]; [done|]. intros [Hs Ha]%(step_safe _ _ Hstep).
  destruct (IH Hs) as [? ?]. split; [done|by etrans].
Qed.

Lemma assess_result db clock a db' clock' : safe db → assess db clock = (Ok a, db', clock') →
  ∃ row, time_state db' = Some row ∧ ta_confidence a = ts_confidence row ∧ ta_effective_nanos a = ts_floor row ∧
    safe db' ∧ advances db db'.
Proof.
  intros Hsafe. unfold assess. destruct (pending_marker_exists db) eqn:Hp; [done|]. intros H.
  destruct (safe_records _ _ Hsafe (records_assess _ _ _ _ _ _ H)) as [Hs Ha].
  unfold assess_sample_with_pending_policy in H. rewrite Hp in H. cbn [andb] in H.
  destruct (security_sample clock) as [sample c]. destruct Hsafe as [(row & Hrow & Hrec) _].
  rewrite (apply_recorded _ _ _ _ Hrow Hrec) in H. destruct (ts_revision row <? i64_max)%Z; [|done].
  injection H as <- <- _. eexists. done.
Qed.

(** protected time never goes backwards and distrust is never forgotten.  Between two assessments of a
    reachable database, whatever transactions run in between and whatever the wall clock does, the effective time
    of the second is at least that of the first, and once an assessment is uncertain so is every later one. *)
Theorem time_never_backwards db clock a db1 clock1 db2 clock2 a' db3 clock3 :
  time_reachable db → assess db clock = (Ok a, db1, clock1) → rtc time_step db1 db2 →
  assess db2 clock2 = (Ok a', db3, clock3) →
  (∀ n, ta_effective_nanos a = Some n → ∃ n', ta_effective_nanos a' = Some n' ∧ (n ≤ n')%Z) ∧
  (ta_confidence a = "TIME_UNCERTAIN" → ta_confidence a' = "TIME_UNCERTAIN").
Proof.
  intros Hdb H1 Hsteps H2. apply reachable_safe in Hdb.
  destruct (assess_result _ _ _ _ _ Hdb H1) as (row1 & Hrow1 & Hc1 & Hn1 & Hs1 & _).
  destruct (steps_advance _ _ Hsteps Hs1) as [Hs2 Ha12].
  destruct (assess_result _ _ _ _ _ Hs2 H2) as (row3 & Hrow3 & Hc3 & Hn3 & _ & Ha23).
  assert (advances db1 db3) as Ha by by etrans. destruct Hs1 as [(row & Hrow & Hrec) _]. assert (row = row1) as -> by congruence.
  destruct (Ha _ Hrow Hrec) as (row' & _ & Hrow' & _ & [_ _ Hfl Hun] & _). assert (row' = row3) as -> by congruence.
  rewrite Hc1, Hc3, Hn1, Hn3. split; [|done]. intros n Hn. rewrite Hn in Hfl.
  destruct (ts_floor row3) as [n'|]; [|done]. exists n'. split; [done|]. simpl in Hfl. by apply Z.ltb_ge in Hfl.
Qed.

(** ** Effects in flight *)

Lemma observation_unique db row o : time_state db = Some row → recorded (observations db) row → o ∈ observations db →
  observation_at db (ob_revision o) = Some o.
Proof.
  intros Hrow Hrec [i Hi]%list_elem_of_lookup. rewrite (h_numbered _ _ (recorded_ok _ _ Hrec) _ _ Hi).
  by rewrite (inv_observation_at _ _ Hrec).
Qed.

Lemma find_marker ps m p : NoDup (p_marker_id <$> ps) → p ∈ ps → p_marker_id p = m →
  find (λ p, String.eqb (p_marker_id p) m) ps = Some p.
Proof.
  intros Hnd Hp Hm. induction ps as [|q ps IH]; [by apply elem_of_nil in Hp|]. cbn [find].
  rewrite fmap_cons in Hnd. apply NoDup_cons in Hnd as [Hnot Hnd]. destruct (String.eqb_spec (p_marker_id q) m) as [Hq|Hq].
  - apply elem_of_cons in Hp as [->|Hp]; [done|]. exfalso. apply Hnot. rewrite Hq, <-Hm. by apply list_elem_of_fmap_2.
  - apply elem_of_cons in Hp as [->|Hp]; [done|]. by apply IH.
Qed.

Lemma safe_coherent db : safe db → inflight_rows_coherent db = true.
Proof.
  intros [(row & Hrow & Hrec) [_ _ Hd Hprep Hres Hpe]]. unfold inflight_rows_coherent. rewrite !andb_true_iff, !forallb_forall.
  split_and!.
  - intros p Hp%list_elem_of_In. destruct (Hprep p Hp) as (Ht & (o & Ho & Hrev & Hc & Hobs) & Hown & Hep & Hiff).
    rewrite <-Hrev, (observation_unique _ _ _ Hrow Hrec Ho), Hc, Hobs, (existsb_marker r_marker_id).
    rewrite (proj2 (Z.leb_le _ _) Hep), (bool_decide_eq_false_2 _ Hown), !bool_decide_eq_true_2 by done. cbn [andb negb].
    destruct (decide (p_marker_id p ∈ pending db)) as [Hin|Hnin].
    + rewrite (bool_decide_eq_true_2 _ Hin), bool_decide_eq_false_2; [done|by apply Hiff].
    + rewrite (bool_decide_eq_false_2 _ Hnin), bool_decide_eq_true_2; [done|].
      destruct (decide (p_marker_id p ∈ r_marker_id <$> resolutions db)) as [|Hnr]; [done|]. by apply Hiff in Hnr.
  - intros r Hr%list_elem_of_In. destruct (Hres r Hr) as (p & o & Hp & Hm & Ho & Hrev & Hlt & Hobs & Hinv & Hno).
    rewrite (find_marker _ _ _ Hd Hp Hm), <-Hrev, (observation_unique _ _ _ Hrow Hrec Ho), Hrev.
    rewrite (proj2 (Z.ltb_lt _ _) Hlt), (bool_decide_eq_true_2 _ Hobs). cbn [andb]. apply andb_true_iff. split; apply negb_true_iff.
    + destruct (String.eqb_spec (r_kind r) "EFFECT_INVOKED") as [Hk|]; [|done]. destruct (Hinv Hk) as [-> [w ->]]. done.
    + destruct (String.eqb_spec (r_kind r) "NO_EFFECT") as [Hk|]; [|done]. by destruct (Hno Hk) as [-> | ->].
  - intros m Hm%list_elem_of_In. rewrite (existsb_marker p_marker_id). apply bool_decide_eq_true_2. by apply Hpe.
Qed.

Lemma capture_locked_pending db clock : safe db → pending db ≠ [] → capture_locked db clock = (Err TIME_UNCERTAIN, clock).
Proof.
  intros [(row & Hrow & Hrec) _] Hp. unfold capture_locked, capture_locked_with_permit.
  rewrite (inv_tail _ _ Hrow Hrec). by destruct (pending db).
Qed.

(** at most one outside effect is in flight, and it fences protected work.  In every reachable database at
    most one marker is pending and the marker tables are coherent; while one is pending, an assessment is refused
    without reading the clock, no protected transaction and no second preparation under the lock changes anything,
    and a restart that finds it makes time uncertain for good. *)
Theorem one_effect_in_flight db : time_reachable db →
  length (pending db) ≤ 1 ∧ inflight_rows_coherent db = true ∧
  (pending db ≠ [] → ∀ clock,
    assess db clock = (Err TIME_UNCERTAIN, db, clock) ∧
    (∀ A (operation : Db B → string → Res (A * B)) committed,
       protected_transaction db clock operation committed = (Err TIME_UNCERTAIN, db, clock)) ∧
    (∀ owner epoch task kind subject marker committed, lease db = Some (owner, epoch) →
       prepare_transaction db clock owner epoch task kind subject marker committed = (Err TIME_UNCERTAIN, db, clock)) ∧
    (∀ a db' clock', startup_assess db clock = (Ok a, db', clock') → ta_confidence a = "TIME_UNCERTAIN")).
Proof.
  intros Hdb%reachable_safe. split_and!; [apply (m_one _ (proj2 Hdb))|by apply safe_coherent|].
  intros Hp clock. assert (pending_marker_exists db = true) as Hpe by (unfold pending_marker_exists; by destruct (pending db)).
  pose proof (capture_locked_pending _ clock Hdb Hp) as Hcap. split_and!.
  - unfold assess. by rewrite Hpe.
  - intros A operation committed. unfold protected_transaction. by rewrite Hcap.
  - intros owner epoch task kind subject marker committed Hl. unfold prepare_transaction, assert_manager_lease.
    rewrite bool_decide_eq_true_2 by done. by rewrite Hcap.
  - intros a db' clock'. unfold startup_assess, assess_sample_with_pending_policy. rewrite Hpe. cbn [andb].
    destruct (security_sample clock) as [sample c]. destruct Hdb as [(row & Hrow & Hrec) _].
    rewrite (apply_recorded _ _ _ _ Hrow Hrec). destruct (ts_revision row <? i64_max)%Z; [|done]. intros [= <- _ _].
    pose proof (next_confidence row sample true (ts_revision row + 1)) as [Ht|Hu]; [|done].
    apply next_trusted in Ht as (_ & ? & _); [done|]. intros h Hh. apply (h_range _ _ (recorded_ok _ _ Hrec) h Hh).
Qed.

(** ** Protected transactions *)

(** The time that a locked sample gives is the floor that recording it leaves. *)
Lemma capture_effective db row clock fresh clock' : time_state db = Some row → recorded (observations db) row →
  capture_locked db clock = (Ok fresh, clock') →
  lo_sample fresh = (security_sample clock).1 ∧ clock' = (security_sample clock).2 ∧
  ∀ n, lo_effective_nanos fresh = Some n →
    let next := next_state row (lo_sample fresh) false (ts_revision row + 1) in
    ts_confidence next.1 = "TRUSTED_LOCAL" ∧ ts_floor next.1 = Some n.
Proof.
  intros Hrow Hrec. unfold capture_locked, capture_locked_with_permit. rewrite (inv_tail _ _ Hrow Hrec). cbn [negb].
  destruct (head (pending db)); [done|]. destruct (security_sample clock) as [sample c]. rewrite Hrow.
  intros [= <- <-]. cbn [lo_sample lo_effective_nanos fst snd]. split_and!; [done|done|]. intros n Hn. cbv zeta.
  pose proof (recorded_ok _ _ Hrec) as Hh.
  destruct (String.eqb_spec (ts_confidence row) "TRUSTED_LOCAL") as [Ht|]; [|done].
  destruct (ts_floor row) as [fl|] eqn:Hfl; [|done].
  destruct (sample ≫= wall_nanos) as [w|] eqn:Hw; [|done].
  destruct (Z.leb_spec (saturating_sub fl ROLLBACK_TOLERANCE_NANOS) w) as [Hle|]; [|done]. injection Hn as <-.
  pose proof (next_fields row sample false (ts_revision row + 1)) as (_ & _ & _ & _ & _ & _ & Hhigh & Hfloor).
  pose proof (next_observed row sample false (ts_revision row + 1)) as Hobs.
  assert (ts_high row = Some fl) as Hhf by (rewrite <-(h_floor _ _ Hh); done).
  split.
  - apply next_trusted; [intros h E; apply (h_range _ _ Hh h E)|]. split_and!; [by rewrite Ht|done|].
    exists w. rewrite Hobs, Hw. split; [done|]. rewrite Hhf. intros h [= <-].
    apply (tolerance_exact fl w); [|apply (h_range _ _ Hh fl Hhf)|by apply Z.ltb_ge].
    destruct sample as [s|]; [|done]. by apply (wall_nanos_range s w).
  - rewrite Hfloor, Hhigh, Hobs, Hw, Hfl, Hhf. cbn [later]. f_equal. lia.
Qed.

(** Recording the sample of a denied transaction. *)
Lemma denied_recorded {A} fresh db row error (r : Res A) db' : time_state db = Some row → recorded (observations db) row →
  (ts_revision row < i64_max)%Z → denied fresh db error = (r, db') →
  r = Err error ∧ db' = (let next := next_state row (lo_sample fresh) false (ts_revision row + 1) in
                         set_time db next.1 (observations db ++ [next.2])).
Proof.
  intros Hrow Hrec Hlt. unfold denied, commit, assess_sample, assess_sample_with_pending_policy. cbn [andb security_sample head default tail].
  change (default None (Some (lo_sample fresh))) with (lo_sample fresh).
  rewrite (apply_recorded _ _ _ _ Hrow Hrec), (proj2 (Z.ltb_lt _ _) Hlt). by intros [= <- <-].
Qed.

(** A protected transaction records its sample whatever happens, and is atomic.  In a reachable database with
    no effect in flight, running it takes one sample and adds exactly one observation, with that sample's wall
    time.  If it succeeds, the operation ran at a time that is the expiry floor left behind, time is trusted, and
    the other tables are those the operation returned; if it fails, for whatever reason, they are unchanged. *)
Theorem protected_transaction_exact A db row clock (operation : Db B → string → Res (A * B)) committed r db' clock' :
  time_reachable db → time_state db = Some row → (ts_revision row < i64_max)%Z → pending db = [] →
  protected_transaction db clock operation committed = (r, db', clock') →
  ∃ row' o, time_state db' = Some row' ∧ observations db' = observations db ++ [o] ∧
    ob_observed o = (security_sample clock).1 ≫= wall_nanos ∧ clock' = (security_sample clock).2 ∧
    match r with
    | Ok value => ∃ n now, format_nanos n = Ok now ∧ ts_floor row' = Some n ∧ ts_confidence row' = "TRUSTED_LOCAL" ∧
                    operation db now = Ok (value, business db')
    | Err _ => business db' = business db
    end.
Proof.
  intros Hdb Hrow Hlt Hp. destruct (reachable_safe _ Hdb) as [(row0 & Hrow0 & Hrec) _]. assert (row0 = row) as -> by congruence.
  unfold protected_transaction. destruct (capture_locked db clock) as [[fresh|e] c] eqn:Hcap.
  2: { exfalso. revert Hcap. unfold capture_locked, capture_locked_with_permit. rewrite (inv_tail _ _ Hrow Hrec), Hp, Hrow.
       by destruct (security_sample clock). }
  destruct (capture_effective _ _ _ _ _ Hrow Hrec Hcap) as (Hsm & -> & Heff).
  set (next := next_state row (lo_sample fresh) false (ts_revision row + 1)) in *.
  pose proof (next_observed row (lo_sample fresh) false (ts_revision row + 1)) as Hobs. fold next in Hobs. rewrite Hsm in Hobs.
  destruct (LockedTimeObservation_require_trusted_time fresh ≫= _) as [[v d]|e] eqn:H.
  - intros [= <- <- <-]. apply result_bind_ok in H as (nw & Hnow & H). apply result_bind_ok in H as ([v' b] & Hop & H).
    apply result_bind_ok in H as ([a d'] & Hin & H). apply result_bind_ok in H as (? & _ & H).
    destruct committed; [|done]. injection H as <- <-. unfold commit_in, apply_sample_in_transaction in Hin.
    rewrite (apply_recorded (set_business db b) row _ _ Hrow Hrec), (proj2 (Z.ltb_lt _ _) Hlt) in Hin. injection Hin as _ <-.
    unfold LockedTimeObservation_require_trusted_time in Hnow. destruct (lo_effective_nanos fresh) as [n|] eqn:Hn; [|done].
    destruct (Heff n eq_refl) as [Hc Hf]. eexists _, _. split_and!; [done|done|done|done|]. exists n, nw. done.
  - destruct (denied fresh db e) as [r0 d] eqn:Hd. intros [= <- <- <-].
    apply (denied_recorded _ _ _ _ _ _ Hrow Hrec Hlt) in Hd as [-> ->]. eexists _, _. done.
Qed.

End database.
