(* ===== verification/Deadline.v ===== *)
(** * Authority deadlines

    [crates/aios-task-manager/src/authority_deadline.rs], the clock sessions of
    [trusted_time.rs] and [lib.rs], and the insertion of a deadline in [authority_policy.rs],
    over the tables of [specs/persistence-v0.1-0021-authority-grant-deadlines.sql]: when an
    issued grant expires, how its expiry is checked, and how a witnessed expiry is latched.

    The tables are the part [business] of the database of [TrustedTime].  An operation reads
    the database and returns these tables as it leaves them. *)

From S2P Require Import Prelude Numbers TrustedTime.

Definition LOCAL_ARTIFACT_GRANT_NANOS : Z := 300000000000.

Definition reject : TaskManagerError := InvalidRecord "authority grant deadline is not admissible".

(** [i64::checked_sub] *)
Definition checked_sub (a b : Z) : option Z := i64_try_from (a - b).

(** SQL's [=]: unknown, hence not true, on [NULL]. *)
Definition sql_eq {A} `{EqDecision A} (a b : option A) : bool :=
  match a, b with Some a, Some b => bool_decide (a = b) | _, _ => false end.

(** ** Tables *)

Record ClockSession := {
  cs_session_id : string;
  cs_owner_id : string;
  cs_owner_epoch : Z;
  cs_monotonic : Z;
  cs_observed : Z;
  cs_state_revision : Z;
  cs_revision : Z;
}.

Record GrantDeadline := {
  d_grant_id : string;
  d_token_id : string;
  d_task_id : string;
  d_execution_binding_id : string;
  d_attempt_id : string;
  d_policy_decision_id : string;
  d_issued_at : string;
  d_grant_expires_at : string;
  d_grant_expiry : Z;
  d_approval_id : option string;
  d_request_expires_at : option string;
  d_request_expiry : option Z;
  d_decision_id : option string;
  d_approved_until : option string;
  d_approved_expiry : option Z;
  d_session_id : string;
  d_owner_id : string;
  d_owner_epoch : Z;
  d_issued_revision : Z;
  d_issued_monotonic : Z;
  d_deadline : Z;
  d_issued_observed : Z;
  d_issued_effective : Z;
  d_effective_expiry : Z;
}.

Record ExpiryLatch := {
  x_grant_id : string;
  x_session_id : string;
  x_owner_id : string;
  x_owner_epoch : Z;
  x_state_revision : Z;
  x_monotonic : Z;
  x_observed : Z;
  x_effective : Z;
  x_reason : string;
}.

(** The identity columns of grants, receipts and approvals. *)
Record Grant := {
  g_grant_id : string;
  g_token_id : option string;
  g_task_id : string;
  g_execution_binding_id : option string;
  g_attempt_id : option string;
  g_policy_decision_id : string;
  g_approval_id : option string;
  g_issued_at : string;
  g_expires_at : string;
}.

Record Receipt := {
  rc_grant_id : string;
  rc_token_id : string;
  rc_task_id : string;
  rc_execution_binding_id : string;
  rc_attempt_id : string;
  rc_policy_decision_id : string;
  rc_issued_at : string;
  rc_profile : string;
}.

Record ApprovalRequest := { ar_approval_id : string; ar_status : string; ar_expires_at : option string }.
Record ApprovalDecision :=
  { ad_decision_id : string; ad_approval_id : string; ad_decision : string; ad_approved_until : option string }.

Record Authority := {
  sessions : list ClockSession;
  deadlines : list GrantDeadline;
  latches : list ExpiryLatch;
  grants : list Grant;
  receipts : list Receipt;
  requests : list ApprovalRequest;
  decisions : list ApprovalDecision;
}.

Definition set_sessions (b : Authority) (ss : list ClockSession) : Authority :=
  {| sessions := ss; deadlines := deadlines b; latches := latches b; grants := grants b; receipts := receipts b;
     requests := requests b; decisions := decisions b |}.

Definition set_deadlines (b : Authority) (ds : list GrantDeadline) : Authority :=
  {| sessions := sessions b; deadlines := ds; latches := latches b; grants := grants b; receipts := receipts b;
     requests := requests b; decisions := decisions b |}.

Definition set_latches (b : Authority) (xs : list ExpiryLatch) : Authority :=
  {| sessions := sessions b; deadlines := deadlines b; latches := xs; grants := grants b; receipts := receipts b;
     requests := requests b; decisions := decisions b |}.

Inductive GrantDeadlineStatus := Valid | ExpiredMonotonic | ExpiredWall | InvalidOrIncomplete.

#[export] Instance GrantDeadlineStatus_eq_dec : EqDecision GrantDeadlineStatus.
Proof. solve_decision. Defined.

Record ApprovalExpirySources := { request_expires_at : string; approved_until : string }.

Record PreparedGrantDeadline := {
  grant_expires_at : string;
  grant_expiry_unix_nanos : Z;
  approval_request_expiry_unix_nanos : option Z;
  approved_until_unix_nanos : option Z;
  effective_expiry_unix_nanos : Z;
  deadline_monotonic_nanos : Z;
}.

Section deadlines.

Context `{TL : TimeLib}.
Abbreviation Db := (TrustedTime.Db Authority).
Implicit Types db : Db.

(** ** Deriving a deadline *)

Definition parse_nanos (raw : string) : Res Z :=
  match rfc3339_nanos raw with
  | None => Err reject
  | Some nanos => match i64_try_from nanos with Some nanos => Ok nanos | None => Err reject end
  end.

Definition deadline_format_nanos (nanos : Z) : Res string :=
  match rfc3339_format nanos with Some s => Ok s | None => Err reject end.

(** [Option::ok_or_else(reject)] *)
Definition ok_or_reject {A} (o : option A) : Res A := match o with Some a => Ok a | None => Err reject end.

Definition derive (effective_now monotonic_now : Z) (approval : option ApprovalExpirySources) : Res PreparedGrantDeadline :=
  if (effective_now <? 0)%Z || (monotonic_now <? 0)%Z then Err reject else
  grant_cap ← ok_or_reject (checked_add effective_now LOCAL_ARTIFACT_GRANT_NANOS);
  '(request_cap, approved_cap) ←
    match approval with
    | Some sources =>
        request ← parse_nanos (request_expires_at sources);
        approved ← parse_nanos (approved_until sources);
        Ok (Some request, Some approved)
    | None => Ok (None, None)
    end;
  let effective_expiry := foldl Z.min grant_cap (option_list request_cap ++ option_list approved_cap) in
  expires_at ← deadline_format_nanos effective_expiry;
  ttl ← ok_or_reject (checked_sub effective_expiry effective_now ≫= λ ttl, if (0 <? ttl)%Z then Some ttl else None);
  deadline ← ok_or_reject (checked_add monotonic_now ttl);
  Ok {| grant_expires_at := expires_at; grant_expiry_unix_nanos := effective_expiry;
        approval_request_expiry_unix_nanos := request_cap; approved_until_unix_nanos := approved_cap;
        effective_expiry_unix_nanos := effective_expiry; deadline_monotonic_nanos := deadline |}.

Definition prepare_local_artifact_deadline (context : ProtectedTimeContext) (approval : option ApprovalExpirySources) :
    Res PreparedGrantDeadline :=
  derive (effective_unix_nanos context) (monotonic_nanos context) approval.

(** ** Clock sessions *)

(** The subquery of the session triggers: the lease, and the trusted observation of the current revision. *)
Definition paired_time db (owner : string) (epoch revision monotonic observed : Z) : bool :=
  match current_observation db with
  | Some (row, o) =>
      bool_decide (lease db = Some (owner, epoch)) && String.eqb (ts_confidence row) "TRUSTED_LOCAL" &&
      (ts_revision row =? revision)%Z && String.eqb (ob_confidence o) "TRUSTED_LOCAL" &&
      bool_decide (ob_monotonic o = Some monotonic) && bool_decide (ob_observed o = Some observed)
  | None => false
  end.

(** [INSERT INTO authority_clock_sessions], with its trigger and constraints. *)
Definition insert_session db (s : ClockSession) : Res Authority :=
  let b := business db in
  if existsb (λ s', String.eqb (cs_session_id s') (cs_session_id s) ||
                    (String.eqb (cs_owner_id s') (cs_owner_id s) && (cs_owner_epoch s' =? cs_owner_epoch s)%Z)) (sessions b) ||
     negb (cs_revision s =? 1)%Z ||
     negb (paired_time db (cs_owner_id s) (cs_owner_epoch s) (cs_state_revision s) (cs_monotonic s) (cs_observed s))
  then Err (Storage (ConstraintFailed "clock session lacks exact lease and paired time"))
  else if negb (marker_check (cs_session_id s) && negb (bool_decide (cs_owner_id s = "")) && (1 <=? cs_owner_epoch s)%Z &&
                (0 <=? cs_monotonic s)%Z)
  then Err (Storage (ConstraintFailed "authority_clock_sessions"))
  else Ok (set_sessions b (sessions b ++ [s])).

(** The operation that [initialize_clock_session] runs under a protected observation. *)
Definition open_clock_session (lease_owner : string) (lease_epoch : Z) db (time : ProtectedTimeContext) :
    Res (unit * Authority) :=
  assert_manager_lease db lease_owner lease_epoch ≫= λ _,
  b ← insert_session db
        {| cs_session_id := lease_owner; cs_owner_id := lease_owner; cs_owner_epoch := lease_epoch;
           cs_monotonic := monotonic_nanos time; cs_observed := observed_unix_nanos time;
           cs_state_revision := state_revision time; cs_revision := 1 |};
  Ok ((), b).

Definition initialize_clock_session db (clock : Clock) (lease_owner : string) (lease_epoch : Z) (committed : bool) :
    Res unit * Db * Clock :=
  match startup_assess db clock with
  | (Err error, db, clock) => (Err error, db, clock)
  | (Ok startup_time, db, clock) =>
      match TimeAssessment_require_trusted_time startup_time with
      | Err _ => (Ok (), db, clock)
      | Ok _ =>
          match with_protected_observation db clock (open_clock_session lease_owner lease_epoch) committed with
          | (Ok _, db, clock) => (Ok (), db, clock)
          | (Err error, db, clock) =>
              match error with
              | InvalidRecord reason =>
                  if String.eqb reason "TIME_UNCERTAIN" then (Ok (), db, clock) else (Err error, db, clock)
              | _ => (Err error, db, clock)
              end
          end
      end
  end.

(** The row after the [UPDATE] of [advance_clock_session_in]. *)
Definition advanced (s : ClockSession) (time : ProtectedTimeContext) : ClockSession :=
  {| cs_session_id := cs_session_id s; cs_owner_id := cs_owner_id s; cs_owner_epoch := cs_owner_epoch s;
     cs_monotonic := monotonic_nanos time; cs_observed := observed_unix_nanos time;
     cs_state_revision := state_revision time; cs_revision := cs_revision s + 1 |}.

(** The [WHERE] clause of that [UPDATE]. *)
Definition advance_matches (owner_id : string) (owner_epoch : Z) (time : ProtectedTimeContext) (s : ClockSession) : bool :=
  String.eqb (cs_session_id s) owner_id && String.eqb (cs_owner_id s) owner_id && (cs_owner_epoch s =? owner_epoch)%Z &&
  (cs_monotonic s <=? monotonic_nanos time)%Z && (cs_state_revision s <? state_revision time)%Z.

Definition advance_clock_session_in db (owner_id : string) (owner_epoch : Z) (time : ProtectedTimeContext) : Res Authority :=
  assert_manager_lease db owner_id owner_epoch ≫= λ _,
  let b := business db in
  let matching := filter (λ s, advance_matches owner_id owner_epoch time s = true) (sessions b) in
  if negb (forallb (λ s, paired_time db (cs_owner_id s) (cs_owner_epoch s) (state_revision time) (monotonic_nanos time)
                           (observed_unix_nanos time)) matching)
  then Err (Storage (ConstraintFailed "clock session high-water cannot regress or detach"))
  else if negb (forallb (λ s, (0 <=? monotonic_nanos time)%Z && (cs_revision s <? i64_max)%Z) matching)
  then Err (Storage (ConstraintFailed "authority_clock_sessions"))
  else if negb (length matching =? 1)%nat then Err (InvalidRecord "CLOCK_SESSION_INVALID")
  else Ok (set_sessions b ((λ s, if advance_matches owner_id owner_epoch time s then advanced s time else s) <$> sessions b)).

(** ** Issuing a deadline *)

(** The grant and its receipt have the identity of the deadline. *)
Definition grant_matches (d : GrantDeadline) (g : Grant) : bool :=
  String.eqb (g_grant_id g) (d_grant_id d) && bool_decide (g_token_id g = Some (d_token_id d)) &&
  String.eqb (g_task_id g) (d_task_id d) && bool_decide (g_execution_binding_id g = Some (d_execution_binding_id d)) &&
  bool_decide (g_attempt_id g = Some (d_attempt_id d)) && String.eqb (g_policy_decision_id g) (d_policy_decision_id d) &&
  String.eqb (g_issued_at g) (d_issued_at d) && String.eqb (g_expires_at g) (d_grant_expires_at d).

Definition receipt_matches (d : GrantDeadline) (r : Receipt) : bool :=
  String.eqb (rc_grant_id r) (d_grant_id d) && String.eqb (rc_token_id r) (d_token_id d) &&
  String.eqb (rc_task_id r) (d_task_id d) && String.eqb (rc_execution_binding_id r) (d_execution_binding_id d) &&
  String.eqb (rc_attempt_id r) (d_attempt_id d) && String.eqb (rc_policy_decision_id r) (d_policy_decision_id d) &&
  String.eqb (rc_issued_at r) (d_issued_at d).

(** The request and the decision that the deadline names are approved and carry its two times. *)
Definition approval_granted (b : Authority) (d : GrantDeadline) : bool :=
  existsb (λ a, bool_decide (d_approval_id d = Some (ar_approval_id a)) && String.eqb (ar_status a) "APPROVED" &&
                sql_eq (ar_expires_at a) (d_request_expires_at d)) (requests b) &&
  existsb (λ ad, bool_decide (d_decision_id d = Some (ad_decision_id ad)) &&
                 bool_decide (d_approval_id d = Some (ad_approval_id ad)) && String.eqb (ad_decision ad) "APPROVE" &&
                 sql_eq (ad_approved_until ad) (d_approved_until d)) (decisions b).

Definition approval_absent (d : GrantDeadline) : bool :=
  is_null (d_approval_id d) && is_null (d_request_expires_at d) && is_null (d_request_expiry d) &&
  is_null (d_decision_id d) && is_null (d_approved_until d) && is_null (d_approved_expiry d).

(** The [CHECK]s of [authority_grant_deadlines]. *)
Definition deadline_check (d : GrantDeadline) : bool :=
  (1 <=? d_owner_epoch d)%Z && (0 <=? d_issued_monotonic d)%Z && (d_issued_monotonic d <? d_deadline d)%Z &&
  (0 <=? d_issued_effective d)%Z && (d_issued_observed d <=? d_issued_effective d)%Z &&
  (d_issued_effective d <? d_effective_expiry d)%Z && (d_effective_expiry d <=? d_grant_expiry d)%Z &&
  (approval_absent d ||
   (negb (is_null (d_approval_id d)) && negb (is_null (d_request_expires_at d)) && negb (is_null (d_decision_id d)) &&
    negb (is_null (d_approved_until d)) &&
    match d_request_expiry d, d_approved_expiry d with
    | Some request, Some approved => (d_effective_expiry d <=? request)%Z && (d_effective_expiry d <=? approved)%Z
    | _, _ => false
    end)) &&
  (d_deadline d - d_issued_monotonic d =? d_effective_expiry d - d_issued_effective d)%Z.

(** The subquery of the trigger [authority_grant_deadline_exact_insert]. *)
Definition deadline_exact db (d : GrantDeadline) : bool :=
  let b := business db in
  existsb (receipt_matches d) (receipts b) &&
  existsb (λ g, grant_matches d g && bool_decide (g_approval_id g = d_approval_id d)) (grants b) &&
  (is_null (d_approval_id d) || approval_granted b d) &&
  paired_time db (d_owner_id d) (d_owner_epoch d) (d_issued_revision d) (d_issued_monotonic d) (d_issued_observed d) &&
  bool_decide ((current_observation db ≫= λ ro, ob_floor ro.2) = Some (d_issued_effective d)) &&
  existsb (λ c, String.eqb (cs_session_id c) (d_session_id d) && String.eqb (cs_owner_id c) (d_owner_id d) &&
                (cs_owner_epoch c =? d_owner_epoch d)%Z && (cs_monotonic c =? d_issued_monotonic d)%Z &&
                (cs_state_revision c =? d_issued_revision d)%Z) (sessions b).

(** [INSERT INTO authority_grant_deadlines], with its trigger and constraints. *)
Definition insert_deadline db (d : GrantDeadline) : Res Authority :=
  let b := business db in
  if existsb (λ d', String.eqb (d_grant_id d') (d_grant_id d)) (deadlines b) || negb (deadline_exact db d)
  then Err (Storage (ConstraintFailed "grant deadline lacks exact grant, receipt, session and paired time"))
  else if negb (deadline_check d) then Err (Storage (ConstraintFailed "authority_grant_deadlines"))
  else Ok (set_deadlines b (deadlines b ++ [d])).

(** The identities of a grant to issue. *)
Record GrantFacts := {
  f_grant_id : string;
  f_token_id : string;
  f_task_id : string;
  f_binding_id : string;
  f_attempt_id : string;
  f_decision_id : string;
}.

(** An approval: its request, when that expires, its decision, and until when it approves. *)
Record Approval := { a_id : string; a_expires : string; a_decision_id : string; a_until : string }.

Definition insert_grant (b : Authority) (g : Grant) (r : Receipt) : Res Authority :=
  if existsb (λ d, String.eqb (d_grant_id d) (g_grant_id g) || bool_decide (g_token_id g = Some (d_token_id d))) (deadlines b)
  then Err (Storage (ConstraintFailed "deadline-bound grant cannot be replaced"))
  else if existsb (λ g', String.eqb (g_grant_id g') (g_grant_id g) || sql_eq (g_token_id g') (g_token_id g)) (grants b)
  then Err (Storage (ConstraintFailed "authority_grants"))
  else if existsb (λ r', String.eqb (rc_grant_id r') (rc_grant_id r)) (receipts b)
  then Err (Storage (ConstraintFailed "authority_issuance_receipts"))
  else Ok {| sessions := sessions b; deadlines := deadlines b; latches := latches b; grants := grants b ++ [g];
             receipts := receipts b ++ [r]; requests := requests b; decisions := decisions b |}.

(** The row of the deadline: the session is that of the owner. *)
Definition deadline_row (f : GrantFacts) (approval : option Approval) (owner_id : string) (owner_epoch : Z)
    (time : ProtectedTimeContext) (prepared : PreparedGrantDeadline) : GrantDeadline :=
  {| d_grant_id := f_grant_id f; d_token_id := f_token_id f; d_task_id := f_task_id f;
     d_execution_binding_id := f_binding_id f; d_attempt_id := f_attempt_id f; d_policy_decision_id := f_decision_id f;
     d_issued_at := now time; d_grant_expires_at := grant_expires_at prepared;
     d_grant_expiry := grant_expiry_unix_nanos prepared; d_approval_id := a_id <$> approval;
     d_request_expires_at := a_expires <$> approval;
     d_request_expiry := approval_request_expiry_unix_nanos prepared; d_decision_id := a_decision_id <$> approval;
     d_approved_until := a_until <$> approval; d_approved_expiry := approved_until_unix_nanos prepared;
     d_session_id := owner_id; d_owner_id := owner_id; d_owner_epoch := owner_epoch;
     d_issued_revision := state_revision time; d_issued_monotonic := monotonic_nanos time;
     d_deadline := deadline_monotonic_nanos prepared; d_issued_observed := observed_unix_nanos time;
     d_issued_effective := effective_unix_nanos time; d_effective_expiry := effective_expiry_unix_nanos prepared |}.

(** The tail of the loop that issues the grants of a candidate: the grant, its receipt and its deadline.
    [admitted] is the answer of the constraints of the first two tables that concern other tables. *)
Definition issue_grant db (f : GrantFacts) (approval : option Approval) (owner_id : string) (owner_epoch : Z)
    (time : ProtectedTimeContext) (admitted : bool) : Res Authority :=
  prepared ← prepare_local_artifact_deadline time
               ((λ a, {| request_expires_at := a_expires a; approved_until := a_until a |}) <$> approval);
  if negb admitted then Err (Storage (ConstraintFailed "authority_grants")) else
  b ← insert_grant (business db)
        {| g_grant_id := f_grant_id f; g_token_id := Some (f_token_id f); g_task_id := f_task_id f;
           g_execution_binding_id := Some (f_binding_id f); g_attempt_id := Some (f_attempt_id f);
           g_policy_decision_id := f_decision_id f; g_approval_id := a_id <$> approval; g_issued_at := now time;
           g_expires_at := grant_expires_at prepared |}
        {| rc_grant_id := f_grant_id f; rc_token_id := f_token_id f; rc_task_id := f_task_id f;
           rc_execution_binding_id := f_binding_id f; rc_attempt_id := f_attempt_id f;
           rc_policy_decision_id := f_decision_id f; rc_issued_at := now time; rc_profile := "coordinator-issued-v0.1" |};
  insert_deadline (set_business db b) (deadline_row f approval owner_id owner_epoch time prepared).

(** ** Checking a deadline *)

(** A trusted observation with these values: the joins with [trusted_time_observations]. *)
Definition observed_at (revision monotonic observed effective : Z) (o : Observation) : bool :=
  (ob_revision o =? revision)%Z && String.eqb (ob_confidence o) "TRUSTED_LOCAL" &&
  bool_decide (ob_monotonic o = Some monotonic) && bool_decide (ob_observed o = Some observed) &&
  bool_decide (ob_floor o = Some effective).

(** The state row and the observation of the context. *)
Definition time_current db (time : ProtectedTimeContext) : bool :=
  match time_state db with
  | Some row =>
      String.eqb (ts_confidence row) "TRUSTED_LOCAL" && (ts_revision row =? state_revision time)%Z &&
      bool_decide (ts_floor row = Some (effective_unix_nanos time))
  | None => false
  end &&
  existsb (observed_at (state_revision time) (monotonic_nanos time) (observed_unix_nanos time) (effective_unix_nanos time))
    (observations db).

(** The approval clause of the query. *)
Definition approval_evidence (b : Authority) (d : GrantDeadline) : bool :=
  approval_absent d ||
  (negb (is_null (d_approval_id d)) && approval_granted b d && negb (is_null (d_request_expiry d)) &&
   negb (is_null (d_approved_expiry d))).

(** An observation since issuance whose monotonic time is unknown or past that of the context. *)
Definition regressed (d : GrantDeadline) (time : ProtectedTimeContext) (prior : Observation) : bool :=
  (d_issued_revision d <=? ob_revision prior)%Z && (ob_revision prior <? state_revision time)%Z &&
  String.eqb (ob_confidence prior) "TRUSTED_LOCAL" &&
  match ob_monotonic prior with None => true | Some m => (monotonic_nanos time <? m)%Z end.

(** The joins and the [WHERE] clause of the query of [check_grant_deadline]. *)
Definition evidence_matches db (grant_id lease_owner : string) (lease_epoch : Z) (time : ProtectedTimeContext)
    (d : GrantDeadline) : bool :=
  let b := business db in
  String.eqb (d_grant_id d) grant_id && String.eqb (d_owner_id d) lease_owner && (d_owner_epoch d =? lease_epoch)%Z &&
  existsb (λ g, grant_matches d g && bool_decide (g_approval_id g = d_approval_id d)) (grants b) &&
  existsb (λ r, receipt_matches d r && String.eqb (rc_profile r) "coordinator-issued-v0.1") (receipts b) &&
  existsb (λ c, String.eqb (cs_session_id c) (d_session_id d) && String.eqb (cs_owner_id c) (d_owner_id d) &&
                (cs_owner_epoch c =? d_owner_epoch d)%Z && (cs_state_revision c =? state_revision time)%Z &&
                (cs_monotonic c =? monotonic_nanos time)%Z && (cs_observed c =? observed_unix_nanos time)%Z) (sessions b) &&
  bool_decide (lease db = Some (d_owner_id d, d_owner_epoch d)) &&
  existsb (observed_at (d_issued_revision d) (d_issued_monotonic d) (d_issued_observed d) (d_issued_effective d))
    (observations db) &&
  time_current db time &&
  (d_issued_revision d <=? state_revision time)%Z && (d_issued_monotonic d <=? monotonic_nanos time)%Z &&
  (d_issued_effective d <=? effective_unix_nanos time)%Z && (0 <=? d_issued_monotonic d)%Z &&
  (0 <=? d_issued_effective d)%Z && approval_evidence b d &&
  negb (existsb (λ x, String.eqb (x_grant_id x) (d_grant_id d)) (latches b)) &&
  negb (existsb (regressed d time) (observations db)).

Definition caps_match (d : GrantDeadline) : bool :=
  bool_decide (result_ok (parse_nanos (d_grant_expires_at d)) = Some (d_grant_expiry d)) &&
  bool_decide ((d_request_expires_at d ≫= λ text, result_ok (parse_nanos text)) = d_request_expiry d) &&
  bool_decide ((d_approved_until d ≫= λ text, result_ok (parse_nanos text)) = d_approved_expiry d).

Definition duration_matches (d : GrantDeadline) : bool :=
  bool_decide
    ((checked_sub (d_effective_expiry d) (d_issued_effective d) ≫= λ duration,
        if (0 <? duration)%Z then checked_add (d_issued_monotonic d) duration else None) = Some (d_deadline d)).

Definition shortest_cap (d : GrantDeadline) : Z :=
  Z.min (Z.min (d_grant_expiry d) (default i64_max (d_request_expiry d))) (default i64_max (d_approved_expiry d)).

Definition check_grant_deadline db (grant_id lease_owner : string) (lease_epoch : Z) (time : ProtectedTimeContext) :
    Res GrantDeadlineStatus :=
  match find (evidence_matches db grant_id lease_owner lease_epoch time) (deadlines (business db)) with
  | None => Ok InvalidOrIncomplete
  | Some d =>
      if negb (caps_match d) || negb (duration_matches d) || negb (d_effective_expiry d =? shortest_cap d)%Z
      then Ok InvalidOrIncomplete
      else Ok (if (d_deadline d <=? monotonic_nanos time)%Z then ExpiredMonotonic
               else if (d_effective_expiry d <=? effective_unix_nanos time)%Z then ExpiredWall
               else Valid)
  end.

(** ** Latching an expiry *)

(** The reason of a latch holds of the deadline. *)
Definition reason_holds (x : ExpiryLatch) (d : GrantDeadline) : bool :=
  (String.eqb (x_reason x) "MONOTONIC_DEADLINE" && (d_deadline d <=? x_monotonic x)%Z) ||
  (String.eqb (x_reason x) "WALL_EXPIRY" && (d_effective_expiry d <=? x_effective x)%Z).

Definition latch_of (x : ExpiryLatch) (d : GrantDeadline) : bool :=
  String.eqb (d_grant_id d) (x_grant_id x) && String.eqb (d_session_id d) (x_session_id x) &&
  String.eqb (d_owner_id d) (x_owner_id x) && (d_owner_epoch d =? x_owner_epoch x)%Z.

(** [INSERT INTO authority_grant_expiry_latches] of one row, with its trigger and constraints. *)
Definition insert_latch db (b : Authority) (x : ExpiryLatch) : Res Authority :=
  if existsb (λ x', String.eqb (x_grant_id x') (x_grant_id x)) (latches b) ||
     negb (existsb (λ d,
             latch_of x d &&
             existsb (λ c, String.eqb (cs_session_id c) (d_session_id d) && String.eqb (cs_owner_id c) (d_owner_id d) &&
                           (cs_owner_epoch c =? d_owner_epoch d)%Z && (x_monotonic x <=? cs_monotonic c)%Z) (sessions b) &&
             paired_time db (d_owner_id d) (d_owner_epoch d) (x_state_revision x) (x_monotonic x) (x_observed x) &&
             bool_decide ((current_observation db ≫= λ ro, ob_floor ro.2) = Some (x_effective x)) &&
             reason_holds x d) (deadlines b))
  then Err (Storage (ConstraintFailed "grant expiry lacks exact session time or deadline"))
  else if negb ((1 <=? x_owner_epoch x)%Z && (0 <=? x_monotonic x)%Z && (x_observed x <=? x_effective x)%Z &&
                existsb (String.eqb (x_reason x)) ["MONOTONIC_DEADLINE"; "WALL_EXPIRY"])
  then Err (Storage (ConstraintFailed "authority_grant_expiry_latches"))
  else Ok (set_latches b (latches b ++ [x])).

(** The row that the [SELECT] of the insertion makes of a deadline. *)
Definition latch_row (time : ProtectedTimeContext) (reason : string) (d : GrantDeadline) : ExpiryLatch :=
  {| x_grant_id := d_grant_id d; x_session_id := d_session_id d; x_owner_id := d_owner_id d;
     x_owner_epoch := d_owner_epoch d; x_state_revision := state_revision time; x_monotonic := monotonic_nanos time;
     x_observed := observed_unix_nanos time; x_effective := effective_unix_nanos time; x_reason := reason |}.

Fixpoint insert_latches db (b : Authority) (xs : list ExpiryLatch) : Res Authority :=
  match xs with
  | [] => Ok b
  | x :: xs => b' ← insert_latch db b x; insert_latches db b' xs
  end.

Definition check_and_latch_grant_deadline db (grant_id lease_owner : string) (lease_epoch : Z)
    (time : ProtectedTimeContext) : Res (bool * Authority) :=
  status ← check_grant_deadline db grant_id lease_owner lease_epoch time;
  let latch reason :=
    let rows := filter (λ d, String.eqb (d_grant_id d) grant_id && String.eqb (d_owner_id d) lease_owner &&
                             (d_owner_epoch d =? lease_epoch)%Z = true) (deadlines (business db)) in
    b ← insert_latches db (business db) (latch_row time reason <$> rows);
    if negb (length rows =? 1)%nat then Err (InvalidRecord "AUTHORITY_EXPIRY_LATCH_FAILED") else Ok (false, b) in
  match status with
  | Valid => Ok (true, business db)
  | ExpiredMonotonic => latch "MONOTONIC_DEADLINE"
  | ExpiredWall => latch "WALL_EXPIRY"
  | InvalidOrIncomplete => Ok (false, business db)
  end.

Definition authenticated_expiry_latch db (grant_id lease_owner : string) (lease_epoch : Z) : Res bool :=
  let b := business db in
  Ok (existsb (λ x,
        String.eqb (x_grant_id x) grant_id && String.eqb (x_owner_id x) lease_owner && (x_owner_epoch x =? lease_epoch)%Z &&
        existsb (λ d,
          latch_of x d && existsb (grant_matches d) (grants b) &&
          existsb (λ r, receipt_matches d r && String.eqb (rc_profile r) "coordinator-issued-v0.1") (receipts b) &&
          existsb (λ c, String.eqb (cs_session_id c) (d_session_id d) && String.eqb (cs_owner_id c) (d_owner_id d) &&
                        (cs_owner_epoch c =? d_owner_epoch d)%Z && (x_state_revision x <=? cs_state_revision c)%Z &&
                        (x_monotonic x <=? cs_monotonic c)%Z) (sessions b) &&
          existsb (observed_at (x_state_revision x) (x_monotonic x) (x_observed x) (x_effective x)) (observations db) &&
          reason_holds x d) (deadlines b)) (latches b)).

End deadlines.
