(* ===== verification/DeadlineState.v ===== *)
(** * The life of an issued grant

    What the deadlines of [Deadline] guarantee over every interleaving of the statements that
    write their tables with the transactions of trusted time: a grant that passes its check is
    within its lifetime on both clocks ([valid_grant_bounded]); a grant seen expired never
    passes again, even before its expiry is latched ([expired_never_valid]); an expiry is
    latched and stays authenticated ([expiry_latched]); a grant passes its check at the time of
    its issuance ([issued_grant_valid]). *)

From S2P Require Import Prelude Numbers TrustedTime TimeState Deadline.

#[local] Existing Instance advances_trans.
#[local] Existing Instance advances_refl.

Ltac sqlreflect :=
  repeat match goal with
  | H : _ && _ = true |- _ => apply andb_true_iff in H as [? ?]
  | H : negb _ = true |- _ => apply negb_true_iff in H
  | H : bool_decide _ = true |- _ => apply bool_decide_eq_true_1 in H
  | H : String.eqb _ _ = true |- _ => apply String.eqb_eq in H
  | H : (_ =? _)%Z = true |- _ => apply Z.eqb_eq in H
  | H : (_ <=? _)%Z = true |- _ => apply Z.leb_le in H
  | H : (_ <? _)%Z = true |- _ => apply Z.ltb_lt in H
  end.

(** Evaluate the boolean columns of a query on facts of the context. *)
Ltac sqlsolve :=
  repeat (apply andb_true_intro; split);
  first [ by apply bool_decide_eq_true_2 | by apply String.eqb_eq | apply Z.eqb_eq; lia | apply Z.leb_le; lia
        | apply Z.ltb_lt; lia | done ].

Section state.

Context `{TL : TimeLib}.
Abbreviation Db := (TrustedTime.Db Authority).
Implicit Types db : Db.

(** ** Steps *)

(** The statements on the tables of deadlines.  The other statements keep the deadline-bound grants, by the
    triggers on them, and every receipt. *)
Inductive table_step db : Authority → Prop :=
  | table_session s b : insert_session db s = Ok b → table_step db b
  | table_advance owner epoch time b : advance_clock_session_in db owner epoch time = Ok b → table_step db b
  | table_issue f approval owner epoch time admitted b :
      issue_grant db f approval owner epoch time admitted = Ok b → table_step db b
  | table_latch grant owner epoch time r b :
      check_and_latch_grant_deadline db grant owner epoch time = Ok (r, b) → table_step db b
  | table_other gs rs qs ds :
      let b := business db in
      (∀ g d, g ∈ grants b → d ∈ deadlines b → g_grant_id g = d_grant_id d → g ∈ gs) →
      receipts b ⊆ rs →
      table_step db {| sessions := sessions b; deadlines := deadlines b; latches := latches b; grants := gs;
                       receipts := rs; requests := qs; decisions := ds |}.

Inductive authority_step : Db → Db → Prop :=
  | authority_time db db' : time_step db db' → business db' = business db → authority_step db db'
  | authority_tables db b : table_step db b → authority_step db (set_business db b).

(** The migrations give no deadline to a grant. *)
Inductive authority_reachable : Db → Prop :=
  | authority_initial l t gs rs qs ds : lease_ok l →
      authority_reachable (initial_db l t {| sessions := []; deadlines := []; latches := []; grants := gs; receipts := rs;
                                             requests := qs; decisions := ds |})
  | authority_continue db db' : authority_reachable db → authority_step db db' → authority_reachable db'.

(** ** What the tables keep *)

Record session_le (c c' : ClockSession) : Prop := {
  sl_id : cs_session_id c' = cs_session_id c;
  sl_owner : cs_owner_id c' = cs_owner_id c;
  sl_epoch : cs_owner_epoch c' = cs_owner_epoch c;
  sl_monotonic : (cs_monotonic c ≤ cs_monotonic c')%Z;
  sl_revision : (cs_state_revision c ≤ cs_state_revision c')%Z;
}.

Record tables_kept (b b' : Authority) : Prop := {
  tk_deadlines : deadlines b `prefix_of` deadlines b';
  tk_latches : latches b `prefix_of` latches b';
  tk_sessions : ∀ c, c ∈ sessions b → ∃ c', c' ∈ sessions b' ∧ session_le c c';
  tk_grants : ∀ g d, g ∈ grants b → d ∈ deadlines b → g_grant_id g = d_grant_id d → g ∈ grants b';
  tk_receipts : receipts b ⊆ receipts b';
}.

#[local] Instance session_le_refl : Reflexive session_le.
Proof. by constructor. Qed.

#[local] Instance session_le_trans : Transitive session_le.
Proof. intros a b c [] []. constructor; congruence || lia. Qed.

#[local] Instance tables_kept_refl : Reflexive tables_kept.
Proof. constructor; eauto using session_le_refl. Qed.

#[local] Instance tables_kept_trans : Transitive tables_kept.
Proof.
  intros a b c [D1 L1 S1 G1 R1] [D2 L2 S2 G2 R2]. constructor; [by etrans|by etrans| | |by etrans].
  - intros s (s' & Hs' & H1)%S1. destruct (S2 _ Hs') as (s'' & ? & ?). exists s''. split; [done|by etrans].
  - intros g d Hg Hd Heq. apply (G2 g d); [by apply (G1 g d)| |done].
    destruct D1 as [k ->]. apply elem_of_app. by left.
Qed.

Lemma kept_insert_session db s b : insert_session db s = Ok b → tables_kept (business db) b.
Proof.
  unfold insert_session. rewrite !if_err_ok. intros (_ & _ & [= <-]). constructor; try done.
  intros c Hc. exists c. split; [|done]. cbn. apply elem_of_app. by left.
Qed.

Lemma kept_advance db owner epoch time b : advance_clock_session_in db owner epoch time = Ok b → tables_kept (business db) b.
Proof.
  unfold advance_clock_session_in. rewrite result_seq_ok, !if_err_ok. intros (_ & _ & _ & _ & [= <-]). constructor; try done.
  intros c Hc. cbn. eexists. split; [by apply list_elem_of_fmap_2|].
  destruct (advance_matches owner epoch time c) eqn:Hm; [|done]. unfold advance_matches in Hm. sqlreflect.
  constructor; cbn; done || lia.
Qed.

Lemma insert_grant_ok b g r b' : insert_grant b g r = Ok b' →
  sessions b' = sessions b ∧ deadlines b' = deadlines b ∧ latches b' = latches b ∧ grants b' = grants b ++ [g] ∧
  receipts b' = receipts b ++ [r] ∧ requests b' = requests b ∧ decisions b' = decisions b.
Proof. unfold insert_grant. rewrite !if_err_ok. by intros (_ & _ & _ & [= <-]). Qed.

Lemma insert_deadline_ok db d b : insert_deadline db d = Ok b →
  b = set_deadlines (business db) (deadlines (business db) ++ [d]) ∧
  existsb (λ d', String.eqb (d_grant_id d') (d_grant_id d)) (deadlines (business db)) = false ∧
  deadline_exact db d = true ∧ deadline_check d = true.
Proof.
  unfold insert_deadline. rewrite !if_err_ok, orb_false_iff, !negb_false_iff. naive_solver.
Qed.

(** What an issuance leaves. *)
Lemma issue_ok db f approval owner epoch time admitted b :
  issue_grant db f approval owner epoch time admitted = Ok b →
  ∃ p b', prepare_local_artifact_deadline time
             ((λ a, {| request_expires_at := a_expires a; approved_until := a_until a |}) <$> approval) = Ok p ∧
    let d := deadline_row f approval owner epoch time p in
    deadlines b' = deadlines (business db) ∧ latches b' = latches (business db) ∧ sessions b' = sessions (business db) ∧
    grants (business db) ⊆ grants b' ∧ receipts (business db) ⊆ receipts b' ∧
    (∃ r, r ∈ receipts b' ∧ receipt_matches d r = true ∧ rc_profile r = "coordinator-issued-v0.1") ∧
    insert_deadline (set_business db b') d = Ok b.
Proof.
  unfold issue_grant. intros (p & Hp & H)%result_bind_ok. apply if_err_ok in H as [_ H].
  apply result_bind_ok in H as (b' & Hb' & H). exists p, b'. split; [done|].
  apply insert_grant_ok in Hb' as (-> & -> & -> & -> & -> & _). split_and!; try done; [set_solver|set_solver|].
  eexists. split; [apply elem_of_app; right; by apply list_elem_of_singleton|]. split; [|done].
  unfold receipt_matches. cbn. by rewrite !String.eqb_refl.
Qed.

Lemma kept_issue db f approval owner epoch time admitted b :
  issue_grant db f approval owner epoch time admitted = Ok b → tables_kept (business db) b.
Proof.
  intros (p & b' & _ & Hd & Hl & Hs & Hg & Hr & _ & (-> & _)%insert_deadline_ok)%issue_ok. constructor; cbn.
  - rewrite Hd. by apply prefix_app_r.
  - by rewrite Hl.
  - rewrite Hs. eauto using session_le_refl.
  - intros g d Hin _ _. by apply Hg.
  - done.
Qed.

Lemma insert_latch_ok db b x b' : insert_latch db b x = Ok b' →
  b' = set_latches b (latches b ++ [x]).
Proof. unfold insert_latch. rewrite !if_err_ok. naive_solver. Qed.

Lemma insert_latches_ok db b xs b' : insert_latches db b xs = Ok b' → b' = set_latches b (latches b ++ xs).
Proof.
  revert b. induction xs as [|x xs IH]; intros b; cbn.
  - intros [= <-]. rewrite app_nil_r. by destruct b.
  - intros (b1 & Hb1%insert_latch_ok & H%IH)%result_bind_ok. subst. cbn. by rewrite <-app_assoc.
Qed.

(** ** The check *)

(** What a check that is not [InvalidOrIncomplete] has found. *)
Lemma check_found db grant owner epoch time s :
  check_grant_deadline db grant owner epoch time = Ok s → s ≠ InvalidOrIncomplete →
  ∃ d, d ∈ deadlines (business db) ∧ evidence_matches db grant owner epoch time d = true ∧ caps_match d = true ∧
    s = if (d_deadline d <=? monotonic_nanos time)%Z then ExpiredMonotonic
        else if (d_effective_expiry d <=? effective_unix_nanos time)%Z then ExpiredWall else Valid.
Proof.
  unfold check_grant_deadline. destruct (find _ _) as [d|] eqn:Hf; [|naive_solver]. apply find_elem in Hf as [Hd He].
  destruct (caps_match d) eqn:Hc; cbn [negb orb]; [|naive_solver].
  destruct (_ || _); [naive_solver|]. intros [= <-] _. by exists d.
Qed.

(** The part of the evidence that concerns time and identity. *)
Lemma evidence_time db grant owner epoch time d : evidence_matches db grant owner epoch time d = true →
  d_grant_id d = grant ∧ d_owner_id d = owner ∧ d_owner_epoch d = epoch ∧ time_current db time = true ∧
  (d_issued_revision d ≤ state_revision time)%Z ∧ (d_issued_monotonic d ≤ monotonic_nanos time)%Z ∧
  (d_issued_effective d ≤ effective_unix_nanos time)%Z ∧
  existsb (λ x, String.eqb (x_grant_id x) (d_grant_id d)) (latches (business db)) = false ∧
  existsb (regressed d time) (observations db) = false.
Proof. unfold evidence_matches. intros H. sqlreflect. done. Qed.

Lemma time_current_ok db time : time_current db time = true →
  ∃ row o, time_state db = Some row ∧ ts_confidence row = "TRUSTED_LOCAL" ∧ ts_revision row = state_revision time ∧
    ts_floor row = Some (effective_unix_nanos time) ∧ o ∈ observations db ∧
    ob_revision o = state_revision time ∧ ob_confidence o = "TRUSTED_LOCAL" ∧ ob_monotonic o = Some (monotonic_nanos time) ∧
    ob_observed o = Some (observed_unix_nanos time) ∧ ob_floor o = Some (effective_unix_nanos time).
Proof.
  unfold time_current. intros [Hs (o & Ho & Hat)%existsb_true]%andb_true_iff. destruct (time_state db) as [row|]; [|done].
  unfold observed_at in Hat. sqlreflect. by exists row, o.
Qed.

(** ** The invariant *)

Definition latch_backed db (x : ExpiryLatch) (d : GrantDeadline) : Prop :=
  d ∈ deadlines (business db) ∧ latch_of x d = true ∧ reason_holds x d = true ∧
  (∃ g, g ∈ grants (business db) ∧ grant_matches d g = true) ∧
  (∃ r, r ∈ receipts (business db) ∧ receipt_matches d r = true ∧ rc_profile r = "coordinator-issued-v0.1") ∧
  (∃ c, c ∈ sessions (business db) ∧ cs_session_id c = d_session_id d ∧ cs_owner_id c = d_owner_id d ∧
     cs_owner_epoch c = d_owner_epoch d ∧ (x_state_revision x ≤ cs_state_revision c)%Z ∧ (x_monotonic x ≤ cs_monotonic c)%Z) ∧
  (∃ o, o ∈ observations db ∧
     observed_at (x_state_revision x) (x_monotonic x) (x_observed x) (x_effective x) o = true).

Record deadline_ok (d : GrantDeadline) : Prop := {
  dk_check : deadline_check d = true;
  dk_lifetime : (d_effective_expiry d ≤ d_issued_effective d + LOCAL_ARTIFACT_GRANT_NANOS)%Z;
}.

(** The high-water mark of a session is an observation. *)
Definition session_paired db (c : ClockSession) : Prop :=
  ∃ o, o ∈ observations db ∧ ob_revision o = cs_state_revision c ∧ ob_monotonic o = Some (cs_monotonic c) ∧
    ob_observed o = Some (cs_observed c).

Record authority_inv db : Prop := {
  ai_safe : safe db;
  ai_unique : NoDup (d_grant_id <$> deadlines (business db));
  ai_deadlines : ∀ d, d ∈ deadlines (business db) → deadline_ok d;
  ai_latches : ∀ x, x ∈ latches (business db) → ∃ d, latch_backed db x d;
  ai_sessions : ∀ c, c ∈ sessions (business db) → session_paired db c;
}.

Lemma latch_backed_kept db db' x d : authority_inv db → latch_backed db x d →
  advances db db' → tables_kept (business db) (business db') → latch_backed db' x d.
Proof.
  intros Hinv (Hd & Hof & Hre & (g & Hg & Hgm) & (r & Hr & Hrm) & (c & Hc & Hc1 & Hc2 & Hc3 & Hc4 & Hc5) & (o & Ho & Hoa)) Ha Hk.
  destruct (ai_safe _ Hinv) as [(row & Hrow & Hrec) _]. destruct (Ha _ Hrow Hrec) as (row' & extra & _ & _ & _ & Hobs).
  destruct Hk as [[ds Hds] _ Hs Hgs Hrs]. split_and!; [|done|done| | | |].
  - rewrite Hds. apply elem_of_app. by left.
  - exists g. split; [|done]. apply (Hgs g d Hg Hd). unfold grant_matches in Hgm. by sqlreflect.
  - exists r. split; [by apply Hrs|done].
  - destruct (Hs _ Hc) as (c' & Hc' & [? ? ? ? ?]). exists c'. split_and!; try congruence || lia.
  - exists o. split; [|done]. rewrite Hobs. apply elem_of_app. by left.
Qed.

(** ** Issuance *)

Lemma ok_or_reject_ok {A} (o : option A) a : ok_or_reject o = Ok a ↔ o = Some a.
Proof. destruct o; naive_solver. Qed.

Lemma deadline_format_ok n s : deadline_format_nanos n = Ok s ↔ rfc3339_format n = Some s.
Proof. unfold deadline_format_nanos. destruct (rfc3339_format n); naive_solver. Qed.

Lemma checked_add_Some a b n : checked_add a b = Some n ↔ n = (a + b)%Z ∧ (i64_min ≤ a + b ≤ i64_max)%Z.
Proof. unfold checked_add. rewrite i64_try_from_Some. naive_solver. Qed.

Lemma checked_sub_Some a b n : checked_sub a b = Some n ↔ n = (a - b)%Z ∧ (i64_min ≤ a - b ≤ i64_max)%Z.
Proof. unfold checked_sub. rewrite i64_try_from_Some. naive_solver. Qed.

(** The caps that an approval adds. *)
Definition approval_caps (approval : option ApprovalExpirySources) (request approved : option Z) : Prop :=
  match approval with
  | None => request = None ∧ approved = None
  | Some a => ∃ r u, parse_nanos (request_expires_at a) = Ok r ∧ parse_nanos (approved_until a) = Ok u ∧
                request = Some r ∧ approved = Some u
  end.

Lemma derive_ok effective monotonic approval p : derive effective monotonic approval = Ok p →
  (0 ≤ effective)%Z ∧ (0 ≤ monotonic)%Z ∧
  approval_caps approval (approval_request_expiry_unix_nanos p) (approved_until_unix_nanos p) ∧
  effective_expiry_unix_nanos p =
    foldl Z.min (effective + LOCAL_ARTIFACT_GRANT_NANOS)%Z
      (option_list (approval_request_expiry_unix_nanos p) ++ option_list (approved_until_unix_nanos p)) ∧
  grant_expiry_unix_nanos p = effective_expiry_unix_nanos p ∧
  rfc3339_format (effective_expiry_unix_nanos p) = Some (grant_expires_at p) ∧
  (effective < effective_expiry_unix_nanos p)%Z ∧ (effective_expiry_unix_nanos p ≤ i64_max)%Z ∧
  deadline_monotonic_nanos p = (monotonic + (effective_expiry_unix_nanos p - effective))%Z ∧
  (deadline_monotonic_nanos p ≤ i64_max)%Z.
Proof.
  unfold derive. rewrite if_err_ok, orb_false_iff, !Z.ltb_ge. intros ([He Hm] & H).
  apply result_bind_ok in H as (cap & [-> Hcap]%ok_or_reject_ok%checked_add_Some & H).
  apply result_bind_ok in H as ([rq ap] & Hcaps & H).
  apply result_bind_ok in H as (s & Hs%deadline_format_ok & H).
  apply result_bind_ok in H as (ttl & Httl%ok_or_reject_ok & H).
  apply result_bind_ok in H as (dl & [-> Hdl]%ok_or_reject_ok%checked_add_Some & [= <-]). cbn.
  apply bind_Some in Httl as (ttl' & [-> Ht]%checked_sub_Some & H). destruct (Z.ltb_spec 0 (foldl Z.min
    (effective + LOCAL_ARTIFACT_GRANT_NANOS) (option_list rq ++ option_list ap) - effective)%Z) as [Hpos|]; [|done].
  injection H as <-.
  assert (foldl Z.min (effective + LOCAL_ARTIFACT_GRANT_NANOS) (option_list rq ++ option_list ap) ≤ i64_max)%Z as Hmax.
  { destruct rq, ap; cbn; lia. }
  split_and!; try done; try lia.
  destruct approval as [a|]; cbn; [|naive_solver].
  apply result_bind_ok in Hcaps as (r & Hr & H). apply result_bind_ok in H as (u & Hu & [= <- <-]). by exists r, u.
Qed.

(** The expiry is the shortest of the caps. *)
Lemma shortest cap (request approved : option Z) : let expiry := foldl Z.min cap (option_list request ++ option_list approved) in
  (expiry ≤ cap)%Z ∧ (∀ r, request = Some r → (expiry ≤ r)%Z) ∧ (∀ u, approved = Some u → (expiry ≤ u)%Z).
Proof. destruct request, approved; cbn; naive_solver lia. Qed.

Lemma issued_deadline_ok f approval owner epoch time p :
  prepare_local_artifact_deadline time
    ((λ a, {| request_expires_at := a_expires a; approved_until := a_until a |}) <$> approval) = Ok p →
  deadline_check (deadline_row f approval owner epoch time p) = true →
  deadline_ok (deadline_row f approval owner epoch time p).
Proof.
  intros (_ & _ & _ & He & _)%derive_ok Hc. constructor; [done|]. cbn. rewrite He. apply (proj1 (shortest _ _ _)).
Qed.

(** ** Expiry *)

Lemma filter_unique {A B} (f : A → B) (P : A → Prop) `{∀ x, Decision (P x)} l x :
  NoDup (f <$> l) → x ∈ l → P x → (∀ y, P y → f y = f x) → filter P l = [x].
Proof.
  intros Hnd Hx Px Huniq. induction l as [|y l IH]; [by apply elem_of_nil in Hx|].
  rewrite fmap_cons in Hnd. apply NoDup_cons in Hnd as [Hy Hnd]. rewrite filter_cons.
  apply elem_of_cons in Hx as [<-|Hx].
  - rewrite decide_True by done. f_equal. destruct (filter P l) as [|z l'] eqn:Hf; [done|]. exfalso. apply Hy.
    assert (z ∈ filter P l) as [Pz Hz]%list_elem_of_filter by (rewrite Hf; by left).
    rewrite <-(Huniq z Pz). by apply list_elem_of_fmap_2.
  - rewrite decide_False; [by apply IH|]. intros Py. apply Hy. rewrite (Huniq y Py). by apply list_elem_of_fmap_2.
Qed.

(** The observation of a current context is the last one, and pairs with the state. *)
Lemma time_current_paired db time owner epoch : safe db → time_current db time = true → lease db = Some (owner, epoch) →
  paired_time db owner epoch (state_revision time) (monotonic_nanos time) (observed_unix_nanos time) = true ∧
  (current_observation db ≫= λ ro, ob_floor ro.2) = Some (effective_unix_nanos time) ∧
  (observed_unix_nanos time ≤ effective_unix_nanos time)%Z.
Proof.
  intros [(row & Hrow & Hrec) _] (row' & o & Hrow' & Hc & Hrev & Hfl & Ho & Hr & Hoc & Hm & Hobs & Hof)%time_current_ok Hl.
  assert (row' = row) as -> by congruence. pose proof (recorded_ok _ _ Hrec) as Hh.
  destruct (inv_current _ _ Hrow Hrec) as (o' & Hlast & Hcur). { intros Hnil. rewrite Hnil in Ho. by apply elem_of_nil in Ho. }
  assert (current_observation db = Some (row, o)) as Hcur'.
  { unfold current_observation. rewrite Hrow. cbn. by rewrite Hrev, <-Hr, (observation_unique _ _ _ Hrow Hrec Ho). }
  assert (o' = o) as -> by congruence. unfold paired_time. rewrite Hcur'. split_and!.
  - sqlsolve.
  - done.
  - apply last_Some in Hlast as [os Hos]. pose proof (h_high _ _ Hh) as Hhigh. rewrite <-(h_floor _ _ Hh), Hfl, Hos in Hhigh.
    rewrite max_observed_snoc, Hobs in Hhigh. destruct (max_observed os); cbn in Hhigh; injection Hhigh as ->; lia.
Qed.

Section expired.

Context db (Hinv : authority_inv db) (grant owner : string) (epoch : Z) (time : ProtectedTimeContext) (d : GrantDeadline).
Context (Hd : d ∈ deadlines (business db)) (He : evidence_matches db grant owner epoch time d = true).

Lemma evidence_row : filter (λ d, String.eqb (d_grant_id d) grant && String.eqb (d_owner_id d) owner &&
                                  (d_owner_epoch d =? epoch)%Z = true) (deadlines (business db)) = [d].
Proof using Hinv Hd He.
  destruct (evidence_time _ _ _ _ _ _ He) as (Hg & Ho & Hep & _).
  apply (filter_unique d_grant_id); [apply (ai_unique _ Hinv)|done|sqlsolve|]. intros y Hy. sqlreflect. congruence.
Qed.

Context (reason : string) (Hreason : reason_holds (latch_row time reason d) d = true).

Lemma evidence_backed b : deadlines b = deadlines (business db) → grants b = grants (business db) →
  receipts b = receipts (business db) → sessions b = sessions (business db) →
  latch_backed (set_business db b) (latch_row time reason d) d.
Proof using Hd He Hreason.
  intros Ed Eg Er Es. pose proof He as H. unfold evidence_matches in H. sqlreflect.
  repeat match goal with H : existsb _ _ = true |- _ => apply existsb_true in H as (? & ? & ?) end. sqlreflect.
  unfold latch_backed. cbn [business set_business]. rewrite Ed, Eg, Er, Es. split_and!; [done|unfold latch_of; cbn; sqlsolve|done|..].
  - eexists. split; [|eassumption]. done.
  - eexists. split; [|split; [eassumption|]]; done.
  - eexists. split; [eassumption|]. cbn. split_and!; done || lia.
  - destruct (time_current_ok db time) as (row & o & _ & _ & _ & _ & Ho & Hr & Hc & Hm & Hob & Hf); [done|].
    exists o. split; [done|]. unfold observed_at. cbn. sqlsolve.
Qed.

(** The triggers admit the latch. *)
Lemma insert_latch_expired : insert_latch db (business db) (latch_row time reason d) =
  Ok (set_latches (business db) (latches (business db) ++ [latch_row time reason d])).
Proof using Hinv Hd He Hreason.
  destruct (evidence_time _ _ _ _ _ _ He) as (Hg & Ho & Hep & Htc & Hir & Him & Hie & Hnl & _).
  pose proof He as H. unfold evidence_matches in H. sqlreflect.
  assert (lease db = Some (d_owner_id d, d_owner_epoch d)) as Hl by done.
  destruct (time_current_paired _ _ _ _ (ai_safe _ Hinv) Htc Hl) as (Hp & Hfl & Hoe).
  pose proof (dk_check _ (ai_deadlines _ Hinv d Hd)) as Hc. unfold deadline_check in Hc. sqlreflect.
  unfold insert_latch. cbn [x_grant_id latch_row]. rewrite Hnl. cbn [orb].
  match goal with |- context [existsb ?f (deadlines (business db))] => assert (existsb f (deadlines (business db)) = true) as -> end.
  { apply existsb_true. exists d. split; [done|]. repeat (apply andb_true_intro; split); try done; try (by unfold latch_of; cbn; sqlsolve).
    match goal with H : existsb _ (sessions _) = true |- _ => apply existsb_true in H as (c & Hin & H); sqlreflect end.
    apply existsb_true. exists c. split; [done|]. cbn. sqlsolve. }
  cbn [negb x_owner_epoch x_monotonic x_observed x_effective latch_row].
  assert (existsb (String.eqb (x_reason (latch_row time reason d))) ["MONOTONIC_DEADLINE"; "WALL_EXPIRY"] = true) as ->.
  { unfold reason_holds in Hreason. by apply orb_true_iff in Hreason as [[Hr%String.eqb_eq _]%andb_true_iff
      |[Hr%String.eqb_eq _]%andb_true_iff]; rewrite Hr. }
  rewrite !(proj2 (Z.leb_le _ _)) by lia. done.
Qed.

End expired.

Lemma status_reason (time : ProtectedTimeContext) (d : GrantDeadline) s :
  s = (if (d_deadline d <=? monotonic_nanos time)%Z then ExpiredMonotonic
       else if (d_effective_expiry d <=? effective_unix_nanos time)%Z then ExpiredWall else Valid) →
  (s = ExpiredMonotonic → reason_holds (latch_row time "MONOTONIC_DEADLINE" d) d = true) ∧
  (s = ExpiredWall → reason_holds (latch_row time "WALL_EXPIRY" d) d = true).
Proof.
  intros ->. unfold reason_holds. cbn. destruct (_ <=? monotonic_nanos _)%Z; [done|].
  by destruct (_ <=? effective_unix_nanos _)%Z.
Qed.

(** An expired grant is latched. *)
Lemma check_and_latch_expired db grant owner epoch time s : authority_inv db →
  check_grant_deadline db grant owner epoch time = Ok s → s = ExpiredMonotonic ∨ s = ExpiredWall →
  ∃ d reason, d ∈ deadlines (business db) ∧ evidence_matches db grant owner epoch time d = true ∧
    reason_holds (latch_row time reason d) d = true ∧
    check_and_latch_grant_deadline db grant owner epoch time =
      Ok (false, set_latches (business db) (latches (business db) ++ [latch_row time reason d])).
Proof.
  intros Hinv Hs Hex. destruct (check_found _ _ _ _ _ _ Hs) as (d & Hd & He & _ & Heq); [by destruct Hex as [-> | ->]|].
  destruct (status_reason _ _ _ Heq) as [H1 H2]. unfold check_and_latch_grant_deadline. rewrite Hs. cbn [mbind result_bind].
  rewrite (evidence_row _ Hinv _ _ _ _ _ Hd He). cbn [fmap list_fmap insert_latches length].
  destruct Hex as [-> | ->]; eexists d, _; (split_and!; [done|done|by auto|]);
    by rewrite (insert_latch_expired _ Hinv _ _ _ _ _ Hd He) by auto.
Qed.

(** Every outcome of the check and its latch. *)
Lemma check_and_latch_ok db grant owner epoch time r b : authority_inv db →
  check_and_latch_grant_deadline db grant owner epoch time = Ok (r, b) →
  b = business db ∨
  ∃ d reason, d ∈ deadlines (business db) ∧ evidence_matches db grant owner epoch time d = true ∧
    reason_holds (latch_row time reason d) d = true ∧
    b = set_latches (business db) (latches (business db) ++ [latch_row time reason d]).
Proof.
  intros Hinv H. destruct (check_grant_deadline db grant owner epoch time) as [s|e] eqn:Hs.
  2: { unfold check_and_latch_grant_deadline in H. by rewrite Hs in H. }
  destruct (decide (s = ExpiredMonotonic ∨ s = ExpiredWall)) as [Hex|Hne].
  - right. destruct (check_and_latch_expired _ _ _ _ _ _ Hinv Hs Hex) as (d & reason & ? & ? & ? & Heq).
    exists d, reason. rewrite Heq in H. naive_solver.
  - left. unfold check_and_latch_grant_deadline in H. rewrite Hs in H. destruct s; naive_solver.
Qed.

(** ** Preservation *)

Lemma table_step_kept db b : authority_inv db → table_step db b → tables_kept (business db) b.
Proof.
  intros Hinv [s b' H|owner epoch time b' H|f approval owner epoch time admitted b' H|grant owner epoch time r b' H|gs rs qs ds b0 Hg Hr].
  - by eapply kept_insert_session.
  - by eapply kept_advance.
  - by eapply kept_issue.
  - apply (check_and_latch_ok _ _ _ _ _ _ _ Hinv) in H as [->|(d & reason & _ & _ & _ & ->)]; [done|].
    constructor; cbn; eauto using session_le_refl. by apply prefix_app_r.
  - constructor; cbn; eauto using session_le_refl.
Qed.

(** The deadlines that a statement leaves. *)
Lemma table_step_deadlines db b : authority_inv db → table_step db b →
  NoDup (d_grant_id <$> deadlines b) ∧ ∀ d, d ∈ deadlines b → deadline_ok d.
Proof.
  intros Hinv Hstep. pose proof (ai_unique _ Hinv) as Hu. pose proof (ai_deadlines _ Hinv) as Hok.
  destruct Hstep as [s b' H|owner epoch time b' H|f approval owner epoch time admitted b' H|grant owner epoch time r b' H|gs rs qs ds b0 Hg Hr].
  - unfold insert_session in H. rewrite !if_err_ok in H. by destruct H as (_ & _ & [= <-]).
  - unfold advance_clock_session_in in H. rewrite result_seq_ok, !if_err_ok in H. by destruct H as (_ & _ & _ & _ & [= <-]).
  - apply issue_ok in H as (p & b1 & Hp & Hd & _ & _ & _ & _ & _ & (-> & Hnew & _ & Hc)%insert_deadline_ok).
    cbn [business set_business deadlines set_deadlines] in *. rewrite Hd in *. split.
    + rewrite fmap_app. apply NoDup_app. split_and!; [done| |apply NoDup_singleton].
      intros g (d & -> & Hin)%list_elem_of_fmap Heq%list_elem_of_singleton.
      apply (proj1 (existsb_false _ _)) with (x := d) in Hnew; [|done]. apply String.eqb_neq in Hnew. done.
    + intros d [Hin|Hin%list_elem_of_singleton]%elem_of_app; [by apply Hok|]. subst. by apply issued_deadline_ok.
  - by apply (check_and_latch_ok _ _ _ _ _ _ _ Hinv) in H as [->|(d & reason & _ & _ & _ & ->)].
  - done.
Qed.

(** The latches that a statement leaves. *)
Lemma table_step_latches db b x : authority_inv db → table_step db b → x ∈ latches b →
  x ∈ latches (business db) ∨ ∃ d, latch_backed (set_business db b) x d.
Proof.
  intros Hinv Hstep Hx.
  destruct Hstep as [s b' H|owner epoch time b' H|f approval owner epoch time admitted b' H|grant owner epoch time r b' H|gs rs qs ds b0 Hg Hr].
  - unfold insert_session in H. rewrite !if_err_ok in H. destruct H as (_ & _ & [= <-]). by left.
  - unfold advance_clock_session_in in H. rewrite result_seq_ok, !if_err_ok in H. destruct H as (_ & _ & _ & _ & [= <-]). by left.
  - apply issue_ok in H as (p & b1 & _ & _ & Hl & _ & _ & _ & _ & (-> & _)%insert_deadline_ok). left. cbn in Hx. by rewrite Hl in Hx.
  - apply (check_and_latch_ok _ _ _ _ _ _ _ Hinv) in H as [->|(d & reason & Hd & He & Hre & ->)]; [by left|].
    apply elem_of_app in Hx as [Hx| ->%list_elem_of_singleton]; [by left|]. right. exists d. by eapply evidence_backed.
  - by left.
Qed.

Lemma paired_time_ok db owner epoch revision monotonic observed :
  paired_time db owner epoch revision monotonic observed = true →
  ∃ row o, current_observation db = Some (row, o) ∧ o ∈ observations db ∧ lease db = Some (owner, epoch) ∧
    ts_confidence row = "TRUSTED_LOCAL" ∧ ts_revision row = revision ∧ ob_revision o = revision ∧
    ob_confidence o = "TRUSTED_LOCAL" ∧ ob_monotonic o = Some monotonic ∧ ob_observed o = Some observed.
Proof.
  unfold paired_time. destruct (current_observation db) as [[row o]|] eqn:Hc; [|done]. intros H. sqlreflect.
  exists row, o. unfold current_observation in Hc. apply bind_Some in Hc as (row' & _ & (o' & Ho & [= -> ->])%bind_Some).
  unfold observation_at in Ho. apply bind_Some in Ho as ([i o'] & (Hi & Hr & _)%list_find_Some & [= ->]).
  split_and!; try done; [by eapply list_elem_of_lookup_2|congruence].
Qed.

(** The sessions that a statement leaves. *)
Lemma table_step_sessions db b c : authority_inv db → table_step db b → c ∈ sessions b → session_paired db c.
Proof.
  intros Hinv Hstep Hin. pose proof (ai_sessions _ Hinv) as Hold.
  destruct Hstep as [s b' H|owner epoch time b' H|f approval owner epoch time admitted b' H|grant owner epoch time r b' H|gs rs qs ds b0 Hg Hr].
  - unfold insert_session in H. rewrite !if_err_ok, !orb_false_iff, !negb_false_iff in H. destruct H as ((_ & Hp) & _ & [= <-]).
    apply elem_of_app in Hin as [Hin| ->%list_elem_of_singleton]; [by apply Hold|].
    apply paired_time_ok in Hp as (row & o & _ & Ho & _ & _ & _ & Hr & _ & Hm & Hobs). by exists o.
  - unfold advance_clock_session_in in H. rewrite result_seq_ok, !if_err_ok, !negb_false_iff in H. destruct H as (_ & Hp & _ & _ & [= <-]).
    apply list_elem_of_fmap in Hin as (c0 & -> & Hc0). destruct (advance_matches owner epoch time c0) eqn:Hm; [|by apply Hold].
    rewrite forallb_forall in Hp. specialize (Hp c0). rewrite <-list_elem_of_In, list_elem_of_filter in Hp.
    apply paired_time_ok in Hp as (row & o & _ & Ho & _ & _ & _ & Hr & _ & Hmo & Hobs); [|done]. by exists o.
  - apply issue_ok in H as (p & b1 & _ & _ & _ & Hs & _ & _ & _ & (-> & _)%insert_deadline_ok). cbn in Hin. rewrite Hs in Hin. by apply Hold.
  - apply (check_and_latch_ok _ _ _ _ _ _ _ Hinv) in H as [->|(d & reason & _ & _ & _ & ->)]; by apply Hold.
  - by apply Hold.
Qed.

Lemma session_paired_kept db db' c : safe db → session_paired db c → advances db db' → session_paired db' c.
Proof.
  intros [(row & Hrow & Hrec) _] (o & Ho & Hp) Ha. destruct (Ha _ Hrow Hrec) as (row' & extra & _ & _ & _ & Hobs).
  exists o. split; [|done]. rewrite Hobs. apply elem_of_app. by left.
Qed.

Lemma authority_step_inv db db' : authority_step db db' → authority_inv db →
  authority_inv db' ∧ advances db db' ∧ tables_kept (business db) (business db').
Proof.
  intros Hstep Hinv.
  assert (safe db' ∧ advances db db' ∧ tables_kept (business db) (business db')) as (Hs & Ha & Hk).
  { destruct Hstep as [db db' Ht Hb|db b Hb].
    - destruct (step_safe _ _ Ht (ai_safe _ Hinv)). by rewrite Hb.
    - destruct (safe_records _ _ (ai_safe _ Hinv) (records_business db b)) as [? ?]. split_and!; [done|done|].
      by apply table_step_kept. }
  split; [|done]. destruct Hstep as [db db' Ht Hb|db b Hb].
  - constructor; rewrite ?Hb; [done|apply (ai_unique _ Hinv)|apply (ai_deadlines _ Hinv)| |].
    + intros x (d & Hd)%(ai_latches _ Hinv). exists d. by eapply latch_backed_kept.
    + intros c Hc%(ai_sessions _ Hinv). eapply session_paired_kept; [apply (ai_safe _ Hinv)|done|done].
  - destruct (table_step_deadlines _ _ Hinv Hb) as [Hu Hd]. constructor; [done|done|done| |].
    + intros x [(d & Hx)%(ai_latches _ Hinv)|Hx]%(table_step_latches _ _ _ Hinv Hb); [|done]. exists d. by eapply latch_backed_kept.
    + intros c Hc%(table_step_sessions _ _ _ Hinv Hb). done.
Qed.

Lemma authority_reachable_inv db : authority_reachable db → authority_inv db.
Proof.
  induction 1 as [l t gs rs qs ds Hl|db db' _ IH Hstep]; [|by apply (authority_step_inv _ _ Hstep)].
  constructor; [apply reachable_safe; by constructor|constructor|..]; intros ? []%elem_of_nil.
Qed.

Lemma authority_steps_inv db db' : rtc authority_step db db' → authority_inv db →
  authority_inv db' ∧ advances db db' ∧ tables_kept (business db) (business db').
Proof.
  induction 1 as [db|db db1 db' Hstep _ IH]; intros Hinv; [by split_and!|].
  destruct (authority_step_inv _ _ Hstep Hinv) as (Hi & Ha & Hk). destruct (IH Hi) as (? & ? & ?).
  split_and!; [done|by etrans|by etrans].
Qed.

(** ** Protected transactions *)

(** Recording a sample leaves the other tables. *)
Lemma apply_business {B} (db db' : TrustedTime.Db B) sample unresolved a :
  apply_sample_in_transaction_with_unresolved db sample unresolved = Ok (a, db') → business db' = business db.
Proof.
  unfold apply_sample_in_transaction_with_unresolved. rewrite if_err_ok. intros [_ H]. destruct (time_state db) as [old|] eqn:Hts; [|done].
  apply if_err_ok in H as [_ H]. destruct (checked_add _ 1); [|done]. destruct (next_state old sample unresolved z) as [row o].
  apply result_bind_ok in H as ([n d1] & Hu & H). apply if_err_ok in H as [_ H].
  apply result_bind_ok in H as (d2 & Hi & [= _ <-]). unfold insert_observation in Hi. rewrite !if_err_ok in Hi.
  destruct Hi as (_ & _ & [= <-]). cbn. unfold update_state in Hu. rewrite Hts in Hu. destruct (negb _); [by injection Hu as _ <-|].
  rewrite !if_err_ok in Hu. by destruct Hu as (_ & _ & [= _ <-]).
Qed.

Lemma context_business {B} (db db' : TrustedTime.Db B) fresh context :
  commit_context_in fresh db = Ok (context, db') → business db' = business db.
Proof.
  unfold commit_context_in. intros ([a d] & Ha & H)%result_bind_ok. apply result_bind_ok in H as (n & _ & H).
  apply apply_business in Ha. destruct (current_observation d) as [[row o]|]; [|done]. apply if_err_ok in H as [_ H].
  destruct (ob_observed o), (ob_floor o), (ob_monotonic o); naive_solver.
Qed.

Lemma denied_business {A B} fresh (db db' : TrustedTime.Db B) error (r : Res A) :
  denied fresh db error = (r, db') → business db' = business db.
Proof.
  unfold denied, commit, assess_sample, assess_sample_with_pending_policy. cbn [andb].
  destruct (security_sample _) as [sample c].
  destruct (apply_sample_in_transaction_with_unresolved db sample false) as [[a d]|e] eqn:Ha; intros [= _ <-]; [|done].
  by apply apply_business in Ha.
Qed.

(** A protected transaction whose operation runs such statements is a sequence of these steps. *)
Lemma observed_steps A db clock (operation : Db → ProtectedTimeContext → Res (A * Authority)) committed r db' clock' :
  (∀ db time v b, operation db time = Ok (v, b) → rtc authority_step db (set_business db b)) →
  observed_transaction db clock operation committed = (r, db', clock') → rtc authority_step db db'.
Proof.
  intros Hop H. pose proof (step_observed _ _ _ _ _ _ _ _ H) as Hall. unfold observed_transaction in H.
  destruct (capture_locked db clock) as [[fresh|e] c] eqn:Hcap; [|by injection H as _ <- _].
  destruct (LockedTimeObservation_require_trusted_time fresh ≫= _) as [[v d]|e] eqn:Hr.
  - injection H as _ <- _. apply result_bind_ok in Hr as (n & Hn & Hr). apply result_bind_ok in Hr as ([context d1] & Hc & Hr).
    apply result_bind_ok in Hr as ([v' b] & Hb & Hr). destruct committed; [|done]. injection Hr as _ <-.
    apply (rtc_l _ _ d1); [|by eapply Hop]. apply authority_time; [|by eapply context_business].
    eapply (step_observed unit db clock (λ d _, Ok ((), business d)) true). unfold observed_transaction.
    rewrite Hcap, Hn. cbn [mbind result_bind]. rewrite Hc. cbn. destruct d1. reflexivity.
  - destruct (denied fresh db e) as [r0 d] eqn:Hd. injection H as _ <- _. apply rtc_once, authority_time; [done|].
    by eapply denied_business.
Qed.

(** Opening the session of a lease is such a transaction. *)
Lemma open_session_steps db clock owner epoch committed r db' clock' :
  observed_transaction db clock (open_clock_session owner epoch) committed = (r, db', clock') → rtc authority_step db db'.
Proof.
  apply observed_steps. intros d time v b. unfold open_clock_session. rewrite result_seq_ok.
  intros (_ & (b' & Hb & [= _ <-])%result_bind_ok). apply rtc_once, authority_tables. by eapply table_session.
Qed.

(** ** Lifetime *)

(** The caps of an approval bound the expiry. *)
Lemma cap_respected d text cap : deadline_ok d → caps_match d = true →
  (d_request_expires_at d = Some text ∧ d_request_expiry d = cap) ∨ (d_approved_until d = Some text ∧ d_approved_expiry d = cap) →
  ∃ n, parse_nanos text = Ok n ∧ (d_effective_expiry d ≤ n)%Z.
Proof.
  intros [Hc _] Hm Hcap. unfold deadline_check, caps_match in *. sqlreflect.
  match goal with H : approval_absent d || _ = true |- _ => rename H into Ha end. apply orb_true_iff in Ha as [Ha|Ha].
  { unfold approval_absent in Ha. sqlreflect. by destruct (d_request_expires_at d), (d_approved_until d), Hcap as [[? ?]|[? ?]]. }
  sqlreflect. destruct (d_request_expiry d) as [r|]; [|done]. destruct (d_approved_expiry d) as [u|]; [|done]. sqlreflect.
  destruct Hcap as [[Ht _]|[Ht _]]; rewrite Ht in *; cbn in *;
    destruct (parse_nanos text) as [n|]; [exists n|done|exists n|done]; cbn in *; simplify_eq; done.
Qed.

(** a grant that passes its check is alive.  In every reachable database, if the check of a grant answers
    [Valid] at a time context, then the caller holds the lease under which the grant was issued, both the monotonic
    and the protected wall time of the context lie within the five minutes from issuance, the wall time is before
    the expiry of the approval request and before the end of the approval where there is one, and no expiry of the
    grant is latched. *)
Theorem valid_grant_bounded db grant owner epoch time : authority_reachable db →
  check_grant_deadline db grant owner epoch time = Ok Valid →
  lease db = Some (owner, epoch) ∧ (grant ∉ x_grant_id <$> latches (business db)) ∧
  ∃ d, d ∈ deadlines (business db) ∧ d_grant_id d = grant ∧
    (d_issued_monotonic d ≤ monotonic_nanos time < d_issued_monotonic d + LOCAL_ARTIFACT_GRANT_NANOS)%Z ∧
    (d_issued_effective d ≤ effective_unix_nanos time < d_issued_effective d + LOCAL_ARTIFACT_GRANT_NANOS)%Z ∧
    ∀ text, d_request_expires_at d = Some text ∨ d_approved_until d = Some text →
      ∃ cap, parse_nanos text = Ok cap ∧ (effective_unix_nanos time < cap)%Z.
Proof.
  intros Hinv%authority_reachable_inv Hv.
  destruct (check_found _ _ _ _ _ _ Hv) as (d & Hd & He & Hc & Heq); [done|].
  destruct (evidence_time _ _ _ _ _ _ He) as (<- & <- & <- & _ & _ & Him & Hie & Hnl & _).
  assert (lease db = Some (d_owner_id d, d_owner_epoch d)) as Hl by (unfold evidence_matches in He; by sqlreflect).
  destruct (Z.leb_spec (d_deadline d) (monotonic_nanos time)) as [|Hlm]; [done|].
  destruct (Z.leb_spec (d_effective_expiry d) (effective_unix_nanos time)) as [|Hlw]; [done|].
  pose proof (ai_deadlines _ Hinv d Hd) as Hok. pose proof Hok as [Hck Hlife]. unfold deadline_check in Hck. sqlreflect.
  split_and!; [done| |].
  - intros (x & Hx & Hin)%list_elem_of_fmap. apply (proj1 (existsb_false _ _)) with (x := x) in Hnl; [|done].
    apply String.eqb_neq in Hnl. done.
  - exists d. split_and!; try done; try lia.
    intros text [Ht|Ht]; edestruct (cap_respected d text) as (n & Hn & Hle); eauto; exists n; split; done || lia.
Qed.

(** ** No revival *)

(** Time contexts of two databases, the first before the second. *)
Lemma contexts_ordered db db' time time' : safe db → safe db' → advances db db' →
  time_current db time = true → time_current db' time' = true →
  (effective_unix_nanos time ≤ effective_unix_nanos time')%Z ∧
  ∃ o, o ∈ observations db' ∧ ob_revision o = state_revision time ∧ ob_confidence o = "TRUSTED_LOCAL" ∧
    ob_monotonic o = Some (monotonic_nanos time) ∧
    (state_revision time < state_revision time' ∨ monotonic_nanos time = monotonic_nanos time')%Z.
Proof.
  intros [(row & Hrow & Hrec) _] [(row' & Hrow' & Hrec') _] Ha
    (r1 & o & Hr1 & _ & Hrev & Hfl & Ho & Hor & Hoc & Hom & _)%time_current_ok
    (r2 & o' & Hr2 & _ & Hrev' & Hfl' & Ho' & Hor' & _ & Hom' & _)%time_current_ok.
  destruct (Ha _ Hrow Hrec) as (row2 & extra & Hrow2 & _ & [Hgr _ Hgf _] & Hobs).
  assert (r1 = row ∧ r2 = row' ∧ row2 = row') as (-> & -> & ->) by (split_and!; congruence).
  split; [rewrite Hfl, Hfl' in Hgf; cbn in Hgf; by apply Z.ltb_ge in Hgf|].
  assert (o ∈ observations db') as Hin by (rewrite Hobs; apply elem_of_app; by left).
  exists o. split_and!; try done. destruct (Z.eq_dec (state_revision time) (state_revision time')) as [He|]; [right|left; lia].
  pose proof (observation_unique _ _ _ Hrow' Hrec' Hin) as Hu. pose proof (observation_unique _ _ _ Hrow' Hrec' Ho') as Hu'.
  rewrite Hor, He, <-Hor', Hu' in Hu. congruence.
Qed.

(** a grant once seen expired is never valid again.  If a check in a reachable database answers that the
    monotonic deadline or the wall expiry has passed, then in every database reached from it, whatever the clocks
    do, whatever statements run and whether or not the expiry was latched, no caller and no time context gets
    [Valid] for that grant. *)
Theorem expired_never_valid db grant owner epoch time s db' owner' epoch' time' : authority_reachable db →
  check_grant_deadline db grant owner epoch time = Ok s → s = ExpiredMonotonic ∨ s = ExpiredWall →
  rtc authority_step db db' → check_grant_deadline db' grant owner' epoch' time' ≠ Ok Valid.
Proof.
  intros Hinv%authority_reachable_inv Hs Hex Hsteps Hv.
  destruct (check_found _ _ _ _ _ _ Hs) as (d & Hd & He & _ & Heq); [by destruct Hex as [-> | ->]|].
  destruct (check_found _ _ _ _ _ _ Hv) as (d' & Hd' & He' & _ & Heq'); [done|].
  destruct (authority_steps_inv _ _ Hsteps Hinv) as (Hinv' & Ha & Hk).
  destruct (evidence_time _ _ _ _ _ _ He) as (Hg & _ & _ & Htc & Hir & _).
  destruct (evidence_time _ _ _ _ _ _ He') as (Hg' & _ & _ & Htc' & _ & _ & _ & _ & Hreg).
  assert (d' = d) as ->.
  { apply (NoDup_fmap_elem_inj d_grant_id _ _ _ (ai_unique _ Hinv') Hd'); [|congruence].
    destruct (tk_deadlines _ _ Hk) as [ds ->]. apply elem_of_app. by left. }
  destruct (contexts_ordered _ _ _ _ (ai_safe _ Hinv) (ai_safe _ Hinv') Ha Htc Htc') as (Hle & o & Ho & Hor & Hoc & Hom & Hcase).
  assert (monotonic_nanos time ≤ monotonic_nanos time')%Z as Hmono.
  { destruct Hcase as [Hlt|]; [|lia]. apply (proj1 (existsb_false _ _)) with (x := o) in Hreg; [|done].
    unfold regressed in Hreg. rewrite Hor, Hoc, Hom, (proj2 (Z.leb_le _ _) Hir), (proj2 (Z.ltb_lt _ _) Hlt) in Hreg.
    cbn in Hreg. by apply Z.ltb_ge in Hreg. }
  destruct (Z.leb_spec (d_deadline d) (monotonic_nanos time')) as [|H1]; [done|].
  destruct (Z.leb_spec (d_effective_expiry d) (effective_unix_nanos time')) as [|H2]; [done|].
  rewrite (proj2 (Z.leb_gt _ _)), (proj2 (Z.leb_gt _ _)) in Heq by lia. by destruct Hex; subst.
Qed.

(** ** Latching *)

Lemma latch_backed_authenticated db x d : x ∈ latches (business db) → latch_backed db x d →
  authenticated_expiry_latch db (x_grant_id x) (x_owner_id x) (x_owner_epoch x) = Ok true.
Proof.
  intros Hx (Hd & Hof & Hre & (g & Hg & Hgm) & (r & Hr & Hrm & Hrp) & (c & Hc & Hc1 & Hc2 & Hc3 & Hc4 & Hc5) & (o & Ho & Hoa)).
  unfold authenticated_expiry_latch. f_equal. apply existsb_true. exists x. split; [done|].
  repeat (apply andb_true_intro; split); [by apply String.eqb_eq|by apply String.eqb_eq|by apply Z.eqb_eq|].
  apply existsb_true. exists d. split; [done|]. rewrite Hof, Hre, andb_true_r. cbn [andb].
  repeat (apply andb_true_intro; split); apply existsb_true.
  - by exists g.
  - exists r. split; [done|]. by rewrite Hrm, Hrp.
  - exists c. split; [done|]. sqlsolve.
  - by exists o.
Qed.

Lemma latched_invalid db grant owner epoch time x : x ∈ latches (business db) → x_grant_id x = grant →
  check_grant_deadline db grant owner epoch time = Ok InvalidOrIncomplete.
Proof.
  intros Hx Hg. destruct (check_grant_deadline db grant owner epoch time) as [s|e] eqn:Hs.
  2: { unfold check_grant_deadline in Hs. destruct (find _ _); [by destruct (_ || _)|done]. }
  destruct (decide (s = InvalidOrIncomplete)) as [->|Hne]; [done|].
  destruct (check_found _ _ _ _ _ _ Hs Hne) as (d & _ & He & _). destruct (evidence_time _ _ _ _ _ _ He) as (Hdg & _ & _ & _ & _ & _ & _ & Hnl & _).
  apply (proj1 (existsb_false _ _)) with (x := x) in Hnl; [|done]. apply String.eqb_neq in Hnl. congruence.
Qed.

(** An expiry is latched when it is witnessed, and the latch is permanent evidence.  In a reachable database
    where the check of a grant answers that it has expired, the check that latches succeeds, with a denial; in every
    database reached after it the latch authenticates as the expiry of that grant under its owner, and every check
    of the grant, by any caller at any time context, answers [InvalidOrIncomplete]. *)
Theorem expiry_latched db grant owner epoch time s : authority_reachable db →
  check_grant_deadline db grant owner epoch time = Ok s → s = ExpiredMonotonic ∨ s = ExpiredWall →
  ∃ b, check_and_latch_grant_deadline db grant owner epoch time = Ok (false, b) ∧
    ∀ db', rtc authority_step (set_business db b) db' →
      authenticated_expiry_latch db' grant owner epoch = Ok true ∧
      ∀ owner' epoch' time', check_grant_deadline db' grant owner' epoch' time' = Ok InvalidOrIncomplete.
Proof.
  intros Hinv%authority_reachable_inv Hs Hex.
  destruct (check_and_latch_expired _ _ _ _ _ _ Hinv Hs Hex) as (d & reason & Hd & He & Hre & Heq).
  eexists. split; [done|]. intros db' Hsteps. set (b := set_latches _ _) in *. set (x := latch_row time reason d) in *.
  destruct (authority_step_inv db (set_business db b)) as (Hi & _); [by eapply authority_tables, table_latch|done|].
  destruct (authority_steps_inv _ _ Hsteps Hi) as (Hi' & Ha & Hk).
  assert (x ∈ latches b) as Hx by (apply elem_of_app; right; by apply list_elem_of_singleton).
  assert (x ∈ latches (business db')) as Hx'. { destruct (tk_latches _ _ Hk) as [xs ->]. apply elem_of_app. by left. }
  assert (latch_backed db' x d) as Hb.
  { apply (latch_backed_kept (set_business db b)); [done| |done|done]. by eapply evidence_backed. }
  destruct (evidence_time _ _ _ _ _ _ He) as (<- & <- & <- & _). split.
  - by apply (latch_backed_authenticated db' x d).
  - intros owner' epoch' time'. by apply (latched_invalid _ _ _ _ _ x).
Qed.

(** ** A fresh grant *)

(** The [time] crate parses what it formats. *)
Context (format_parses : ∀ n s, rfc3339_format n = Some s → rfc3339_nanos s = Some n).

Lemma issued_caps f approval owner epoch time p :
  prepare_local_artifact_deadline time
    ((λ a, {| request_expires_at := a_expires a; approved_until := a_until a |}) <$> approval) = Ok p →
  let d := deadline_row f approval owner epoch time p in
  caps_match d = true ∧ duration_matches d = true ∧ d_effective_expiry d = shortest_cap d ∧
  (monotonic_nanos time < d_deadline d)%Z ∧ (effective_unix_nanos time < d_effective_expiry d)%Z ∧
  (0 ≤ monotonic_nanos time)%Z ∧ (0 ≤ effective_unix_nanos time)%Z ∧
  match approval with None => approval_absent d = true
  | Some _ => is_null (d_approval_id d) = false ∧ is_null (d_request_expiry d) = false ∧ is_null (d_approved_expiry d) = false end.
Proof using format_parses.
  intros (He & Hm & Hcaps & Hexp & Hg & Hf & Hlt & Hmax & Hdl & Hdm)%derive_ok d. unfold d. cbn.
  set (request := approval_request_expiry_unix_nanos p) in *. set (approved := approved_until_unix_nanos p) in *.
  pose proof (shortest (effective_unix_nanos time + LOCAL_ARTIFACT_GRANT_NANOS)%Z request approved) as (_ & Hr & Hu).
  cbv zeta in Hr, Hu. rewrite <-Hexp in Hr, Hu. rewrite Hdl. split_and!; try lia.
  - assert (parse_nanos (grant_expires_at p) = Ok (effective_expiry_unix_nanos p)) as Hp.
    { unfold parse_nanos, i64_try_from. rewrite (format_parses _ _ Hf).
      rewrite !(proj2 (Z.leb_le _ _)); [done|lia|unfold i64_min; lia]. }
    unfold caps_match. cbn. rewrite Hp, Hg. fold request approved. cbn.
    destruct approval as [a|]; cbn in *.
    + destruct Hcaps as (r & u & -> & -> & -> & ->). cbn. by rewrite !bool_decide_eq_true_2.
    + destruct Hcaps as [-> ->]. by rewrite !bool_decide_eq_true_2.
  - unfold duration_matches. cbn. rewrite Hdl. apply bool_decide_eq_true_2.
    unfold checked_sub, checked_add, i64_try_from. rewrite !(proj2 (Z.leb_le _ _)); [|lia|unfold i64_min; lia]. cbn.
    rewrite (proj2 (Z.ltb_lt _ _)) by lia. rewrite !(proj2 (Z.leb_le _ _)); [done|lia|unfold i64_min; lia].
  - unfold shortest_cap. cbn. fold request approved. rewrite Hg.
    destruct request, approved; cbn; try specialize (Hr _ eq_refl); try specialize (Hu _ eq_refl); lia.
  - destruct approval as [a|]; cbn in *.
    + destruct Hcaps as (r & u & _ & _ & -> & ->). done.
    + unfold approval_absent. cbn. destruct Hcaps as [Hcr Hca]. fold request approved. by rewrite Hcr, Hca.
Qed.

(** The exactness trigger gives the evidence of time. *)
Lemma exact_time_current db d time : safe db → deadline_exact db d = true →
  d_issued_revision d = state_revision time → d_issued_monotonic d = monotonic_nanos time →
  d_issued_observed d = observed_unix_nanos time → d_issued_effective d = effective_unix_nanos time →
  time_current db time = true ∧ lease db = Some (d_owner_id d, d_owner_epoch d) ∧
  ∃ o, o ∈ observations db ∧
    observed_at (state_revision time) (monotonic_nanos time) (observed_unix_nanos time) (effective_unix_nanos time) o = true.
Proof.
  intros [(row & Hrow & Hrec) _] He E1 E2 E3 E4. unfold deadline_exact in He. sqlreflect.
  match goal with H : paired_time _ _ _ _ _ _ = true |- _ => apply paired_time_ok in H as
    (row' & o & Hcur & Ho & Hl & Hc & Hrev & Hor & Hoc & Hom & Hob) end.
  match goal with H : (current_observation db ≫= _) = _ |- _ => rewrite Hcur in H; cbn in H; rename H into Hfl end.
  assert (row' = row) as ->. { unfold current_observation in Hcur. rewrite Hrow in Hcur. cbn in Hcur.
    by apply bind_Some in Hcur as (? & _ & [= <- _]). }
  assert (observed_at (state_revision time) (monotonic_nanos time) (observed_unix_nanos time) (effective_unix_nanos time) o = true)
    as Hat by (unfold observed_at; rewrite <-E1, <-E2, <-E3, <-E4; sqlsolve).
  split_and!; [|done|by exists o]. unfold time_current. rewrite Hrow. apply andb_true_intro. split.
  2: { apply existsb_true. by exists o. }
  destruct (inv_current _ _ Hrow Hrec) as (o' & Hlast & Hcur'). { intros Hnil. rewrite Hnil in Ho. by apply elem_of_nil in Ho. }
  assert (o' = o) as -> by congruence. destruct (h_last _ _ (recorded_ok _ _ Hrec) o Hlast) as (_ & Hf & _).
  rewrite Hf, E4 in Hfl. rewrite <-E1. sqlsolve.
Qed.

(** The session of the owner stands at the time of the issuance. *)
Lemma exact_session db d : safe db → (∀ c, c ∈ sessions (business db) → session_paired db c) → deadline_exact db d = true →
  existsb (λ c, String.eqb (cs_session_id c) (d_session_id d) && String.eqb (cs_owner_id c) (d_owner_id d) &&
                (cs_owner_epoch c =? d_owner_epoch d)%Z && (cs_state_revision c =? d_issued_revision d)%Z &&
                (cs_monotonic c =? d_issued_monotonic d)%Z && (cs_observed c =? d_issued_observed d)%Z) (sessions (business db)) = true.
Proof.
  intros [(row & Hrow & Hrec) _] Hpaired He. unfold deadline_exact in He. sqlreflect.
  match goal with H : paired_time _ _ _ _ _ _ = true |- _ => apply paired_time_ok in H as
    (row' & o & _ & Ho & _ & _ & _ & Hor & _ & _ & Hob) end.
  match goal with H : existsb _ (sessions _) = true |- _ => apply existsb_true in H as (c & Hc & H); sqlreflect end.
  destruct (Hpaired c Hc) as (o' & Ho' & Hor' & _ & Hob').
  assert (o' = o) as ->.
  { pose proof (observation_unique _ _ _ Hrow Hrec Ho) as Hu. pose proof (observation_unique _ _ _ Hrow Hrec Ho') as Hu'. congruence. }
  apply existsb_true. exists c. split; [done|]. assert (cs_observed c = d_issued_observed d) by congruence. sqlsolve.
Qed.

Lemma issued_evidence db f approval owner epoch time admitted b : authority_inv db →
  issue_grant db f approval owner epoch time admitted = Ok b →
  ∃ p, prepare_local_artifact_deadline time
         ((λ a, {| request_expires_at := a_expires a; approved_until := a_until a |}) <$> approval) = Ok p ∧
    let d := deadline_row f approval owner epoch time p in
    d ∈ deadlines b ∧ evidence_matches (set_business db b) (f_grant_id f) owner epoch time d = true.
Proof using format_parses.
  intros Hinv (p & b' & Hp & Hd & Hl & Hs & _ & _ & (r & Hr & Hrm & Hrp) & (-> & Hnew & Hex & Hck)%insert_deadline_ok)%issue_ok.
  exists p. split; [done|]. set (d := deadline_row _ _ _ _ _ _) in *. cbv zeta. split.
  { apply elem_of_app. right. by apply list_elem_of_singleton. }
  destruct (issued_caps f _ owner epoch _ _ Hp) as (_ & _ & _ & _ & _ & Hm0 & He0 & Happ). fold d in Happ.
  assert (safe (set_business db b')) as Hsafe by apply (safe_records _ _ (ai_safe _ Hinv) (records_business db b')).
  destruct (exact_time_current _ d time Hsafe Hex) as (Htc & Hlease & (o & Ho & Hoat)); [done..|].
  pose proof (exact_session _ d Hsafe) as Hses. cbn [business set_business] in Hses, Hnew. rewrite Hs in Hses.
  specialize (Hses (ai_sessions _ Hinv) Hex). unfold deadline_exact in Hex. sqlreflect.
  assert (existsb (λ x, String.eqb (x_grant_id x) (d_grant_id d)) (latches b') = false) as Hnl.
  { rewrite Hl. apply existsb_false. intros x (d' & Hd' & Hof & _)%(ai_latches _ Hinv). apply String.eqb_neq. intros Hx.
    rewrite Hd in Hnew. apply (proj1 (existsb_false _ _)) with (x := d') in Hnew; [|done]. apply String.eqb_neq in Hnew.
    apply Hnew. unfold latch_of in Hof. sqlreflect. congruence. }
  unfold evidence_matches. cbn [business set_business set_deadlines grants receipts sessions latches]. rewrite Hnl, Hs.
  change (time_current (set_business db _) time) with (time_current (set_business db b') time). rewrite Htc.
  change (lease (set_business db _)) with (lease db) in *. rewrite (bool_decide_eq_true_2 _ Hlease).
  assert (existsb (regressed d time) (observations db) = false) as Hreg.
  { apply existsb_false. intros o' _. unfold regressed. cbn [d_issued_revision deadline_row d].
    destruct (Z.leb_spec (state_revision time) (ob_revision o')), (Z.ltb_spec (ob_revision o') (state_revision time)); done || lia. }
  change (observations (set_business db _)) with (observations db) in *. rewrite Hreg.
  assert (approval_evidence (set_deadlines b' (deadlines b' ++ [d])) d = true) as ->.
  { unfold approval_evidence. destruct approval as [a|]; [|by rewrite Happ]. destruct Happ as (Hn1 & Hn2 & Hn3).
    rewrite Hn1, Hn2, Hn3 in *. apply orb_true_iff. right. cbn [negb andb]. rewrite !andb_true_r.
    match goal with H : _ || approval_granted _ _ = true |- _ => by apply orb_true_iff in H as [|] end. }
  repeat (apply andb_true_intro; split); try done; try (apply Z.leb_le; cbn; lia); try (by apply String.eqb_refl); try apply Z.eqb_refl.
  - apply existsb_true. exists r. split; [done|]. by rewrite Hrm, Hrp.
  - apply existsb_true. by exists o.
Qed.

(** a grant is valid when it is issued.  In every reachable database, if issuing a grant at a time context
    succeeds, with or without an approval, then checking that grant right after it, for the same owner at the same
    context, answers [Valid]. *)
Theorem issued_grant_valid db f approval owner epoch time admitted b : authority_reachable db →
  issue_grant db f approval owner epoch time admitted = Ok b →
  check_grant_deadline (set_business db b) (f_grant_id f) owner epoch time = Ok Valid.
Proof using format_parses.
  intros Hinv%authority_reachable_inv Hi. destruct (issued_evidence _ _ _ _ _ _ _ _ Hinv Hi) as (p & Hp & Hd & He).
  destruct (authority_step_inv db (set_business db b)) as (Hinv' & _); [by eapply authority_tables, table_issue|done|].
  destruct (issued_caps f _ owner epoch _ _ Hp) as (Hcm & Hdm & Hsc & Hlm & Hle & _). set (d := deadline_row _ _ _ _ _ _) in *.
  unfold check_grant_deadline. destruct (find _ _) as [d'|] eqn:Hf.
  2: { exfalso. eapply find_none in Hf; [by rewrite He in Hf|]. by apply list_elem_of_In. }
  apply find_elem in Hf as [Hd' He'].
  destruct (evidence_time _ _ _ _ _ _ He) as (Hg & _). destruct (evidence_time _ _ _ _ _ _ He') as (Hg' & _).
  assert (d' = d) as -> by (apply (NoDup_fmap_elem_inj d_grant_id _ _ _ (ai_unique _ Hinv') Hd' Hd); congruence).
  rewrite Hcm, Hdm, <-Hsc, Z.eqb_refl. cbn [negb orb].
  by rewrite (proj2 (Z.leb_gt _ _)), (proj2 (Z.leb_gt _ _)) by lia.
Qed.

End state.
