(* ===== verification/TimeFixtures.v ===== *)
(** * Concrete times and grants

    A clock library whose texts are decimal nanosecond counts, a database driven through
    assessments, a protected transaction, an outside effect, the issuance of a grant and its
    expiry, and the witnesses of the theorems of [TimeState] and [DeadlineState] on it. *)

From S2P Require Import Prelude Numbers Parse TrustedTime TimeState Deadline DeadlineState.

(** A text is a decimal count of nanoseconds. *)
#[local] Instance decimal_time : TimeLib := {|
  rfc3339_nanos := λ s, if canonical_numeral s then Some (Z.of_N (decimal_value 0 s)) else None;
  rfc3339_format := λ n, if (0 <=? n)%Z then Some (pretty (Z.to_N n)) else None;
|}.

Lemma decimal_format_parses n s : rfc3339_format n = Some s → rfc3339_nanos s = Some n.
Proof.
  cbn. destruct (Z.leb_spec 0 n); [|done]. intros [= <-].
  by rewrite canonical_numeral_pretty, decimal_value_pretty, Z2N.id by lia.
Qed.

Definition tick (wall_nanos monotonic_nanos : N) : option SecurityClockSample :=
  Some {| wall := pretty wall_nanos; monotonic := monotonic_nanos; source := InjectedClock |}.

Definition owner_1 : string := "0123456789abcdef0123456789abcdef".
Definition marker_1 : string := "00000000000000000000000000000001".

Lemma triple_eta {A B C} (p : A * B * C) : p = (p.1.1, p.1.2, p.2).
Proof. by destruct p as [[a b] c]. Qed.

Definition ok_default {E A} (r : result E A) (a : A) : A := match r with Ok a => a | Err _ => a end.

Lemma ok_default_eq {E A} (r : result E A) a : is_ok r = true → r = Ok (ok_default r a).
Proof. by destruct r. Qed.

(** ** Trusted time *)

Section trusted_time.

#[local] Abbreviation Db := (Db nat).

Definition db_0 : Db := initial_db (Some (owner_1, 1%Z)) {["task"]} 0.
Definition run_1 := assess_sample_with_pending_policy db_0 [tick 5000000000 10] Deny.
Definition db_1 : Db := run_1.1.2.
Definition run_2 := protected_transaction db_1 [tick 6000000000 20] (λ _ _, Ok ((), 7)) true.
Definition db_2 : Db := run_2.1.2.
Definition run_3 := assess db_2 [tick 3000000000 30].
Definition run_p := prepare_transaction db_1 [tick 5500000000 15] owner_1 1 "task" Read "artifact" marker_1 true.
Definition db_p : Db := run_p.1.2.

Lemma db_0_reachable : time_reachable db_0.
Proof. constructor. intros owner epoch [= <- <-]. done. Qed.

Lemma db_1_reachable : time_reachable db_1.
Proof. eapply time_continue; [apply db_0_reachable|]. exact (step_assess _ _ _ _ _ _ (triple_eta run_1)). Qed.

Lemma db_2_step : time_step db_1 db_2.
Proof. exact (step_protected _ _ _ _ _ _ _ _ (triple_eta run_2)). Qed.

Lemma db_p_reachable : time_reachable db_p.
Proof. eapply time_continue; [apply db_1_reachable|]. exact (step_prepare _ _ _ _ _ _ _ _ _ _ _ _ (triple_eta run_p)). Qed.

(** After two samples time is trusted, at the second. *)
Lemma trusted_time_exact_witness : ∃ row, time_state db_2 = Some row ∧ state_matches_audit db_2 = true ∧
  ts_revision row = Z.of_nat (length (observations db_2)) ∧
  ts_high row = max_observed (observations db_2) ∧ ts_floor row = max_observed (observations db_2) ∧
  (ts_confidence row = "TRUSTED_LOCAL" ↔ observations db_2 ≠ [] ∧ steady (observations db_2)).
Proof. apply trusted_time_exact. eapply time_continue; [apply db_1_reachable|apply db_2_step]. Defined.

(** The clock falls back by three seconds: the time stands and is uncertain. *)
Lemma time_never_backwards_witness :
  (∀ n, Some 5000000000%Z = Some n → ∃ n', Some 6000000000%Z = Some n' ∧ (n ≤ n')%Z) ∧
  ("TRUSTED_LOCAL" = "TIME_UNCERTAIN" → "TIME_UNCERTAIN" = "TIME_UNCERTAIN").
Proof.
  apply (time_never_backwards db_0 [tick 5000000000 10]
           {| ta_confidence := "TRUSTED_LOCAL"; ta_effective_nanos := Some 5000000000%Z |} db_1 run_1.2 db_2 [tick 3000000000 30]
           {| ta_confidence := "TIME_UNCERTAIN"; ta_effective_nanos := Some 6000000000%Z |} run_3.1.2 run_3.2).
  - apply db_0_reachable.
  - vm_compute. reflexivity.
  - apply rtc_once, db_2_step.
  - vm_compute. reflexivity.
Defined.

(** A read is in flight: assessments are refused. *)
Lemma one_effect_in_flight_witness :
  length (pending db_p) ≤ 1 ∧ inflight_rows_coherent db_p = true ∧ assess db_p [] = (Err TIME_UNCERTAIN, db_p, []).
Proof.
  destruct (one_effect_in_flight db_p db_p_reachable) as (H1 & H2 & H3). split; [exact H1|]. split; [exact H2|].
  refine (proj1 (H3 _ [])). vm_compute. discriminate.
Defined.

Lemma protected_transaction_exact_witness : ∃ row' o, time_state db_2 = Some row' ∧ observations db_2 = observations db_1 ++ [o] ∧
  ob_observed o = (security_sample [tick 6000000000 20]).1 ≫= wall_nanos ∧ [] = (security_sample [tick 6000000000 20]).2 ∧
  ∃ n now, format_nanos n = Ok now ∧ ts_floor row' = Some n ∧ ts_confidence row' = "TRUSTED_LOCAL" ∧
    Ok ((), 7) = Ok ((), business db_2) :> Res (unit * nat).
Proof.
  apply (protected_transaction_exact unit db_1 (default unassessed (time_state db_1)) [tick 6000000000 20] (λ _ _, Ok ((), 7)) true
           (Ok ()) db_2 []).
  - apply db_1_reachable.
  - vm_compute. reflexivity.
  - vm_compute. reflexivity.
  - vm_compute. reflexivity.
  - vm_compute. reflexivity.
Defined.

End trusted_time.

(** ** A grant *)

Section grant.

#[local] Abbreviation Db := (Db Authority).

(** An approval that ends two minutes after the first sample. *)
Definition approval_1 : Approval :=
  {| a_id := "approval"; a_expires := "620000000000"; a_decision_id := "decision"; a_until := "720000000000" |}.

Definition facts_1 : GrantFacts :=
  {| f_grant_id := "grant:1"; f_token_id := "token:1"; f_task_id := "task"; f_binding_id := "binding"; f_attempt_id := "attempt";
     f_decision_id := "policy" |}.

Definition g_0 : Db :=
  initial_db (Some (owner_1, 1%Z)) {["task"]}
    {| sessions := []; deadlines := []; latches := []; grants := []; receipts := [];
       requests := [{| ar_approval_id := "approval"; ar_status := "APPROVED"; ar_expires_at := Some "620000000000" |}];
       decisions := [{| ad_decision_id := "decision"; ad_approval_id := "approval"; ad_decision := "APPROVE";
                        ad_approved_until := Some "720000000000" |}] |}.

(** Record a sample. *)
Definition sampled (db : Db) (wall_nanos monotonic_nanos : N) :=
  observed_transaction db [tick wall_nanos monotonic_nanos] (λ d context, Ok (context, business d)) true.

Definition no_context : ProtectedTimeContext :=
  {| now := ""; state_revision := 0; observed_unix_nanos := 0; effective_unix_nanos := 0; monotonic_nanos := 0 |}.

Definition run_g1 := assess_sample_with_pending_policy g_0 [tick 500000000000 10] Deny.
Definition g_1 : Db := run_g1.1.2.
Definition run_g2 := observed_transaction g_1 [tick 500000000001 11] (open_clock_session owner_1 1) true.
Definition g_2 : Db := run_g2.1.2.
Definition g_3 : Db := (sampled g_2 500000000002 12).1.2.
Definition time_3 : ProtectedTimeContext := ok_default (sampled g_2 500000000002 12).1.1 no_context.
Definition advance_3 := advance_clock_session_in g_3 owner_1 1 time_3.
Definition g_4 : Db := set_business g_3 (ok_default advance_3 (business g_3)).
Definition issue_4 := issue_grant g_4 facts_1 (Some approval_1) owner_1 1 time_3 true.
Definition g_5 : Db := set_business g_4 (ok_default issue_4 (business g_4)).

(** Two minutes later, by the monotonic clock; the wall clock stands. *)
Definition g_6 : Db := (sampled g_5 500000000002 120000000012).1.2.
Definition time_6 : ProtectedTimeContext := ok_default (sampled g_5 500000000002 120000000012).1.1 no_context.
Definition advance_6 := advance_clock_session_in g_6 owner_1 1 time_6.
Definition g_7 : Db := set_business g_6 (ok_default advance_6 (business g_6)).

(** The monotonic clock falls back. *)
Definition g_8 : Db := (sampled g_7 500000000003 13).1.2.
Definition time_8 : ProtectedTimeContext := ok_default (sampled g_7 500000000003 13).1.1 no_context.

Lemma reachable_steps db db' : authority_reachable db → rtc authority_step db db' → authority_reachable db'.
Proof. intros H Hs. revert H. induction Hs as [|a b c Hab _ IH]; intros H; [done|]. by eapply IH, authority_continue. Qed.

Lemma sampled_steps db wall_nanos monotonic_nanos :
  rtc authority_step db (sampled db wall_nanos monotonic_nanos).1.2.
Proof.
  eapply (observed_steps _ _ _ _ _ _ _ _ _ (triple_eta _)). Unshelve.
  intros d time v b [= _ <-]. destruct d. done.
Qed.

Lemma g_3_reachable : authority_reachable g_3.
Proof.
  apply (reachable_steps g_2); [|apply sampled_steps]. apply (reachable_steps g_1).
  - apply (authority_continue g_0); [constructor; by intros owner epoch [= <- <-]|].
    apply authority_time; [exact (step_assess _ _ _ _ _ _ (triple_eta run_g1))|vm_compute; reflexivity].
  - exact (open_session_steps _ _ _ _ _ _ _ _ (triple_eta run_g2)).
Qed.

Lemma g_4_reachable : authority_reachable g_4.
Proof.
  apply (authority_continue g_3); [apply g_3_reachable|]. apply authority_tables.
  apply (table_advance _ owner_1 1 time_3), ok_default_eq. vm_compute. reflexivity.
Qed.

Lemma issue_4_ok : issue_grant g_4 facts_1 (Some approval_1) owner_1 1 time_3 true = Ok (ok_default issue_4 (business g_4)).
Proof. apply ok_default_eq. vm_compute. reflexivity. Qed.

Lemma g_5_reachable : authority_reachable g_5.
Proof.
  apply (authority_continue g_4); [apply g_4_reachable|]. apply authority_tables. eapply table_issue, issue_4_ok.
Qed.

Lemma g_7_reachable : authority_reachable g_7.
Proof.
  apply (authority_continue g_6); [apply (reachable_steps g_5); [apply g_5_reachable|apply sampled_steps]|].
  apply authority_tables. apply (table_advance _ owner_1 1 time_6), ok_default_eq. vm_compute. reflexivity.
Qed.

Lemma valid_grant_bounded_witness : lease g_5 = Some (owner_1, 1%Z).
Proof.
  refine (proj1 (valid_grant_bounded g_5 "grant:1" owner_1 1 time_3 g_5_reachable _)). vm_compute. reflexivity.
Defined.

Lemma expired_never_valid_witness : check_grant_deadline g_8 "grant:1" owner_1 1 time_8 ≠ Ok Valid.
Proof.
  apply (expired_never_valid g_7 "grant:1" owner_1 1 time_6 ExpiredMonotonic).
  - apply g_7_reachable.
  - vm_compute. reflexivity.
  - by left.
  - apply sampled_steps.
Defined.

Lemma expiry_latched_witness : ∃ b, check_and_latch_grant_deadline g_7 "grant:1" owner_1 1 time_6 = Ok (false, b) ∧
  ∀ db', rtc authority_step (set_business g_7 b) db' →
    authenticated_expiry_latch db' "grant:1" owner_1 1 = Ok true ∧
    ∀ owner' epoch' time', check_grant_deadline db' "grant:1" owner' epoch' time' = Ok InvalidOrIncomplete.
Proof.
  apply (expiry_latched g_7 "grant:1" owner_1 1 time_6 ExpiredMonotonic).
  - apply g_7_reachable.
  - vm_compute. reflexivity.
  - by left.
Defined.

Lemma issued_grant_valid_witness : check_grant_deadline g_5 "grant:1" owner_1 1 time_3 = Ok Valid.
Proof.
  exact (issued_grant_valid decimal_format_parses g_4 facts_1 (Some approval_1) owner_1 1 time_3 true _ g_4_reachable issue_4_ok).
Defined.

End grant.
