(* ===== verification/ContractCheck.v ===== *)
(** * Admission of semantic contracts

    The checks of [crates/aios-registry/src/loader.rs] on a snapshot header, its entries, and
    the type and capability contracts it names.  An error carries its reason code; messages
    are left out.  The schema validator and the RFC 3339 parser are part of [RegistryLib]. *)

From Stdlib Require Import SpecFloat.
From S2P Require Import Prelude Json Contracts Version Registry.

(** ** External code *)

Inductive RecordKind := SnapshotRecord | TypeRecord | CapabilityRecord.

Class RegistryLib := {
  (** The embedded schema of a kind of record, when it compiles: the documents without a violation. *)
  embedded_schema : RecordKind → option (Value → bool);
  (** [serde_json_canonicalizer::to_vec] *)
  registry_jcs : Value → option string;
  registry_sha256 : string → string;
  (** [OffsetDateTime::parse(.., &Rfc3339).is_ok()] *)
  rfc3339_accepts : string → bool;
}.

Abbreviation reject := (Err RegistryError.schema).
Abbreviation refuse code := (Err (RegistryError.validation code)).

(** ** Lengths, sets and names *)

Definition exceeds_max_length (value : string) (maximum : nat) : bool := maximum <? chars_count value.

(** [Option::is_some_and] *)
Definition some_and {A} (o : option A) (f : A → bool) : bool := match o with Some a => f a | None => false end.

Definition too_long (value : option string) (maximum : nat) : bool := some_and value (λ v, exceeds_max_length v maximum).

(** A finite nonnegative float; minus zero is not below zero. *)
Definition tolerance_ok (f : spec_float) : bool :=
  match f with
  | S754_zero _ => true
  | S754_finite negative _ _ => negb negative
  | S754_infinity _ | S754_nan => false
  end.

Definition valid_tolerance (value : option spec_float) : bool :=
  match value with None => true | Some f => tolerance_ok f end.

(** A set of the values has as many elements as there are values. *)
Definition unique_values {A} `{EqDecision A} (values : list A) : RegistryResult unit :=
  if negb (length (remove_dups values) =? length values) then reject else Ok ().

Definition unique_strings : list string → RegistryResult unit := unique_values.

Definition is_uppercase (c : ascii) : bool := let n := Ascii.N_of_ascii c in ((65 <=? n) && (n <=? 90))%N.
Definition is_alphabetic (c : ascii) : bool := is_lower c || is_uppercase c.
Definition underscore (c : ascii) : bool := bool_decide (c = "_"%char).

Definition validate_port_name (name : string) : RegistryResult unit :=
  match name with
  | EmptyString => reject
  | String c rest =>
      if negb (is_alphabetic c || underscore c) ||
         negb (string_forallb (λ c, is_alphabetic c || is_digit c || underscore c) rest)
      then reject else Ok ()
  end.

Definition authority_byte (c : ascii) : bool :=
  is_lower c || is_digit c || underscore c || bool_decide (c = "."%char) || bool_decide (c = ":"%char) ||
  bool_decide (c = "-"%char).

Definition validate_authority_class (authority : string) : RegistryResult unit :=
  if (byte_len authority <? 3) || exceeds_max_length authority 128 ||
     match authority with
     | EmptyString => true
     | String c rest => negb (is_lower c) || negb (string_forallb authority_byte rest)
     end
  then reject else Ok ().

Definition error_byte (c : ascii) : bool := is_uppercase c || is_digit c || underscore c.

Definition validate_error_class (error_class : string) : RegistryResult unit :=
  if (byte_len error_class <? 3) || exceeds_max_length error_class 160 ||
     negb match error_class with
          | EmptyString => true
          | String c rest => is_uppercase c && string_forallb error_byte rest
          end
  then reject else Ok ().

Definition validate_conformance (c : Conformance) : RegistryResult unit :=
  if bool_decide (conf_suite_id c = "") || exceeds_max_length (conf_suite_id c) 256 then reject
  else if too_long (conf_suite_version c) 64 then reject
  else if too_long (conf_suite_hash c) 256 then reject
  else Ok ().

(** ** Type contracts *)

Fixpoint check_representations (seen : gset string) (representations : list Representation) : RegistryResult unit :=
  match representations with
  | [] => Ok ()
  | r :: rest =>
      if bool_decide (rep_id r = "") || exceeds_max_length (rep_id r) 160 then reject
      else if bool_decide (rep_id r ∈ seen) then reject
      else if too_long (rep_media_type r) 160 || too_long (rep_schema_ref r) 1024 then reject
      else check_representations ({[rep_id r]} ∪ seen) rest
  end.

Definition unit_too_long (unit : UnitSemantics) : bool :=
  too_long (unit_canonical_unit unit) 64 || too_long (unit_notes unit) 1024.

Definition validate_conversion (reference : string) : RegistryResult unit :=
  if exceeds_max_length reference 160 then reject else SemanticRef.parse reference ≫= λ _, Ok ().

Definition validate_type_contract (contract : TypeContract) : RegistryResult unit :=
  validate_semantic_id (tc_type_id contract) ≫= λ _,
  if exceeds_max_length (tc_type_id contract) 128 then reject else
  FullVersion.parse (tc_version contract) ≫= λ _,
  if bool_decide (tc_description contract = "") || exceeds_max_length (tc_description contract) 4096 then reject else
  if too_long (tc_logical_schema_ref contract) 1024 || existsb (λ note, exceeds_max_length note 2048) (tc_notes contract)
  then reject else
  check_representations ∅ (tc_representations contract) ≫= λ _,
  if too_long (te_canonicalizer (tc_equality contract)) 256 ||
     negb (valid_tolerance (te_numeric_absolute_tolerance (tc_equality contract))) ||
     negb (valid_tolerance (te_numeric_relative_tolerance (tc_equality contract))) ||
     some_and (tc_unit_semantics contract) unit_too_long
  then reject else
  unique_strings (tc_conversion_capabilities contract) ≫= λ _,
  try_each (tc_conversion_capabilities contract) validate_conversion ≫= λ _,
  validate_conformance (tc_conformance contract).

(** ** Capability contracts *)

Definition validate_port (port : string * PortContract) : RegistryResult unit :=
  validate_port_name port.1 ≫= λ _,
  if exceeds_max_length (port_type_ref port.2) 128 then reject else
  SemanticRef.parse (port_type_ref port.2) ≫= λ _,
  if too_long (port_description port.2) 1024 then reject else Ok ().

(** An input and an output of the same name carry the same type. *)
Definition port_conflict (contract : CapabilityContract) : bool :=
  existsb (λ input : string * PortContract,
    some_and (cc_outputs contract !! input.1) (λ output, negb (String.eqb (port_type_ref output) (port_type_ref input.2))))
    (btree_iter (cc_inputs contract)).

Definition contains {A} `{EqDecision A} (x : A) (l : list A) : bool := bool_decide (x ∈ l).

Definition validate_capability_egress_consistency (contract : CapabilityContract) : RegistryResult unit :=
  let permits_deny_egress := contains Deny (cc_allowed_egress_modes contract) in
  let permits_policy_egress := contains Policy (cc_allowed_egress_modes contract) in
  let requires_data_egress_effect := contains DataEgress (cc_required_effect_classes contract) in
  let allows_data_egress_effect := contains DataEgress (cc_allowed_effect_classes contract) in
  let requires_data_egress_authority := contains "data.egress" (cc_required_authority_classes contract) in
  let allows_data_egress_authority := contains "data.egress" (cc_allowed_authority_classes contract) in
  let requires_policy_egress := negb permits_deny_egress in
  if negb (eqb permits_policy_egress allows_data_egress_effect) ||
     negb (eqb permits_policy_egress allows_data_egress_authority) ||
     negb (eqb requires_policy_egress requires_data_egress_effect) ||
     negb (eqb requires_policy_egress requires_data_egress_authority)
  then reject else Ok ().

(** A required effect other than the unprotected two is backed by a required authority class. *)
Definition validate_required_effect (contract : CapabilityContract) (effect : EffectClass) : RegistryResult unit :=
  if negb (bool_decide (effect = Pure) || bool_decide (effect = LegacyOpaque)) &&
     negb (existsb (λ authority, bool_decide (effect_for_authority_class authority = Some effect))
             (cc_required_authority_classes contract))
  then reject else Ok ().

(** An authority class is mapped, to one of the effects. *)
Definition validate_authority_effect (effects : list EffectClass) (authority : string) : RegistryResult unit :=
  match effect_for_authority_class authority with
  | None => reject
  | Some implied_effect => if negb (contains implied_effect effects) then reject else Ok ()
  end.

Definition validate_effects (contract : CapabilityContract) : RegistryResult unit :=
  let required := cc_required_effect_classes contract in
  let allowed := cc_allowed_effect_classes contract in
  if bool_decide (required = []) && negb (contains Pure allowed) then refuse RegistryPureEffectContradiction else
  if existsb (λ effect, negb (contains effect allowed)) required then refuse RegistryRequiredEffectNotAllowed else
  if existsb (λ authority, negb (contains authority (cc_allowed_authority_classes contract)))
       (cc_required_authority_classes contract)
  then refuse RegistryRequiredAuthorityNotAllowed else
  validate_capability_egress_consistency contract ≫= λ _,
  let non_pure := existsb (λ effect, negb (bool_decide (effect = Pure))) in
  if contains Pure required && (non_pure required || non_pure allowed) then refuse RegistryPureEffectContradiction else
  try_each required (validate_required_effect contract) ≫= λ _,
  try_each (cc_required_authority_classes contract) (validate_authority_effect required) ≫= λ _,
  try_each (cc_allowed_authority_classes contract) (validate_authority_effect allowed).

Definition validate_capability_contract (contract : CapabilityContract) : RegistryResult unit :=
  validate_semantic_id (cc_capability contract) ≫= λ _,
  FullVersion.parse (cc_version contract) ≫= λ _,
  if too_long (cc_description contract) 4096 || existsb (λ note, exceeds_max_length note 2048) (cc_notes contract)
  then reject else
  if bool_decide (cc_outputs contract = ∅) then reject else
  try_each (btree_iter (cc_inputs contract) ++ btree_iter (cc_outputs contract)) validate_port ≫= λ _,
  if port_conflict contract then reject else
  unique_values (cc_allowed_execution_classes contract) ≫= λ _,
  unique_values (cc_required_effect_classes contract) ≫= λ _,
  unique_values (cc_allowed_effect_classes contract) ≫= λ _,
  unique_strings (cc_required_authority_classes contract) ≫= λ _,
  unique_strings (cc_allowed_authority_classes contract) ≫= λ _,
  unique_values (cc_allowed_egress_modes contract) ≫= λ _,
  unique_strings (cc_error_classes contract) ≫= λ _,
  if bool_decide (cc_allowed_execution_classes contract = []) || bool_decide (cc_allowed_effect_classes contract = []) ||
     bool_decide (cc_allowed_egress_modes contract = [])
  then reject else
  try_each (cc_required_authority_classes contract ++ cc_allowed_authority_classes contract) validate_authority_class ≫= λ _,
  try_each (cc_error_classes contract) validate_error_class ≫= λ _,
  if some_and (cc_determinism contract) (λ determinism,
       negb (valid_tolerance (det_numeric_absolute_tolerance determinism)) ||
       negb (valid_tolerance (det_numeric_relative_tolerance determinism)))
  then reject else
  validate_effects contract ≫= λ _,
  validate_conformance (cc_conformance contract).

(** ** Snapshot header and entries *)

Definition lower_hex (c : ascii) : bool :=
  let n := Ascii.N_of_ascii c in (((48 <=? n) && (n <=? 57)) || ((97 <=? n) && (n <=? 102)))%N.

Definition any_hex (c : ascii) : bool := let n := Ascii.N_of_ascii c in lower_hex c || ((65 <=? n) && (n <=? 70))%N.

Definition is_sha256_id (value : string) : bool :=
  match strip_prefix "sha256:" value with
  | None => false
  | Some digest => (byte_len digest =? 64) && string_forallb lower_hex digest
  end.

Definition is_obvious_placeholder_hash (value : string) : bool :=
  match strip_prefix "sha256:" value with
  | None => false
  | Some digest =>
      (byte_len digest =? 64) && string_forallb any_hex digest &&
      string_forallb (λ c, bool_decide (c = "0"%char)) (String.substring 0 56 digest)
  end.

Section snapshot.

Context `{RL : RegistryLib}.

Definition schema_validate (kind : RecordKind) (value : Value) : RegistryResult unit :=
  match embedded_schema kind with
  | None => reject
  | Some accepts => if accepts value then Ok () else reject
  end.

Definition is_rfc3339_datetime (value : string) : bool :=
  match String.get 10 value with
  | Some c => bool_decide (c = "T"%char) || bool_decide (c = "t"%char)
  | None => false
  end && rfc3339_accepts value.

Definition validate_snapshot_header (snapshot : RegistrySnapshot) : RegistryResult unit :=
  if negb (String.eqb (rs_schema_version snapshot) "0.1") then refuse RegistryUnsupportedVersion
  else if negb (is_rfc3339_datetime (rs_created_at snapshot)) then reject
  else if too_long (rs_generation snapshot) 128 || existsb (λ note, exceeds_max_length note 2048) (rs_notes snapshot) ||
          some_and (rs_publisher snapshot) (λ publisher,
            some_and (pub_id publisher) (λ id, bool_decide (id = "") || exceeds_max_length id 256))
  then reject
  else if negb (is_sha256_id (rs_snapshot_id snapshot)) && negb (is_obvious_placeholder_hash (rs_snapshot_id snapshot))
  then reject
  else Ok ().

Definition validate_contract_ref (entry : ContractRef) : RegistryResult unit :=
  validate_semantic_id (cr_id entry) ≫= λ _,
  if exceeds_max_length (cr_version entry) 64 || too_long (cr_source entry) 1024 then reject else
  FullVersion.parse (cr_version entry) ≫= λ _,
  if negb (is_sha256_id (cr_content_hash entry)) && negb (is_obvious_placeholder_hash (cr_content_hash entry))
  then reject else Ok ().

End snapshot.
