(* ===== verification/ContractHash.v ===== *)
(** * Content identities of contracts

    [crates/aios-registry/src/hash.rs]: the prose-free semantic views of capability and type
    contracts, the view of a snapshot, and their domain-separated SHA-256 identities.  The
    serialization of the records is that of their [derive(Serialize)] in
    [crates/aios-contracts/src/registry.rs]. *)

From Stdlib Require Import SpecFloat.
From S2P Require Import Prelude Json Contracts Version Registry Normalize Hash ContractCheck.

(** ** Serialized records *)

(** A map filled in this order. *)
Definition object (entries : list (string * Value)) : Value :=
  Object (foldl (λ m kv, assoc_insert kv.1 kv.2 m) [] entries).

Definition nullable {A} (f : A → Value) (o : option A) : Value := match o with Some a => f a | None => Null end.

(** [skip_serializing_if = "Option::is_none"] *)
Definition present {A} (key : string) (f : A → Value) (o : option A) : list (string * Value) :=
  match o with Some a => [(key, f a)] | None => [] end.

(** [f64] as a JSON value: not finite is [null]. *)
Definition float_value (f : spec_float) : Value :=
  match f with S754_infinity _ | S754_nan => Null | _ => Num (Float f) end.

Definition ExecutionClass_name (c : ExecutionClass) : string :=
  match c with
  | Deterministic => "deterministic"
  | BoundedNondeterministic => "bounded_nondeterministic"
  | Probabilistic => "probabilistic"
  | OpaqueExternal => "opaque_external"
  end.

Definition EffectClass_name (e : EffectClass) : string :=
  match e with
  | Pure => "PURE" | ArtifactRead => "ARTIFACT_READ" | ArtifactWrite => "ARTIFACT_WRITE" | Network => "NETWORK"
  | DataEgress => "DATA_EGRESS" | ExternalMessage => "EXTERNAL_MESSAGE" | SecretAccess => "SECRET_ACCESS"
  | PersistentState => "PERSISTENT_STATE" | DeviceAccess => "DEVICE_ACCESS" | SystemChange => "SYSTEM_CHANGE"
  | LegacyOpaque => "LEGACY_OPAQUE"
  end.

Definition EgressMode_name (m : EgressMode) : string := match m with Deny => "deny" | Policy => "policy" end.
Definition CapabilityRole_name (r : CapabilityRole) : string :=
  match r with Ordinary => "ordinary" | Verifier => "verifier" end.

Definition DeterminismEquivalence_name (e : DeterminismEquivalence) : string :=
  match e with
  | DE_ByteIdentical => "byte_identical" | DE_CanonicalValue => "canonical_value"
  | DE_NumericTolerance => "numeric_tolerance" | DE_Semantic => "semantic" | DE_NotApplicable => "not_applicable"
  end.

Definition TypeKind_name (k : TypeKind) : string :=
  match k with
  | Scalar => "scalar" | Structured => "structured" | Artifact => "artifact" | Stream => "stream" | Handle => "handle"
  end.

Definition EqualityMode_name (m : EqualityMode) : string :=
  match m with
  | EM_ByteIdentical => "byte_identical" | EM_CanonicalValue => "canonical_value"
  | EM_NumericTolerance => "numeric_tolerance" | EM_Semantic => "semantic" | EM_NotDefined => "not_defined"
  end.

Definition strings (l : list string) : Value := Array (Str <$> l).

Definition port_value (p : PortContract) : Value :=
  object ([("type", Str (port_type_ref p)); ("required", Bool (port_required p))] ++
          present "description" Str (port_description p)).

Definition ports_value (ports : gmap string PortContract) : Value :=
  Object ((λ kp, (kp.1, port_value kp.2)) <$> btree_iter ports).

Definition determinism_value (d : Determinism) : Value :=
  object (present "equivalence" (λ e, Str (DeterminismEquivalence_name e)) (det_equivalence d) ++
          [("numeric_absolute_tolerance", nullable float_value (det_numeric_absolute_tolerance d));
           ("numeric_relative_tolerance", nullable float_value (det_numeric_relative_tolerance d))]).

Definition conformance_value (c : Conformance) : Value :=
  object [("suite_id", Str (conf_suite_id c)); ("suite_version", nullable Str (conf_suite_version c));
          ("suite_hash", nullable Str (conf_suite_hash c))].

Definition capability_value (c : CapabilityContract) : Value :=
  object ([("capability", Str (cc_capability c)); ("version", Str (cc_version c))] ++
          present "description" Str (cc_description c) ++
          [("role", Str (CapabilityRole_name (cc_role c))); ("inputs", ports_value (cc_inputs c));
           ("outputs", ports_value (cc_outputs c));
           ("allowed_execution_classes", strings (ExecutionClass_name <$> cc_allowed_execution_classes c));
           ("required_effect_classes", strings (EffectClass_name <$> cc_required_effect_classes c));
           ("allowed_effect_classes", strings (EffectClass_name <$> cc_allowed_effect_classes c));
           ("required_authority_classes", strings (cc_required_authority_classes c));
           ("allowed_authority_classes", strings (cc_allowed_authority_classes c));
           ("allowed_egress_modes", strings (EgressMode_name <$> cc_allowed_egress_modes c))] ++
          present "determinism" determinism_value (cc_determinism c) ++
          [("error_classes", strings (cc_error_classes c)); ("conformance", conformance_value (cc_conformance c));
           ("notes", strings (cc_notes c))]).

Definition representation_value (r : Representation) : Value :=
  object [("id", Str (rep_id r)); ("media_type", nullable Str (rep_media_type r));
          ("schema_ref", nullable Str (rep_schema_ref r)); ("zero_copy_candidate", Bool (rep_zero_copy_candidate r))].

Definition equality_value (e : TypeEquality) : Value :=
  object [("mode", Str (EqualityMode_name (te_mode e))); ("canonicalizer", nullable Str (te_canonicalizer e));
          ("numeric_absolute_tolerance", nullable float_value (te_numeric_absolute_tolerance e));
          ("numeric_relative_tolerance", nullable float_value (te_numeric_relative_tolerance e))].

Definition unit_value (u : UnitSemantics) : Value :=
  object (present "unit_required" Bool (unit_required u) ++
          [("canonical_unit", nullable Str (unit_canonical_unit u)); ("notes", nullable Str (unit_notes u))]).

Definition type_value (t : TypeContract) : Value :=
  object [("type_id", Str (tc_type_id t)); ("version", Str (tc_version t)); ("kind", Str (TypeKind_name (tc_kind t)));
          ("description", Str (tc_description t)); ("logical_schema_ref", nullable Str (tc_logical_schema_ref t));
          ("nullable", Bool (tc_nullable t)); ("representations", Array (representation_value <$> tc_representations t));
          ("equality", equality_value (tc_equality t)); ("unit_semantics", nullable unit_value (tc_unit_semantics t));
          ("conversion_capabilities", strings (tc_conversion_capabilities t));
          ("conformance", conformance_value (tc_conformance t)); ("notes", strings (tc_notes t))].

Definition contract_ref_value (r : ContractRef) : Value :=
  object [("id", Str (cr_id r)); ("version", Str (cr_version r)); ("content_hash", Str (cr_content_hash r));
          ("source", nullable Str (cr_source r))].

Definition publisher_value (p : RegistryPublisher) : Value :=
  object (present "id" Str (pub_id p) ++ [("signature", nullable Str (pub_signature p))]).

Definition snapshot_value (s : RegistrySnapshot) : Value :=
  object [("schema_version", Str (rs_schema_version s)); ("snapshot_id", Str (rs_snapshot_id s));
          ("generation", nullable Str (rs_generation s));
          ("type_contracts", Array (contract_ref_value <$> rs_type_contracts s));
          ("capability_contracts", Array (contract_ref_value <$> rs_capability_contracts s));
          ("created_at", Str (rs_created_at s)); ("publisher", nullable publisher_value (rs_publisher s));
          ("notes", strings (rs_notes s))].

(** ** Semantic views *)

(** [b"..\0v0.1\0"] *)
Definition domain (name : string) : string := name +++ String "000"%char ("v0.1" +++ String "000"%char "").
Definition CAPABILITY_CONTRACT_HASH_DOMAIN : string := domain "AIOS-CAPABILITY-CONTRACT".
Definition TYPE_CONTRACT_HASH_DOMAIN : string := domain "AIOS-TYPE-CONTRACT".
Definition REGISTRY_SNAPSHOT_HASH_DOMAIN : string := domain "AIOS-SEMANTIC-REGISTRY".

Abbreviation Members := (list (string * Value)).

Definition require_object (value : Value) : RegistryResult Members :=
  match value with Object members => Ok members | _ => reject end.

Definition serialized_object (serialized : Value) : RegistryResult Members := require_object serialized.

Definition required (source : Members) (field : string) : RegistryResult Value :=
  match assoc_get field source with Some v => Ok v | None => reject end.

(** [source.get(field).cloned().unwrap_or(..)] *)
Definition get_or (source : Members) (field : string) (v : Value) : Value := default v (assoc_get field source).

Definition normalize_port (entry : string * Value) : RegistryResult (string * Value) :=
  port ← require_object entry.2;
  type ← required port "type";
  req ← required port "required";
  Ok (entry.1, object [("type", type); ("required", req)]).

Definition normalize_ports (value : Value) : RegistryResult Value :=
  ports ← require_object value;
  normalized ← mapM normalize_port ports;
  Ok (object normalized).

(** An optional member: absent or null is null. *)
Definition normalize_present (f : Members → RegistryResult Value) (value : option Value) : RegistryResult Value :=
  match value with
  | None | Some Null => Ok Null
  | Some value => source ← require_object value; f source
  end.

Definition normalize_determinism : option Value → RegistryResult Value :=
  normalize_present (λ source,
    Ok (object [("equivalence", get_or source "equivalence" Null);
                ("numeric_absolute_tolerance", get_or source "numeric_absolute_tolerance" Null);
                ("numeric_relative_tolerance", get_or source "numeric_relative_tolerance" Null)])).

Definition normalize_equality (value : Value) : RegistryResult Value :=
  source ← require_object value;
  mode ← required source "mode";
  Ok (object [("mode", mode); ("canonicalizer", get_or source "canonicalizer" Null);
              ("numeric_absolute_tolerance", get_or source "numeric_absolute_tolerance" Null);
              ("numeric_relative_tolerance", get_or source "numeric_relative_tolerance" Null)]).

Definition normalize_unit_semantics : option Value → RegistryResult Value :=
  normalize_present (λ source,
    Ok (object [("unit_required", get_or source "unit_required" Null);
                ("canonical_unit", get_or source "canonical_unit" Null)])).

Definition normalize_conformance (value : Value) : RegistryResult Value :=
  source ← require_object value;
  suite_id ← required source "suite_id";
  Ok (object [("suite_id", suite_id); ("suite_version", get_or source "suite_version" Null);
              ("suite_hash", get_or source "suite_hash" Null)]).

Definition utf16_code_unit_cmp (left right : string) : comparison := units_compare (encode_utf16 left) (encode_utf16 right).

Definition is_string (v : Value) : bool := match v with Str _ => true | _ => false end.

Definition string_value_cmp (left right : Value) : comparison :=
  utf16_code_unit_cmp (default "" (as_str left)) (default "" (as_str right)).

Definition sorted_string_set (value : Value) : RegistryResult Value :=
  match value with
  | Array values =>
      if negb (forallb is_string values) then reject else Ok (Array (sort_by (le_of string_value_cmp) values))
  | _ => reject
  end.

Definition capability_contract_semantic_view (contract : CapabilityContract) : RegistryResult Value :=
  source ← serialized_object (capability_value contract);
  capability ← required source "capability";
  version ← required source "version";
  let role := get_or source "role" (Str "ordinary") in
  inputs ← required source "inputs" ≫= normalize_ports;
  outputs ← required source "outputs" ≫= normalize_ports;
  allowed_execution_classes ← required source "allowed_execution_classes" ≫= sorted_string_set;
  required_effect_classes ← required source "required_effect_classes" ≫= sorted_string_set;
  allowed_effect_classes ← required source "allowed_effect_classes" ≫= sorted_string_set;
  required_authority_classes ← required source "required_authority_classes" ≫= sorted_string_set;
  allowed_authority_classes ← required source "allowed_authority_classes" ≫= sorted_string_set;
  allowed_egress_modes ← required source "allowed_egress_modes" ≫= sorted_string_set;
  determinism ← normalize_determinism (assoc_get "determinism" source);
  error_classes ← required source "error_classes" ≫= sorted_string_set;
  conformance ← required source "conformance" ≫= normalize_conformance;
  Ok (object [("capability", capability); ("version", version); ("role", role); ("inputs", inputs); ("outputs", outputs);
              ("allowed_execution_classes", allowed_execution_classes);
              ("required_effect_classes", required_effect_classes); ("allowed_effect_classes", allowed_effect_classes);
              ("required_authority_classes", required_authority_classes);
              ("allowed_authority_classes", allowed_authority_classes); ("allowed_egress_modes", allowed_egress_modes);
              ("determinism", determinism); ("error_classes", error_classes); ("conformance", conformance)]).

Definition normalize_representation (representation : Value) : RegistryResult Value :=
  source ← require_object representation;
  id ← required source "id";
  Ok (object [("id", id); ("media_type", get_or source "media_type" Null); ("schema_ref", get_or source "schema_ref" Null);
              ("zero_copy_candidate", get_or source "zero_copy_candidate" (Bool false))]).

Definition representation_cmp (left right : Value) : comparison :=
  utf16_code_unit_cmp (default "" (value_get "id" left ≫= as_str)) (default "" (value_get "id" right ≫= as_str)).

Definition type_contract_semantic_view (contract : TypeContract) : RegistryResult Value :=
  source ← serialized_object (type_value contract);
  representations ← required source "representations" ≫= λ v, match v with Array vs => Ok vs | _ => reject end;
  normalized ← mapM normalize_representation representations;
  let conversions := get_or source "conversion_capabilities" (Array []) in
  type_id ← required source "type_id";
  version ← required source "version";
  kind ← required source "kind";
  equality ← required source "equality" ≫= normalize_equality;
  unit_semantics ← normalize_unit_semantics (assoc_get "unit_semantics" source);
  conversion_capabilities ← sorted_string_set conversions;
  conformance ← required source "conformance" ≫= normalize_conformance;
  Ok (object [("type_id", type_id); ("version", version); ("kind", kind);
              ("logical_schema_ref", get_or source "logical_schema_ref" Null);
              ("nullable", get_or source "nullable" (Bool false));
              ("representations", Array (sort_by (le_of representation_cmp) normalized)); ("equality", equality);
              ("unit_semantics", unit_semantics); ("conversion_capabilities", conversion_capabilities);
              ("conformance", conformance)]).

(** ** Identities *)

Record SnapshotHashEntry := { she_id : string; she_version : string; she_content_hash : string }.

Definition snapshot_entry_value (entry : SnapshotHashEntry) : Value :=
  object [("id", Str (she_id entry)); ("version", Str (she_version entry)); ("content_hash", Str (she_content_hash entry))].

Fixpoint check_hash_entries (majors : gset (string * N)) (entries : list SnapshotHashEntry) : RegistryResult unit :=
  match entries with
  | [] => Ok ()
  | entry :: rest =>
      validate_semantic_id (she_id entry) ≫= λ _,
      version ← FullVersion.parse (she_version entry);
      if negb (is_sha256_id (she_content_hash entry)) then reject
      else if bool_decide ((she_id entry, fv_major version) ∈ majors) then reject
      else check_hash_entries ({[(she_id entry, fv_major version)]} ∪ majors) rest
  end.

Definition validate_snapshot_hash_entries (entries : list SnapshotHashEntry) : RegistryResult unit :=
  check_hash_entries ∅ entries.

Definition paired_cmp (left right : SnapshotHashEntry * FullVersion) : comparison :=
  match String.compare (she_id left.1) (she_id right.1) with
  | Eq => match FullVersion.cmp left.2 right.2 with
          | Eq => String.compare (she_content_hash left.1) (she_content_hash right.1)
          | c => c
          end
  | c => c
  end.

Definition sort_snapshot_entries (entries : list SnapshotHashEntry) : RegistryResult (list SnapshotHashEntry) :=
  versions ← mapM (λ entry, FullVersion.parse (she_version entry)) entries;
  Ok (sort_by (le_of paired_cmp) (zip entries versions)).*1.

Section identities.

Context `{RL : RegistryLib}.

Definition registry_canonicalize (value : Value) : RegistryResult string :=
  match registry_jcs value with Some bytes => Ok bytes | None => reject end.

Definition domain_separated_sha256 (domain canonical : string) : string :=
  "sha256:" +++ hex (registry_sha256 (domain +++ canonical)).

Definition capability_contract_hash (contract : CapabilityContract) : RegistryResult string :=
  validate_capability_contract contract ≫= λ _,
  view ← capability_contract_semantic_view contract;
  canonical ← registry_canonicalize view;
  Ok (domain_separated_sha256 CAPABILITY_CONTRACT_HASH_DOMAIN canonical).

Definition type_contract_hash (contract : TypeContract) : RegistryResult string :=
  validate_type_contract contract ≫= λ _,
  view ← type_contract_semantic_view contract;
  canonical ← registry_canonicalize view;
  Ok (domain_separated_sha256 TYPE_CONTRACT_HASH_DOMAIN canonical).

Definition snapshot_view (schema_version : string) (types capabilities : list SnapshotHashEntry) : Value :=
  object [("schema_version", Str schema_version); ("type_contracts", Array (snapshot_entry_value <$> types));
          ("capability_contracts", Array (snapshot_entry_value <$> capabilities))].

Definition registry_snapshot_id (schema_version : string) (type_contracts capability_contracts : list SnapshotHashEntry) :
    RegistryResult string :=
  if negb (String.eqb schema_version "0.1") then reject else
  validate_snapshot_hash_entries type_contracts ≫= λ _,
  validate_snapshot_hash_entries capability_contracts ≫= λ _,
  types ← sort_snapshot_entries type_contracts;
  capabilities ← sort_snapshot_entries capability_contracts;
  canonical ← registry_canonicalize (snapshot_view schema_version types capabilities);
  Ok (domain_separated_sha256 REGISTRY_SNAPSHOT_HASH_DOMAIN canonical).

End identities.
