(* ===== verification/ContractIdentity.v ===== *)
(** * What a contract hash identifies

    Equal content hashes of two capability contracts, or of two type contracts, mean that the
    contracts differ at most in prose and in the order of their sets, or that their canonical
    forms are a SHA-256 collision. *)

From Stdlib Require Import SpecFloat.
From S2P Require Import Prelude Json Contracts Version Registry Normalize Hash ContractCheck ContractHash.

(** ** Objects filled in order *)

Lemma assoc_insert_get {V} k k' (v : V) l :
  assoc_get k (assoc_insert k' v l) = if bool_decide (k = k') then Some v else assoc_get k l.
Proof.
  induction l as [|[k1 v1] l IH]; [done|]. simpl. destruct (bool_decide_reflect (k' = k1)) as [<-|Hk]; simpl.
  { by destruct (bool_decide (k = k')). }
  destruct (String.leb k' k1); simpl; [done|]. rewrite IH. repeat case_bool_decide; congruence.
Qed.

Lemma fold_insert_get {V} k entries (m : list (string * V)) : NoDup entries.*1 →
  assoc_get k (foldl (λ m kv, assoc_insert kv.1 kv.2 m) m entries) =
  match assoc_get k entries with Some v => Some v | None => assoc_get k m end.
Proof.
  revert m. induction entries as [|[k1 v1] entries IH]; intros m; simpl; [done|].
  intros [Hk Hnd]%NoDup_cons. rewrite IH, assoc_insert_get by done. case_bool_decide as Hkk; simplify_eq; [|done].
  destruct (assoc_get k1 entries) as [v|] eqn:Hg; [|done]. exfalso. apply Hk.
  by apply assoc_get_elem_of, (list_elem_of_fmap_2 fst) in Hg.
Qed.

Lemma object_get k (entries : list (string * Value)) : NoDup entries.*1 →
  assoc_get k (foldl (λ m kv, assoc_insert kv.1 kv.2 m) [] entries) = assoc_get k entries.
Proof. intros Hnd. rewrite fold_insert_get by done. by destruct (assoc_get k entries). Qed.

(** Equal objects have equal members. *)
Lemma object_inj entries entries' : NoDup entries.*1 → NoDup entries'.*1 → object entries = object entries' →
  ∀ k, assoc_get k entries = assoc_get k entries'.
Proof. intros Hnd Hnd' [= Heq] k. by rewrite <-(object_get k entries), <-(object_get k entries'), Heq. Qed.

Lemma object_same_keys entries entries' : bool_decide (NoDup entries.*1) = true → entries'.*1 = entries.*1 →
  object entries = object entries' → entries = entries'.
Proof.
  intros Hnd%bool_decide_eq_true Hkeys Heq.
  assert (∀ k, assoc_get k entries = assoc_get k entries') as Hget by (apply object_inj; congruence).
  clear Heq. revert entries' Hkeys Hget. induction entries as [|[k v] entries IH]; intros [|[k' v'] entries']; [done..|].
  simpl in *. intros [= -> Hkeys] Hget. apply NoDup_cons in Hnd as [Hk Hnd].
  pose proof (Hget k) as Hv. rewrite !bool_decide_eq_true_2 in Hv by done. injection Hv as <-. f_equal.
  apply IH; [done|done|]. intros j. destruct (decide (j = k)) as [->|Hne].
  - assert (∀ l : Members, l.*1 = entries.*1 → assoc_get k l = None) as Hnone; [|by rewrite !Hnone].
    intros l Hl. destruct (assoc_get k l) eqn:Hg; [|done]. exfalso. apply Hk. change (k ∈ entries.*1). rewrite <-Hl.
    by apply assoc_get_elem_of, (list_elem_of_fmap_2 fst) in Hg.
  - specialize (Hget j). by rewrite !bool_decide_eq_false_2 in Hget.
Qed.

(** ** The views in closed form *)

Definition string_set (l : list string) : Value := Array (sort_by (le_of string_value_cmp) (Str <$> l)).

Definition port_view (kp : string * PortContract) : string * Value :=
  (kp.1, object [("type", Str (port_type_ref kp.2)); ("required", Bool (port_required kp.2))]).

Definition ports_view (ports : gmap string PortContract) : Value := object (port_view <$> btree_iter ports).

Definition determinism_view (d : Determinism) : Value :=
  object [("equivalence", nullable (λ e, Str (DeterminismEquivalence_name e)) (det_equivalence d));
          ("numeric_absolute_tolerance", nullable float_value (det_numeric_absolute_tolerance d));
          ("numeric_relative_tolerance", nullable float_value (det_numeric_relative_tolerance d))].

Definition unit_view (u : UnitSemantics) : Value :=
  object [("unit_required", nullable Bool (unit_required u)); ("canonical_unit", nullable Str (unit_canonical_unit u))].

Definition capability_view (c : CapabilityContract) : list (string * Value) :=
  [("capability", Str (cc_capability c)); ("version", Str (cc_version c)); ("role", Str (CapabilityRole_name (cc_role c)));
   ("inputs", ports_view (cc_inputs c)); ("outputs", ports_view (cc_outputs c));
   ("allowed_execution_classes", string_set (ExecutionClass_name <$> cc_allowed_execution_classes c));
   ("required_effect_classes", string_set (EffectClass_name <$> cc_required_effect_classes c));
   ("allowed_effect_classes", string_set (EffectClass_name <$> cc_allowed_effect_classes c));
   ("required_authority_classes", string_set (cc_required_authority_classes c));
   ("allowed_authority_classes", string_set (cc_allowed_authority_classes c));
   ("allowed_egress_modes", string_set (EgressMode_name <$> cc_allowed_egress_modes c));
   ("determinism", nullable determinism_view (cc_determinism c)); ("error_classes", string_set (cc_error_classes c));
   ("conformance", conformance_value (cc_conformance c))].

Definition type_view (t : TypeContract) : list (string * Value) :=
  [("type_id", Str (tc_type_id t)); ("version", Str (tc_version t)); ("kind", Str (TypeKind_name (tc_kind t)));
   ("logical_schema_ref", nullable Str (tc_logical_schema_ref t)); ("nullable", Bool (tc_nullable t));
   ("representations", Array (sort_by (le_of representation_cmp) (representation_value <$> tc_representations t)));
   ("equality", equality_value (tc_equality t)); ("unit_semantics", nullable unit_view (tc_unit_semantics t));
   ("conversion_capabilities", string_set (tc_conversion_capabilities t));
   ("conformance", conformance_value (tc_conformance t))].

Lemma sorted_string_set_strings l : sorted_string_set (strings l) = Ok (string_set l).
Proof. unfold sorted_string_set, strings. by assert (forallb is_string (Str <$> l) = true) as -> by by induction l. Qed.

Lemma normalize_port_value kp : normalize_port (kp.1, port_value kp.2) = Ok (port_view kp).
Proof. destruct kp as [k [type req [d|]]]; reflexivity. Qed.

Lemma mapM_fmap_ok {E A B C} (f : B → result E C) (g : A → B) (h : A → C) l :
  (∀ x, f (g x) = Ok (h x)) → mapM f (g <$> l) = Ok (h <$> l).
Proof. intros Hf. induction l as [|x l IH]; [done|]. simpl. rewrite Hf. simpl. unfold fmap in IH. by rewrite IH. Qed.

Lemma normalize_ports_value ports : normalize_ports (ports_value ports) = Ok (ports_view ports).
Proof.
  unfold normalize_ports, ports_value. simpl. rewrite (mapM_fmap_ok _ _ port_view); [done|]. intros kp. apply normalize_port_value.
Qed.

Lemma required_object k entries v : bool_decide (NoDup entries.*1) = true → assoc_get k entries = Some v →
  required (foldl (λ m kv, assoc_insert kv.1 kv.2 m) [] entries) k = Ok v.
Proof. intros Hnd%bool_decide_eq_true Hk. unfold required. by rewrite object_get, Hk. Qed.

Lemma get_or_object k entries d : bool_decide (NoDup entries.*1) = true →
  get_or (foldl (λ m kv, assoc_insert kv.1 kv.2 m) [] entries) k d = default d (assoc_get k entries).
Proof. intros Hnd%bool_decide_eq_true. unfold get_or. by rewrite object_get. Qed.

(** Reads the members of a serialized record and normalizes them. *)
Ltac read_members :=
  repeat first
    [ erewrite required_object by (reflexivity || (vm_compute; reflexivity))
    | rewrite get_or_object by (vm_compute; reflexivity)
    | rewrite object_get by (apply (bool_decide_eq_true_1 _); vm_compute; reflexivity)
    | rewrite sorted_string_set_strings | rewrite normalize_ports_value
    | progress cbn [mbind result_bind] ].

Lemma normalize_determinism_value o :
  normalize_determinism (match o with Some d => Some (determinism_value d) | None => None end) = Ok (nullable determinism_view o).
Proof. destruct o as [[[e|] a r]|]; reflexivity. Qed.

Lemma normalize_unit_value o : normalize_unit_semantics (Some (nullable unit_value o)) = Ok (nullable unit_view o).
Proof. destruct o as [[[e|] a r]|]; reflexivity. Qed.

Lemma capability_view_ok c : capability_contract_semantic_view c = Ok (object (capability_view c)).
Proof.
  destruct c as [cap ver desc role ins outs ex re ae ra aa eg det err conf notes].
  pose proof (normalize_determinism_value det) as Hdet.
  unfold capability_contract_semantic_view, capability_value, serialized_object. cbn -[foldl].
  destruct desc as [desc|], det as [det|]; cbn [present app] in *; read_members;
    match goal with |- normalize_determinism ?o ≫= _ = _ => change o with (Some (determinism_value det)) || change o with (@None Value) end;
    rewrite Hdet; read_members; reflexivity.
Qed.

Lemma type_view_ok t : type_contract_semantic_view t = Ok (object (type_view t)).
Proof.
  destruct t as [id ver kind desc sch nul reps eq unit conv conf notes].
  unfold type_contract_semantic_view, type_value, serialized_object. cbn -[foldl]. read_members.
  rewrite (mapM_fmap_ok _ _ representation_value) by (by intros []). read_members.
  change (assoc_get "unit_semantics" _) with (Some (nullable unit_value unit)). rewrite normalize_unit_value. read_members.
  change (normalize_equality (equality_value eq)) with (Ok (E := RegistryError) (equality_value eq)). cbn [mbind result_bind].
  change (default (Array []) _) with (strings conv). read_members. reflexivity.
Qed.

(** ** Views determine contracts up to prose and order *)

#[export] Instance ExecutionClass_name_inj : Inj (=) (=) ExecutionClass_name.
Proof. by intros [] []. Qed.
#[export] Instance EffectClass_name_inj : Inj (=) (=) EffectClass_name.
Proof. by intros [] []. Qed.
#[export] Instance EgressMode_name_inj : Inj (=) (=) EgressMode_name.
Proof. by intros [] []. Qed.
#[export] Instance CapabilityRole_name_inj : Inj (=) (=) CapabilityRole_name.
Proof. by intros [] []. Qed.
#[export] Instance DeterminismEquivalence_name_inj : Inj (=) (=) DeterminismEquivalence_name.
Proof. by intros [] []. Qed.
#[export] Instance TypeKind_name_inj : Inj (=) (=) TypeKind_name.
Proof. by intros [] []. Qed.
#[export] Instance EqualityMode_name_inj : Inj (=) (=) EqualityMode_name.
Proof. by intros [] []. Qed.
#[export] Instance Str_inj : Inj (=) (=) Str.
Proof. by intros x y [= ->]. Qed.

Lemma fmap_perm_inj {A B} (f : A → B) `{!Inj (=) (=) f} l l' : f <$> l ≡ₚ f <$> l' → l ≡ₚ l'.
Proof. intros (l3 & Heq & Hp)%Permutation_map_inv. apply (inj (fmap f)) in Heq as ->. done. Qed.

Lemma string_set_perm l l' : string_set l = string_set l' → l ≡ₚ l'.
Proof.
  intros [= Heq]. apply (fmap_perm_inj Str). by rewrite <-(sort_by_perm (le_of string_value_cmp) (Str <$> l)), Heq, sort_by_perm.
Qed.

Lemma named_set_perm {A} (name : A → string) `{!Inj (=) (=) name} l l' :
  string_set (name <$> l) = string_set (name <$> l') → l ≡ₚ l'.
Proof. intros Hp%string_set_perm. by apply fmap_perm_inj in Hp. Qed.

Lemma nullable_inj {A} (f : A → Value) o o' : (∀ a, f a ≠ Null) → (∀ a b, f a = f b → a = b) →
  nullable f o = nullable f o' → o = o'.
Proof. intros Hn Hf. destruct o, o'; simpl; intros Heq; [f_equal; auto|by apply Hn in Heq|by symmetry in Heq; apply Hn in Heq|done]. Qed.

Lemma nullable_str_inj o o' : nullable Str o = nullable Str o' → o = o'.
Proof. apply nullable_inj; [done|]. apply Str_inj. Qed.

Lemma tolerance_inj o o' : valid_tolerance o = true → valid_tolerance o' = true →
  nullable float_value o = nullable float_value o' → o = o'.
Proof. destruct o as [[]|], o' as [[]|]; simpl; congruence. Qed.

Definition port_semantics (p : PortContract) : string * bool := (port_type_ref p, port_required p).

Lemma NoDup_btree_keys {K V} `{Countable K} `{!OrdKey K} (m : gmap K V) : NoDup (btree_iter m).*1.
Proof. unfold btree_iter. rewrite sort_by_perm. apply NoDup_fst_map_to_list. Qed.

Lemma port_view_get ports k :
  assoc_get k (port_view <$> btree_iter ports) = (λ p, (port_view (k, p)).2) <$> ports !! k.
Proof.
  destruct (ports !! k) as [p|] eqn:Hk; simpl.
  - apply assoc_get_NoDup.
    + rewrite <-list_fmap_compose. apply NoDup_btree_keys.
    + apply list_elem_of_fmap. exists (k, p). split; [done|]. by apply elem_of_btree_iter.
  - destruct (assoc_get _ _) as [v|] eqn:Hg; [|done]. apply assoc_get_elem_of, list_elem_of_fmap in Hg as ([k' p] & [= <- _] & Hin).
    apply elem_of_btree_iter in Hin. congruence.
Qed.

Lemma ports_view_inj ports ports' : ports_view ports = ports_view ports' → port_semantics <$> ports = port_semantics <$> ports'.
Proof.
  intros Heq. apply map_eq. intros k. rewrite !lookup_fmap.
  assert (∀ m : gmap string PortContract, NoDup (port_view <$> btree_iter m).*1) as Hnd.
  { intros m. rewrite <-list_fmap_compose. apply NoDup_btree_keys. }
  pose proof (object_inj _ _ (Hnd ports) (Hnd ports') Heq k) as Hk. rewrite !port_view_get in Hk.
  destruct (ports !! k) as [[]|], (ports' !! k) as [[]|]; simpl in *; [|done..]. by injection Hk as -> ->.
Qed.

(** Two capability contracts that differ at most in prose and in the order of their sets. *)
Record same_capability (c c' : CapabilityContract) : Prop := {
  sc_capability : cc_capability c = cc_capability c';
  sc_version : cc_version c = cc_version c';
  sc_role : cc_role c = cc_role c';
  sc_inputs : port_semantics <$> cc_inputs c = port_semantics <$> cc_inputs c';
  sc_outputs : port_semantics <$> cc_outputs c = port_semantics <$> cc_outputs c';
  sc_execution : cc_allowed_execution_classes c ≡ₚ cc_allowed_execution_classes c';
  sc_required_effects : cc_required_effect_classes c ≡ₚ cc_required_effect_classes c';
  sc_allowed_effects : cc_allowed_effect_classes c ≡ₚ cc_allowed_effect_classes c';
  sc_required_authority : cc_required_authority_classes c ≡ₚ cc_required_authority_classes c';
  sc_allowed_authority : cc_allowed_authority_classes c ≡ₚ cc_allowed_authority_classes c';
  sc_egress : cc_allowed_egress_modes c ≡ₚ cc_allowed_egress_modes c';
  sc_determinism : cc_determinism c = cc_determinism c';
  sc_errors : cc_error_classes c ≡ₚ cc_error_classes c';
  sc_conformance : cc_conformance c = cc_conformance c';
}.

Definition unit_semantics_of (u : UnitSemantics) : option bool * option string := (unit_required u, unit_canonical_unit u).

(** The same for type contracts. *)
Record same_type (t t' : TypeContract) : Prop := {
  st_type_id : tc_type_id t = tc_type_id t';
  st_version : tc_version t = tc_version t';
  st_kind : tc_kind t = tc_kind t';
  st_schema : tc_logical_schema_ref t = tc_logical_schema_ref t';
  st_nullable : tc_nullable t = tc_nullable t';
  st_representations : tc_representations t ≡ₚ tc_representations t';
  st_equality : tc_equality t = tc_equality t';
  st_unit : unit_semantics_of <$> tc_unit_semantics t = unit_semantics_of <$> tc_unit_semantics t';
  st_conversions : tc_conversion_capabilities t ≡ₚ tc_conversion_capabilities t';
  st_conformance : tc_conformance t = tc_conformance t';
}.

Lemma entry_eq {V} (k : string) (v v' : V) l l' : (k, v) :: l = (k, v') :: l' → v = v' ∧ l = l'.
Proof. by intros [= -> ->]. Qed.

(** Equal objects with the same literal keys: their values are equal. *)
Ltac members_eq H :=
  apply object_same_keys in H; [|vm_compute; reflexivity|reflexivity]; repeat (apply entry_eq in H as [? H]); clear H;
  repeat match goal with
         | Hs : Str _ = Str _ |- _ => injection Hs as Hs
         | Hb : Bool _ = Bool _ |- _ => injection Hb as Hb
         end.

#[export] Instance conformance_value_inj : Inj (=) (=) conformance_value.
Proof.
  intros [i v h] [i' v' h'] H. unfold conformance_value in H. members_eq H. simpl in *.
  f_equal; auto using nullable_str_inj.
Qed.

#[export] Instance representation_value_inj : Inj (=) (=) representation_value.
Proof.
  intros [i m s z] [i' m' s' z'] H. unfold representation_value in H. members_eq H. simpl in *.
  f_equal; auto using nullable_str_inj.
Qed.

Definition tolerances_ok (d : Determinism) : Prop :=
  valid_tolerance (det_numeric_absolute_tolerance d) = true ∧ valid_tolerance (det_numeric_relative_tolerance d) = true.

Lemma determinism_view_inj d d' : tolerances_ok d → tolerances_ok d' → determinism_view d = determinism_view d' → d = d'.
Proof.
  destruct d as [e a r], d' as [e' a' r']. intros [Ha Hr] [Ha' Hr'] H. unfold determinism_view in H. members_eq H. simpl in *.
  f_equal; auto using tolerance_inj. eapply (nullable_inj (λ e, Str (DeterminismEquivalence_name e))); [done| |done].
  by intros ? ? [= ?%(inj _)].
Qed.

Lemma equality_value_inj e e' :
  valid_tolerance (te_numeric_absolute_tolerance e) = true → valid_tolerance (te_numeric_relative_tolerance e) = true →
  valid_tolerance (te_numeric_absolute_tolerance e') = true → valid_tolerance (te_numeric_relative_tolerance e') = true →
  equality_value e = equality_value e' → e = e'.
Proof.
  destruct e as [m c a r], e' as [m' c' a' r']. intros ? ? ? ? H. unfold equality_value in H. members_eq H. simpl in *.
  f_equal; auto using nullable_str_inj, tolerance_inj. by apply (inj EqualityMode_name).
Qed.

Lemma unit_view_inj u u' : unit_view u = unit_view u' → unit_semantics_of u = unit_semantics_of u'.
Proof.
  destruct u as [r c n], u' as [r' c' n']. intros H. unfold unit_view in H. members_eq H. unfold unit_semantics_of. simpl in *.
  f_equal; auto using nullable_str_inj. apply (nullable_inj Bool); [done|congruence|done].
Qed.

(** The checks that a chain of guards passed. *)
Ltac passed H := repeat (first [apply result_seq_ok in H as [? H] | apply if_err_ok in H as [? H] | apply result_bind_ok in H as (? & ? & H)]).

Lemma capability_tolerances c d : validate_capability_contract c = Ok () → cc_determinism c = Some d → tolerances_ok d.
Proof.
  intros Hc Hd. unfold validate_capability_contract in Hc. passed Hc.
  match goal with Ht : some_and (cc_determinism c) _ = false |- _ => rename Ht into Htol end.
  rewrite Hd in Htol. simpl in Htol. rewrite orb_false_iff, !negb_false_iff in Htol. exact Htol.
Qed.

Lemma type_tolerances t : validate_type_contract t = Ok () →
  valid_tolerance (te_numeric_absolute_tolerance (tc_equality t)) = true ∧
  valid_tolerance (te_numeric_relative_tolerance (tc_equality t)) = true.
Proof.
  intros Hc. unfold validate_type_contract in Hc. passed Hc.
  match goal with Ht : _ || negb (valid_tolerance _) || negb (valid_tolerance _) || _ = false |- _ => rename Ht into Htol end.
  rewrite !orb_false_iff, !negb_false_iff in Htol. tauto.
Qed.

Lemma determinism_same c c' : validate_capability_contract c = Ok () → validate_capability_contract c' = Ok () →
  nullable determinism_view (cc_determinism c) = nullable determinism_view (cc_determinism c') → cc_determinism c = cc_determinism c'.
Proof.
  intros Hc Hc'. destruct (cc_determinism c) as [d|] eqn:Hd, (cc_determinism c') as [d'|] eqn:Hd'; simpl; [|done..].
  intros Heq. f_equal. eauto using determinism_view_inj, capability_tolerances.
Qed.

Lemma capability_view_same c c' : validate_capability_contract c = Ok () → validate_capability_contract c' = Ok () →
  object (capability_view c) = object (capability_view c') → same_capability c c'.
Proof.
  intros Hc Hc' H. members_eq H.
  constructor; eauto using ports_view_inj, string_set_perm, determinism_same;
    first [by apply (inj CapabilityRole_name)|by apply (inj conformance_value)
          |eapply (named_set_perm ExecutionClass_name); eassumption|eapply (named_set_perm EffectClass_name); eassumption
          |eapply (named_set_perm EgressMode_name); eassumption].
Qed.

Lemma type_view_same t t' : validate_type_contract t = Ok () → validate_type_contract t' = Ok () →
  object (type_view t) = object (type_view t') → same_type t t'.
Proof.
  intros [Ha Hr]%type_tolerances [Ha' Hr']%type_tolerances H. members_eq H.
  constructor; eauto using string_set_perm, nullable_str_inj, equality_value_inj;
    first [by apply (inj TypeKind_name)|by apply (inj conformance_value)|idtac].
  - apply (fmap_perm_inj representation_value).
    rewrite <-(sort_by_perm (le_of representation_cmp) (representation_value <$> tc_representations t)).
    match goal with Hs : Array (sort_by _ _) = Array (sort_by _ _) |- _ => injection Hs as -> end. by rewrite sort_by_perm.
  - destruct (tc_unit_semantics t), (tc_unit_semantics t'); simpl in *; [|done..]. f_equal. by apply unit_view_inj.
Qed.

(** ** Hashes *)

(** A value whose canonical form is unambiguous: its numbers are floats, and none is minus zero (RFC 8785 writes
    [-0] as [0], and a float and an integer of the same value alike). *)
Fixpoint jcs_exact (v : Value) : bool :=
  match v with
  | Null | Bool _ | Str _ => true
  | Num (Float (S754_zero negative)) => negb negative
  | Num (Float _) => true
  | Num _ => false
  | Array vs => forallb jcs_exact vs
  | Object ms => forallb (λ kv, jcs_exact kv.2) ms
  end.

Definition exact_tolerance (o : option spec_float) : bool :=
  match o with Some (S754_zero true) => false | _ => true end.

Definition exact_capability (c : CapabilityContract) : bool :=
  match cc_determinism c with
  | Some d => exact_tolerance (det_numeric_absolute_tolerance d) && exact_tolerance (det_numeric_relative_tolerance d)
  | None => true
  end.

Definition exact_type (t : TypeContract) : bool :=
  exact_tolerance (te_numeric_absolute_tolerance (tc_equality t)) && exact_tolerance (te_numeric_relative_tolerance (tc_equality t)).

Lemma assoc_insert_exact k v ms : jcs_exact v = true → forallb (λ kv, jcs_exact kv.2) ms = true →
  forallb (λ kv, jcs_exact kv.2) (assoc_insert k v ms) = true.
Proof.
  intros Hv. induction ms as [|[k' v'] ms IH]; simpl; [by rewrite Hv|]. rewrite andb_true_iff. intros [Hv' Hms].
  case_bool_decide; [simpl; by rewrite Hv, Hms|]. destruct (String.leb k k'); simpl; rewrite ?Hv, ?Hv', ?Hms; auto.
Qed.

Lemma object_exact entries : forallb (λ kv, jcs_exact kv.2) entries = true → jcs_exact (object entries) = true.
Proof.
  unfold object. simpl. assert (forallb (λ kv : string * Value, jcs_exact kv.2) [] = true) as H0 by done. revert H0.
  generalize (@nil (string * Value)). induction entries as [|[k v] entries IH]; intros ms Hms; simpl; [done|].
  rewrite andb_true_iff. intros [Hv Hes]. apply IH; [|done]. by apply assoc_insert_exact.
Qed.

Lemma forallb_sort_by {A} (p : A → bool) leb l : forallb p (sort_by leb l) = forallb p l.
Proof. apply eq_true_iff_eq. rewrite !forallb_forall. setoid_rewrite <-list_elem_of_In. by setoid_rewrite elem_of_sort_by. Qed.

Lemma forallb_fmap_true {A B} (p : B → bool) (f : A → B) l : (∀ x, p (f x) = true) → forallb p (f <$> l) = true.
Proof. intros Hp. induction l as [|x l IH]; [done|]. simpl. by rewrite Hp. Qed.

Lemma string_set_exact l : jcs_exact (string_set l) = true.
Proof. unfold string_set. cbn [jcs_exact]. rewrite forallb_sort_by. by apply forallb_fmap_true. Qed.

Lemma ports_view_exact ports : jcs_exact (ports_view ports) = true.
Proof. apply object_exact, forallb_fmap_true. by intros [k []]. Qed.

Lemma nullable_exact {A} (f : A → Value) o : (∀ a, o = Some a → jcs_exact (f a) = true) → jcs_exact (nullable f o) = true.
Proof. destruct o; simpl; auto. Qed.

Lemma float_tolerance_exact o : exact_tolerance o = true → jcs_exact (nullable float_value o) = true.
Proof. by destruct o as [[[]|[]| |]|]. Qed.

Lemma nullable_str_exact o : jcs_exact (nullable Str o) = true.
Proof. by destruct o. Qed.

Lemma conformance_exact c : jcs_exact (conformance_value c) = true.
Proof. apply object_exact. simpl. by rewrite !nullable_str_exact. Qed.

Lemma capability_view_exact c : exact_capability c = true → jcs_exact (object (capability_view c)) = true.
Proof.
  intros Hc. apply object_exact. cbn [capability_view forallb snd].
  rewrite !ports_view_exact, !string_set_exact, conformance_exact, nullable_exact; [done|].
  intros d Hd. unfold exact_capability in Hc. rewrite Hd, andb_true_iff in Hc. destruct Hc as [Ha Hr].
  apply object_exact. cbn [forallb snd]. rewrite !float_tolerance_exact by done. by destruct (det_equivalence d).
Qed.

Lemma type_view_exact t : exact_type t = true → jcs_exact (object (type_view t)) = true.
Proof.
  unfold exact_type. rewrite andb_true_iff. intros [Ha Hr]. apply object_exact. cbn [type_view forallb snd jcs_exact].
  rewrite forallb_sort_by, string_set_exact, conformance_exact, nullable_str_exact, !nullable_exact, forallb_fmap_true.
  - assert (jcs_exact (equality_value (tc_equality t)) = true) as ->; [|done]. apply object_exact. cbn [forallb snd].
    by rewrite !float_tolerance_exact, nullable_str_exact.
  - intros r. apply object_exact. cbn [forallb snd]. by rewrite !nullable_str_exact.
  - intros u _. apply object_exact. cbn [forallb snd]. rewrite nullable_str_exact. by destruct (unit_required u).
Qed.

Section hashes.

Context `{RL : RegistryLib}.

(** RFC 8785: unambiguous values with the same canonical form are equal. *)
Definition registry_jcs_injective : Prop :=
  ∀ v w s, jcs_exact v = true → jcs_exact w = true → registry_jcs v = Some s → registry_jcs w = Some s → v = w.

(** The canonical forms of two values are different inputs with the same digest. *)
Definition hash_collision (d : string) (v w : Value) : Prop :=
  ∃ s t, registry_jcs v = Some s ∧ registry_jcs w = Some t ∧ s ≠ t ∧ registry_sha256 (d +++ s) = registry_sha256 (d +++ t).

(** Equal hashes in a domain come from equal values, or the values collide. *)
Lemma domain_hash_inj d v w s t : registry_jcs_injective → jcs_exact v = true → jcs_exact w = true →
  registry_canonicalize v = Ok s → registry_canonicalize w = Ok t →
  domain_separated_sha256 d s = domain_separated_sha256 d t → v = w ∨ hash_collision d v w.
Proof.
  intros Hinj Hv Hw Hs Ht Heq. unfold registry_canonicalize in *.
  destruct (registry_jcs v) as [s'|] eqn:Hsv; [|done]. destruct (registry_jcs w) as [t'|] eqn:Htw; [|done]. simplify_eq.
  destruct (decide (s = t)) as [->|Hne]; [left; by eapply Hinj|]. right. exists s, t. split_and!; [done..|]. by apply hex_inj.
Qed.

(** The views of two contracts are a collision. *)
Definition capability_collision (c c' : CapabilityContract) : Prop :=
  hash_collision CAPABILITY_CONTRACT_HASH_DOMAIN (object (capability_view c)) (object (capability_view c')).

Definition type_collision (t t' : TypeContract) : Prop :=
  hash_collision TYPE_CONTRACT_HASH_DOMAIN (object (type_view t)) (object (type_view t')).

Lemma capability_hash_inj c c' h : registry_jcs_injective → exact_capability c = true → exact_capability c' = true →
  capability_contract_hash c = Ok h → capability_contract_hash c' = Ok h → same_capability c c' ∨ capability_collision c c'.
Proof.
  intros Hinj He He'. unfold capability_contract_hash. rewrite !capability_view_ok, !result_seq_ok. simpl.
  intros [Hv (s & Hs & Hh)%result_bind_ok] [Hv' (t & Ht & Hh')%result_bind_ok].
  destruct (domain_hash_inj CAPABILITY_CONTRACT_HASH_DOMAIN _ _ _ _ Hinj (capability_view_exact _ He) (capability_view_exact _ He')
              Hs Ht) as [Hview|]; [congruence| |by right]. left. by apply capability_view_same.
Qed.

Lemma type_hash_inj t t' h : registry_jcs_injective → exact_type t = true → exact_type t' = true →
  type_contract_hash t = Ok h → type_contract_hash t' = Ok h → same_type t t' ∨ type_collision t t'.
Proof.
  intros Hinj He He'. unfold type_contract_hash. rewrite !type_view_ok, !result_seq_ok. simpl.
  intros [Hv (s & Hs & Hh)%result_bind_ok] [Hv' (u & Hu & Hh')%result_bind_ok].
  destruct (domain_hash_inj TYPE_CONTRACT_HASH_DOMAIN _ _ _ _ Hinj (type_view_exact _ He) (type_view_exact _ He')
              Hs Hu) as [Hview|]; [congruence| |by right]. left. by apply type_view_same.
Qed.

End hashes.
