(* ===== verification/Loader.v ===== *)
(** * Building a registry

    [build_registry] of [crates/aios-registry/src/loader.rs] ([SemanticRegistry::from_records]):
    from a snapshot and the contracts supplied for it to the immutable registry that
    validation uses.  Maps are iterated in the order of their keys. *)

From S2P Require Import Prelude Json Contracts Version Registry Normalize Hash ContractCheck ContractHash.

(** ** Keys *)

(** Pairs in lexicographic order. *)
Section pairs.

Context {K L : Type} `{EqDecision K} `{OK : OrdKey K} `{OL : OrdKey L}.

Definition pair_leb (a b : K * L) : bool := if bool_decide (a.1 = b.1) then key_leb a.2 b.2 else key_leb a.1 b.1.

#[export, program] Instance pair_ord_key : OrdKey (K * L) := {| key_leb := pair_leb |}.
Next Obligation.
  intros [a a'] [b b']. unfold pair_leb. simpl. repeat case_bool_decide; simplify_eq; auto using key_leb_total.
Qed.
Next Obligation.
  intros [a a'] [b b'] [c c']. unfold pair_leb. simpl. intros Hab Hbc.
  destruct (decide (a = b)) as [<-|Hab'].
  - rewrite (bool_decide_eq_true_2 (a = a)) in Hab by done. destruct (decide (a = c)) as [<-|].
    + rewrite !(bool_decide_eq_true_2 (a = a)) in * by done. by eapply key_leb_trans.
    + by rewrite !(bool_decide_eq_false_2 (a = c)) in *.
  - rewrite (bool_decide_eq_false_2 (a = b)) in Hab by done. destruct (decide (b = c)) as [<-|Hbc'].
    + by rewrite (bool_decide_eq_false_2 (a = b)).
    + rewrite (bool_decide_eq_false_2 (b = c)) in Hbc by done. rewrite bool_decide_eq_false_2.
      * by eapply key_leb_trans.
      * intros <-. apply Hab'. by apply key_leb_antisym.
Qed.
Next Obligation.
  intros [a a'] [b b']. unfold pair_leb. simpl. intros Hab Hba.
  destruct (decide (a = b)) as [<-|Hne].
  - rewrite !(bool_decide_eq_true_2 (a = a)) in * by done. f_equal. by apply key_leb_antisym.
  - rewrite (bool_decide_eq_false_2 (a = b)) in Hab by done. rewrite (bool_decide_eq_false_2 (b = a)) in Hba by done.
    exfalso. apply Hne. by apply key_leb_antisym.
Qed.

End pairs.

#[export, program] Instance N_ord_key : OrdKey N := {| key_leb := N.leb |}.
Next Obligation. intros a b. rewrite !N.leb_le. lia. Qed.
Next Obligation. intros a b c. rewrite !N.leb_le. lia. Qed.
Next Obligation. intros a b. rewrite !N.leb_le. lia. Qed.

(** ** Limits *)

Definition usize_max : N := 18446744073709551615.

Record RegistryBuildOptions := { bo_hash_verification : HashVerificationMode; bo_max_contracts : N }.

Definition enforce_contract_count (actual maximum : N) : RegistryResult unit :=
  if (maximum <? actual)%N then reject else Ok ().

Definition checked_contract_count (left right : N) : RegistryResult N :=
  if (usize_max <? left + right)%N then reject else Ok (left + right)%N.

(** ** Indexes *)

Inductive ContractKind := KindType | KindCapability.

Definition duplicate_major (kind : ContractKind) : ValidatorReasonCode :=
  match kind with KindType => RegistryDuplicateTypeMajor | KindCapability => RegistryDuplicateCapabilityMajor end.

(** [BTreeMap::insert] that must be fresh, in a loop. *)
Fixpoint index_by {K V A : Type} `{Countable K} (key : A → RegistryResult K) (value : A → V) (error : RegistryError)
    (indexed : gmap K V) (l : list A) : RegistryResult (gmap K V) :=
  match l with
  | [] => Ok indexed
  | x :: rest =>
      k ← key x;
      if bool_decide (is_Some (indexed !! k)) then Err error
      else index_by key value error (<[k := value x]> indexed) rest
  end.

Definition entry_key (entry : ContractRef) : RegistryResult (string * N) :=
  validate_contract_ref entry ≫= λ _,
  version ← FullVersion.parse (cr_version entry);
  Ok (cr_id entry, fv_major version).

Definition index_snapshot_entries (entries : list ContractRef) (kind : ContractKind) :
    RegistryResult (gmap (string * N) ContractRef) :=
  index_by entry_key id (RegistryError.validation (duplicate_major kind)) ∅ entries.

Definition index_supplied_types (contracts : list TypeContract) : RegistryResult (gmap (string * string) TypeContract) :=
  index_by (λ t, Ok (tc_type_id t, tc_version t)) id RegistryError.schema ∅ contracts.

Definition index_supplied_capabilities (contracts : list CapabilityContract) :
    RegistryResult (gmap (string * string) CapabilityContract) :=
  index_by (λ c, Ok (cc_capability c, cc_version c)) id RegistryError.schema ∅ contracts.

(** ** Admission of the active contracts *)

Definition verify_hash (mismatch : ValidatorReasonCode) (declared computed : string) (mode : HashVerificationMode) :
    RegistryResult unit :=
  if String.eqb declared computed || (bool_decide (mode = BootstrapGenerate) && is_obvious_placeholder_hash declared)
  then Ok () else refuse mismatch.

Definition verify_declared_hash : string → string → HashVerificationMode → RegistryResult unit :=
  verify_hash RegistryContractHashMismatch.

Definition verify_snapshot_hash : string → string → HashVerificationMode → RegistryResult unit :=
  verify_hash RegistrySnapshotHashMismatch.

(** The supplied contract of an entry. *)
Definition supplied {C} (index : gmap (string * string) C) (entry : ContractRef) : RegistryResult C :=
  match index !! (cr_id entry, cr_version entry) with
  | Some contract => Ok contract
  | None =>
      if existsb (λ k : string * string, String.eqb k.1 (cr_id entry)) (map_to_list index).*1
      then refuse RegistryContractVersionMismatch else refuse RegistryEntryNotFound
  end.

Definition normalized_ref (entry : ContractRef) (computed : string) : ContractRef :=
  {| cr_id := cr_id entry; cr_version := cr_version entry; cr_content_hash := computed; cr_source := cr_source entry |}.

(** What one kind of contract has accumulated: the active contracts, their hashes, and the entries. *)
Record Active (C : Type) := {
  active_contracts : gmap (string * N) C;
  active_hashes : gmap (string * N) string;
  active_refs : list ContractRef;
}.
Arguments active_contracts {_} _.
Arguments active_hashes {_} _.
Arguments active_refs {_} _.

Definition no_active {C} : Active C := {| active_contracts := ∅; active_hashes := ∅; active_refs := [] |}.

Section build.

Context `{RL : RegistryLib}.

Section admission.

(** A kind of contract: its checks, identity, version and hash. *)
Context {C : Type} (validate : C → RegistryResult unit) (identity version : C → string) (hash : C → RegistryResult string).
Context (mode : HashVerificationMode) (index : gmap (string * string) C).

Definition admit_entry (active : Active C) (item : string * N * ContractRef) : RegistryResult (Active C) :=
  let '(id, major, entry) := item in
  contract ← supplied index entry;
  validate contract ≫= λ _,
  contract_version ← FullVersion.parse (version contract);
  if negb (String.eqb (identity contract) (cr_id entry)) || negb (String.eqb (version contract) (cr_version entry)) ||
     negb (fv_major contract_version =? major)%N
  then refuse RegistryContractVersionMismatch else
  computed ← hash contract;
  verify_declared_hash (cr_content_hash entry) computed mode ≫= λ _,
  Ok {| active_contracts := <[(id, major) := contract]> (active_contracts active);
        active_hashes := <[(id, major) := computed]> (active_hashes active);
        active_refs := active_refs active ++ [normalized_ref entry computed] |}.

Fixpoint admit_entries (active : Active C) (items : list (string * N * ContractRef)) : RegistryResult (Active C) :=
  match items with
  | [] => Ok active
  | item :: rest => active' ← admit_entry active item; admit_entries active' rest
  end.

End admission.

Definition admit_types (mode : HashVerificationMode) (index : gmap (string * string) TypeContract)
    (entries : gmap (string * N) ContractRef) : RegistryResult (Active TypeContract) :=
  admit_entries validate_type_contract tc_type_id tc_version type_contract_hash mode index no_active (btree_iter entries).

Definition admit_capabilities (mode : HashVerificationMode) (index : gmap (string * string) CapabilityContract)
    (entries : gmap (string * N) ContractRef) : RegistryResult (Active CapabilityContract) :=
  admit_entries validate_capability_contract cc_capability cc_version capability_contract_hash mode index no_active
    (btree_iter entries).

(** ** Cross references *)

Definition port_types (capability : CapabilityContract) : list string :=
  port_type_ref <$> (btree_values (cc_inputs capability) ++ btree_values (cc_outputs capability)).

Definition check_conversion (capabilities : gmap (string * N) CapabilityContract) (contract : TypeContract) (major : N)
    (reference : string) : RegistryResult unit :=
  reference ← SemanticRef.parse reference;
  match capabilities !! (sr_id reference, sr_major reference) with
  | None => refuse RegistryEntryNotFound
  | Some capability =>
      refs ← mapM SemanticRef.parse (port_types capability);
      if existsb (λ r, String.eqb (sr_id r) (tc_type_id contract) && (sr_major r =? major)%N) refs then Ok () else reject
  end.

Definition check_type_references (capabilities : gmap (string * N) CapabilityContract) (contract : TypeContract) :
    RegistryResult unit :=
  declaring_version ← FullVersion.parse (tc_version contract);
  try_each (tc_conversion_capabilities contract) (check_conversion capabilities contract (fv_major declaring_version)).

Definition check_port_type (types : gmap (string * N) TypeContract) (type_ref : string) : RegistryResult unit :=
  reference ← SemanticRef.parse type_ref;
  if bool_decide (is_Some (types !! (sr_id reference, sr_major reference))) then Ok () else refuse RegistryEntryNotFound.

Definition validate_cross_references (types : gmap (string * N) TypeContract)
    (capabilities : gmap (string * N) CapabilityContract) : RegistryResult unit :=
  try_each (btree_values types) (check_type_references capabilities) ≫= λ _,
  try_each (btree_values capabilities) (λ c, try_each (port_types c) (check_port_type types)).

(** ** The registry *)

Definition snapshot_hash_entry (entry : ContractRef) : SnapshotHashEntry :=
  {| she_id := cr_id entry; she_version := cr_version entry; she_content_hash := cr_content_hash entry |}.

Definition len {A} (l : list A) : N := N.of_nat (length l).

Definition build_registry (snapshot : RegistrySnapshot) (type_contracts : list TypeContract)
    (capability_contracts : list CapabilityContract) (options : RegistryBuildOptions) : RegistryResult SemanticRegistry :=
  validate_snapshot_header snapshot ≫= λ _,
  snapshot_contract_count ← checked_contract_count (len (rs_type_contracts snapshot)) (len (rs_capability_contracts snapshot));
  enforce_contract_count snapshot_contract_count (bo_max_contracts options) ≫= λ _,
  supplied_contract_count ← checked_contract_count (len type_contracts) (len capability_contracts);
  enforce_contract_count supplied_contract_count (bo_max_contracts options) ≫= λ _,
  schema_validate SnapshotRecord (snapshot_value snapshot) ≫= λ _,
  try_each type_contracts (λ t, schema_validate TypeRecord (type_value t)) ≫= λ _,
  try_each capability_contracts (λ c, schema_validate CapabilityRecord (capability_value c)) ≫= λ _,
  type_entries ← index_snapshot_entries (rs_type_contracts snapshot) KindType;
  capability_entries ← index_snapshot_entries (rs_capability_contracts snapshot) KindCapability;
  supplied_types ← index_supplied_types type_contracts;
  supplied_capabilities ← index_supplied_capabilities capability_contracts;
  types ← admit_types (bo_hash_verification options) supplied_types type_entries;
  capabilities ← admit_capabilities (bo_hash_verification options) supplied_capabilities capability_entries;
  validate_cross_references (active_contracts types) (active_contracts capabilities) ≫= λ _,
  computed_snapshot_id ← registry_snapshot_id (rs_schema_version snapshot) (snapshot_hash_entry <$> active_refs types)
                           (snapshot_hash_entry <$> active_refs capabilities);
  verify_snapshot_hash (rs_snapshot_id snapshot) computed_snapshot_id (bo_hash_verification options) ≫= λ _,
  Ok {| reg_snapshot :=
          {| rs_schema_version := rs_schema_version snapshot; rs_snapshot_id := computed_snapshot_id;
             rs_generation := rs_generation snapshot; rs_type_contracts := active_refs types;
             rs_capability_contracts := active_refs capabilities; rs_created_at := rs_created_at snapshot;
             rs_publisher := rs_publisher snapshot; rs_notes := rs_notes snapshot |};
        reg_snapshot_id := computed_snapshot_id; reg_hash_verification := bo_hash_verification options;
        reg_types := active_contracts types; reg_capabilities := active_contracts capabilities;
        reg_type_hashes := active_hashes types; reg_capability_hashes := active_hashes capabilities |}.

End build.

(** ** Order of the supplied contracts *)

Section perm.

Context {K V A : Type} `{Countable K} (key : A → RegistryResult K) (value : A → V) (error : RegistryError).

(** Success does not depend on the order. *)
Lemma index_by_perm m l l' m' : l ≡ₚ l' → index_by key value error m l = Ok m' → index_by key value error m l' = Ok m'.
Proof.
  intros Hp. revert m. induction Hp as [|x l l' _ IH|x y l|l1 l2 l3 _ IH1 _ IH2]; intros m; [done| | |eauto]; simpl.
  - intros (k & Hk & Hi)%result_bind_ok. rewrite Hk. simpl. apply if_err_ok in Hi as [-> Hi]. by apply IH.
  - intros (ky & Hky & Hi)%result_bind_ok. apply if_err_ok in Hi as [Hfy%bool_decide_eq_false Hi].
    apply result_bind_ok in Hi as (kx & Hkx & Hi). apply if_err_ok in Hi as [Hfx%bool_decide_eq_false Hi].
    assert (kx ≠ ky) as Hne by (intros ->; apply Hfx; rewrite lookup_insert_eq; eauto).
    rewrite lookup_insert_ne in Hfx by done.
    rewrite Hkx. simpl. rewrite bool_decide_eq_false_2 by done. rewrite Hky. simpl.
    rewrite bool_decide_eq_false_2 by by rewrite lookup_insert_ne. by rewrite insert_insert_ne.
Qed.

End perm.

Lemma try_each_perm {E A} (l l' : list A) (body : A → result E unit) : l ≡ₚ l' →
  try_each l body = Ok () → try_each l' body = Ok ().
Proof. intros Hp. rewrite !try_each_ok. intros Hl x Hx. apply Hl. by rewrite Hp. Qed.

Section order.

Context `{RL : RegistryLib}.

(** The order in which contracts are supplied is irrelevant: a registry built from one order is built, with the
    same identity, hashes and contracts, from every other. *)
Theorem build_registry_order snapshot ts ts' cs cs' options r : ts ≡ₚ ts' → cs ≡ₚ cs' →
  build_registry snapshot ts cs options = Ok r → build_registry snapshot ts' cs' options = Ok r.
Proof.
  intros Ht Hc. unfold build_registry, len. rewrite <-(Permutation_length Ht), <-(Permutation_length Hc).
  intros [Hh H]%result_seq_ok. apply result_bind_ok in H as (n & Hn & [Hmn H]%result_seq_ok).
  apply result_bind_ok in H as (m & Hm & [Hmm [Hss [Hst [Hsc H]%result_seq_ok]%result_seq_ok]%result_seq_ok]%result_seq_ok).
  apply result_bind_ok in H as (te & Hte & (ce & Hce & (st & Hist & (sc & Hisc & H)%result_bind_ok)%result_bind_ok)%result_bind_ok).
  rewrite Hh, Hn. simpl. rewrite Hmn, Hm. simpl. rewrite Hmm, Hss. simpl.
  rewrite (try_each_perm _ _ _ Ht Hst), (try_each_perm _ _ _ Hc Hsc), Hte, Hce. simpl.
  unfold index_supplied_types, index_supplied_capabilities in *.
  rewrite (index_by_perm _ _ _ _ _ _ _ Ht Hist). simpl. by rewrite (index_by_perm _ _ _ _ _ _ _ Hc Hisc).
Qed.

End order.
