(* ===== verification/RegistryIdentity.v ===== *)
(** * What a built registry is

    The theorems on [build_registry]: a registry that is built is closed under its references
    and holds only admitted contracts under their own identities ([built_registry_closed]); its
    snapshot identity determines its contracts up to prose and order, or a SHA-256 collision is
    exhibited ([snapshot_identity_binding]). *)

From Stdlib Require Import SpecFloat.
From S2P Require Import Prelude Json Contracts Version Registry Normalize Hash ContractCheck ContractHash ContractIdentity Loader.

(** ** Indexes *)

Section index.

Context {K V A : Type} `{Countable K} (key : A → RegistryResult K) (value : A → V) (error : RegistryError).

Lemma index_by_lookup m l m' : index_by key value error m l = Ok m' →
  ∀ k v, m' !! k = Some v ↔ m !! k = Some v ∨ ∃ x, x ∈ l ∧ key x = Ok k ∧ v = value x.
Proof.
  revert m. induction l as [|x l IH]; intros m; simpl.
  { intros [= <-] k v. split; [by left|]. intros [?|(x & Hx & _)]; [done|by apply elem_of_nil in Hx]. }
  intros (k0 & Hk0 & Hi)%result_bind_ok k v. apply if_err_ok in Hi as [Hfresh%bool_decide_eq_false Hi].
  rewrite (IH _ Hi). split.
  - intros [[[-> <-]|[Hne Hm]]%lookup_insert_Some|(y & Hy & Hky & ->)].
    + right. exists x. split; [by left|done].
    + by left.
    + right. exists y. split; [by right|done].
  - intros [Hm|(y & [->|Hy]%elem_of_cons & Hky & ->)].
    + left. apply lookup_insert_Some. right. split; [|done]. intros <-. apply Hfresh. by exists v.
    + left. apply lookup_insert_Some. left. split; [congruence|done].
    + right. by exists y.
Qed.

End index.

(** ** Admission *)

Section admission.

Context {C : Type} (validate : C → RegistryResult unit) (identity version : C → string) (hash : C → RegistryResult string).
Context (mode : HashVerificationMode) (index : gmap (string * string) C).

(** An entry is admitted with this contract and hash. *)
Record admits (k : string * N) (entry : ContractRef) (c : C) (h : string) : Prop := {
  ad_supplied : supplied index entry = Ok c;
  ad_valid : validate c = Ok ();
  ad_identity : identity c = cr_id entry;
  ad_version : version c = cr_version entry;
  ad_major : ∃ v, FullVersion.parse (version c) = Ok v ∧ fv_major v = k.2;
  ad_hash : hash c = Ok h;
  ad_declared : verify_declared_hash (cr_content_hash entry) h mode = Ok ();
}.

Lemma admits_functional k k' entry c c' h h' : admits k entry c h → admits k' entry c' h' → c = c' ∧ h = h'.
Proof. intros [] []. assert (c = c') as -> by congruence. split; congruence. Qed.

Lemma admit_entry_ok active k entry active' :
  admit_entry validate identity version hash mode index active (k, entry) = Ok active' ↔
  ∃ c h, admits k entry c h ∧
    active' = {| active_contracts := <[k := c]> (active_contracts active); active_hashes := <[k := h]> (active_hashes active);
                 active_refs := active_refs active ++ [normalized_ref entry h] |}.
Proof.
  destruct k as [id major]. unfold admit_entry. rewrite result_bind_ok. setoid_rewrite result_seq_ok.
  setoid_rewrite result_bind_ok. setoid_rewrite if_err_ok. setoid_rewrite orb_false_iff. setoid_rewrite orb_false_iff.
  setoid_rewrite negb_false_iff. setoid_rewrite String.eqb_eq. setoid_rewrite N.eqb_eq. setoid_rewrite result_bind_ok.
  setoid_rewrite result_seq_ok. split.
  - intros (c & Hs & Hv & v & Hp & ((Hi & Hve) & Hm) & h & Hh & Hd & [= <-]). exists c, h. split; [|done].
    constructor; eauto.
  - intros (c & h & [Hs Hv Hi Hve (v & Hp & Hm) Hh Hd] & ->). exists c. split_and!; [done..|]. exists v.
    split_and!; [done..|]. exists h. done.
Qed.

(** One more key in front of a list of distinct keys. *)
Lemma insert_front_lookup {X} (P : string * N → ContractRef → X → Prop) (m : gmap (string * N) X) k0 e0 x0
    (items : list (string * N * ContractRef)) :
  (k0 ∉ items.*1) → P k0 e0 x0 → (∀ x, P k0 e0 x → x = x0) → ∀ k x,
  ((k ∉ items.*1) ∧ <[k0 := x0]> m !! k = Some x ∨ ∃ e, (k, e) ∈ items ∧ P k e x) ↔
  ((k ∉ k0 :: items.*1) ∧ m !! k = Some x ∨ ∃ e, (k, e) ∈ (k0, e0) :: items ∧ P k e x).
Proof.
  intros Hk0 HP Hfun k x. split.
  - intros [[Hnk [[<- <-]|[Hne Hk]]%lookup_insert_Some]|(e & Hin & He)].
    + right. exists e0. split; [by left|done].
    + left. split; [|done]. intros [->|?]%elem_of_cons; done.
    + right. exists e. split; [by right|done].
  - intros [[[Hne Hnk]%not_elem_of_cons Hk]|(e & [[= -> ->]|Hin]%elem_of_cons & He)].
    + left. split; [done|]. by rewrite lookup_insert_ne.
    + left. split; [done|]. apply Hfun in He as ->. apply lookup_insert_eq.
    + right. by exists e.
Qed.

(** The active contracts after a list of entries with distinct keys. *)
Lemma admit_entries_ok items : NoDup items.*1 → ∀ active active',
  admit_entries validate identity version hash mode index active items = Ok active' →
  (∀ item, item ∈ items → ∃ c h, admits item.1 item.2 c h) ∧
  (∀ k c, active_contracts active' !! k = Some c ↔
     (k ∉ items.*1) ∧ active_contracts active !! k = Some c ∨ ∃ entry, (k, entry) ∈ items ∧ ∃ h, admits k entry c h) ∧
  (∀ k h, active_hashes active' !! k = Some h ↔
     (k ∉ items.*1) ∧ active_hashes active !! k = Some h ∨ ∃ entry, (k, entry) ∈ items ∧ ∃ c, admits k entry c h) ∧
  ∃ refs, active_refs active' = active_refs active ++ refs ∧
    Forall2 (λ item r, ∃ c h, admits item.1 item.2 c h ∧ r = normalized_ref item.2 h) items refs.
Proof.
  induction items as [|[k0 entry0] items IH]; intros Hnd active active'; simpl.
  { intros [= <-]. split_and!; [by intros ? ?%elem_of_nil|set_solver|set_solver|].
    exists []. by rewrite app_nil_r. }
  simpl in Hnd. apply NoDup_cons in Hnd as [Hk0 Hnd].
  intros (active1 & (c0 & h0 & Had & ->)%admit_entry_ok & Hi)%result_bind_ok.
  destruct (IH Hnd _ _ Hi) as (Hall & Hc & Hh & refs & Hr & Hrefs).
  cbn [active_contracts active_hashes active_refs] in *. split_and!.
  - intros item [->|Hit]%elem_of_cons; eauto.
  - intros k c. rewrite Hc. apply (insert_front_lookup (λ k e c, ∃ h, admits k e c h)); [done|eauto|].
    intros x [h Hx]. by destruct (admits_functional _ _ _ _ _ _ _ Hx Had).
  - intros k h. rewrite Hh. apply (insert_front_lookup (λ k e h, ∃ c, admits k e c h)); [done|eauto|].
    intros x [c Hx]. by destruct (admits_functional _ _ _ _ _ _ _ Hx Had).
  - exists (normalized_ref entry0 h0 :: refs). rewrite Hr, <-app_assoc. split; [done|]. constructor; [|done]. by exists c0, h0.
Qed.

(** The active contracts are the admitted entries of the snapshot. *)
Lemma admit_map_ok (entries : gmap (string * N) ContractRef) active :
  admit_entries validate identity version hash mode index no_active (btree_iter entries) = Ok active →
  (∀ k entry, entries !! k = Some entry →
     ∃ c h, admits k entry c h ∧ active_contracts active !! k = Some c ∧ active_hashes active !! k = Some h) ∧
  (∀ k c, active_contracts active !! k = Some c → ∃ entry, entries !! k = Some entry) ∧
  (∀ r, r ∈ active_refs active ↔ ∃ k entry c h, entries !! k = Some entry ∧ admits k entry c h ∧ r = normalized_ref entry h).
Proof.
  intros (Hall & Hc & Hh & refs & Hr & Hrefs)%admit_entries_ok; [|apply NoDup_btree_keys]. split_and!.
  - intros k entry Hk%elem_of_btree_iter. destruct (Hall _ Hk) as (c & h & Had). exists c, h. split; [done|].
    rewrite Hc, Hh. split; right; eauto.
  - intros k c. rewrite Hc. intros [[_ Hn]|(entry & Hin & _)]; [done|]. exists entry. by apply elem_of_btree_iter.
  - intros r. rewrite Hr. simpl. split.
    + intros [i Hi]%list_elem_of_lookup. destruct (Forall2_lookup_r _ _ _ _ _ Hrefs Hi) as ([k entry] & Hk & c & h & Had & ->).
      exists k, entry, c, h. split; [|done]. apply elem_of_btree_iter. by apply list_elem_of_lookup_2 in Hk.
    + intros (k & entry & c & h & [i Hi]%elem_of_btree_iter%list_elem_of_lookup & Had & ->).
      destruct (Forall2_lookup_l _ _ _ _ _ Hrefs Hi) as (r & Hri & c' & h' & Had' & ->). simpl in Had'.
      destruct (admits_functional _ _ _ _ _ _ _ Had Had') as [_ ->]. by apply list_elem_of_lookup_2 in Hri.
Qed.

End admission.

(** ** Snapshot entries *)

Lemma entry_key_ok entry k : entry_key entry = Ok k →
  k.1 = cr_id entry ∧ ∃ v, FullVersion.parse (cr_version entry) = Ok v ∧ fv_major v = k.2.
Proof. unfold entry_key. rewrite result_seq_ok. intros [_ (v & Hv & [= <-])%result_bind_ok]. eauto. Qed.

Lemma index_snapshot_lookup entries kind m : index_snapshot_entries entries kind = Ok m →
  ∀ k entry, m !! k = Some entry ↔ entry ∈ entries ∧ entry_key entry = Ok k.
Proof.
  intros Hi k entry. rewrite (index_by_lookup _ _ _ _ _ _ Hi), lookup_empty. split.
  - intros [?|(x & Hx & Hk & ->)]; [done|]. done.
  - intros [Hin Hk]. right. by exists entry.
Qed.

Lemma index_snapshot_total entries kind m entry : index_snapshot_entries entries kind = Ok m → entry ∈ entries →
  ∃ v, FullVersion.parse (cr_version entry) = Ok v ∧ m !! (cr_id entry, fv_major v) = Some entry.
Proof.
  intros Hi Hin. pose proof (index_snapshot_lookup _ _ _ Hi) as Hm.
  assert (∀ l m0 m', index_by entry_key id (RegistryError.validation (duplicate_major kind)) m0 l = Ok m' →
            ∀ e, e ∈ l → ∃ k, entry_key e = Ok k) as Hkeys.
  { induction l as [|x l IH]; intros m0 m' Hb e He; [by apply elem_of_nil in He|]. simpl in Hb.
    apply result_bind_ok in Hb as (k & Hk & Hb). apply if_err_ok in Hb as [_ Hb].
    apply elem_of_cons in He as [->|He]; eauto. }
  destruct (Hkeys _ _ _ Hi _ Hin) as [[id major] Hk]. destruct (entry_key_ok _ _ Hk) as [Hid (v & Hv & Hmaj)]. simpl in *. subst.
  exists v. split; [done|]. by apply Hm.
Qed.

(** ** Cross references *)

(** Every type a capability names is active. *)
Definition ports_resolve (types : gmap (string * N) TypeContract) (c : CapabilityContract) : Prop :=
  ∀ ref, ref ∈ port_types c → ∃ s, SemanticRef.parse ref = Ok s ∧ is_Some (types !! (sr_id s, sr_major s)).

(** Every conversion a type names is an active capability with a port of the type. *)
Definition conversions_resolve (capabilities : gmap (string * N) CapabilityContract) (t : TypeContract) (major : N) : Prop :=
  ∀ ref, ref ∈ tc_conversion_capabilities t → ∃ s c port s', SemanticRef.parse ref = Ok s ∧
    capabilities !! (sr_id s, sr_major s) = Some c ∧ port ∈ port_types c ∧ SemanticRef.parse port = Ok s' ∧
    sr_id s' = tc_type_id t ∧ sr_major s' = major.

Lemma mapM_ok_elem {E A B} (f : A → result E B) l l' y : mapM f l = Ok l' → y ∈ l' → ∃ x, x ∈ l ∧ f x = Ok y.
Proof.
  revert l'. induction l as [|x l IH]; intros l'; simpl; [by intros [= <-] ?%elem_of_nil|].
  intros (b & Hb & (bs & Hbs & [= <-])%result_bind_ok)%result_bind_ok [->|Hy]%elem_of_cons; [exists x; split; [by left|done]|].
  destruct (IH _ Hbs Hy) as (x' & Hx' & Hf). exists x'. split; [by right|done].
Qed.

Lemma check_conversion_ok capabilities t major ref : check_conversion capabilities t major ref = Ok () →
  ∃ s c port s', SemanticRef.parse ref = Ok s ∧ capabilities !! (sr_id s, sr_major s) = Some c ∧ port ∈ port_types c ∧
    SemanticRef.parse port = Ok s' ∧ sr_id s' = tc_type_id t ∧ sr_major s' = major.
Proof.
  unfold check_conversion. intros (s & Hs & Hc)%result_bind_ok. destruct (capabilities !! _) as [c|] eqn:Hcap; [|done].
  apply result_bind_ok in Hc as (refs & Hrefs & Hc). destruct (existsb _ refs) eqn:Hex; [|done].
  apply existsb_exists in Hex as (s' & Hin%list_elem_of_In & [Hid%String.eqb_eq Hmaj%N.eqb_eq]%andb_true_iff).
  destruct (mapM_ok_elem _ _ _ _ Hrefs Hin) as (port & Hport & Hp). by exists s, c, port, s'.
Qed.

Lemma check_port_type_ok types ref : check_port_type types ref = Ok () →
  ∃ s, SemanticRef.parse ref = Ok s ∧ is_Some (types !! (sr_id s, sr_major s)).
Proof. unfold check_port_type. intros (s & Hs & Hc)%result_bind_ok. exists s. split; [done|]. by case_bool_decide. Qed.

Lemma cross_references_ok types capabilities : validate_cross_references types capabilities = Ok () →
  (∀ k t, types !! k = Some t → ∃ v, FullVersion.parse (tc_version t) = Ok v ∧ conversions_resolve capabilities t (fv_major v)) ∧
  (∀ k c, capabilities !! k = Some c → ports_resolve types c).
Proof.
  unfold validate_cross_references. rewrite result_seq_ok, !try_each_ok. intros [Ht Hc]. split.
  - intros k t Hk. assert (t ∈ btree_values types) as Hin by (apply elem_of_btree_values; eauto).
    apply Ht, result_bind_ok in Hin as (v & Hv & Hconv). exists v. split; [done|]. rewrite try_each_ok in Hconv.
    intros ref Href. apply check_conversion_ok. auto.
  - intros k c Hk ref Href. assert (c ∈ btree_values capabilities) as Hin by (apply elem_of_btree_values; eauto).
    apply Hc in Hin. rewrite try_each_ok in Hin. apply check_port_type_ok. auto.
Qed.

(** ** Active contracts *)

Section active.

Context {C : Type} (validate : C → RegistryResult unit) (identity version : C → string) (hash : C → RegistryResult string).
Context (mode : HashVerificationMode).

(** What admission leaves: [supplied] are the contracts given, [entries] those the snapshot names. *)
Record admitted (supplied : list C) (entries : list ContractRef) (active : Active C) : Prop := {
  am_contracts : ∀ k c, active_contracts active !! k = Some c →
    identity c = k.1 ∧ (∃ v, FullVersion.parse (version c) = Ok v ∧ fv_major v = k.2) ∧ validate c = Ok () ∧ c ∈ supplied ∧
    ∃ h, active_hashes active !! k = Some h ∧ hash c = Ok h;
  am_entries : ∀ entry, entry ∈ entries → ∃ v c h, FullVersion.parse (cr_version entry) = Ok v ∧
    active_contracts active !! (cr_id entry, fv_major v) = Some c ∧ version c = cr_version entry ∧
    active_hashes active !! (cr_id entry, fv_major v) = Some h ∧ (mode = Strict → h = cr_content_hash entry);
  am_listed : ∀ k c, active_contracts active !! k = Some c → ∃ ref, ref ∈ active_refs active ∧
    cr_id ref = k.1 ∧ cr_version ref = version c ∧ hash c = Ok (cr_content_hash ref);
  am_refs : ∀ ref, ref ∈ active_refs active → ∃ v c, FullVersion.parse (cr_version ref) = Ok v ∧
    active_contracts active !! (cr_id ref, fv_major v) = Some c ∧ hash c = Ok (cr_content_hash ref);
}.

Lemma supplied_elem cs index entry c :
  index_by (λ c, Ok (identity c, version c)) id RegistryError.schema ∅ cs = Ok index → supplied index entry = Ok c → c ∈ cs.
Proof.
  intros Hi Hs. unfold supplied in Hs. destruct (index !! _) as [c'|] eqn:Hl; [|by destruct (existsb _ _)].
  injection Hs as ->. apply (index_by_lookup _ _ _ _ _ _ Hi) in Hl as [Hl|(x & Hx & _ & ->)]; [|done]. by rewrite lookup_empty in Hl.
Qed.

Lemma strict_hash declared computed : verify_declared_hash declared computed Strict = Ok () → computed = declared.
Proof.
  unfold verify_declared_hash, verify_hash. simpl. rewrite orb_false_r. by destruct (String.eqb_spec declared computed).
Qed.

Lemma admit_all_ok cs index kind es te active :
  index_snapshot_entries es kind = Ok te →
  index_by (λ c, Ok (identity c, version c)) id RegistryError.schema ∅ cs = Ok index →
  admit_entries validate identity version hash mode index no_active (btree_iter te) = Ok active → admitted cs es active.
Proof.
  intros Hte Hindex (Hall & Hin & Hrefs)%admit_map_ok. pose proof (index_snapshot_lookup _ _ _ Hte) as Hlook.
  assert (∀ k c, active_contracts active !! k = Some c → ∃ entry h, te !! k = Some entry ∧ entry_key entry = Ok k ∧
            admits validate identity version hash mode index k entry c h ∧ active_hashes active !! k = Some h) as Hact.
  { intros k c Hk. destruct (Hin _ _ Hk) as [entry He]. destruct (Hall _ _ He) as (c' & h & Had & Hc' & Hh).
    exists entry, h. rewrite Hk in Hc'. injection Hc' as <-. split_and!; [done|by apply Hlook in He as [_ ?]|done|done]. }
  split.
  - intros k c Hk. destruct (Hact _ _ Hk) as (entry & h & _ & [Hid _]%entry_key_ok & [] & Hh). split_and!; [congruence|done|done| |eauto].
    eauto using supplied_elem.
  - intros entry He. destruct (index_snapshot_total _ _ _ _ Hte He) as (v & Hv & Hte').
    destruct (Hall _ _ Hte') as (c & h & [] & Hc & Hh). exists v, c, h. split_and!; [done..|]. intros Hs. subst mode.
    by apply strict_hash.
  - intros k c Hk. destruct (Hact _ _ Hk) as (entry & h & Hte' & [Hid _]%entry_key_ok & Had & Hh).
    exists (normalized_ref entry h). split; [apply Hrefs; by exists k, entry, c, h|]. destruct Had. simpl. by split_and!.
  - intros ref (k & entry & c & h & Hte' & Had & ->)%Hrefs. pose proof Hte' as [_ [Hid (v & Hv & Hmaj)]%entry_key_ok]%Hlook.
    destruct (Hall _ _ Hte') as (c' & h' & Had' & Hc' & _). destruct (admits_functional _ _ _ _ _ _ _ _ _ _ _ _ _ Had Had') as [<- <-].
    exists v, c. simpl. split_and!; [done| |by destruct Had]. rewrite <-Hid, Hmaj. by destruct k.
Qed.

End active.

(** ** Counterparts *)

Section counterparts.

Context {C : Type} (validate : C → RegistryResult unit) (identity version : C → string) (hash : C → RegistryResult string).

(** A contract of one registry has its counterpart, with the same hash, in another with the same entries. *)
Lemma counterpart mode mode' cs cs' es es' active active' k c :
  admitted validate identity version hash mode cs es active → admitted validate identity version hash mode' cs' es' active' →
  (snapshot_hash_entry <$> active_refs active) ≡ₚ (snapshot_hash_entry <$> active_refs active') →
  active_contracts active !! k = Some c →
  ∃ c' h, active_contracts active' !! k = Some c' ∧ hash c = Ok h ∧ hash c' = Ok h ∧ c ∈ cs ∧ c' ∈ cs'.
Proof.
  intros [Hc _ Hl _] [Hc' _ _ Hr'] Hp Hk. destruct (Hl _ _ Hk) as (ref & Href & Hid & Hver & Hh).
  assert (snapshot_hash_entry ref ∈ snapshot_hash_entry <$> active_refs active') as Hin.
  { rewrite <-Hp. by apply list_elem_of_fmap_2. }
  apply list_elem_of_fmap in Hin as (ref' & Heq & Href'). injection Heq as Hid' Hver' Hhash'.
  destruct (Hr' _ Href') as (v & c' & Hv & Hc'k & Hh'). destruct (Hc _ _ Hk) as (_ & (v0 & Hv0 & Hmaj) & _ & Hcs & _).
  assert (v0 = v) as <- by congruence. assert (k = (cr_id ref', fv_major v0)) as -> by (destruct k; simpl in *; congruence).
  exists c', (cr_content_hash ref). split_and!; [done|done|by rewrite Hhash'|done|]. by destruct (Hc' _ _ Hc'k) as (_ & _ & _ & ? & _).
Qed.

Lemma counterparts (R : C → C → Prop) mode mode' cs cs' es es' active active' :
  admitted validate identity version hash mode cs es active → admitted validate identity version hash mode' cs' es' active' →
  (snapshot_hash_entry <$> active_refs active) ≡ₚ (snapshot_hash_entry <$> active_refs active') →
  (∀ c c' h, c ∈ cs → c' ∈ cs' → hash c = Ok h → hash c' = Ok h → R c c') →
  ∀ k, option_Forall2 R (active_contracts active !! k) (active_contracts active' !! k).
Proof.
  intros Ha Ha' Hp HR k. destruct (active_contracts active !! k) as [c|] eqn:Hk.
  - destruct (counterpart _ _ _ _ _ _ _ _ _ _ Ha Ha' Hp Hk) as (c' & h & -> & Hh & Hh' & Hc & Hc'). constructor. eauto.
  - destruct (active_contracts active' !! k) as [c'|] eqn:Hk'; [|constructor].
    destruct (counterpart _ _ _ _ _ _ _ _ _ _ Ha' Ha (Permutation_sym Hp) Hk') as (c & h & Hc & _). congruence.
Qed.

End counterparts.

(** ** Built registries *)

Section built.

Context `{RL : RegistryLib}.

(** How a registry was built. *)
Record built (snapshot : RegistrySnapshot) (ts : list TypeContract) (cs : list CapabilityContract)
    (mode : HashVerificationMode) (r : SemanticRegistry) (ta : Active TypeContract) (ca : Active CapabilityContract) : Prop := {
  bu_types : admitted validate_type_contract tc_type_id tc_version type_contract_hash mode ts (rs_type_contracts snapshot) ta;
  bu_capabilities : admitted validate_capability_contract cc_capability cc_version capability_contract_hash mode cs
                      (rs_capability_contracts snapshot) ca;
  bu_cross : validate_cross_references (active_contracts ta) (active_contracts ca) = Ok ();
  bu_id : registry_snapshot_id (rs_schema_version snapshot) (snapshot_hash_entry <$> active_refs ta)
            (snapshot_hash_entry <$> active_refs ca) = Ok (reg_snapshot_id r);
  bu_verified : verify_snapshot_hash (rs_snapshot_id snapshot) (reg_snapshot_id r) mode = Ok ();
  bu_version : rs_schema_version (reg_snapshot r) = rs_schema_version snapshot;
  bu_type_refs : rs_type_contracts (reg_snapshot r) = active_refs ta;
  bu_capability_refs : rs_capability_contracts (reg_snapshot r) = active_refs ca;
  bu_reg_types : reg_types r = active_contracts ta;
  bu_reg_capabilities : reg_capabilities r = active_contracts ca;
  bu_reg_type_hashes : reg_type_hashes r = active_hashes ta;
  bu_reg_capability_hashes : reg_capability_hashes r = active_hashes ca;
}.

Lemma build_registry_ok snapshot ts cs options r : build_registry snapshot ts cs options = Ok r →
  ∃ ta ca, built snapshot ts cs (bo_hash_verification options) r ta ca.
Proof.
  unfold build_registry. intros [_ H]%result_seq_ok. do 2 (apply result_bind_ok in H as (? & _ & H); apply result_seq_ok in H as [_ H]).
  do 3 apply result_seq_ok in H as [_ H].
  apply result_bind_ok in H as (te & Hte & (ce & Hce & (st & Hst & (sc & Hsc & (ta & Hta & H)%result_bind_ok)%result_bind_ok)
    %result_bind_ok)%result_bind_ok).
  apply result_bind_ok in H as (ca & Hca & [Hx (id & Hid & [Hv [= <-]]%result_seq_ok)%result_bind_ok]%result_seq_ok).
  exists ta, ca. split; simpl; [by eapply admit_all_ok|by eapply admit_all_ok|done..].
Qed.

(** The invariant of a registry: each contract is valid, stands under its own identity and major with its content
    hash, and every reference in it resolves within the registry. *)
Record registry_closed (r : SemanticRegistry) : Prop := {
  rc_types : ∀ k t, reg_types r !! k = Some t →
    tc_type_id t = k.1 ∧ (∃ v, FullVersion.parse (tc_version t) = Ok v ∧ fv_major v = k.2) ∧ validate_type_contract t = Ok () ∧
    conversions_resolve (reg_capabilities r) t k.2 ∧ ∃ h, reg_type_hashes r !! k = Some h ∧ type_contract_hash t = Ok h;
  rc_capabilities : ∀ k c, reg_capabilities r !! k = Some c →
    cc_capability c = k.1 ∧ (∃ v, FullVersion.parse (cc_version c) = Ok v ∧ fv_major v = k.2) ∧
    validate_capability_contract c = Ok () ∧ ports_resolve (reg_types r) c ∧
    ∃ h, reg_capability_hashes r !! k = Some h ∧ capability_contract_hash c = Ok h;
}.

Lemma built_closed snapshot ts cs mode r ta ca : built snapshot ts cs mode r ta ca → registry_closed r.
Proof.
  intros [[Ht _ _ _] [Hc _ _ _] Hx _ _ _ _ _ Hrt Hrc Hth Hch]. apply cross_references_ok in Hx as [Hxt Hxc].
  split; rewrite ?Hrt, ?Hrc, ?Hth, ?Hch.
  - intros k t Hk. destruct (Ht _ _ Hk) as (Hid & (v & Hv & Hmaj) & Hval & _ & Hh). destruct (Hxt _ _ Hk) as (v' & Hv' & Hconv).
    split_and!; [done|eauto|done| |done]. rewrite Hv in Hv'. injection Hv' as <-. by rewrite <-Hmaj.
  - intros k c Hk. destruct (Hc _ _ Hk) as (Hid & Hv & Hval & _ & Hh). split_and!; eauto.
Qed.

(** The members of a registry's identity. *)
Definition identity_view (r : SemanticRegistry) (v : Value) : Prop :=
  ∃ types capabilities,
    sort_snapshot_entries (snapshot_hash_entry <$> rs_type_contracts (reg_snapshot r)) = Ok types ∧
    sort_snapshot_entries (snapshot_hash_entry <$> rs_capability_contracts (reg_snapshot r)) = Ok capabilities ∧
    v = snapshot_view (rs_schema_version (reg_snapshot r)) types capabilities.

Lemma built_identity snapshot ts cs mode r ta ca : built snapshot ts cs mode r ta ca →
  ∃ v s, identity_view r v ∧ registry_canonicalize v = Ok s ∧
    reg_snapshot_id r = domain_separated_sha256 REGISTRY_SNAPSHOT_HASH_DOMAIN s.
Proof.
  intros [_ _ _ Hid _ Hver Hrt Hrc _ _ _ _]. unfold registry_snapshot_id in Hid. rewrite <-Hver, <-Hrt, <-Hrc in Hid.
  apply if_err_ok in Hid as [_ Hid]. do 2 apply result_seq_ok in Hid as [_ Hid].
  apply result_bind_ok in Hid as (types & Ht & (caps & Hc & (s & Hs & Hid)%result_bind_ok)%result_bind_ok).
  eexists _, s. split; [by exists types, caps|]. split; [done|]. congruence.
Qed.

Lemma sort_snapshot_perm entries sorted : sort_snapshot_entries entries = Ok sorted → sorted ≡ₚ entries.
Proof.
  unfold sort_snapshot_entries. intros (versions & Hv & [= <-])%result_bind_ok. rewrite sort_by_perm, fst_zip; [done|].
  revert versions Hv. induction entries as [|e entries IH]; intros versions; simpl; [lia|].
  intros (v & _ & (vs & Hvs & [= <-])%result_bind_ok)%result_bind_ok. simpl. apply IH in Hvs. lia.
Qed.

Lemma snapshot_entry_value_inj e e' : snapshot_entry_value e = snapshot_entry_value e' → e = e'.
Proof. destruct e, e'. intros H. unfold snapshot_entry_value in H. members_eq H. simpl in *. by subst. Qed.

Lemma snapshot_view_inj version version' types types' capabilities capabilities' :
  snapshot_view version types capabilities = snapshot_view version' types' capabilities' →
  types = types' ∧ capabilities = capabilities'.
Proof.
  intros H. unfold snapshot_view in H. members_eq H.
  assert (Inj (=) (=) snapshot_entry_value) by (intros e e'; apply snapshot_entry_value_inj).
  repeat match goal with Ha : Array _ = Array _ |- _ => injection Ha as Ha%(inj (fmap snapshot_entry_value)) end. done.
Qed.

Lemma snapshot_view_exact version types capabilities : jcs_exact (snapshot_view version types capabilities) = true.
Proof.
  apply object_exact. cbn [forallb snd jcs_exact]. by rewrite !forallb_fmap_true by (intros e; by apply object_exact).
Qed.

Lemma same_identity_refs r r' v : identity_view r v → identity_view r' v →
  (snapshot_hash_entry <$> rs_type_contracts (reg_snapshot r)) ≡ₚ (snapshot_hash_entry <$> rs_type_contracts (reg_snapshot r')) ∧
  (snapshot_hash_entry <$> rs_capability_contracts (reg_snapshot r)) ≡ₚ
    (snapshot_hash_entry <$> rs_capability_contracts (reg_snapshot r')).
Proof.
  intros (ts & cs & Hts%sort_snapshot_perm & Hcs%sort_snapshot_perm & ->) (ts' & cs' & Hts'%sort_snapshot_perm & Hcs'%sort_snapshot_perm & Heq).
  apply snapshot_view_inj in Heq as [-> ->]. by rewrite <-Hts, Hts', <-Hcs, Hcs'.
Qed.

(** C40: a registry that is built is closed: every contract is valid and stands under its own identity and major
    version with its content hash, every port type and every conversion capability resolves within the registry to a
    contract (a conversion to one with a port of the converted type); every entry of the snapshot is active with a
    supplied contract of its version, and under strict verification the hashes and the identity are the declared ones. *)
Theorem built_registry_closed snapshot ts cs options r : build_registry snapshot ts cs options = Ok r →
  registry_closed r ∧
  (∀ entry, entry ∈ rs_type_contracts snapshot → ∃ v t h, FullVersion.parse (cr_version entry) = Ok v ∧
     reg_types r !! (cr_id entry, fv_major v) = Some t ∧ tc_version t = cr_version entry ∧ t ∈ ts ∧
     reg_type_hashes r !! (cr_id entry, fv_major v) = Some h ∧ (bo_hash_verification options = Strict → h = cr_content_hash entry)) ∧
  (∀ entry, entry ∈ rs_capability_contracts snapshot → ∃ v c h, FullVersion.parse (cr_version entry) = Ok v ∧
     reg_capabilities r !! (cr_id entry, fv_major v) = Some c ∧ cc_version c = cr_version entry ∧ c ∈ cs ∧
     reg_capability_hashes r !! (cr_id entry, fv_major v) = Some h ∧ (bo_hash_verification options = Strict → h = cr_content_hash entry)) ∧
  (bo_hash_verification options = Strict → reg_snapshot_id r = rs_snapshot_id snapshot).
Proof.
  intros (ta & ca & Hb)%build_registry_ok. pose proof (built_closed _ _ _ _ _ _ _ Hb) as Hclosed.
  destruct Hb as [[Htc Hte _ _] [Hcc Hce _ _] _ _ Hv _ _ _ -> -> -> ->]. split_and!; [done|..].
  - intros entry (v & t & h & Hp & Ht & Hver & Hh & Hs)%Hte. exists v, t, h. split_and!; [done..| |done|done]. by apply (Htc _ _ Ht).
  - intros entry (v & c & h & Hp & Hc & Hver & Hh & Hs)%Hce. exists v, c, h. split_and!; [done..| |done|done]. by apply (Hcc _ _ Hc).
  - intros Hs. rewrite Hs in Hv. unfold verify_snapshot_hash, verify_hash in Hv. simpl in Hv. rewrite orb_false_r in Hv.
    by destruct (String.eqb_spec (rs_snapshot_id snapshot) (reg_snapshot_id r)).
Qed.

(** The canonical forms of the identities of two registries are a SHA-256 collision. *)
Definition identity_collision (r r' : SemanticRegistry) : Prop :=
  ∃ v v', identity_view r v ∧ identity_view r' v' ∧ hash_collision REGISTRY_SNAPSHOT_HASH_DOMAIN v v'.

(** the snapshot identity of a registry binds its contents: two registries with the same identity, whatever they
    were built from, hold contracts under the same keys, and the contracts under a key differ at most in prose and in the
    order of their sets -- unless the canonical forms of the two identities, or of the two contracts, are different
    inputs with the same SHA-256 digest. *)
Theorem snapshot_identity_binding snapshot ts cs options r snapshot' ts' cs' options' r' :
  registry_jcs_injective →
  Forall (λ t, exact_type t = true) (ts ++ ts') → Forall (λ c, exact_capability c = true) (cs ++ cs') →
  build_registry snapshot ts cs options = Ok r → build_registry snapshot' ts' cs' options' = Ok r' →
  reg_snapshot_id r = reg_snapshot_id r' →
  identity_collision r r' ∨
  (∀ k, option_Forall2 (λ t t', same_type t t' ∨ type_collision t t') (reg_types r !! k) (reg_types r' !! k)) ∧
  (∀ k, option_Forall2 (λ c c', same_capability c c' ∨ capability_collision c c')
          (reg_capabilities r !! k) (reg_capabilities r' !! k)).
Proof.
  intros Hinj Hts Hcs (ta & ca & Hb)%build_registry_ok (ta' & ca' & Hb')%build_registry_ok Heq.
  destruct (built_identity _ _ _ _ _ _ _ Hb) as (v & s & Hv & Hs & Hid).
  destruct (built_identity _ _ _ _ _ _ _ Hb') as (v' & s' & Hv' & Hs' & Hid').
  destruct (domain_hash_inj REGISTRY_SNAPSHOT_HASH_DOMAIN v v' s s' Hinj) as [<-|Hcol]; [| |done|done|congruence| |].
  1: destruct Hv as (? & ? & _ & _ & ->); apply snapshot_view_exact.
  1: destruct Hv' as (? & ? & _ & _ & ->); apply snapshot_view_exact.
  2: left; by exists v, v'.
  right. destruct (same_identity_refs _ _ _ Hv Hv') as [Ht Hc].
  destruct Hb as [Hta Hca _ _ _ _ Hrt Hrc -> -> _ _], Hb' as [Hta' Hca' _ _ _ _ Hrt' Hrc' -> -> _ _].
  rewrite Hrt, Hrt' in Ht. rewrite Hrc, Hrc' in Hc. rewrite Forall_forall in Hts. rewrite Forall_forall in Hcs. split; intros k.
  - apply (counterparts _ _ _ _ _ _ _ _ _ _ _ _ _ Hta Hta' Ht). intros t t' h Hin Hin' Hh Hh'.
    eapply type_hash_inj; [done|apply Hts; set_solver|apply Hts; set_solver|done|done].
  - apply (counterparts _ _ _ _ _ _ _ _ _ _ _ _ _ Hca Hca' Hc). intros c c' h Hin Hin' Hh Hh'.
    eapply capability_hash_inj; [done|apply Hcs; set_solver|apply Hcs; set_solver|done|done].
Qed.

End built.
