(* ===== verification/RegistryFixtures.v ===== *)
(** * The repository's example registry, built

    An executable instance of the external code of the registry: SHA-256 as in FIPS 180-4, and the
    canonical form of the values that occur.  With it [build_registry] runs on the contracts of
    [examples/aios-ir] and finds the hashes that are recorded there.  A second instance, a table,
    serves the theorem on snapshot identities. *)

From Stdlib Require Import SpecFloat.
From S2P Require Import Prelude Json Contracts Version Registry Normalize Hash Fixtures Numbers Limits Parse Details Events Journal JournalChain JournalState JournalFixtures ContractCheck ContractHash ContractIdentity Loader RegistryIdentity.

(** ** SHA-256 *)

Definition w32 (n : N) : N := N.land n 4294967295.
Definition rotr (n x : N) : N := N.lor (N.shiftr x n) (w32 (N.shiftl x (32 - n))).

(** The constants are the first 32 bits of the fractional parts of roots of the first primes. *)
Definition is_prime (n : N) : bool := forallb (λ d, negb (n mod N.of_nat d =? 0)%N) (seq 2 (N.to_nat n - 2)).
Definition primes : list N := Eval vm_compute in List.filter is_prime (N.of_nat <$> seq 2 310).

(** The largest integer of [bits] bits whose cube is at most [n]. *)
Fixpoint cube_root (bits : nat) (n root : N) : N :=
  match bits with
  | 0 => root
  | S bits' =>
      let candidate := (root + N.shiftl 1 (N.of_nat bits'))%N in
      cube_root bits' n (if (candidate ^ 3 <=? n)%N then candidate else root)
  end.

Definition round_constants : list N :=
  Eval vm_compute in (λ p, w32 (cube_root 36 (N.shiftl p 96) 0)) <$> primes.

Definition initial_digest : list N :=
  Eval vm_compute in (λ p, w32 (N.sqrt (N.shiftl p 64))) <$> take 8 primes.

Definition next_word (w w1 w9 w14 : N) : N :=
  w32 (w + N.lxor (N.lxor (rotr 7 w1) (rotr 18 w1)) (N.shiftr w1 3) + w9 +
       N.lxor (N.lxor (rotr 17 w14) (rotr 19 w14)) (N.shiftr w14 10)).

(** The rounds, with the next sixteen words of the schedule. *)
Fixpoint rounds (ks ws : list N) (st : N * N * N * N * N * N * N * N) : N * N * N * N * N * N * N * N :=
  match ks, ws with
  | k :: ks', w :: ws' =>
      let '(a, b, c, d, e, f, g, h) := st in
      let s1 := N.lxor (N.lxor (rotr 6 e) (rotr 11 e)) (rotr 25 e) in
      let ch := N.lxor (N.land e f) (N.land (N.lxor e 4294967295) g) in
      let t1 := (h + s1 + ch + k + w)%N in
      let s0 := N.lxor (N.lxor (rotr 2 a) (rotr 13 a)) (rotr 22 a) in
      let maj := N.lxor (N.lxor (N.land a b) (N.land a c)) (N.land b c) in
      rounds ks' (ws' ++ [next_word w (nth 0 ws' 0%N) (nth 8 ws' 0%N) (nth 13 ws' 0%N)])
        (w32 (t1 + s0 + maj), a, b, c, w32 (d + t1), e, f, g)
  | _, _ => st
  end.

Definition compress (digest block : list N) : list N :=
  match digest with
  | [a; b; c; d; e; f; g; h] =>
      let '(a', b', c', d', e', f', g', h') := rounds round_constants block (a, b, c, d, e, f, g, h) in
      w32 <$> [a + a'; b + b'; c + c'; d + d'; e + e'; f + f'; g + g'; h + h']%N
  | _ => digest
  end.

Fixpoint bytes_of (s : string) : list N :=
  match s with EmptyString => [] | String c s' => Ascii.N_of_ascii c :: bytes_of s' end.

Fixpoint words_of (l : list N) : list N :=
  match l with
  | a :: b :: c :: d :: l' => (N.shiftl a 24 + N.shiftl b 16 + N.shiftl c 8 + d)%N :: words_of l'
  | _ => []
  end.

Definition pad (l : list N) : list N :=
  let bits := (8 * N.of_nat (length l))%N in
  l ++ [128%N] ++ repeat 0%N ((119 - length l mod 64) mod 64) ++
  ((λ i, N.land (N.shiftr bits (8 * i)) 255) <$> [7; 6; 5; 4; 3; 2; 1; 0]%N).

Fixpoint compress_all (fuel : nat) (digest ws : list N) : list N :=
  match fuel, ws with
  | S fuel', _ :: _ => compress_all fuel' (compress digest (take 16 ws)) (drop 16 ws)
  | _, _ => digest
  end.

Definition word_bytes (w : N) : string :=
  let b i := Ascii.ascii_of_N (N.land (N.shiftr w i) 255) in
  String (b 24%N) (String (b 16%N) (String (b 8%N) (String (b 0%N) ""))).

Definition sha_256 (s : string) : string :=
  let ws := words_of (pad (bytes_of s)) in
  foldr (λ w acc, word_bytes w +++ acc) "" (compress_all (length ws) initial_digest ws).

(** The digest of the standard's example message. *)
Example sha_256_abc : hex (sha_256 "abc") = "ba7816bf8f01cfea414140de5dae2223b00361a396177a9cb410ff61f20015ad".
Proof. vm_compute. reflexivity. Qed.

(** ** Canonical forms *)

Definition quote : ascii := Ascii.ascii_of_N 34.

Fixpoint escaped (s : string) : string :=
  match s with
  | EmptyString => ""
  | String c s' =>
      if bool_decide (c = quote) || bool_decide (c = "\"%char) then String "\"%char (String c (escaped s'))
      else String c (escaped s')
  end.

Definition quoted (s : string) : string := String quote (escaped s +++ String quote "").

Fixpoint join (l : list string) : string :=
  match l with [] => "" | [x] => x | x :: l' => x +++ "," +++ join l' end.

(** RFC 8785 on printable text, natural numbers, and the only other number of the example contracts, [1e-9]. *)
Fixpoint canonical_form (v : Value) : option string :=
  match v with
  | Null => Some "null"
  | Bool b => Some (if b then "true" else "false")
  | Str s => Some (quoted s)
  | Num (Float (S754_finite false 4835703278458517 (-82))) => Some "1e-9"
  | Num (PosInt n) => Some (pretty n)
  | Num _ => None
  | Array vs => parts ← mapM canonical_form vs; Some ("[" +++ join parts +++ "]")
  | Object ms =>
      parts ← mapM (λ kv, part ← canonical_form kv.2; Some (quoted kv.1 +++ ":" +++ part)) ms; Some ("{" +++ join parts +++ "}")
  end.

Definition example_lib : RegistryLib := {|
  embedded_schema := λ _, Some (λ _, true);
  registry_jcs := canonical_form;
  registry_sha256 := sha_256;
  rfc3339_accepts := λ _, true;
|}.

(** ** The example registry *)

Definition strict_options : RegistryBuildOptions := {| bo_hash_verification := Strict; bo_max_contracts := 4096 |}.

Definition example_types : list TypeContract := btree_values (reg_types fixture_registry).
Definition example_capabilities : list CapabilityContract := btree_values (reg_capabilities fixture_registry).

Definition example_build : RegistryResult SemanticRegistry :=
  build_registry (RL := example_lib) fixture_snapshot example_types example_capabilities strict_options.

Definition recorded (r : SemanticRegistry) : list (string * N * string) * list (string * N * string) * string :=
  (btree_iter (reg_type_hashes r), btree_iter (reg_capability_hashes r), reg_snapshot_id r).

(** The registry that is built has the hashes that the repository records. *)
Lemma example_recorded : recorded <$> result_ok example_build = Some (recorded fixture_registry).
Proof. vm_compute. reflexivity. Qed.

Lemma example_build_ok : ∃ r, example_build = Ok r.
Proof. pose proof example_recorded as H. destruct example_build as [r|]; [by exists r|done]. Qed.

Lemma built_registry_closed_witness :
  ∃ r, example_build = Ok r ∧ registry_closed (RL := example_lib) r ∧ reg_snapshot_id r = rs_snapshot_id fixture_snapshot.
Proof.
  destruct example_build_ok as [r Hr]. exists r. split; [exact Hr|].
  pose proof (built_registry_closed (RL := example_lib) fixture_snapshot example_types example_capabilities strict_options r Hr)
    as (Hclosed & _ & _ & Hid).
  split; [exact Hclosed|]. exact (Hid eq_refl).
Defined.

Lemma build_registry_order_witness :
  ∃ r, build_registry (RL := example_lib) fixture_snapshot (reverse example_types) (reverse example_capabilities) strict_options = Ok r.
Proof.
  destruct example_build_ok as [r Hr]. exists r.
  exact (build_registry_order (RL := example_lib) fixture_snapshot example_types (reverse example_types) example_capabilities
           (reverse example_capabilities) strict_options r (Permutation_sym (reverse_Permutation _))
           (Permutation_sym (reverse_Permutation _)) Hr).
Defined.

(** ** Two registries with one identity *)

(** The contracts of the example with other prose. *)
Definition reworded_type : TypeContract := {|
  tc_type_id := tc_type_id type_text_plain; tc_version := tc_version type_text_plain; tc_kind := tc_kind type_text_plain;
  tc_description := "Text."; tc_logical_schema_ref := tc_logical_schema_ref type_text_plain;
  tc_nullable := tc_nullable type_text_plain; tc_representations := tc_representations type_text_plain;
  tc_equality := tc_equality type_text_plain; tc_unit_semantics := tc_unit_semantics type_text_plain;
  tc_conversion_capabilities := tc_conversion_capabilities type_text_plain; tc_conformance := tc_conformance type_text_plain;
  tc_notes := ["Reworded."];
|}.

Definition entry_of (id hash : string) : ContractRef :=
  {| cr_id := id; cr_version := "1.0"; cr_content_hash := hash; cr_source := None |}.

Definition small_type_hash : string := domain_separated_sha256 (RL := example_lib) TYPE_CONTRACT_HASH_DOMAIN "type".
Definition small_capability_hash : string :=
  domain_separated_sha256 (RL := example_lib) CAPABILITY_CONTRACT_HASH_DOMAIN "capability".

Definition small_snapshot : RegistrySnapshot := {|
  rs_schema_version := "0.1";
  rs_snapshot_id := domain_separated_sha256 (RL := example_lib) REGISTRY_SNAPSHOT_HASH_DOMAIN "snapshot";
  rs_generation := None; rs_type_contracts := [entry_of "text.plain" small_type_hash];
  rs_capability_contracts := [entry_of "text.uppercase" small_capability_hash];
  rs_created_at := "2026-09-15T00:00:00Z"; rs_publisher := None; rs_notes := [];
|}.

Definition small_views : list (string * Value) :=
  [("type", object (type_view type_text_plain)); ("capability", object (capability_view cap_text_uppercase));
   ("snapshot", snapshot_view "0.1" (snapshot_hash_entry <$> rs_type_contracts small_snapshot)
                  (snapshot_hash_entry <$> rs_capability_contracts small_snapshot))].

Definition small_lib : RegistryLib := {|
  embedded_schema := λ _, Some (λ _, true);
  registry_jcs := λ v, result_ok (table_write small_views v);
  registry_sha256 := sha_256;
  rfc3339_accepts := λ _, true;
|}.

Lemma small_views_ok : table_ok small_views = true.
Proof. vm_compute. reflexivity. Qed.

Lemma small_jcs_injective : registry_jcs_injective (RL := small_lib).
Proof.
  intros v w s _ _ Hv Hw. simpl in Hv, Hw. destruct (table_write small_views v) as [s1|] eqn:E1; [|done].
  destruct (table_write small_views w) as [s2|] eqn:E2; [|done]. simplify_eq/=. exact (table_write_inj _ _ _ _ small_views_ok E1 E2).
Qed.

Definition small_build (t : TypeContract) : RegistryResult SemanticRegistry :=
  build_registry (RL := small_lib) small_snapshot [t] [cap_text_uppercase] strict_options.

Lemma small_builds : ∃ r r', small_build type_text_plain = Ok r ∧ small_build reworded_type = Ok r' ∧
  reg_snapshot_id r = reg_snapshot_id r'.
Proof.
  assert ((reg_snapshot_id <$> result_ok (small_build type_text_plain)) = Some (rs_snapshot_id small_snapshot)) as H1
    by (vm_compute; reflexivity).
  assert ((reg_snapshot_id <$> result_ok (small_build reworded_type)) = Some (rs_snapshot_id small_snapshot)) as H2
    by (vm_compute; reflexivity).
  destruct (small_build type_text_plain) as [r|] eqn:E1; [|discriminate H1].
  destruct (small_build reworded_type) as [r'|] eqn:E2; [|discriminate H2].
  exists r, r'. split; [done|]. split; [done|]. injection H1 as ->. injection H2 as ->. done.
Qed.

Lemma snapshot_identity_binding_witness : ∃ r r',
  small_build type_text_plain = Ok r ∧ small_build reworded_type = Ok r' ∧
  (identity_collision (RL := small_lib) r r' ∨
   (∀ k, option_Forall2 (λ t t', same_type t t' ∨ type_collision (RL := small_lib) t t') (reg_types r !! k) (reg_types r' !! k)) ∧
   (∀ k, option_Forall2 (λ c c', same_capability c c' ∨ capability_collision (RL := small_lib) c c')
           (reg_capabilities r !! k) (reg_capabilities r' !! k))).
Proof.
  destruct small_builds as (r & r' & H1 & H2 & Heq). exists r, r'. split; [exact H1|]. split; [exact H2|].
  refine (snapshot_identity_binding (RL := small_lib) _ _ _ _ _ _ _ _ _ _ small_jcs_injective _ _ H1 H2 Heq);
    repeat constructor.
Defined.
